(** * A shallow embedding of [humdum/index/wt.py]

    The wavelet-tree FM index of the short-read aligner: suffix-array
    construction (three strategies), Burrows-Wheeler transform, the
    cumulative table [f], the five bit vectors of the fixed wavelet tree with
    their rank buckets, and the queries [rank], [access], [get_sa] and
    [__str__].

    Python integers are [Z]; Python lists are [list]; a [str] is a
    [list ascii]; a [frozenbitarray] is a [list bool]; a dictionary is an
    association list in insertion order.  Indexing follows Python: an index
    in [[-len, 0)] counts from the end, any other index outside [[0, len)]
    raises [IndexError].  Every function that can raise returns an
    [outcome]. *)

From Stdlib Require Import String.
From Stdlib Require Import ZArith List Ascii Lia Bool Permutation.
Import Corelib.Init.Datatypes.
From Stdlib Require Import Sorting.Sorted.
From Stdlib Require FinFun.
Import ListNotations.
Open Scope Z_scope.

(* ================================================================== *)
(** * Outcomes: a value, a raised exception, or a loop cut by its fuel *)
(* ================================================================== *)

Inductive exn : Set :=
| ValueError | KeyError | IndexError | ZeroDivisionError
| TypeError | OverflowError | AttributeError.

Inductive outcome (A : Type) : Type :=
| Ok (a : A)
| Raise (e : exn)
| OutOfFuel.
Arguments Ok {A} a.
Arguments Raise {A} e.
Arguments OutOfFuel {A}.

Definition bind {A B : Type} (m : outcome A) (k : A -> outcome B) : outcome B :=
  match m with
  | Ok a => k a
  | Raise e => Raise e
  | OutOfFuel => OutOfFuel
  end.

Notation "x <- m ;; k" := (bind m (fun x => k))
  (at level 61, m at next level, right associativity).
Notation "' p <- m ;; k" := (bind m (fun x => match x with p => k end))
  (at level 61, p pattern, m at next level, right associativity).

Definition raises {A : Type} (m : outcome A) : Prop := exists e, m = Raise e.

(* ================================================================== *)
(** * Python primitives *)
(* ================================================================== *)

Module Py.

(** [len(l)] *)
Definition len {A : Type} (l : list A) : Z := Z.of_nat (length l).

(** The position a Python index designates in a sequence of length [n]. *)
Definition norm_index (n i : Z) : option nat :=
  if (0 <=? i) && (i <? n) then Some (Z.to_nat i)
  else if (- n <=? i) && (i <? 0) then Some (Z.to_nat (i + n))
  else None.

(** [l[i]] *)
Definition getitem {A : Type} (l : list A) (i : Z) : outcome A :=
  match norm_index (len l) i with
  | Some k => match nth_error l k with
              | Some x => Ok x
              | None => Raise IndexError
              end
  | None => Raise IndexError
  end.

Fixpoint update {A : Type} (k : nat) (x : A) (l : list A) : list A :=
  match l, k with
  | [], _ => []
  | _ :: l', O => x :: l'
  | y :: l', S k' => y :: update k' x l'
  end.

(** [l[i] = x] *)
Definition setitem {A : Type} (l : list A) (i : Z) (x : A) : outcome (list A) :=
  match norm_index (len l) i with
  | Some k => Ok (update k x l)
  | None => Raise IndexError
  end.

(** [range(a, b)] *)
Definition range (a b : Z) : list Z :=
  map (fun k => a + Z.of_nat k) (seq 0 (Z.to_nat (b - a))).

(** [[x] * m] *)
Definition replicate {A : Type} (x : A) (m : Z) : list A := repeat x (Z.to_nat m).

(** [int(a / b)]: true division, then truncation towards zero. *)
Definition int_div (a b : Z) : outcome Z :=
  if b =? 0 then Raise ZeroDivisionError else Ok (Z.quot a b).

(** [a % b]: the sign of the result follows the divisor, as [Z.modulo]. *)
Definition mod_ (a b : Z) : outcome Z :=
  if b =? 0 then Raise ZeroDivisionError else Ok (a mod b).

(** [int(np.log2(m))]: [np.log2(0)] is [-inf], which [int] refuses.  For
    the lengths a list can have the floating-point logarithm truncates to
    the integer logarithm. *)
Definition int_log2 (m : Z) : outcome Z :=
  if m <=? 0 then Raise OverflowError else Ok (Z.log2 m).

(** A [for] loop whose body may raise. *)
Fixpoint for_each {A S : Type} (l : list A) (s : S) (body : A -> S -> outcome S)
  : outcome S :=
  match l with
  | [] => Ok s
  | x :: l' => s' <- body x s ;; for_each l' s' body
  end.

End Py.

(** Values that the metadata table and the dictionaries mix. *)
Inductive pyval : Set :=
| PNone
| PInt (z : Z)
| PStr (c : ascii).

Definition pyval_eqb (a b : pyval) : bool :=
  match a, b with
  | PNone, PNone => true
  | PInt x, PInt y => x =? y
  | PStr c, PStr d => Ascii.eqb c d
  | _, _ => false
  end.

Definition is_str (v : pyval) : bool :=
  match v with PStr _ => true | _ => false end.

Definition is_none (v : pyval) : bool :=
  match v with PNone => true | _ => false end.

(** A list index must be an integer. *)
Definition as_int (v : pyval) : outcome Z :=
  match v with PInt z => Ok z | _ => Raise TypeError end.

(** String concatenation needs a string. *)
Definition as_str (v : pyval) : outcome ascii :=
  match v with PStr c => Ok c | _ => Raise TypeError end.

(** Dictionaries, in insertion order. *)
Module Dict.

Definition t (V : Type) : Type := list (pyval * V).

Fixpoint get {V : Type} (d : t V) (k : pyval) : outcome V :=
  match d with
  | [] => Raise KeyError
  | (k', v) :: d' => if pyval_eqb k' k then Ok v else get d' k
  end.

Fixpoint set {V : Type} (d : t V) (k : pyval) (v : V) : t V :=
  match d with
  | [] => [(k, v)]
  | (k', v') :: d' =>
      if pyval_eqb k' k then (k', v) :: d' else (k', v') :: set d' k v
  end.

Definition keys {V : Type} (d : t V) : list pyval := map fst d.

End Dict.

(** The characters of the alphabet. *)
Definition cDollar : ascii := "$"%char.
Definition cA : ascii := "A"%char.
Definition cC : ascii := "C"%char.
Definition cG : ascii := "G"%char.
Definition cN : ascii := "N"%char.
Definition cT : ascii := "T"%char.

Definition chr_eq (a b : ascii) : bool := Ascii.eqb a b.

(* ================================================================== *)
(** * Suffix-array construction *)
(* ================================================================== *)

(** A comprehension whose element expression may raise. *)
Fixpoint map_each {A B : Type} (g : A -> outcome B) (l : list A) : outcome (list B) :=
  match l with
  | [] => Ok []
  | x :: l' => y <- g x ;; ys <- map_each g l' ;; Ok (y :: ys)
  end.

(** ** Strategy [Simple]: sort the suffixes *)

(** Python compares strings by code point; a proper prefix is smaller. *)
Fixpoint str_lt (a b : list ascii) : bool :=
  match a, b with
  | _, [] => false
  | [], _ :: _ => true
  | x :: a', y :: b' =>
      if (nat_of_ascii x <? nat_of_ascii y)%nat then true
      else if (nat_of_ascii y <? nat_of_ascii x)%nat then false
      else str_lt a' b'
  end.

Fixpoint str_eqb (a b : list ascii) : bool :=
  match a, b with
  | [], [] => true
  | x :: a', y :: b' => Ascii.eqb x y && str_eqb a' b'
  | _, _ => false
  end.

(** Tuples compare by their first differing component. *)
Definition tuple_lt (p q : list ascii * Z) : bool :=
  if str_eqb (fst p) (fst q) then snd p <? snd q else str_lt (fst p) (fst q).

(** [sorted]: a stable sort that only asks [<]. *)
Fixpoint sorted_insert {A : Type} (lt : A -> A -> bool) (x : A) (l : list A) : list A :=
  match l with
  | [] => [x]
  | y :: l' => if lt x y then x :: l else y :: sorted_insert lt x l'
  end.

Definition sorted {A : Type} (lt : A -> A -> bool) (l : list A) : list A :=
  fold_left (fun acc x => sorted_insert lt x acc) l [].

Definition suffix_array_simple (reference_genome : list ascii) : list Z :=
  let n := length reference_genome in
  let suffix_array :=
    sorted tuple_lt
      (map (fun i => (skipn i reference_genome, Z.of_nat i)) (seq 0 n)) in
  let offsets := map snd suffix_array in
  offsets.

(** ** Strategy [ManberMyers]: prefix doubling over cyclic shifts *)

Module ManberMyers.

Definition sort_chars (reference_genome : list ascii) : outcome (list Z) :=
  let n := Py.len reference_genome in
  let order := Py.replicate 0 n in
  let count : Dict.t Z :=
    [(PStr cDollar, 0); (PStr cA, 0); (PStr cC, 0);
     (PStr cG, 0); (PStr cN, 0); (PStr cT, 0)] in
  count <- Py.for_each (Py.range 0 n) count (fun i count =>
    c <- Py.getitem reference_genome i ;;
    v <- Dict.get count (PStr c) ;;
    Ok (Dict.set count (PStr c) (v + 1))) ;;
  let keys := Dict.keys count in
  count <- Py.for_each (combine (Py.range 0 (Py.len keys)) keys) count
    (fun ij count =>
       let i := fst ij in
       let j := snd ij in
       if pyval_eqb j (PStr cDollar) then Ok count
       else
         v <- Dict.get count j ;;
         kprev <- Py.getitem keys (i - 1) ;;
         u <- Dict.get count kprev ;;
         Ok (Dict.set count j (v + u))) ;;
  co <- Py.for_each (rev (Py.range 0 n)) (count, order) (fun i co =>
    c <- Py.getitem reference_genome i ;;
    v <- Dict.get (fst co) (PStr c) ;;
    let count := Dict.set (fst co) (PStr c) (v - 1) in
    order <- Py.setitem (snd co) (v - 1) i ;;
    Ok (count, order)) ;;
  Ok (snd co).

Definition compute_classes (reference_genome : list ascii) (order : list Z)
  : outcome (list Z) :=
  let n := Py.len reference_genome in
  let classes := Py.replicate 0 n in
  o0 <- Py.getitem order 0 ;;
  classes <- Py.setitem classes o0 0 ;;
  Py.for_each (Py.range 1 n) classes (fun i classes =>
    oi <- Py.getitem order i ;;
    ci <- Py.getitem reference_genome oi ;;
    op <- Py.getitem order (i - 1) ;;
    cp <- Py.getitem reference_genome op ;;
    v <- Py.getitem classes op ;;
    if negb (chr_eq ci cp) then Py.setitem classes oi (v + 1)
    else Py.setitem classes oi v).

Definition sort_doubled (reference_genome : list ascii) (step : Z)
  (order classes : list Z) : outcome (list Z) :=
  let n := Py.len reference_genome in
  let count := Py.replicate 0 n in
  let new_order := Py.replicate 0 n in
  count <- Py.for_each (Py.range 0 n) count (fun i count =>
    cl <- Py.getitem classes i ;;
    v <- Py.getitem count cl ;;
    Py.setitem count cl (v + 1)) ;;
  count <- Py.for_each (Py.range 1 n) count (fun j count =>
    v <- Py.getitem count j ;;
    u <- Py.getitem count (j - 1) ;;
    Py.setitem count j (v + u)) ;;
  cn <- Py.for_each (rev (Py.range 0 n)) (count, new_order) (fun i cn =>
    oi <- Py.getitem order i ;;
    start <- Py.mod_ (oi - step + n) n ;;
    cl <- Py.getitem classes start ;;
    v <- Py.getitem (fst cn) cl ;;
    count <- Py.setitem (fst cn) cl (v - 1) ;;
    new_order <- Py.setitem (snd cn) (v - 1) start ;;
    Ok (count, new_order)) ;;
  Ok (snd cn).

Definition updated_classes (order classes : list Z) (step : Z) : outcome (list Z) :=
  let n := Py.len order in
  let new_classes := Py.replicate 0 n in
  o0 <- Py.getitem order 0 ;;
  new_classes <- Py.setitem new_classes o0 0 ;;
  Py.for_each (Py.range 1 n) new_classes (fun i new_classes =>
    cur <- Py.getitem order i ;;
    prev <- Py.getitem order (i - 1) ;;
    let mid := cur + step in
    mid_prev <- Py.mod_ (prev + step) n ;;
    ccur <- Py.getitem classes cur ;;
    cprev <- Py.getitem classes prev ;;
    differ <- (if negb (ccur =? cprev) then Ok true
               else
                 cmid <- Py.getitem classes mid ;;
                 cmidp <- Py.getitem classes mid_prev ;;
                 Ok (negb (cmid =? cmidp))) ;;
    v <- Py.getitem new_classes prev ;;
    if (differ : bool) then Py.setitem new_classes cur (v + 1)
    else Py.setitem new_classes cur v).

Fixpoint doubling_loop (fuel : nat) (reference_genome : list ascii) (n step : Z)
  (order classes : list Z) : outcome (list Z) :=
  if step <? n then
    match fuel with
    | O => OutOfFuel
    | S fuel' =>
        order <- sort_doubled reference_genome step order classes ;;
        classes <- updated_classes order classes step ;;
        doubling_loop fuel' reference_genome n (step * 2) order classes
    end
  else Ok order.

End ManberMyers.

(** The [while step < n] loop doubles [step] from 1, so it runs fewer than
    [len(reference_genome)] times: that many units of fuel never run out. *)
Definition suffix_array_manbermyers (reference_genome : list ascii) : outcome (list Z) :=
  order <- ManberMyers.sort_chars reference_genome ;;
  classes <- ManberMyers.compute_classes reference_genome order ;;
  let step := 1 in
  let n := Py.len reference_genome in
  ManberMyers.doubling_loop (length reference_genome) reference_genome n step order classes.

(** ** Strategy [KaerkkaeinenSanders]: the skew (DC3) algorithm *)

Module KS.

Definition to_int (string : list ascii) : outcome (list Z) :=
  let str_to_int : Dict.t Z :=
    [(PStr cDollar, 1); (PStr cA, 2); (PStr cC, 3);
     (PStr cG, 4); (PStr cN, 5); (PStr cT, 6)] in
  map_each (fun char => Dict.get str_to_int (PStr char)) string.

Definition leq2 (a1 a2 b1 b2 : Z) : bool :=
  (a1 <? b1) || ((a1 =? b1) && (a2 <=? b2)).

Definition leq3 (a1 a2 a3 b1 b2 b3 : Z) : bool :=
  (a1 <? b1) || ((a1 =? b1) && leq2 a2 a3 b2 b3).

Definition radix_pass (a r : list Z) (len_a len_k : Z) : outcome (list Z) :=
  let c := Py.replicate 0 (len_k + 1) in
  let b := Py.replicate 0 len_a in
  c <- Py.for_each (Py.range 0 len_a) c (fun i c =>
    ai <- Py.getitem a i ;;
    key <- Py.getitem r ai ;;
    v <- Py.getitem c key ;;
    Py.setitem c key (v + 1)) ;;
  cs <- Py.for_each (Py.range 0 (len_k + 1)) (c, 0) (fun i cs =>
    t <- Py.getitem (fst cs) i ;;
    c <- Py.setitem (fst cs) i (snd cs) ;;
    Ok (c, snd cs + t)) ;;
  bc <- Py.for_each (Py.range 0 len_a) (b, fst cs) (fun i bc =>
    ai <- Py.getitem a i ;;
    key <- Py.getitem r ai ;;
    pos <- Py.getitem (snd bc) key ;;
    b <- Py.setitem (fst bc) pos ai ;;
    c <- Py.setitem (snd bc) key (pos + 1) ;;
    Ok (b, c)) ;;
  Ok (fst bc).

(** The method takes the genome as a string on the outer call and the list
    of names on the recursive ones. *)
Inductive text : Type :=
| Chars (s : list ascii)
| Ints (s : list Z).

(** [sa12[t] * 3 + 1 if sa12[t] < n0 else (sa12[t] - n0) * 3 + 2] *)
Definition get_i (n0 x : Z) : Z :=
  if x <? n0 then x * 3 + 1 else (x - n0) * 3 + 2.

(** State of the merge: [p], [t], [k] and the output array. *)
Record merge_state : Type := MS { ms_p : Z; ms_t : Z; ms_k : Z; ms_sa : list Z }.

Fixpoint merge_loop (fuel : nat) (s s12 sa12 sa0 : list Z) (n n0 n02 : Z)
  (st : merge_state) : outcome (list Z) :=
  if ms_k st <? n then
    match fuel with
    | O => OutOfFuel
    | S fuel' =>
        let p := ms_p st in
        let t := ms_t st in
        let k := ms_k st in
        let sa := ms_sa st in
        x <- Py.getitem sa12 t ;;
        let i := get_i n0 x in
        j <- Py.getitem sa0 p ;;
        smaller <-
          (if x <? n0 then
             si <- Py.getitem s i ;;
             ri <- Py.getitem s12 (x + n0) ;;
             sj <- Py.getitem s j ;;
             rj <- Py.getitem s12 (Z.quot j 3) ;;
             Ok (leq2 si ri sj rj)
           else
             si <- Py.getitem s i ;;
             si1 <- Py.getitem s (i + 1) ;;
             ri <- Py.getitem s12 (x - n0 + 1) ;;
             sj <- Py.getitem s j ;;
             sj1 <- Py.getitem s (j + 1) ;;
             rj <- Py.getitem s12 (Z.quot j 3 + n0) ;;
             Ok (leq3 si si1 ri sj sj1 rj)) ;;
        st' <-
          (if (smaller : bool) then
             sa <- Py.setitem sa k i ;;
             let t := t + 1 in
             if t =? n02 then
               let k := k + 1 in
               ks <- Py.for_each (Py.range p n0) (k, sa) (fun p ks =>
                 v <- Py.getitem sa0 p ;;
                 sa <- Py.setitem (snd ks) (fst ks) v ;;
                 Ok (fst ks + 1, sa)) ;;
               Ok (MS (Z.max p n0) t (fst ks) (snd ks))
             else Ok (MS p t k sa)
           else
             sa <- Py.setitem sa k j ;;
             let p := p + 1 in
             if p =? n0 then
               let k := k + 1 in
               ks <- Py.for_each (Py.range t n02) (k, sa) (fun t ks =>
                 y <- Py.getitem sa12 t ;;
                 sa <- Py.setitem (snd ks) (fst ks) (get_i n0 y) ;;
                 Ok (fst ks + 1, sa)) ;;
               Ok (MS p (Z.max t n02) (fst ks) (snd ks))
             else Ok (MS p t k sa)) ;;
        merge_loop fuel' s s12 sa12 sa0 n n0 n02
          (MS (ms_p st') (ms_t st') (ms_k st' + 1) (ms_sa st'))
    end
  else Ok (ms_sa st).

(** State of the naming loop: [name], the last triple, and [s12]. *)
Record naming_state : Type :=
  NS { ns_name : Z; ns_c0 : Z; ns_c1 : Z; ns_c2 : Z; ns_s12 : list Z }.

Definition naming (s sa12 s12 : list Z) (n0 n02 : Z) : outcome naming_state :=
  Py.for_each (Py.range 0 n02) (NS 0 (-1) (-1) (-1) s12) (fun i st =>
    x <- Py.getitem sa12 i ;;
    x0 <- Py.getitem s x ;;
    x1 <- Py.getitem s (x + 1) ;;
    x2 <- Py.getitem s (x + 2) ;;
    let fresh := negb (x0 =? ns_c0 st) || negb (x1 =? ns_c1 st)
                 || negb (x2 =? ns_c2 st) in
    let st := if fresh then NS (ns_name st + 1) x0 x1 x2 (ns_s12 st) else st in
    s12 <- (if x mod 3 =? 1
            then Py.setitem (ns_s12 st) (Z.quot x 3) (ns_name st)
            else Py.setitem (ns_s12 st) (Z.quot x 3 + n0) (ns_name st)) ;;
    Ok (NS (ns_name st) (ns_c0 st) (ns_c1 st) (ns_c2 st) s12)).

Fixpoint suffix_array_kaerkkaeinensanders (fuel : nat) (reference_genome : text)
  (n k : Z) : outcome (list Z) :=
  match fuel with
  | O => OutOfFuel
  | S fuel' =>
      let sa := Py.replicate 0 n in
      s <- (match reference_genome with
            | Ints s => _ <- Py.getitem s 0 ;; Ok s
            | Chars str =>
                _ <- Py.getitem str 0 ;;
                s <- to_int str ;;
                Ok (s ++ [0; 0; 0])
            end) ;;
      let n0 := Z.quot (n + 2) 3 in
      let n1 := Z.quot (n + 1) 3 in
      let n2 := Z.quot n 3 in
      let n02 := n0 + n2 in
      let s12 := Py.replicate 0 (n02 + 3) in
      let s0 := Py.replicate 0 n0 in
      sj <- Py.for_each (Py.range 0 (n + n0 - n1)) (s12, 0) (fun i sj =>
        if negb (i mod 3 =? 0) then
          s12 <- Py.setitem (fst sj) (snd sj) i ;;
          Ok (s12, snd sj + 1)
        else Ok sj) ;;
      let s12 := fst sj in
      sa12 <- radix_pass s12 (skipn 2 s) n02 k ;;
      let sa12 := sa12 ++ [0; 0; 0] in
      s12 <- radix_pass sa12 (skipn 1 s) n02 k ;;
      let s12 := s12 ++ [0; 0; 0] in
      sa12 <- radix_pass s12 s n02 k ;;
      let sa12 := sa12 ++ [0; 0; 0] in
      st <- naming s sa12 s12 n0 n02 ;;
      let name := ns_name st in
      let s12 := ns_s12 st in
      ranked <-
        (if name <? n02 then
           sa12 <- suffix_array_kaerkkaeinensanders fuel' (Ints s12) n02 name ;;
           s12 <- Py.for_each (Py.range 0 n02) s12 (fun i s12 =>
             x <- Py.getitem sa12 i ;;
             Py.setitem s12 x (i + 1)) ;;
           Ok (sa12, s12)
         else
           sa12 <- Py.for_each (Py.range 0 n02) sa12 (fun i sa12 =>
             x <- Py.getitem s12 i ;;
             Py.setitem sa12 (x - 1) i) ;;
           Ok (sa12, s12)) ;;
      let sa12 := fst ranked in
      let s12 := snd ranked in
      sj <- Py.for_each (Py.range 0 n02) (s0, 0) (fun i sj =>
        x <- Py.getitem sa12 i ;;
        if x <? n0 then
          s0 <- Py.setitem (fst sj) (snd sj) (3 * x) ;;
          Ok (s0, snd sj + 1)
        else Ok sj) ;;
      let s0 := fst sj in
      sa0 <- radix_pass s0 s n0 k ;;
      let p := 0 in
      let t := n0 - n1 in
      let k := 0 in
      merge_loop (Z.to_nat n) s s12 sa12 sa0 n n0 n02 (MS p t k sa)
  end.

End KS.

(* ================================================================== *)
(** * The index object *)
(* ================================================================== *)

(** [humdum.utils.minidict] is not part of the module: the class wraps the
    dictionary it is given and is only read here ([keys()] and lookup), so
    it is taken to be that dictionary. *)
Definition minidict {V : Type} (d : Dict.t V) : Dict.t V := d.

Definition next_chars : Dict.t pyval :=
  minidict [(PStr cDollar, PStr cA); (PStr cA, PStr cC); (PStr cC, PStr cG);
            (PStr cG, PStr cN); (PStr cN, PStr cT); (PStr cT, PNone)].

(** Structure [[Parent, Me, Left_child, Right_Child]]. *)
Definition meta : list (list pyval) :=
  [[PNone; PInt 0; PInt 1; PInt 2];
   [PInt 0; PInt 1; PStr cN; PStr cA];
   [PInt 0; PInt 2; PInt 3; PInt 4];
   [PInt 2; PInt 3; PStr cC; PStr cG];
   [PInt 2; PInt 4; PStr cT; PStr cDollar];
   [PInt 1; PStr cN; PNone; PNone];
   [PInt 1; PStr cA; PNone; PNone];
   [PInt 1; PStr cC; PNone; PNone];
   [PInt 1; PStr cG; PNone; PNone];
   [PInt 1; PStr cT; PNone; PNone];
   [PInt 1; PStr cDollar; PNone; PNone]].

(** 0 = left, 1 = right *)
Definition codes : Dict.t (list bool) :=
  minidict [(PStr cN, [false; false]); (PStr cA, [false; true]);
            (PStr cC, [true; false; false]); (PStr cG, [true; false; true]);
            (PStr cT, [true; true; false]); (PStr cDollar, [true; true; true])].

Record WaveletTree : Type := {
  compression_sa : Z;
  bucket_step_sa : Z;
  sa : list Z;
  bitvector : option (list bool);
  bucket_sa : option (list Z);
  f : Dict.t Z;
  bits : list (list bool);
  bucket_bits : list (list Z);
  bucket_step_bits : list Z;
  n : Z
}.

(** ** [get_bwt] *)

(** [suffix_array or self.sa]: during construction [self.sa] does not exist
    yet, so an empty suffix array raises [AttributeError]. *)
Definition get_bwt (reference_genome : list ascii) (suffix_array : list Z)
  : outcome (list ascii) :=
  match suffix_array with
  | [] => Raise AttributeError
  | _ =>
      map_each (fun w =>
        if w =? 0 then Ok cDollar else Py.getitem reference_genome (w - 1))
        suffix_array
  end.

(** ** [suffix_array]: strategy dispatch and sampling *)

Record sampling_state : Type :=
  SS { ss_compressed : list Z; ss_bucket : list Z; ss_bits : list bool; ss_rank : Z }.

Definition sample_loop (bucket_step_sa compression : Z) (suffix_array : list Z)
  (st : sampling_state) : outcome sampling_state :=
  Py.for_each (combine (Py.range 0 (Py.len suffix_array)) suffix_array) st
    (fun indexnum st =>
       let index := fst indexnum in
       let num := snd indexnum in
       r <- Py.mod_ num compression ;;
       let st :=
         if r =? 0
         then SS (ss_compressed st ++ [num]) (ss_bucket st)
                 (ss_bits st ++ [true]) (ss_rank st + 1)
         else SS (ss_compressed st) (ss_bucket st)
                 (ss_bits st ++ [false]) (ss_rank st) in
       if 0 <? index then
         m <- Py.mod_ index bucket_step_sa ;;
         if m =? 0
         then Ok (SS (ss_compressed st) (ss_bucket st ++ [ss_rank st])
                     (ss_bits st) (ss_rank st))
         else Ok st
       else Ok st).

Definition suffix_array (self_compression_sa self_bucket_step_sa : Z)
  (reference_genome : list ascii) (strategy : String.string) (compression : Z)
  : outcome (list Z * option (list bool) * option (list Z) * list ascii) :=
  suffix_array <-
    (if String.eqb strategy "Simple"%string then Ok (suffix_array_simple reference_genome)
     else if String.eqb strategy "ManberMyers"%string
          then suffix_array_manbermyers reference_genome
          else KS.suffix_array_kaerkkaeinensanders
                 (S (length reference_genome)) (KS.Chars reference_genome)
                 (Py.len reference_genome) 6) ;;
  code <- get_bwt reference_genome suffix_array ;;
  if self_compression_sa =? 1 then Ok (suffix_array, None, None, code)
  else
    sa0 <- Py.getitem suffix_array 0 ;;
    r0 <- Py.mod_ sa0 compression ;;
    st <- sample_loop self_bucket_step_sa compression suffix_array
            (SS [] [Z.b2z (r0 =? 0)] [] 0) ;;
    Ok (ss_compressed st, Some (ss_bits st), Some (ss_bucket st), code).

(** ** [_shifts_f] *)

Definition _shifts_f (reference_genome : list ascii) : outcome (Dict.t Z) :=
  let shifts : Dict.t Z := map (fun k => (k, 0)) (Dict.keys next_chars) in
  shifts <- Py.for_each (Py.range 0 (Py.len reference_genome)) shifts
    (fun i shifts =>
       c <- Py.getitem reference_genome i ;;
       v <- Dict.get shifts (PStr c) ;;
       Ok (Dict.set shifts (PStr c) (v + 1))) ;;
  count_a <- Dict.get shifts (PStr cDollar) ;;
  sA <- Dict.get shifts (PStr cA) ;;
  let count_c := count_a + sA in
  sC <- Dict.get shifts (PStr cC) ;;
  let count_g := count_c + sC in
  sG <- Dict.get shifts (PStr cG) ;;
  let count_n := count_g + sG in
  sN <- Dict.get shifts (PStr cN) ;;
  let count_t := count_n + sN in
  let shifts := Dict.set shifts (PStr cDollar) 0 in
  let shifts := Dict.set shifts (PStr cA) count_a in
  let shifts := Dict.set shifts (PStr cC) count_c in
  let shifts := Dict.set shifts (PStr cG) count_g in
  let shifts := Dict.set shifts (PStr cN) count_n in
  let shifts := Dict.set shifts (PStr cT) count_t in
  let shifts := Dict.set shifts PNone (Py.len reference_genome) in
  Ok shifts.

(** ** [create_bit_vecs] *)

(** The bucket loop shared by the five nodes:
    [rank += num; if index > 0 and index % step == 0: bucket.append(rank)]. *)
Fixpoint bucket_loop (step : Z) (bit_vec : list bool) (index rank : Z)
  (bucket : list Z) : outcome (list Z) :=
  match bit_vec with
  | [] => Ok bucket
  | num :: rest =>
      let rank := rank + Z.b2z num in
      if 0 <? index then
        m <- Py.mod_ index step ;;
        if m =? 0 then bucket_loop step rest (index + 1) rank (bucket ++ [rank])
        else bucket_loop step rest (index + 1) rank bucket
      else bucket_loop step rest (index + 1) rank bucket
  end.

(** The root: the stride is [int(np.log2(len(bit_vec0)))], unguarded. *)
Definition root_bucket (bit_vec0 : list bool) : outcome (list Z * Z) :=
  bucket0_step <- Py.int_log2 (Py.len bit_vec0) ;;
  b <- Py.getitem bit_vec0 0 ;;
  bucket0 <- bucket_loop bucket0_step bit_vec0 0 0 [Z.b2z b] ;;
  Ok (bucket0, bucket0_step).

(** Nodes 1 to 4: guarded by [len(bit_vec) > 0], stride
    [int(max(np.log2(len(bit_vec)), 1))]. *)
Definition node_bucket (bit_vec : list bool) : outcome (list Z * Z) :=
  if 0 <? Py.len bit_vec then
    let bucket_step := Z.max (Z.log2 (Py.len bit_vec)) 1 in
    b <- Py.getitem bit_vec 0 ;;
    bucket <- bucket_loop bucket_step bit_vec 0 0 [Z.b2z b] ;;
    Ok (bucket, bucket_step)
  else Ok ([], 0).

Definition create_bit_vecs (lbwt : list ascii)
  : outcome (list (list bool) * list (list Z) * list Z) :=
  let bit_vec0 :=
    map (fun char => if chr_eq char cN || chr_eq char cA then false else true) lbwt in
  '(bucket0, bucket0_step) <- root_bucket bit_vec0 ;;
  let rbwt := filter (fun char => negb (chr_eq char cN) && negb (chr_eq char cA)) lbwt in
  let lbwt := filter (fun char => chr_eq char cN || chr_eq char cA) lbwt in
  let bit_vec1 := map (fun char => if chr_eq char cN then false else true) lbwt in
  let bit_vec2 :=
    map (fun char => if chr_eq char cC || chr_eq char cG then false else true) rbwt in
  '(bucket1, bucket1_step) <- node_bucket bit_vec1 ;;
  '(bucket2, bucket2_step) <- node_bucket bit_vec2 ;;
  let lbwt := filter (fun char => chr_eq char cC || chr_eq char cG) rbwt in
  let rbwt := filter (fun char => chr_eq char cT || chr_eq char cDollar) rbwt in
  let bit_vec3 := map (fun char => if chr_eq char cC then false else true) lbwt in
  let bit_vec4 := map (fun char => if chr_eq char cT then false else true) rbwt in
  '(bucket3, bucket3_step) <- node_bucket bit_vec3 ;;
  '(bucket4, bucket4_step) <- node_bucket bit_vec4 ;;
  Ok ([bit_vec0; bit_vec1; bit_vec2; bit_vec3; bit_vec4],
      [bucket0; bucket1; bucket2; bucket3; bucket4],
      [bucket0_step; bucket1_step; bucket2_step; bucket3_step; bucket4_step]).

(** ** Queries *)

(** [rank_bit_node]: the rank of the bit at [index] among the bits
    [[0, index]] of the node. *)
Definition rank_bit_node (self : WaveletTree) (index node : Z) : outcome Z :=
  let rank := 0 in
  step <- Py.getitem (bucket_step_bits self) node ;;
  bucket_index <- Py.int_div index step ;;
  node_bits <- Py.getitem (bits self) node ;;
  rank <- Py.for_each (Py.range (bucket_index * step + 1) (index + 1)) rank
    (fun i rank => b <- Py.getitem node_bits i ;; Ok (rank + Z.b2z b)) ;;
  node_bucket <- Py.getitem (bucket_bits self) node ;;
  base <- Py.getitem node_bucket bucket_index ;;
  let rank := rank + base in
  b <- Py.getitem node_bits index ;;
  if (b : bool) then Ok rank else Ok (index + 1 - rank).

(** The body of [for code in codes] in [rank], with its early [return 0]. *)
Fixpoint rank_loop (self : WaveletTree) (codes : list bool) (curr_node : pyval)
  (curr_index rank : Z) : outcome Z :=
  match codes with
  | [] => Ok rank
  | code :: codes' =>
      node <- as_int curr_node ;;
      rank <- rank_bit_node self curr_index node ;;
      node_bits <- Py.getitem (bits self) node ;;
      b <- Py.getitem node_bits curr_index ;;
      let rank := if negb (Bool.eqb b code) then curr_index - rank + 1 else rank in
      if rank =? 0 then Ok 0
      else
        let curr_index := rank - 1 in
        row <- Py.getitem meta node ;;
        curr_node <- Py.getitem row (2 + Z.b2z code) ;;
        rank_loop self codes' curr_node curr_index rank
  end.

(** [rank]: the rank of [char] up to [index]. *)
Definition rank (self : WaveletTree) (char : pyval) (index : Z) : outcome Z :=
  codes <- Dict.get codes char ;;
  let curr_node := PInt 0 in
  let curr_index := index in
  let rank := 0 in
  rank_loop self codes curr_node curr_index rank.

(** The [while type(self.meta[curr_node][2]) is not str] loop of [access]. *)
Fixpoint access_loop (fuel : nat) (self : WaveletTree) (curr_node curr_index : Z)
  (bit : bool) : outcome pyval :=
  row <- Py.getitem meta curr_node ;;
  left <- Py.getitem row 2 ;;
  if negb (is_str left) then
    match fuel with
    | O => OutOfFuel
    | S fuel' =>
        let par_node := curr_node in
        child <- Py.getitem row (2 + Z.b2z bit) ;;
        r <- rank_bit_node self curr_index par_node ;;
        let curr_index := r - 1 in
        curr_node <- as_int child ;;
        node_bits <- Py.getitem (bits self) curr_node ;;
        bit <- Py.getitem node_bits curr_index ;;
        access_loop fuel' self curr_node curr_index bit
    end
  else Py.getitem row (2 + Z.b2z bit).

(** [access]: the character of the transform at [index].  Every turn of
    the loop moves to a child row of the metadata table, which has
    [length meta] rows. *)
Definition access (self : WaveletTree) (index : Z) (node : Z) : outcome pyval :=
  let curr_node := node in
  row <- Py.getitem meta curr_node ;;
  left <- Py.getitem row 2 ;;
  if is_none left then Py.getitem row 1
  else if is_str left then Ok left
  else
    node_bits <- Py.getitem (bits self) curr_node ;;
    bit <- Py.getitem node_bits index ;;
    let curr_index := index in
    access_loop (length meta) self curr_node curr_index bit.

(** [rank_bit]: the rank of the sampling bit vector up to [index]. *)
Definition rank_bit (self : WaveletTree) (index : Z) : outcome Z :=
  if compression_sa self =? 0 then Ok (index + 1)
  else
    let rank := 0 in
    bucket_index <- Py.int_div index (bucket_step_sa self) ;;
    rank <- Py.for_each
      (Py.range (bucket_index * bucket_step_sa self + 1) (index + 1)) rank
      (fun i rank =>
         bv <- (match bitvector self with
                | Some bv => Ok bv | None => Raise TypeError end) ;;
         b <- Py.getitem bv i ;;
         Ok (rank + Z.b2z b)) ;;
    bucket <- (match bucket_sa self with
               | Some bucket => Ok bucket | None => Raise TypeError end) ;;
    base <- Py.getitem bucket bucket_index ;;
    Ok (base + rank).

(** [self.bitvector[i]] *)
Definition bitvector_at (self : WaveletTree) (i : Z) : outcome bool :=
  match bitvector self with
  | Some bv => Py.getitem bv i
  | None => Raise TypeError
  end.

(** The LF walk of [get_sa]: the loop returns the sampled row it stops at
    and the number of steps it took. *)
Fixpoint lf_walk (fuel : nat) (self : WaveletTree) (next_char : pyval)
  (next_row counter : Z) : outcome (Z * Z) :=
  b <- bitvector_at self next_row ;;
  if negb (b : bool) then
    match fuel with
    | O => OutOfFuel
    | S fuel' =>
        rank <- rank self next_char next_row ;;
        skip <- Dict.get (f self) next_char ;;
        let next_row := rank + skip - 1 in
        next_char <- access self next_row 0 ;;
        lf_walk fuel' self next_char next_row (counter + 1)
    end
  else Ok (next_row, counter).

(** [get_sa]: the entry of the suffix array at [index]. *)
Definition get_sa (fuel : nat) (self : WaveletTree) (index : Z) : outcome Z :=
  if compression_sa self =? 1 then Py.getitem (sa self) index
  else
    b <- bitvector_at self index ;;
    if (b : bool) then
      r <- rank_bit self index ;;
      Py.getitem (sa self) (r - 1)
    else
      next_char <- access self index 0 ;;
      let next_row := index in
      let counter := 0 in
      '(next_row, counter) <- lf_walk fuel self next_char next_row counter ;;
      r <- rank_bit self next_row ;;
      v <- Py.getitem (sa self) (r - 1) ;;
      Ok (v + counter).

(** [__len__] *)
Definition __len__ (self : WaveletTree) : Z := n self - 1.

(** [__str__]: the original string. *)
Definition __str__ (self : WaveletTree) : outcome (list ascii) :=
  let n := n self - 1 in
  next_char <- access self 0 0 ;;
  let next_row := 0 in
  c <- as_str next_char ;;
  let original := [c] in
  st <- Py.for_each (Py.range 0 (n - 1)) (next_char, next_row, original)
    (fun _ st =>
       let '(next_char, next_row, original) := st in
       rank <- rank self next_char next_row ;;
       skip <- Dict.get (f self) next_char ;;
       let next_row := rank + skip - 1 in
       next_char <- access self next_row 0 ;;
       c <- as_str next_char ;;
       Ok (next_char, next_row, c :: original)) ;;
  Ok (snd st).

(** ** [__init__] *)

Definition __init__ (reference_genome : list ascii) (strategy : String.string)
  (compression_sa : Z) : outcome WaveletTree :=
  if negb (String.eqb strategy "KaerkkaeinenSanders"%string
           || String.eqb strategy "ManberMyers"%string
           || String.eqb strategy "Simple"%string)
  then Raise ValueError
  else if Py.len reference_genome <? 1 then Raise ValueError
  else if compression_sa <? 1 then Raise ValueError
  else
    last <- Py.getitem reference_genome (-1) ;;
    let reference_genome :=
      if negb (chr_eq last cDollar) then reference_genome ++ [cDollar]
      else reference_genome in
    bucket_step_sa <- Py.int_log2 (Py.len reference_genome) ;;
    '(sa, bitvector, bucket_sa, bwt) <-
      suffix_array compression_sa bucket_step_sa reference_genome strategy
        compression_sa ;;
    f <- _shifts_f reference_genome ;;
    '(bits, bucket_bits, bucket_step_bits) <- create_bit_vecs bwt ;;
    Ok {| compression_sa := compression_sa;
          bucket_step_sa := bucket_step_sa;
          sa := sa;
          bitvector := bitvector;
          bucket_sa := bucket_sa;
          f := f;
          bits := bits;
          bucket_bits := bucket_bits;
          bucket_step_bits := bucket_step_bits;
          n := Py.len reference_genome |}.

(* ================================================================== *)
(** * Specification-level notions *)
(* ================================================================== *)

(** The six symbols, and the five of a genome. *)
Definition alphabet : list ascii := [cDollar; cA; cC; cG; cN; cT].

Definition in_alphabet (c : ascii) : bool :=
  existsb (chr_eq c) alphabet.

Definition is_dna (c : ascii) : bool :=
  existsb (chr_eq c) [cA; cC; cG; cN; cT].

(** A valid reference: a non-empty genome over [{A, C, G, N, T}], with or
    without the sentinel behind it. *)
Definition valid_reference (reference_genome : list ascii) : Prop :=
  exists genome,
    genome <> [] /\ forallb is_dna genome = true /\
    (reference_genome = genome \/ reference_genome = genome ++ [cDollar]).

(** The genome of a valid reference: the reference without its sentinel. *)
Definition genome_of (reference_genome : list ascii) : list ascii :=
  filter is_dna reference_genome.

(** The sentinel-terminated text that the constructor works on. *)
Definition terminated (reference_genome : list ascii) : list ascii :=
  genome_of reference_genome ++ [cDollar].

(** Number of ones of a bit vector, and among its first [k] bits. *)
Definition ones (bv : list bool) : Z :=
  fold_right (fun b acc => Z.b2z b + acc) 0 bv.

Definition prefix_ones (bv : list bool) (k : Z) : Z :=
  ones (firstn (Z.to_nat k) bv).

(** The naive count of [c] in [l[0..i]], bounds included. *)
Definition count_upto (c : ascii) (l : list ascii) (i : Z) : Z :=
  Py.len (filter (chr_eq c) (firstn (Z.to_nat (i + 1)) l)).

(** The symbol sequences routed through the five nodes of the tree. *)
Definition routed (node : nat) (bwt : list ascii) : list ascii :=
  let right := filter (fun ch => negb (chr_eq ch cN) && negb (chr_eq ch cA)) bwt in
  match node with
  | 0%nat => bwt
  | 1%nat => filter (fun ch => chr_eq ch cN || chr_eq ch cA) bwt
  | 2%nat => right
  | 3%nat => filter (fun ch => chr_eq ch cC || chr_eq ch cG) right
  | _ => filter (fun ch => chr_eq ch cT || chr_eq ch cDollar) right
  end.

(** The bit a node records for a symbol. *)
Definition node_bit (node : nat) (ch : ascii) : bool :=
  match node with
  | 0%nat => negb (chr_eq ch cN || chr_eq ch cA)
  | 1%nat => negb (chr_eq ch cN)
  | 2%nat => negb (chr_eq ch cC || chr_eq ch cG)
  | 3%nat => negb (chr_eq ch cC)
  | _ => negb (chr_eq ch cT)
  end.

(** The children of the two branching nodes. *)
Definition child_of (node : nat) (code : bool) : nat :=
  match node, code with
  | 0%nat, false => 1%nat
  | 0%nat, true => 2%nat
  | _, false => 3%nat
  | _, true => 4%nat
  end.

(** [self.meta[node][2 + code]] *)
Definition meta_entry (node : Z) (code : bool) : outcome pyval :=
  row <- Py.getitem meta node ;; Py.getitem row (2 + Z.b2z code).

(** The symbols of a prefix [P] of the sequence of [node] that follow the
    path [codes] from there. *)
Fixpoint path_filter (node : nat) (codes : list bool) (P : list ascii) : list ascii :=
  match codes with
  | [] => P
  | code :: codes' =>
      path_filter (child_of node code) codes'
        (filter (fun x => Bool.eqb (node_bit node x) code) P)
  end.

(** [codes] is a path of the metadata table from the branching or
    leaf-parent node [node] down to a leaf. *)
Fixpoint descends (node : nat) (codes : list bool) : bool :=
  match codes with
  | [] => false
  | code :: codes' =>
      match codes' with
      | [] => (node <? 5)%nat &&
              match meta_entry (Z.of_nat node) code with Ok _ => true | _ => false end
      | _ => ((node =? 0)%nat || (node =? 2)%nat) &&
             match meta_entry (Z.of_nat node) code with
             | Ok (PInt z) => z =? Z.of_nat (child_of node code)
             | _ => false
             end && descends (child_of node code) codes'
      end
  end.

(** Occurrences of a symbol in a string. *)
Definition count (c : ascii) (l : list ascii) : Z := Py.len (filter (chr_eq c) l).

(** A dictionary over the six symbols, in the order of [next_chars]. *)
Definition dict6 (z0 z1 z2 z3 z4 z5 : Z) : Dict.t Z :=
  [(PStr cDollar, z0); (PStr cA, z1); (PStr cC, z2);
   (PStr cG, z3); (PStr cN, z4); (PStr cT, z5)].

(** The cumulative table of a text: for each symbol, the number of
    symbols of the text that are smaller; under [None], its length. *)
Definition c_table (text : list ascii) : Dict.t Z :=
  dict6 0
        (count cDollar text)
        (count cDollar text + count cA text)
        (count cDollar text + count cA text + count cC text)
        (count cDollar text + count cA text + count cC text + count cG text)
        (count cDollar text + count cA text + count cC text + count cG text
         + count cN text)
  ++ [(PNone, Py.len text)].

(** The text the constructor indexes: the reference, with the sentinel
    appended when its last symbol is not the sentinel. *)
Definition with_sentinel (reference_genome : list ascii) : list ascii :=
  match Py.getitem reference_genome (-1) with
  | Ok last =>
      if negb (chr_eq last cDollar) then reference_genome ++ [cDollar]
      else reference_genome
  | _ => reference_genome
  end.

(** The counting loop shared by [_shifts_f] and [sort_chars]. *)
Definition count_body (c : ascii) (d : Dict.t Z) : outcome (Dict.t Z) :=
  v <- Dict.get d (PStr c) ;; Ok (Dict.set d (PStr c) (v + 1)).

(** The suffix array that a strategy computes for a text. *)
Definition build_sa (strategy : String.string) (text : list ascii) : outcome (list Z) :=
  if String.eqb strategy "Simple"%string then Ok (suffix_array_simple text)
  else if String.eqb strategy "ManberMyers"%string
       then suffix_array_manbermyers text
       else KS.suffix_array_kaerkkaeinensanders
              (S (length text)) (KS.Chars text) (Py.len text) 6.

(** The transform that the constructor computes with a strategy. *)
Definition bwt_of (strategy : String.string) (text : list ascii) : outcome (list ascii) :=
  full <- build_sa strategy text ;; get_bwt text full.

(** The suffix of [text] that starts at position [p]. *)
Definition suf (text : list ascii) (p : nat) : list ascii := skipn p text.

(** [san] lists positions in increasing order of their suffixes. *)
Definition suffix_sorted (text : list ascii) (san : list nat) : Prop :=
  StronglySorted (fun p q => str_lt (suf text p) (suf text q) = true) san.

(** [full] is the suffix array of [text]: the permutation of [[0, n)] that
    lists the suffix start positions in increasing lexicographic order. *)
Definition is_suffix_array (text : list ascii) (full : list Z) : Prop :=
  exists san,
    full = map Z.of_nat san /\
    Permutation san (seq 0 (length text)) /\
    suffix_sorted text san.

(** The position before [p] in a text of length [m], cyclically. *)
Definition prev (m p : nat) : nat := if (p =? 0)%nat then (m - 1)%nat else (p - 1)%nat.

(** The symbol of the transform on the row of the suffix that starts at
    [p]: the symbol before it in the text, cyclically. *)
Definition bwt_sym (text : list ascii) (p : nat) : ascii :=
  nth (prev (length text) p) text cA.

(** The number of symbols of [text] that are smaller than [c]. *)
Definition smaller (c : ascii) (text : list ascii) : nat :=
  length (filter (fun x => (nat_of_ascii x <? nat_of_ascii c)%nat) text).

(** A sentinel-terminated text: symbols of a genome, then one sentinel. *)
Definition sentinel_terminated (text : list ascii) : Prop :=
  exists genome, text = genome ++ [cDollar] /\ forallb is_dna genome = true.

(** The suffix-array values that the sampling keeps: the multiples of the
    compression factor. *)
Definition sampled (compression num : Z) : bool := num mod compression =? 0.

(** The strategy's builder returns the suffix array of [text] whenever it
    returns. *)
Definition builds_suffix_array (strategy : String.string) (text : list ascii) : Prop :=
  forall full, build_sa strategy text = Ok full -> is_suffix_array text full.

(** Counting sort, abstractly: among the items [0 .. n) with keys [K],
    the number of items whose key is below [k], the number whose key is
    [k], and the number of items before [i] with the key of [i]. *)
Definition key_less (K : nat -> nat) (n k : nat) : nat :=
  length (filter (fun j => (K j <? k)%nat) (seq 0 n)).

Definition key_count (K : nat -> nat) (n k : nat) : nat :=
  length (filter (fun j => (K j =? k)%nat) (seq 0 n)).

(** The place of item [i] in the stable order by key. *)
Definition stable_pos (K : nat -> nat) (n i : nat) : nat :=
  (key_less K n (K i) + key_count K i (K i))%nat.

(** The stable order by key: by key, then by index. *)
Definition stable_lt (K : nat -> nat) (i j : nat) : Prop :=
  (K i < K j)%nat \/ (K i = K j /\ (i < j)%nat).

(** The name of the [i]-th item of a list: the number of places before it
    where two neighbours differ. *)
Definition name_at {A : Type} (same : A -> A -> bool) (l : list A) (d : A) (i : nat) : nat :=
  length (filter (fun x => negb (same (nth x l d) (nth (S x) l d))) (seq 0 i)).

(** The [L] symbols of [text] from position [p] on, cyclically. *)
Definition cyc (text : list ascii) (p L : nat) : list ascii :=
  map (fun k => nth ((p + k) mod length text) text cA) (seq 0 L).

(** The dictionary over the six symbols that holds [F c] under [c]. *)
Definition dict_of (F : ascii -> Z) : Dict.t Z :=
  dict6 (F cDollar) (F cA) (F cC) (F cG) (F cN) (F cT).

(** The sorting key of a position: the code of its symbol. *)
Definition char_key (text : list ascii) (i : nat) : nat := nat_of_ascii (nth i text cA).

(** The state of the doubling loop of Manber-Myers at window length [L]:
    [order] lists the positions by their windows, and [classes] numbers
    the windows in increasing order. *)
Definition mm_inv (text : list ascii) (L : nat) (order classes : list Z) : Prop :=
  exists ord,
    order = map Z.of_nat ord /\
    Permutation ord (seq 0 (length text)) /\
    length classes = length text /\
    (forall p, (p < length text)%nat -> 0 <= nth p classes 0 < Z.of_nat (length text)) /\
    (forall p q, (p < length text)%nat -> (q < length text)%nat ->
       (nth p classes 0 < nth q classes 0
        <-> str_lt (cyc text p L) (cyc text q L) = true)) /\
    (forall i j, (i <= j)%nat -> (j < length text)%nat ->
       nth (nth i ord 0%nat) classes 0 <= nth (nth j ord 0%nat) classes 0).

(** The code that [to_int] gives a symbol. *)
Definition ks_code (c : ascii) : Z :=
  if chr_eq c cDollar then 1 else if chr_eq c cA then 2 else if chr_eq c cC then 3
  else if chr_eq c cG then 4 else if chr_eq c cN then 5 else 6.

(** The text of Kaerkkaeinen-Sanders read by position: the list of codes
    or names, and 0 wherever the list has no entry. *)
Definition zstr (s : list Z) (i : nat) : Z := nth i s 0.

(** The order of two suffixes of a text read by position: they agree on
    the first [d] places and the first is smaller at the next one. *)
Definition suf_lt (w : nat -> Z) (p q : nat) : Prop :=
  exists d, (forall e, (e < d)%nat -> w (p + e)%nat = w (q + e)%nat) /\
            w (p + d)%nat < w (q + d)%nat.

(** The triples [(s[p], s[p + 1], s[p + 2])]: equal, and in lexicographic
    order. *)
Definition tri_eq (w : nat -> Z) (p q : nat) : Prop :=
  w p = w q /\ w (p + 1)%nat = w (q + 1)%nat /\ w (p + 2)%nat = w (q + 2)%nat.

Definition tri_lt (w : nat -> Z) (p q : nat) : Prop :=
  w p < w q \/
  (w p = w q /\
   (w (p + 1)%nat < w (q + 1)%nat \/
    (w (p + 1)%nat = w (q + 1)%nat /\ w (p + 2)%nat < w (q + 2)%nat))).

Definition tri_same (w : nat -> Z) (p q : nat) : bool :=
  (w p =? w q) && (w (p + 1)%nat =? w (q + 1)%nat) && (w (p + 2)%nat =? w (q + 2)%nat).

(** The position in the text of entry [a] of the reduced text, and the
    entry of a position [p] that is no multiple of 3. *)
Definition ks_pos (n0 a : nat) : nat :=
  if (a <? n0)%nat then (3 * a + 1)%nat else (3 * (a - n0) + 2)%nat.

Definition ks_idx (n0 p : nat) : nat :=
  if (p mod 3 =? 1)%nat then (p / 3)%nat else (p / 3 + n0)%nat.

(** What Kaerkkaeinen-Sanders expects of its list: [n] entries between 1
    and [k], followed by three zeros. *)
Definition ks_text (s : list Z) (n : nat) (k : Z) : Prop :=
  length s = (n + 3)%nat /\
  (forall i, (i < n)%nat -> 1 <= nth i s 0 <= k) /\
  (forall i, (n <= i)%nat -> nth i s 0 = 0).
(** What a rank bucket over [bv] with stride [step] must hold. *)
Definition bucket_ok (step : Z) (bv : list bool) (bucket : list Z) : Prop :=
  forall j, 0 <= j -> j * step < Py.len bv ->
    Py.getitem bucket j = Ok (prefix_ones bv (j * step + 1)).

(** The tree of an index encodes [bwt]. *)
Definition encodes (self : WaveletTree) (bwt : list ascii) : Prop :=
  forall node, (node < 5)%nat ->
    exists step bucket,
      Py.getitem (bits self) (Z.of_nat node) = Ok (map (node_bit node) (routed node bwt)) /\
      Py.getitem (bucket_step_bits self) (Z.of_nat node) = Ok step /\
      Py.getitem (bucket_bits self) (Z.of_nat node) = Ok bucket /\
      (routed node bwt <> [] -> 1 <= step /\
         bucket_ok step (map (node_bit node) (routed node bwt)) bucket).

(* ================================================================== *)
(** * Basic facts about the primitives *)
(* ================================================================== *)

#[global] Arguments Py.len : simpl never.

Lemma len_nonneg {A : Type} (l : list A) : 0 <= Py.len l.
Proof. unfold Py.len. lia. Qed.

Lemma len_app {A : Type} (l1 l2 : list A) : Py.len (l1 ++ l2) = Py.len l1 + Py.len l2.
Proof. unfold Py.len. rewrite length_app. lia. Qed.

Lemma len_map {A B : Type} (g : A -> B) (l : list A) : Py.len (map g l) = Py.len l.
Proof. unfold Py.len. now rewrite length_map. Qed.

Lemma len_cons {A : Type} (x : A) (l : list A) : Py.len (x :: l) = 1 + Py.len l.
Proof. unfold Py.len. simpl length. lia. Qed.

Lemma len_nil_iff {A : Type} (l : list A) : Py.len l = 0 <-> l = [].
Proof.
  unfold Py.len. destruct l; simpl; split; intros H; try reflexivity;
    try discriminate; lia.
Qed.

Lemma norm_index_in (n i : Z) :
  0 <= i < n -> Py.norm_index n i = Some (Z.to_nat i).
Proof.
  intros H. unfold Py.norm_index.
  replace (0 <=? i) with true by (symmetry; apply Z.leb_le; lia).
  replace (i <? n) with true by (symmetry; apply Z.ltb_lt; lia).
  reflexivity.
Qed.

Lemma norm_index_high (n i : Z) : 0 <= n <= i -> Py.norm_index n i = None.
Proof.
  intros H. unfold Py.norm_index.
  replace (i <? n) with false by (symmetry; apply Z.ltb_ge; lia).
  replace (i <? 0) with false by (symmetry; apply Z.ltb_ge; lia).
  now rewrite !andb_false_r.
Qed.

Lemma getitem_nth {A : Type} (l : list A) (i : Z) (d : A) :
  0 <= i < Py.len l -> Py.getitem l i = Ok (nth (Z.to_nat i) l d).
Proof.
  intros H. unfold Py.getitem. rewrite norm_index_in by exact H.
  destruct (nth_error l (Z.to_nat i)) eqn:E.
  - now rewrite (nth_error_nth _ _ d E).
  - apply nth_error_None in E. unfold Py.len in H. lia.
Qed.

Lemma getitem_high {A : Type} (l : list A) (i : Z) :
  Py.len l <= i -> Py.getitem l i = Raise IndexError.
Proof.
  intros H. unfold Py.getitem. rewrite norm_index_high; [reflexivity|].
  pose proof (len_nonneg l). lia.
Qed.

Lemma getitem_no_fuel {A : Type} (l : list A) (i : Z) : Py.getitem l i <> OutOfFuel.
Proof.
  unfold Py.getitem. destruct (Py.norm_index _ _); [|discriminate].
  destruct (nth_error _ _); discriminate.
Qed.

Lemma getitem_In {A : Type} (l : list A) (i : Z) (x : A) :
  Py.getitem l i = Ok x -> In x l.
Proof.
  unfold Py.getitem. destruct (Py.norm_index _ _) as [k|]; [|discriminate].
  destruct (nth_error l k) eqn:E; [|discriminate].
  intros [= <-]. eapply nth_error_In; eauto.
Qed.

Lemma getitem_map {A B : Type} (g : A -> B) (l : list A) (i : Z) (x : A) :
  Py.getitem l i = Ok x -> Py.getitem (map g l) i = Ok (g x).
Proof.
  unfold Py.getitem. rewrite len_map.
  destruct (Py.norm_index _ _) as [k|]; [|discriminate].
  rewrite nth_error_map. destruct (nth_error l k); [|discriminate].
  now intros [= <-].
Qed.

Lemma getitem_Ok_range {A : Type} (l : list A) (i : Z) (x : A) :
  Py.getitem l i = Ok x -> - Py.len l <= i < Py.len l.
Proof.
  unfold Py.getitem, Py.norm_index.
  destruct ((0 <=? i) && (i <? Py.len l)) eqn:E1.
  - apply andb_prop in E1 as [H1 H2]. apply Z.leb_le in H1. apply Z.ltb_lt in H2.
    intros _. lia.
  - destruct ((- Py.len l <=? i) && (i <? 0)) eqn:E2; [|discriminate].
    apply andb_prop in E2 as [H1 H2]. apply Z.leb_le in H1. apply Z.ltb_lt in H2.
    intros _. lia.
Qed.

Lemma range_nil (a b : Z) : b <= a -> Py.range a b = [].
Proof.
  intros H. unfold Py.range. replace (Z.to_nat (b - a)) with 0%nat by lia.
  reflexivity.
Qed.

Lemma range_cons (a b : Z) : a < b -> Py.range a b = a :: Py.range (a + 1) b.
Proof.
  intros H. unfold Py.range.
  replace (Z.to_nat (b - a)) with (S (Z.to_nat (b - (a + 1)))) by lia.
  simpl. f_equal; [lia|].
  rewrite <- seq_shift, map_map. apply map_ext. intros k. lia.
Qed.

Lemma range_snoc (a b : Z) : a <= b -> Py.range a (b + 1) = Py.range a b ++ [b].
Proof.
  intros H. unfold Py.range.
  replace (Z.to_nat (b + 1 - a)) with (Z.to_nat (b - a) + 1)%nat by lia.
  rewrite seq_app, map_app. simpl. do 2 f_equal. lia.
Qed.

Lemma range_length (a b : Z) : length (Py.range a b) = Z.to_nat (b - a).
Proof. unfold Py.range. now rewrite length_map, length_seq. Qed.

Lemma range_In (a b x : Z) : In x (Py.range a b) <-> a <= x < b.
Proof.
  unfold Py.range. rewrite in_map_iff. split.
  - intros (k & <- & Hk). apply in_seq in Hk. lia.
  - intros H. exists (Z.to_nat (x - a)). split; [lia|]. apply in_seq. lia.
Qed.

Lemma range_0_seq (m : nat) : Py.range 0 (Z.of_nat m) = map Z.of_nat (seq 0 m).
Proof.
  unfold Py.range. rewrite Z.sub_0_r, Nat2Z.id. apply map_ext. intros; lia.
Qed.

Lemma for_each_app {A S : Type} (l1 l2 : list A) (s : S) body :
  Py.for_each (l1 ++ l2) s body =
  bind (Py.for_each l1 s body) (fun s' => Py.for_each l2 s' body).
Proof.
  revert s. induction l1 as [|x l1 IH]; intros s; simpl; [reflexivity|].
  destruct (body x s); simpl; auto.
Qed.

Lemma for_each_no_fuel {A S : Type} (l : list A) (s : S) body :
  (forall x s, body x s <> OutOfFuel) -> Py.for_each l s body <> OutOfFuel.
Proof.
  intros Hb. revert s. induction l as [|x l IH]; intros s; simpl; [discriminate|].
  destruct (body x s) eqn:E; simpl; [apply IH|discriminate|].
  now apply Hb in E.
Qed.

Lemma for_each_invariant {A S : Type} (P : S -> Prop) (l : list A) (s s' : S) body :
  (forall x s s', P s -> body x s = Ok s' -> P s') ->
  P s -> Py.for_each l s body = Ok s' -> P s'.
Proof.
  intros Hb. revert s. induction l as [|x l IH]; intros s Hs; simpl.
  - now intros [= <-].
  - destruct (body x s) eqn:E; simpl; try discriminate.
    apply IH. eapply Hb; eauto.
Qed.

Lemma bind_Ok {A B : Type} (m : outcome A) (k : A -> outcome B) (b : B) :
  bind m k = Ok b -> exists a, m = Ok a /\ k a = Ok b.
Proof. destruct m; simpl; try discriminate. eauto. Qed.

Lemma bind_no_fuel {A B : Type} (m : outcome A) (k : A -> outcome B) :
  m <> OutOfFuel -> (forall a, k a <> OutOfFuel) -> bind m k <> OutOfFuel.
Proof. destruct m; simpl; auto; discriminate. Qed.

Lemma bind_raises {A B : Type} (m : outcome A) (k : A -> outcome B) :
  m <> OutOfFuel -> (forall a, m = Ok a -> raises (k a)) -> raises (bind m k).
Proof.
  destruct m; simpl; intros H1 H2; [now apply H2|now exists e|congruence].
Qed.

Lemma update_length {A : Type} (k : nat) (x : A) (l : list A) :
  length (Py.update k x l) = length l.
Proof.
  revert k. induction l as [|y l IH]; intros [|k]; simpl; auto.
Qed.

Lemma setitem_len {A : Type} (l l' : list A) (i : Z) (x : A) :
  Py.setitem l i x = Ok l' -> Py.len l' = Py.len l.
Proof.
  unfold Py.setitem. destruct (Py.norm_index _ _); [|discriminate].
  intros [= <-]. unfold Py.len. now rewrite update_length.
Qed.

Lemma setitem_no_fuel {A : Type} (l : list A) (i : Z) (x : A) :
  Py.setitem l i x <> OutOfFuel.
Proof. unfold Py.setitem. destruct (Py.norm_index _ _); discriminate. Qed.

Lemma mod_no_fuel (a b : Z) : Py.mod_ a b <> OutOfFuel.
Proof. unfold Py.mod_. destruct (b =? 0); discriminate. Qed.

Lemma int_div_no_fuel (a b : Z) : Py.int_div a b <> OutOfFuel.
Proof. unfold Py.int_div. destruct (b =? 0); discriminate. Qed.

Lemma dict_get_no_fuel {V : Type} (d : Dict.t V) (k : pyval) : Dict.get d k <> OutOfFuel.
Proof.
  induction d as [|[k' v] d IH]; simpl; [discriminate|].
  destruct (pyval_eqb k' k); [discriminate|exact IH].
Qed.

Lemma map_each_no_fuel {A B : Type} (g : A -> outcome B) (l : list A) :
  (forall x, g x <> OutOfFuel) -> map_each g l <> OutOfFuel.
Proof.
  intros Hg. induction l as [|x l IH]; simpl; [discriminate|].
  apply bind_no_fuel; [apply Hg|]. intros y.
  apply bind_no_fuel; [exact IH|]. discriminate.
Qed.

Lemma map_each_length {A B : Type} (g : A -> outcome B) (l : list A) (r : list B) :
  map_each g l = Ok r -> length r = length l.
Proof.
  revert r. induction l as [|x l IH]; simpl; intros r.
  - now intros [= <-].
  - destruct (g x); simpl; try discriminate.
    destruct (map_each g l); simpl; try discriminate.
    intros [= <-]. simpl. f_equal. now apply IH.
Qed.

(* ================================================================== *)
(** * Bit vectors and rank buckets *)
(* ================================================================== *)

Lemma ones_app (l1 l2 : list bool) : ones (l1 ++ l2) = ones l1 + ones l2.
Proof. induction l1 as [|b l1 IH]; simpl; [reflexivity|]. rewrite IH. lia. Qed.

Lemma ones_bounds (l : list bool) : 0 <= ones l <= Py.len l.
Proof.
  induction l as [|b l IH]; simpl; [unfold Py.len; simpl; lia|].
  rewrite len_cons. destruct b; unfold Z.b2z; lia.
Qed.

Lemma firstn_succ_nth {A : Type} (l : list A) (k : nat) (d : A) :
  (k < length l)%nat -> firstn (S k) l = firstn k l ++ [nth k l d].
Proof.
  revert k. induction l as [|x l IH]; intros k Hk; simpl in Hk; [lia|].
  destruct k as [|k]; [reflexivity|].
  simpl. f_equal. apply IH. lia.
Qed.

Lemma prefix_ones_succ (bv : list bool) (k : Z) :
  0 <= k < Py.len bv ->
  prefix_ones bv (k + 1) = prefix_ones bv k + Z.b2z (nth (Z.to_nat k) bv false).
Proof.
  intros H. unfold prefix_ones.
  replace (Z.to_nat (k + 1)) with (S (Z.to_nat k)) by lia.
  rewrite (firstn_succ_nth bv _ false) by (unfold Py.len in H; lia).
  rewrite ones_app. simpl. lia.
Qed.

Lemma prefix_ones_all (bv : list bool) : prefix_ones bv (Py.len bv) = ones bv.
Proof. unfold prefix_ones, Py.len. now rewrite Nat2Z.id, firstn_all. Qed.

Lemma prefix_ones_bounds (bv : list bool) (k : Z) :
  0 <= k -> 0 <= prefix_ones bv k <= k.
Proof.
  intros H. unfold prefix_ones.
  pose proof (ones_bounds (firstn (Z.to_nat k) bv)) as B.
  unfold Py.len in B. rewrite length_firstn in B. lia.
Qed.

(** The scan of [rank_bit_node] and [rank_bit] adds up the bits of a range. *)
Lemma scan_range (bv : list bool) (a b r : Z) :
  0 <= a -> a <= b -> b <= Py.len bv ->
  Py.for_each (Py.range a b) r
    (fun i rank => x <- Py.getitem bv i ;; Ok (rank + Z.b2z x))
  = Ok (r + prefix_ones bv b - prefix_ones bv a).
Proof.
  intros Ha Hab Hb.
  remember (Z.to_nat (b - a)) as k eqn:Hk.
  revert a r Ha Hab Hk. induction k as [|k IH]; intros a r Ha Hab Hk.
  - rewrite range_nil by lia. simpl. replace b with a by lia. f_equal. lia.
  - rewrite range_cons by lia. simpl.
    rewrite (getitem_nth bv a false) by lia. simpl.
    rewrite IH by lia. f_equal.
    rewrite (prefix_ones_succ bv a) by lia. lia.
Qed.

Lemma div_pred_same (i step : Z) :
  1 <= step -> 1 <= i -> i mod step <> 0 -> i / step = (i - 1) / step.
Proof.
  intros Hs Hi Hm.
  pose proof (Z.div_mod i step ltac:(lia)) as E.
  pose proof (Z.mod_pos_bound i step ltac:(lia)) as B.
  apply (Z.div_unique (i - 1) step (i / step) (i mod step - 1)); lia.
Qed.

Lemma div_pred_next (i step : Z) :
  1 <= step -> 1 <= i -> i mod step = 0 -> i / step = (i - 1) / step + 1.
Proof.
  intros Hs Hi Hm.
  pose proof (Z.div_mod i step ltac:(lia)) as E.
  assert ((i - 1) / step = i / step - 1); [|lia].
  symmetry. apply (Z.div_unique (i - 1) step (i / step - 1) (step - 1)); lia.
Qed.

Lemma getitem_app_l {A : Type} (l1 l2 : list A) (i : Z) :
  0 <= i < Py.len l1 -> Py.getitem (l1 ++ l2) i = Py.getitem l1 i.
Proof.
  intros H. unfold Py.getitem. rewrite len_app.
  rewrite !norm_index_in by (pose proof (len_nonneg l2); lia).
  rewrite nth_error_app1 by (unfold Py.len in H; lia). reflexivity.
Qed.

Lemma getitem_app_here {A : Type} (l1 l2 : list A) (x : A) :
  Py.getitem (l1 ++ x :: l2) (Py.len l1) = Ok x.
Proof.
  unfold Py.getitem. rewrite len_app, len_cons.
  rewrite norm_index_in by (pose proof (len_nonneg l1); pose proof (len_nonneg l2); lia).
  unfold Py.len. rewrite Nat2Z.id, nth_error_app2 by lia.
  now rewrite Nat.sub_diag.
Qed.

Lemma bucket_loop_spec (step : Z) (bv : list bool) :
  1 <= step ->
  forall rest done index rank bucket,
    bv = done ++ rest -> index = Py.len done -> 1 <= index ->
    rank = prefix_ones bv index ->
    Py.len bucket = (index - 1) / step + 1 ->
    (forall j, 0 <= j <= (index - 1) / step ->
       Py.getitem bucket j = Ok (prefix_ones bv (j * step + 1))) ->
    exists bucket',
      bucket_loop step rest index rank bucket = Ok bucket' /\
      bucket_ok step bv bucket'.
Proof.
  intros Hs. induction rest as [|num rest IH];
    intros done index rank bucket Hbv Hidx Hpos Hrank Hlen Hget.
  - exists bucket. split; [reflexivity|].
    intros j Hj Hlt. apply Hget. split; [lia|].
    apply Z.div_le_lower_bound; [lia|].
    rewrite Hbv, app_nil_r in Hlt. lia.
  - simpl. replace (0 <? index) with true by (symmetry; apply Z.ltb_lt; lia).
    unfold Py.mod_. replace (step =? 0) with false by (symmetry; apply Z.eqb_neq; lia).
    simpl.
    assert (Hnth : nth (Z.to_nat index) bv false = num).
    { rewrite Hbv, Hidx. unfold Py.len. rewrite Nat2Z.id, app_nth2 by lia.
      now rewrite Nat.sub_diag. }
    assert (Hin : 0 <= index < Py.len bv).
    { rewrite Hbv, len_app, len_cons. pose proof (len_nonneg rest). lia. }
    assert (Hrank' : rank + Z.b2z num = prefix_ones bv (index + 1)).
    { rewrite prefix_ones_succ by exact Hin. now rewrite Hnth, Hrank. }
    assert (Hdone : bv = (done ++ [num]) ++ rest) by now rewrite <- app_assoc.
    assert (Hidx' : index + 1 = Py.len (done ++ [num])).
    { rewrite len_app, len_cons. unfold Py.len at 2. simpl. lia. }
    destruct (index mod step =? 0) eqn:Em.
    + apply Z.eqb_eq in Em.
      pose proof (div_pred_next index step Hs Hpos Em) as Hd.
      apply (IH (done ++ [num])); auto; try lia.
      * rewrite len_app, len_cons. unfold Py.len at 2. simpl.
        replace (index + 1 - 1) with index by lia. lia.
      * intros j Hj. replace (index + 1 - 1) with index in Hj by lia.
        destruct (Z.eq_dec j (index / step)) as [->|Hne].
        -- replace (index / step) with (Py.len bucket) at 1 by lia.
           rewrite getitem_app_here. f_equal. rewrite Hrank'. f_equal.
           pose proof (Z.div_mod index step ltac:(lia)). lia.
        -- rewrite getitem_app_l by lia. apply Hget. lia.
    + apply Z.eqb_neq in Em.
      pose proof (div_pred_same index step Hs Hpos Em) as Hd.
      apply (IH (done ++ [num])); auto; try lia.
      * replace (index + 1 - 1) with index by lia. lia.
      * intros j Hj. replace (index + 1 - 1) with index in Hj by lia.
        apply Hget. lia.
Qed.

(** A bucket built with a positive stride supports the rank scan. *)
Lemma bucket_loop_first (step : Z) (b : bool) (rest : list bool) :
  1 <= step ->
  exists bucket,
    bucket_loop step (b :: rest) 0 0 [Z.b2z b] = Ok bucket /\
    bucket_ok step (b :: rest) bucket.
Proof.
  intros Hs.
  change (bucket_loop step (b :: rest) 0 0 [Z.b2z b])
    with (bucket_loop step rest (0 + 1) (0 + Z.b2z b) [Z.b2z b]).
  apply (bucket_loop_spec step (b :: rest) Hs rest [b]).
  - reflexivity.
  - reflexivity.
  - lia.
  - unfold prefix_ones. simpl firstn. unfold ones. simpl fold_right. lia.
  - rewrite Z.div_0_l by lia. reflexivity.
  - intros j Hj. rewrite Z.div_0_l in Hj by lia.
    replace j with 0 by lia. unfold prefix_ones. simpl firstn.
    unfold ones. simpl fold_right. rewrite Z.add_0_r. reflexivity.
Qed.

Lemma node_bucket_spec (bv : list bool) :
  exists bucket step,
    node_bucket bv = Ok (bucket, step) /\
    (bv <> [] -> step = Z.max (Z.log2 (Py.len bv)) 1 /\ bucket_ok step bv bucket) /\
    (bv = [] -> step = 0 /\ bucket = []).
Proof.
  destruct bv as [|b rest].
  - exists [], 0. split; [reflexivity|]. split; [intros H; now elim H|auto].
  - unfold node_bucket.
    replace (0 <? Py.len (b :: rest)) with true
      by (symmetry; apply Z.ltb_lt; rewrite len_cons; pose proof (len_nonneg rest); lia).
    destruct (bucket_loop_first (Z.max (Z.log2 (Py.len (b :: rest))) 1) b rest ltac:(lia))
      as (bucket & E & Hok).
    exists bucket, (Z.max (Z.log2 (Py.len (b :: rest))) 1).
    change (Py.getitem (b :: rest) 0) with (Ok (A := bool) b). cbn [bind].
    rewrite E. simpl. split; [reflexivity|]. split; [auto|discriminate].
Qed.

Lemma log2_ge_1 (m : Z) : 2 <= m -> 1 <= Z.log2 m.
Proof. intros H. change 1 with (Z.log2 2). apply Z.log2_le_mono. lia. Qed.

Lemma root_bucket_spec (bv : list bool) :
  bv <> [] ->
  exists bucket,
    root_bucket bv = Ok (bucket, Z.log2 (Py.len bv)) /\
    (2 <= Py.len bv -> bucket_ok (Z.log2 (Py.len bv)) bv bucket).
Proof.
  intros Hne. destruct bv as [|b rest]; [now elim Hne|].
  unfold root_bucket, Py.int_log2.
  replace (Py.len (b :: rest) <=? 0) with false
    by (symmetry; apply Z.leb_gt; rewrite len_cons; pose proof (len_nonneg rest); lia).
  change (Py.getitem (b :: rest) 0) with (Ok (A := bool) b). cbn [bind].
  destruct (Z_lt_le_dec (Py.len (b :: rest)) 2) as [Hlt|Hge].
  - destruct rest as [|b' rest].
    + simpl. eexists. split; [reflexivity|]. unfold Py.len; simpl; lia.
    + rewrite !len_cons in Hlt. pose proof (len_nonneg rest). lia.
  - destruct (bucket_loop_first (Z.log2 (Py.len (b :: rest))) b rest
                (log2_ge_1 _ Hge)) as (bucket & E & Hok).
    exists bucket. rewrite E. simpl. auto.
Qed.

(* ================================================================== *)
(** * The wavelet tree built by [create_bit_vecs] *)
(* ================================================================== *)

#[global] Arguments routed : simpl never.
#[global] Arguments node_bit : simpl never.

Lemma negb_if (b : bool) : (if b then false else true) = negb b.
Proof. now destruct b. Qed.

Lemma create_bit_vecs_spec (bwt : list ascii) :
  bwt <> [] ->
  exists b0 b1 b2 b3 b4 s1 s2 s3 s4,
    create_bit_vecs bwt =
      Ok ([map (node_bit 0) (routed 0 bwt); map (node_bit 1) (routed 1 bwt);
           map (node_bit 2) (routed 2 bwt); map (node_bit 3) (routed 3 bwt);
           map (node_bit 4) (routed 4 bwt)],
          [b0; b1; b2; b3; b4],
          [Z.log2 (Py.len bwt); s1; s2; s3; s4]) /\
    (2 <= Py.len bwt -> bucket_ok (Z.log2 (Py.len bwt)) (map (node_bit 0) (routed 0 bwt)) b0) /\
    (routed 1 bwt <> [] ->
       s1 = Z.max (Z.log2 (Py.len (routed 1 bwt))) 1 /\
       bucket_ok s1 (map (node_bit 1) (routed 1 bwt)) b1) /\
    (routed 2 bwt <> [] ->
       s2 = Z.max (Z.log2 (Py.len (routed 2 bwt))) 1 /\
       bucket_ok s2 (map (node_bit 2) (routed 2 bwt)) b2) /\
    (routed 3 bwt <> [] ->
       s3 = Z.max (Z.log2 (Py.len (routed 3 bwt))) 1 /\
       bucket_ok s3 (map (node_bit 3) (routed 3 bwt)) b3) /\
    (routed 4 bwt <> [] ->
       s4 = Z.max (Z.log2 (Py.len (routed 4 bwt))) 1 /\
       bucket_ok s4 (map (node_bit 4) (routed 4 bwt)) b4).
Proof.
  intros Hne. unfold create_bit_vecs.
  assert (E0 : map (fun char => if chr_eq char cN || chr_eq char cA then false else true) bwt
               = map (node_bit 0) (routed 0 bwt)).
  { apply map_ext. intros a. apply negb_if. }
  rewrite E0.
  destruct (root_bucket_spec (map (node_bit 0) (routed 0 bwt))) as (b0 & R0 & H0).
  { change (routed 0 bwt) with bwt. destruct bwt; [now elim Hne|discriminate]. }
  rewrite len_map in R0, H0. change (routed 0 bwt) with bwt in R0 at 2.
  change (routed 0 bwt) with bwt in H0 at 1 2.
  rewrite R0. cbn [bind].
  change (filter (fun char => chr_eq char cN || chr_eq char cA) bwt) with (routed 1 bwt).
  change (filter (fun char => negb (chr_eq char cN) && negb (chr_eq char cA)) bwt)
    with (routed 2 bwt).
  change (filter (fun char => chr_eq char cC || chr_eq char cG) (routed 2 bwt))
    with (routed 3 bwt).
  change (filter (fun char => chr_eq char cT || chr_eq char cDollar) (routed 2 bwt))
    with (routed 4 bwt).
  assert (E1 : map (fun char => if chr_eq char cN then false else true) (routed 1 bwt)
               = map (node_bit 1) (routed 1 bwt))
    by (apply map_ext; intros a; apply negb_if).
  assert (E2 : map (fun char => if chr_eq char cC || chr_eq char cG then false else true)
                 (routed 2 bwt) = map (node_bit 2) (routed 2 bwt))
    by (apply map_ext; intros a; apply negb_if).
  assert (E3 : map (fun char => if chr_eq char cC then false else true) (routed 3 bwt)
               = map (node_bit 3) (routed 3 bwt))
    by (apply map_ext; intros a; apply negb_if).
  assert (E4 : map (fun char => if chr_eq char cT then false else true) (routed 4 bwt)
               = map (node_bit 4) (routed 4 bwt))
    by (apply map_ext; intros a; apply negb_if).
  rewrite E1, E2, E3, E4.
  destruct (node_bucket_spec (map (node_bit 1) (routed 1 bwt))) as (b1 & s1 & R1 & H1 & _).
  destruct (node_bucket_spec (map (node_bit 2) (routed 2 bwt))) as (b2 & s2 & R2 & H2 & _).
  destruct (node_bucket_spec (map (node_bit 3) (routed 3 bwt))) as (b3 & s3 & R3 & H3 & _).
  destruct (node_bucket_spec (map (node_bit 4) (routed 4 bwt))) as (b4 & s4 & R4 & H4 & _).
  rewrite R1. cbn [bind]. rewrite R2. cbn [bind]. rewrite R3. cbn [bind].
  rewrite R4. cbn [bind].
  exists b0, b1, b2, b3, b4, s1, s2, s3, s4.
  split; [reflexivity|]. split; [exact H0|].
  assert (Hm : forall k l, l <> [] -> map (node_bit k) l <> []).
  { intros k l Hl E. apply map_eq_nil in E. contradiction. }
  rewrite len_map in H1, H2, H3, H4.
  split; [intros Hr; apply H1; now apply Hm|].
  split; [intros Hr; apply H2; now apply Hm|].
  split; [intros Hr; apply H3; now apply Hm|].
  intros Hr; apply H4; now apply Hm.
Qed.

(** A tree built from a transform of at least two symbols encodes it. *)
Lemma create_bit_vecs_encodes (self : WaveletTree) (bwt : list ascii) :
  2 <= Py.len bwt ->
  create_bit_vecs bwt = Ok (bits self, bucket_bits self, bucket_step_bits self) ->
  encodes self bwt.
Proof.
  intros Hlen Hc.
  destruct (create_bit_vecs_spec bwt) as
    (b0 & b1 & b2 & b3 & b4 & s1 & s2 & s3 & s4 & E & H0 & H1 & H2 & H3 & H4).
  { intros ->. unfold Py.len in Hlen. simpl in Hlen. lia. }
  rewrite E in Hc.
  pose proof (f_equal (fun r => match r with Ok (a, _, _) => a | _ => [] end) Hc) as Eb.
  pose proof (f_equal (fun r => match r with Ok (_, a, _) => a | _ => [] end) Hc) as Ek.
  pose proof (f_equal (fun r => match r with Ok (_, _, a) => a | _ => [] end) Hc) as Es.
  cbv beta iota in Eb, Ek, Es.
  intros node Hnode. rewrite <- Eb, <- Ek, <- Es.
  destruct node as [|[|[|[|[|node]]]]]; [| | | | |lia].
  - exists (Z.log2 (Py.len bwt)), b0. do 3 (split; [reflexivity|]).
    intros _. split; [now apply log2_ge_1|now apply H0].
  - exists s1, b1. do 3 (split; [reflexivity|]).
    intros Hr. destruct (H1 Hr) as [-> Hb]. split; [lia|exact Hb].
  - exists s2, b2. do 3 (split; [reflexivity|]).
    intros Hr. destruct (H2 Hr) as [-> Hb]. split; [lia|exact Hb].
  - exists s3, b3. do 3 (split; [reflexivity|]).
    intros Hr. destruct (H3 Hr) as [-> Hb]. split; [lia|exact Hb].
  - exists s4, b4. do 3 (split; [reflexivity|]).
    intros Hr. destruct (H4 Hr) as [-> Hb]. split; [lia|exact Hb].
Qed.

Lemma prefix_ones_filter {A : Type} (g : A -> bool) (l : list A) (k : Z) :
  prefix_ones (map g l) k = Py.len (filter g (firstn (Z.to_nat k) l)).
Proof.
  unfold prefix_ones. rewrite firstn_map.
  induction (firstn (Z.to_nat k) l) as [|x p IH]; [reflexivity|].
  simpl. rewrite IH. destruct (g x); [rewrite len_cons|]; unfold Z.b2z; lia.
Qed.

Lemma filter_split_len {A : Type} (g : A -> bool) (l : list A) :
  Py.len (filter g l) + Py.len (filter (fun x => negb (g x)) l) = Py.len l.
Proof.
  induction l as [|x l IH]; [reflexivity|].
  cbn [filter]. destruct (g x); cbn [negb]; rewrite !len_cons; lia.
Qed.

Lemma filter_eqb_true {A : Type} (g : A -> bool) (l : list A) :
  filter (fun x => Bool.eqb (g x) true) l = filter g l.
Proof. apply filter_ext. intros x. now destruct (g x). Qed.

Lemma filter_eqb_false {A : Type} (g : A -> bool) (l : list A) :
  filter (fun x => Bool.eqb (g x) false) l = filter (fun x => negb (g x)) l.
Proof. apply filter_ext. intros x. now destruct (g x). Qed.

Lemma len_firstn {A : Type} (l : list A) (k : Z) :
  0 <= k <= Py.len l -> Py.len (firstn (Z.to_nat k) l) = k.
Proof. intros H. unfold Py.len in *. rewrite length_firstn. lia. Qed.

Lemma getitem_map_nth {A B : Type} (g : A -> B) (l : list A) (i : Z) (d : A) :
  0 <= i < Py.len l -> Py.getitem (map g l) i = Ok (g (nth (Z.to_nat i) l d)).
Proof.
  intros H. apply getitem_map. now apply getitem_nth.
Qed.

(** [rank_bit_node] on an encoding tree: the rank of the bit found. *)
Lemma rank_bit_node_spec (self : WaveletTree) (bwt : list ascii) (node : nat) (i : Z) :
  encodes self bwt -> (node < 5)%nat -> 0 <= i < Py.len (routed node bwt) ->
  rank_bit_node self i (Z.of_nat node) =
    Ok (Py.len (filter (fun x => Bool.eqb (node_bit node x)
                                 (node_bit node (nth (Z.to_nat i) (routed node bwt) cA)))
               (firstn (Z.to_nat (i + 1)) (routed node bwt)))).
Proof.
  intros He Hn Hi. destruct (He node Hn) as (step & bucket & Eb & Es & Ek & Hok).
  assert (Hne : routed node bwt <> []).
  { intros E. rewrite E in Hi. unfold Py.len in Hi. simpl in Hi. lia. }
  destruct (Hok Hne) as [Hstep Hbucket].
  unfold rank_bit_node. rewrite Es. cbn [bind].
  unfold Py.int_div. replace (step =? 0) with false by (symmetry; apply Z.eqb_neq; lia).
  cbn [bind]. rewrite Eb. cbn [bind].
  rewrite Z.quot_div_nonneg by lia.
  assert (Hlen : Py.len (map (node_bit node) (routed node bwt)) = Py.len (routed node bwt))
    by apply len_map.
  assert (Hq : 0 <= i / step) by (apply Z.div_pos; lia).
  assert (Hq' : i / step * step <= i).
  { pose proof (Z.mul_div_le i step ltac:(lia)). lia. }
  rewrite scan_range by lia. cbn [bind]. rewrite Ek. cbn [bind].
  rewrite (Hbucket (i / step)) by lia. cbn [bind].
  rewrite (getitem_map_nth (node_bit node) (routed node bwt) i cA) by lia. cbn [bind].
  replace (0 + prefix_ones (map (node_bit node) (routed node bwt)) (i + 1)
           - prefix_ones (map (node_bit node) (routed node bwt)) (i / step * step + 1)
           + prefix_ones (map (node_bit node) (routed node bwt)) (i / step * step + 1))
    with (prefix_ones (map (node_bit node) (routed node bwt)) (i + 1)) by lia.
  rewrite prefix_ones_filter.
  pose proof (filter_split_len (node_bit node) (firstn (Z.to_nat (i + 1)) (routed node bwt)))
    as Hsplit.
  rewrite len_firstn in Hsplit by lia.
  destruct (node_bit node (nth (Z.to_nat i) (routed node bwt) cA)).
  - now rewrite filter_eqb_true.
  - rewrite filter_eqb_false. f_equal. lia.
Qed.

(* ================================================================== *)
(** * [rank] and [access] on an encoding tree *)
(* ================================================================== *)

Lemma firstn_filter {A : Type} (p : A -> bool) (l : list A) (k : nat) :
  firstn (length (filter p (firstn k l))) (filter p l) = filter p (firstn k l).
Proof.
  revert k. induction l as [|x l IH]; intros k.
  - destruct k; reflexivity.
  - destruct k as [|k]; [reflexivity|].
    cbn [firstn filter]. destruct (p x); cbn [length firstn]; now rewrite IH.
Qed.

Lemma filter_filter_and {A : Type} (p q : A -> bool) (l : list A) :
  filter q (filter p l) = filter (fun x => p x && q x) l.
Proof.
  induction l as [|x l IH]; [reflexivity|].
  cbn [filter]. destruct (p x); cbn [filter andb]; [destruct (q x)|]; now rewrite IH.
Qed.

Lemma filter_length_le {A : Type} (p : A -> bool) (l : list A) (k : nat) :
  (length (filter p (firstn k l)) <= length (filter p l))%nat.
Proof.
  rewrite <- (firstn_skipn k l) at 2. rewrite filter_app, length_app. lia.
Qed.

Lemma chr_eq_true (a b : ascii) : chr_eq a b = true <-> a = b.
Proof. apply Ascii.eqb_eq. Qed.

Lemma in_alphabet_cases (x : ascii) :
  in_alphabet x = true ->
  x = cDollar \/ x = cA \/ x = cC \/ x = cG \/ x = cN \/ x = cT.
Proof.
  unfold in_alphabet, alphabet. cbn [existsb]. rewrite !orb_true_iff, !chr_eq_true.
  intuition discriminate.
Qed.

Lemma forallb_firstn {A : Type} (p : A -> bool) (l : list A) (k : nat) :
  forallb p l = true -> forallb p (firstn k l) = true.
Proof.
  rewrite !forallb_forall. intros H x Hx. apply H.
  rewrite <- (firstn_skipn k l). apply in_or_app. now left.
Qed.

Lemma forallb_filter {A : Type} (p q : A -> bool) (l : list A) :
  forallb p l = true -> forallb p (filter q l) = true.
Proof.
  rewrite !forallb_forall. intros H x Hx. apply H. now apply filter_In in Hx.
Qed.

Lemma routed_child (bwt : list ascii) (node : nat) (code : bool) :
  forallb in_alphabet bwt = true -> node = 0%nat \/ node = 2%nat ->
  routed (child_of node code) bwt =
  filter (fun x => Bool.eqb (node_bit node x) code) (routed node bwt).
Proof.
  intros Hal [-> | ->]; destruct code; cbn [child_of]; unfold routed, node_bit.
  - apply filter_ext. intros x.
    rewrite negb_orb. now destruct (negb (chr_eq x cN) && negb (chr_eq x cA)).
  - apply filter_ext. intros x. now destruct (chr_eq x cN || chr_eq x cA).
  - apply filter_ext_in. intros x Hx. apply filter_In in Hx as [Hx Hc].
    rewrite forallb_forall in Hal. apply Hal in Hx.
    apply in_alphabet_cases in Hx as [-> | [-> | [-> | [-> | [-> | ->]]]]];
      first [reflexivity | vm_compute in Hc; discriminate Hc].
  - apply filter_ext. intros x. now destruct (chr_eq x cC || chr_eq x cG).
Qed.

(** One turn of the loop of [rank]. *)
Lemma rank_level (self : WaveletTree) (bwt : list ascii) (node : nat)
  (code : bool) (codes' : list bool) (i r_in : Z) :
  encodes self bwt -> (node < 5)%nat -> 0 <= i < Py.len (routed node bwt) ->
  rank_loop self (code :: codes') (PInt (Z.of_nat node)) i r_in =
    let r := Py.len (filter (fun x => Bool.eqb (node_bit node x) code)
                       (firstn (Z.to_nat (i + 1)) (routed node bwt))) in
    if r =? 0 then Ok 0
    else
      row <- Py.getitem meta (Z.of_nat node) ;;
      child <- Py.getitem row (2 + Z.b2z code) ;;
      rank_loop self codes' child (r - 1) r.
Proof.
  intros He Hn Hi. cbn [rank_loop as_int bind].
  rewrite (rank_bit_node_spec self bwt node i He Hn Hi). cbn [bind].
  destruct (He node Hn) as (step & bucket & Eb & _). rewrite Eb. cbn [bind].
  rewrite (getitem_map_nth (node_bit node) (routed node bwt) i cA) by lia. cbn [bind].
  pose proof (filter_split_len
                (fun x => Bool.eqb (node_bit node x) code)
                (firstn (Z.to_nat (i + 1)) (routed node bwt))) as Hsplit.
  rewrite len_firstn in Hsplit by lia.
  assert (E : (if negb (Bool.eqb (node_bit node (nth (Z.to_nat i) (routed node bwt) cA)) code)
               then i - Py.len (filter (fun x => Bool.eqb (node_bit node x)
                           (node_bit node (nth (Z.to_nat i) (routed node bwt) cA)))
                          (firstn (Z.to_nat (i + 1)) (routed node bwt))) + 1
               else Py.len (filter (fun x => Bool.eqb (node_bit node x)
                           (node_bit node (nth (Z.to_nat i) (routed node bwt) cA)))
                          (firstn (Z.to_nat (i + 1)) (routed node bwt))))
              = Py.len (filter (fun x => Bool.eqb (node_bit node x) code)
                          (firstn (Z.to_nat (i + 1)) (routed node bwt)))).
  { destruct (node_bit node (nth (Z.to_nat i) (routed node bwt) cA)), code;
      cbn [Bool.eqb negb]; try reflexivity.
    - rewrite (filter_ext _ (fun x => negb (Bool.eqb (node_bit node x) false))) at 1
        by (intros x; now destruct (node_bit node x)).
      lia.
    - rewrite (filter_ext _ (fun x => negb (Bool.eqb (node_bit node x) true))) at 1
        by (intros x; now destruct (node_bit node x)).
      lia. }
  rewrite E. reflexivity.
Qed.

Lemma rank_loop_nil (self : WaveletTree) (v : pyval) (i r : Z) :
  rank_loop self [] v i r = Ok r.
Proof. reflexivity. Qed.

(** Moving the prefix of a node to the chosen child. *)
Lemma child_prefix (bwt : list ascii) (node : nat) (code : bool) (k : nat) :
  forallb in_alphabet bwt = true -> node = 0%nat \/ node = 2%nat ->
  let P := filter (fun x => Bool.eqb (node_bit node x) code) (firstn k (routed node bwt)) in
  firstn (Z.to_nat (Py.len P - 1 + 1)) (routed (child_of node code) bwt) = P /\
  Py.len P <= Py.len (routed (child_of node code) bwt).
Proof.
  intros Hal Hn P. rewrite (routed_child bwt node code Hal Hn).
  replace (Z.to_nat (Py.len P - 1 + 1)) with (length P) by (unfold Py.len; lia).
  split; [apply firstn_filter|].
  unfold Py.len. apply inj_le. apply filter_length_le.
Qed.

Lemma bind_meta_entry {B : Type} (node : Z) (code : bool) (k : pyval -> outcome B) :
  (row <- Py.getitem meta node ;; child <- Py.getitem row (2 + Z.b2z code) ;; k child)
  = (child <- meta_entry node code ;; k child).
Proof. unfold meta_entry. now destruct (Py.getitem meta node). Qed.

Lemma path_filter_nil (codes : list bool) (node : nat) : path_filter node codes [] = [].
Proof. revert node. induction codes as [|c codes IH]; intros node; [reflexivity|apply IH]. Qed.

Lemma descends_lt (node : nat) (codes : list bool) :
  descends node codes = true -> (node < 5)%nat.
Proof.
  destruct codes as [|c [|c' codes]]; cbn [descends]; [discriminate| |].
  - intros H. apply andb_prop in H as [H _]. now apply Nat.ltb_lt in H.
  - intros H. apply andb_prop in H as [H _]. apply andb_prop in H as [H _].
    apply orb_prop in H as [H|H]; apply Nat.eqb_eq in H; lia.
Qed.

(** The loop of [rank] counts the symbols of the prefix that follow the path. *)
Lemma rank_path (self : WaveletTree) (bwt : list ascii) :
  encodes self bwt -> forallb in_alphabet bwt = true ->
  forall cs node i r_in,
    descends node cs = true -> 0 <= i < Py.len (routed node bwt) ->
    rank_loop self cs (PInt (Z.of_nat node)) i r_in =
    Ok (Py.len (path_filter node cs (firstn (Z.to_nat (i + 1)) (routed node bwt)))).
Proof.
  intros He Hal. induction cs as [|code cs IH]; intros node i r_in Hd Hi;
    [discriminate Hd|].
  pose proof (descends_lt _ _ Hd) as Hlt.
  rewrite (rank_level self bwt node code cs i r_in He Hlt Hi). cbv zeta.
  rewrite bind_meta_entry. cbn [path_filter].
  set (P := filter (fun x => Bool.eqb (node_bit node x) code)
              (firstn (Z.to_nat (i + 1)) (routed node bwt))).
  destruct (Py.len P =? 0) eqn:E0.
  - apply Z.eqb_eq in E0. apply len_nil_iff in E0. rewrite E0, path_filter_nil.
    reflexivity.
  - apply Z.eqb_neq in E0. pose proof (len_nonneg P) as HP.
    destruct cs as [|code' cs'].
    + cbn [descends] in Hd. apply andb_prop in Hd as [_ Hd].
      destruct (meta_entry (Z.of_nat node) code); try discriminate. reflexivity.
    + cbn [descends] in Hd. apply andb_prop in Hd as [Hd Hd3].
      apply andb_prop in Hd as [Hd1 Hd2].
      assert (Hn : node = 0%nat \/ node = 2%nat).
      { apply orb_prop in Hd1 as [H|H]; apply Nat.eqb_eq in H; auto. }
      destruct (meta_entry (Z.of_nat node) code) as [[|z|]| |]; try discriminate.
      apply Z.eqb_eq in Hd2. subst z. cbn [bind].
      destruct (child_prefix bwt node code (Z.to_nat (i + 1)) Hal Hn) as [Hp Hle].
      fold P in Hp, Hle.
      rewrite IH by (auto; lia). now rewrite Hp.
Qed.

(** [rank(c, i)] is the naive count of [c] in [bwt[0..i]]. *)
Lemma rank_spec (self : WaveletTree) (bwt : list ascii) (c : ascii) (i : Z) :
  encodes self bwt -> forallb in_alphabet bwt = true -> in_alphabet c = true ->
  0 <= i < Py.len bwt ->
  rank self (PStr c) i = Ok (count_upto c bwt i).
Proof.
  intros He Hal Hc Hi. unfold rank, count_upto.
  assert (Hx : forall x, In x (firstn (Z.to_nat (i + 1)) bwt) -> in_alphabet x = true).
  { apply forallb_forall. now apply forallb_firstn. }
  change (PInt 0) with (PInt (Z.of_nat 0)).
  apply in_alphabet_cases in Hc as [-> | [-> | [-> | [-> | [-> | ->]]]]];
    match goal with
    | |- bind (Dict.get codes (PStr ?c)) _ = _ =>
        let v := eval vm_compute in (Dict.get codes (PStr c)) in
        change (Dict.get codes (PStr c)) with v
    end; cbn [bind];
    (rewrite (rank_path self bwt He Hal) by (first [reflexivity | exact Hi]));
    cbn [path_filter child_of]; rewrite !filter_filter_and;
    change (routed 0 bwt) with bwt; do 2 f_equal;
    apply filter_ext_in; intros x Hin; apply Hx in Hin;
    apply in_alphabet_cases in Hin as [-> | [-> | [-> | [-> | [-> | ->]]]]];
    reflexivity.
Qed.

(** The position of [l[i]] among the elements that satisfy [p]. *)
Lemma nth_filter_rank {A : Type} (p : A -> bool) (l : list A) (i : nat) (d : A) :
  (i < length l)%nat -> p (nth i l d) = true ->
  (1 <= length (filter p (firstn (S i) l)) <= length (filter p l))%nat /\
  nth (length (filter p (firstn (S i) l)) - 1) (filter p l) d = nth i l d.
Proof.
  intros Hi Hp.
  destruct (nth_split l d Hi) as (l1 & l2 & El & Hl1).
  remember (nth i l d) as x eqn:Ex. clear Ex. subst l i.
  assert (Ef : firstn (S (length l1)) (l1 ++ x :: l2) = l1 ++ [x]).
  { replace (S (length l1)) with (length l1 + 1)%nat by lia.
    rewrite firstn_app_2. reflexivity. }
  rewrite Ef. rewrite !filter_app. cbn [filter]. rewrite Hp.
  rewrite !length_app. cbn [length]. split; [lia|].
  replace (length (filter p l1) + 1 - 1)%nat with (length (filter p l1)) by lia.
  now rewrite nth_middle.
Qed.

Lemma access_loop_internal (fuel : nat) (self : WaveletTree) (node : nat)
  (i : Z) (bit : bool) :
  node = 0%nat \/ node = 2%nat ->
  access_loop (S fuel) self (Z.of_nat node) i bit =
    (r <- rank_bit_node self i (Z.of_nat node) ;;
     node_bits <- Py.getitem (bits self) (Z.of_nat (child_of node bit)) ;;
     bit' <- Py.getitem node_bits (r - 1) ;;
     access_loop fuel self (Z.of_nat (child_of node bit)) (r - 1) bit').
Proof. intros [-> | ->]; destruct bit; reflexivity. Qed.

Lemma access_loop_leaf_parent (fuel : nat) (self : WaveletTree) (node : nat)
  (i : Z) (bit : bool) :
  node = 1%nat \/ node = 3%nat \/ node = 4%nat ->
  access_loop fuel self (Z.of_nat node) i bit = meta_entry (Z.of_nat node) bit.
Proof. intros [-> | [-> | ->]]; destruct fuel, bit; reflexivity. Qed.

(** One turn of the loop of [access] keeps track of the symbol. *)
Lemma access_level (self : WaveletTree) (bwt : list ascii) (node : nat)
  (fuel : nat) (i : Z) :
  encodes self bwt -> forallb in_alphabet bwt = true ->
  node = 0%nat \/ node = 2%nat -> 0 <= i < Py.len (routed node bwt) ->
  let x := nth (Z.to_nat i) (routed node bwt) cA in
  let child := child_of node (node_bit node x) in
  exists i', 0 <= i' < Py.len (routed child bwt) /\
    nth (Z.to_nat i') (routed child bwt) cA = x /\
    access_loop (S fuel) self (Z.of_nat node) i (node_bit node x) =
    access_loop fuel self (Z.of_nat child) i' (node_bit child x).
Proof.
  intros He Hal Hn Hi x child.
  assert (Hlt : (node < 5)%nat) by (destruct Hn; subst; lia).
  assert (Hclt : (child < 5)%nat).
  { unfold child. destruct Hn; subst node; destruct (node_bit _ x); cbn; lia. }
  set (p := fun y => Bool.eqb (node_bit node y) (node_bit node x)).
  assert (Hp : p x = true) by (unfold p; apply eqb_reflx).
  destruct (nth_filter_rank p (routed node bwt) (Z.to_nat i) cA
              ltac:(unfold Py.len in Hi; lia) Hp) as [Hr Hnth].
  assert (Ec : routed child bwt = filter p (routed node bwt))
    by (apply routed_child; auto).
  exists (Py.len (filter p (firstn (Z.to_nat (i + 1)) (routed node bwt))) - 1).
  replace (Z.to_nat (i + 1)) with (S (Z.to_nat i)) by lia.
  assert (Ei : Z.to_nat (Py.len (filter p (firstn (S (Z.to_nat i)) (routed node bwt))) - 1)
               = (length (filter p (firstn (S (Z.to_nat i)) (routed node bwt))) - 1)%nat)
    by (unfold Py.len; lia).
  split; [rewrite Ec; unfold Py.len; lia|].
  split; [rewrite Ei, Ec; exact Hnth|].
  rewrite (access_loop_internal fuel self node i _ Hn).
  rewrite (rank_bit_node_spec self bwt node i He Hlt Hi). cbn [bind].
  fold x. fold p. fold child.
  replace (Z.to_nat (i + 1)) with (S (Z.to_nat i)) by lia.
  destruct (He child Hclt) as (step & bucket & Eb & _). rewrite Eb. cbn [bind].
  rewrite (getitem_map_nth (node_bit child) (routed child bwt) _ cA)
    by (rewrite Ec; unfold Py.len; lia).
  cbn [bind]. rewrite Ei. rewrite Ec at 1. rewrite Hnth. reflexivity.
Qed.

Lemma routed_In (node : nat) (bwt : list ascii) (x : ascii) :
  In x (routed node bwt) -> In x bwt.
Proof.
  unfold routed. destruct node as [|[|[|[|node]]]]; intros H; auto;
    repeat (apply filter_In in H as [H _]); exact H.
Qed.

Lemma access_leaf (self : WaveletTree) (bwt : list ascii) (node : nat)
  (fuel : nat) (i : Z) (x : ascii) :
  forallb in_alphabet bwt = true ->
  node = 1%nat \/ node = 3%nat \/ node = 4%nat ->
  0 <= i < Py.len (routed node bwt) ->
  nth (Z.to_nat i) (routed node bwt) cA = x ->
  access_loop fuel self (Z.of_nat node) i (node_bit node x) = Ok (PStr x).
Proof.
  intros Hal Hn Hi Ex. rewrite access_loop_leaf_parent by exact Hn.
  assert (Hin : In x (routed node bwt))
    by (rewrite <- Ex; apply nth_In; unfold Py.len in Hi; lia).
  clear Ex.
  assert (Hx : in_alphabet x = true).
  { rewrite forallb_forall in Hal. apply Hal. eapply routed_In; eauto. }
  destruct Hn as [-> | [-> | ->]]; unfold routed in Hin;
    repeat (apply filter_In in Hin as [Hin ?]);
    apply in_alphabet_cases in Hx as [-> | [-> | [-> | [-> | [-> | ->]]]]];
    first [reflexivity | discriminate].
Qed.

(** [access(i)] returns the symbol of the transform at [i]. *)
Lemma access_spec (self : WaveletTree) (bwt : list ascii) (i : Z) :
  encodes self bwt -> forallb in_alphabet bwt = true -> 0 <= i < Py.len bwt ->
  access self i 0 = Ok (PStr (nth (Z.to_nat i) bwt cA)).
Proof.
  intros He Hal Hi. unfold access.
  change (Py.getitem meta 0) with (Ok (A := list pyval) [PNone; PInt 0; PInt 1; PInt 2]).
  cbn [bind].
  change (Py.getitem [PNone; PInt 0; PInt 1; PInt 2] 2) with (Ok (PInt 1)).
  cbn [bind is_none is_str].
  destruct (He 0%nat ltac:(lia)) as (step & bucket & Eb & _).
  change (Z.of_nat 0) with 0 in Eb. rewrite Eb. cbn [bind].
  change (routed 0 bwt) with bwt.
  rewrite (getitem_map_nth (node_bit 0) bwt i cA Hi). cbn [bind].
  change (length meta) with 11%nat.
  destruct (access_level self bwt 0 10 i He Hal (or_introl eq_refl) Hi)
    as (i1 & Hi1 & Hn1 & E1).
  change (routed 0 bwt) with bwt in *. change (Z.of_nat 0) with 0 in E1. rewrite E1.
  set (x := nth (Z.to_nat i) bwt cA) in *.
  destruct (node_bit 0 x); cbn [child_of] in *.
  - destruct (access_level self bwt 2 9 i1 He Hal (or_intror eq_refl) Hi1)
      as (i2 & Hi2 & Hn2 & E2).
    rewrite Hn1 in E2, Hn2, Hi2. rewrite E2.
    apply (access_leaf self bwt _ 9 i2 x Hal); auto.
    destruct (node_bit 2 x); cbn [child_of]; auto.
  - apply (access_leaf self bwt 1 10 i1 x Hal); auto.
Qed.

(* ================================================================== *)
(** * Loops over a string, and the cumulative table *)
(* ================================================================== *)

Lemma for_each_ext_in {A S : Type} (l : list A) (s : S) body1 body2 :
  (forall x s, In x l -> body1 x s = body2 x s) ->
  Py.for_each l s body1 = Py.for_each l s body2.
Proof.
  revert s. induction l as [|x l IH]; intros s H; [reflexivity|].
  cbn [Py.for_each]. rewrite H by now left.
  destruct (body2 x s); cbn [bind]; auto. apply IH. intros; apply H; now right.
Qed.

Lemma for_each_map {A B S : Type} (h : A -> B) (l : list A) (s : S) body :
  Py.for_each (map h l) s body = Py.for_each l s (fun x => body (h x)).
Proof.
  revert s. induction l as [|x l IH]; intros s; [reflexivity|].
  cbn [map Py.for_each]. destruct (body (h x) s); cbn [bind]; auto.
Qed.

Lemma range_shift (a b : Z) : Py.range (a + 1) (b + 1) = map Z.succ (Py.range a b).
Proof.
  unfold Py.range. replace (b + 1 - (a + 1)) with (b - a) by lia.
  rewrite map_map. apply map_ext. intros; lia.
Qed.

Lemma getitem_cons_succ {A : Type} (x : A) (l : list A) (i : Z) :
  0 <= i -> Py.getitem (x :: l) (Z.succ i) = Py.getitem l i.
Proof.
  intros Hi. destruct (Z_lt_le_dec i (Py.len l)) as [H|H].
  - rewrite (getitem_nth (x :: l) _ x) by (rewrite len_cons; lia).
    rewrite (getitem_nth l i x) by lia.
    replace (Z.to_nat (Z.succ i)) with (S (Z.to_nat i)) by lia. reflexivity.
  - rewrite !getitem_high; auto. rewrite len_cons. lia.
Qed.

(** [for i in range(len(l)): ... l[i] ...] visits the elements in order. *)
Lemma for_each_range_getitem {A S : Type} (l : list A) (s : S)
  (g : A -> S -> outcome S) :
  Py.for_each (Py.range 0 (Py.len l)) s (fun i s => c <- Py.getitem l i ;; g c s)
  = Py.for_each l s g.
Proof.
  revert s. induction l as [|x l IH]; intros s; [reflexivity|].
  rewrite len_cons. rewrite range_cons by (pose proof (len_nonneg l); lia).
  cbn [Py.for_each].
  change (Py.getitem (x :: l) 0) with (Ok x). cbn [bind].
  destruct (g x s) as [s'| |]; cbn [bind]; auto.
  replace (1 + Py.len l) with (Py.len l + 1) by lia.
  rewrite range_shift, for_each_map. rewrite <- IH.
  apply for_each_ext_in. intros i s0 Hin. apply range_In in Hin.
  now rewrite getitem_cons_succ by lia.
Qed.

Lemma count_cons (c x : ascii) (l : list ascii) :
  count c (x :: l) = Z.b2z (chr_eq c x) + count c l.
Proof.
  unfold count. cbn [filter]. destruct (chr_eq c x); [rewrite len_cons|];
    unfold Z.b2z; lia.
Qed.

Lemma count_nil (c : ascii) : count c [] = 0.
Proof. reflexivity. Qed.

Lemma chr_eq_sym (a b : ascii) : chr_eq a b = chr_eq b a.
Proof. apply Ascii.eqb_sym. Qed.

Lemma not_in_alphabet (x : ascii) :
  in_alphabet x = false ->
  chr_eq cDollar x = false /\ chr_eq cA x = false /\ chr_eq cC x = false /\
  chr_eq cG x = false /\ chr_eq cN x = false /\ chr_eq cT x = false.
Proof.
  unfold in_alphabet, alphabet. cbn [existsb]. rewrite !orb_false_iff.
  rewrite !(chr_eq_sym x). tauto.
Qed.

Lemma dict6_get_outside (z0 z1 z2 z3 z4 z5 : Z) (x : ascii) :
  in_alphabet x = false ->
  Dict.get (dict6 z0 z1 z2 z3 z4 z5) (PStr x) = Raise KeyError.
Proof.
  intros H. apply not_in_alphabet in H as (H0 & H1 & H2 & H3 & H4 & H5).
  unfold dict6, chr_eq in *. cbn [Dict.get pyval_eqb].
  now rewrite H0, H1, H2, H3, H4, H5.
Qed.

Lemma count_body_in (x : ascii) (z0 z1 z2 z3 z4 z5 : Z) :
  in_alphabet x = true ->
  count_body x (dict6 z0 z1 z2 z3 z4 z5) =
  Ok (dict6 (z0 + Z.b2z (chr_eq cDollar x)) (z1 + Z.b2z (chr_eq cA x))
            (z2 + Z.b2z (chr_eq cC x)) (z3 + Z.b2z (chr_eq cG x))
            (z4 + Z.b2z (chr_eq cN x)) (z5 + Z.b2z (chr_eq cT x))).
Proof.
  intros Hx.
  apply in_alphabet_cases in Hx as [-> | [-> | [-> | [-> | [-> | ->]]]]];
    unfold count_body, dict6; cbn; f_equal; repeat (f_equal; try lia).
Qed.

Lemma count_loop (l : list ascii) :
  forall z0 z1 z2 z3 z4 z5,
    Py.for_each l (dict6 z0 z1 z2 z3 z4 z5) count_body =
    if forallb in_alphabet l
    then Ok (dict6 (z0 + count cDollar l) (z1 + count cA l) (z2 + count cC l)
                   (z3 + count cG l) (z4 + count cN l) (z5 + count cT l))
    else Raise KeyError.
Proof.
  induction l as [|x l IH]; intros z0 z1 z2 z3 z4 z5.
  - cbn [Py.for_each forallb]. rewrite !count_nil, !Z.add_0_r. reflexivity.
  - cbn [Py.for_each forallb]. destruct (in_alphabet x) eqn:Hx.
    + rewrite count_body_in by exact Hx. cbn [bind andb]. rewrite IH.
      destruct (forallb in_alphabet l); [|reflexivity].
      rewrite !count_cons. f_equal. unfold dict6. repeat (f_equal; try lia).
    + unfold count_body at 1. rewrite dict6_get_outside by exact Hx. reflexivity.
Qed.

Lemma shifts_f_loop (text : list ascii) :
  _shifts_f text =
  (shifts <- Py.for_each text (dict6 0 0 0 0 0 0) count_body ;;
   count_a <- Dict.get shifts (PStr cDollar) ;;
   sA <- Dict.get shifts (PStr cA) ;;
   sC <- Dict.get shifts (PStr cC) ;;
   sG <- Dict.get shifts (PStr cG) ;;
   sN <- Dict.get shifts (PStr cN) ;;
   Ok (Dict.set (Dict.set (Dict.set (Dict.set (Dict.set (Dict.set (Dict.set shifts
         (PStr cDollar) 0) (PStr cA) count_a) (PStr cC) (count_a + sA))
         (PStr cG) (count_a + sA + sC)) (PStr cN) (count_a + sA + sC + sG))
         (PStr cT) (count_a + sA + sC + sG + sN)) PNone (Py.len text))).
Proof.
  unfold _shifts_f.
  rewrite <- (for_each_range_getitem text (dict6 0 0 0 0 0 0) count_body). reflexivity.
Qed.

(** [_shifts_f] on a text over the alphabet is its cumulative table. *)
Lemma shifts_f_spec (text : list ascii) :
  forallb in_alphabet text = true -> _shifts_f text = Ok (c_table text).
Proof.
  intros H. rewrite shifts_f_loop, count_loop, H. cbn [bind].
  unfold c_table, dict6. cbn. f_equal; repeat (f_equal; try lia).
Qed.

(** [_shifts_f] raises on any symbol outside the alphabet. *)
Lemma shifts_f_raises (text : list ascii) :
  forallb in_alphabet text = false -> _shifts_f text = Raise KeyError.
Proof.
  intros H. rewrite shifts_f_loop, count_loop, H. reflexivity.
Qed.

Lemma shifts_f_Ok (text : list ascii) (d : Dict.t Z) :
  _shifts_f text = Ok d -> forallb in_alphabet text = true /\ d = c_table text.
Proof.
  intros H. destruct (forallb in_alphabet text) eqn:E.
  - rewrite shifts_f_spec in H by exact E. split; congruence.
  - rewrite shifts_f_raises in H by exact E. discriminate.
Qed.

Lemma map_each_nth {A B : Type} (g : A -> outcome B) (l : list A) (r : list B)
  (i : nat) (d : A) (d' : B) :
  map_each g l = Ok r -> (i < length l)%nat -> g (nth i l d) = Ok (nth i r d').
Proof.
  revert r i. induction l as [|x l IH]; intros r i H Hi; [cbn in Hi; lia|].
  cbn [map_each] in H. destruct (g x) as [y| |] eqn:Ex; try discriminate.
  cbn [bind] in H. destruct (map_each g l) as [ys| |]; try discriminate.
  cbn [bind] in H. injection H as <-.
  destruct i as [|i]; [exact Ex|]. cbn [nth]. apply IH; auto. cbn in Hi. lia.
Qed.

Lemma map_each_In {A B : Type} (g : A -> outcome B) (l : list A) (r : list B) (y : B) :
  map_each g l = Ok r -> In y r -> exists x, In x l /\ g x = Ok y.
Proof.
  revert r. induction l as [|x l IH]; intros r H Hy.
  - injection H as <-. contradiction.
  - cbn [map_each] in H. destruct (g x) as [y0| |] eqn:Ex; try discriminate.
    cbn [bind] in H. destruct (map_each g l) as [ys| |]; try discriminate.
    cbn [bind] in H. injection H as <-. destruct Hy as [<-|Hy].
    + exists x. split; [now left|exact Ex].
    + destruct (IH ys eq_refl Hy) as (x' & Hx' & E). exists x'. split; [now right|exact E].
Qed.

(** The transform has one symbol per suffix-array entry, each the sentinel
    or a symbol of the text. *)
Lemma get_bwt_Ok (text : list ascii) (suffix : list Z) (bwt : list ascii) :
  get_bwt text suffix = Ok bwt ->
  length bwt = length suffix /\ suffix <> [] /\
  (forall c, In c bwt -> c = cDollar \/ In c text) /\
  (forall i, (i < length suffix)%nat ->
     (if nth i suffix 0 =? 0 then Ok cDollar
      else Py.getitem text (nth i suffix 0 - 1)) = Ok (nth i bwt cA)).
Proof.
  unfold get_bwt. destruct suffix as [|w0 suffix]; [discriminate|].
  intros H. split; [eapply map_each_length; eauto|].
  split; [discriminate|]. split.
  - intros c Hc. destruct (map_each_In _ _ _ _ H Hc) as (w & _ & E).
    destruct (w =? 0); [left; congruence|right; eapply getitem_In; eauto].
  - intros i Hi. apply (map_each_nth _ _ _ i 0 cA H Hi).
Qed.

Lemma get_bwt_alphabet (text : list ascii) (suffix : list Z) (bwt : list ascii) :
  get_bwt text suffix = Ok bwt -> forallb in_alphabet text = true ->
  forallb in_alphabet bwt = true.
Proof.
  intros H Hal. apply get_bwt_Ok in H as (_ & _ & Hin & _).
  rewrite forallb_forall in *. intros c Hc.
  destruct (Hin c Hc) as [->|Ht]; [reflexivity|now apply Hal].
Qed.

Lemma suffix_array_unfold (c bstep : Z) (text : list ascii) (strategy : string)
  (compression : Z) :
  suffix_array c bstep text strategy compression =
  (full <- build_sa strategy text ;;
   code <- get_bwt text full ;;
   if c =? 1 then Ok (full, None, None, code)
   else
     sa0 <- Py.getitem full 0 ;;
     r0 <- Py.mod_ sa0 compression ;;
     st <- sample_loop bstep compression full (SS [] [Z.b2z (r0 =? 0)] [] 0) ;;
     Ok (ss_compressed st, Some (ss_bits st), Some (ss_bucket st), code)).
Proof. reflexivity. Qed.

(** What a successful construction has computed. *)
Lemma init_Ok (reference_genome : list ascii) (strategy : string) (comp : Z)
  (self : WaveletTree) :
  __init__ reference_genome strategy comp = Ok self ->
  exists full bwt,
    reference_genome <> [] /\ 1 <= comp /\
    build_sa strategy (with_sentinel reference_genome) = Ok full /\
    get_bwt (with_sentinel reference_genome) full = Ok bwt /\
    f self = c_table (with_sentinel reference_genome) /\
    forallb in_alphabet (with_sentinel reference_genome) = true /\
    create_bit_vecs bwt = Ok (bits self, bucket_bits self, bucket_step_bits self) /\
    n self = Py.len (with_sentinel reference_genome) /\
    compression_sa self = comp /\
    bucket_step_sa self = Z.log2 (Py.len (with_sentinel reference_genome)) /\
    (if comp =? 1
     then sa self = full /\ bitvector self = None /\ bucket_sa self = None
     else exists sa0 r0 st,
         Py.getitem full 0 = Ok sa0 /\ Py.mod_ sa0 comp = Ok r0 /\
         sample_loop (Z.log2 (Py.len (with_sentinel reference_genome))) comp full
           (SS [] [Z.b2z (r0 =? 0)] [] 0) = Ok st /\
         sa self = ss_compressed st /\ bitvector self = Some (ss_bits st) /\
         bucket_sa self = Some (ss_bucket st)).
Proof.
  unfold __init__. intros H.
  destruct (negb _); [discriminate|].
  destruct (Py.len reference_genome <? 1) eqn:Elen; [discriminate|].
  destruct (comp <? 1) eqn:Ecomp; [discriminate|].
  apply Z.ltb_ge in Elen, Ecomp.
  apply bind_Ok in H as (last & Elast & H).
  assert (Etext : (if negb (chr_eq last cDollar) then reference_genome ++ [cDollar]
                   else reference_genome) = with_sentinel reference_genome)
    by (unfold with_sentinel; now rewrite Elast).
  rewrite Etext in H. clear Etext.
  set (text := with_sentinel reference_genome) in *.
  apply bind_Ok in H as (bstep & Ebstep & H).
  assert (Hb : bstep = Z.log2 (Py.len text)).
  { unfold Py.int_log2 in Ebstep. destruct (Py.len text <=? 0); congruence. }
  subst bstep.
  apply bind_Ok in H as ([[[sa1 bv1] bk1] bwt] & Esa & H).
  apply bind_Ok in H as (f1 & Ef & H).
  apply bind_Ok in H as ([[bits1 bb1] bs1] & Ec & H).
  injection H as <-. cbn [f bits bucket_bits bucket_step_bits n compression_sa
                          bucket_step_sa sa bitvector bucket_sa].
  rewrite suffix_array_unfold in Esa.
  apply bind_Ok in Esa as (full & Efull & Esa).
  apply bind_Ok in Esa as (code & Ecode & Esa).
  apply shifts_f_Ok in Ef as [Hal ->].
  exists full, code.
  assert (Hne : reference_genome <> []).
  { intros ->. unfold Py.len in Elen. cbn in Elen. lia. }
  destruct (comp =? 1) eqn:E1.
  - injection Esa as <- <- <- <-. repeat (split; auto).
  - apply bind_Ok in Esa as (sa0 & E0 & Esa).
    apply bind_Ok in Esa as (r0 & Er0 & Esa).
    apply bind_Ok in Esa as (st & Est & Esa).
    injection Esa as <- <- <- <-.
    repeat (split; auto). exists sa0, r0, st. repeat (split; auto).
Qed.

(* ================================================================== *)
(** * Every strategy returns one entry per symbol *)
(* ================================================================== *)

Ltac inv_binds H :=
  repeat (let v := fresh "v" in
          let E := fresh "E" in
          apply bind_Ok in H as (v & E & H)).

Lemma len_replicate {A : Type} (x : A) (m : Z) : 0 <= m -> Py.len (Py.replicate x m) = m.
Proof. intros H. unfold Py.len, Py.replicate. rewrite repeat_length. lia. Qed.

Lemma sorted_insert_length {A : Type} (lt : A -> A -> bool) (x : A) (l : list A) :
  length (sorted_insert lt x l) = S (length l).
Proof.
  induction l as [|y l IH]; [reflexivity|].
  cbn [sorted_insert]. destruct (lt x y); cbn [length]; auto.
Qed.

Lemma sorted_length {A : Type} (lt : A -> A -> bool) (l : list A) :
  length (sorted lt l) = length l.
Proof.
  unfold sorted.
  assert (H : forall acc, length (fold_left (fun acc x => sorted_insert lt x acc) l acc)
                          = (length l + length acc)%nat).
  { induction l as [|x l IH]; intros acc; [reflexivity|].
    cbn [fold_left length]. rewrite IH, sorted_insert_length. lia. }
  rewrite H. cbn. lia.
Qed.

Lemma suffix_array_simple_length (text : list ascii) :
  length (suffix_array_simple text) = length text.
Proof.
  unfold suffix_array_simple. now rewrite length_map, sorted_length, length_map, length_seq.
Qed.

Lemma sort_chars_len (text : list ascii) (order : list Z) :
  ManberMyers.sort_chars text = Ok order -> Py.len order = Py.len text.
Proof.
  unfold ManberMyers.sort_chars. intros H. inv_binds H. injection H as <-.
  revert E1.
  apply (for_each_invariant (fun co : Dict.t Z * list Z => Py.len (snd co) = Py.len text)).
  - intros x s s' Hs Hb. inv_binds Hb. injection Hb as <-. cbn [snd].
    apply setitem_len in E3. congruence.
  - cbn [snd]. apply len_replicate, len_nonneg.
Qed.

Lemma sort_doubled_len (text : list ascii) (step : Z) (order classes r : list Z) :
  ManberMyers.sort_doubled text step order classes = Ok r -> Py.len r = Py.len text.
Proof.
  unfold ManberMyers.sort_doubled. intros H. inv_binds H. injection H as <-.
  revert E1.
  apply (for_each_invariant (fun cn : list Z * list Z => Py.len (snd cn) = Py.len text)).
  - intros x s s' Hs Hb. inv_binds Hb. injection Hb as <-. cbn [snd].
    apply setitem_len in E6. congruence.
  - cbn [snd]. apply len_replicate, len_nonneg.
Qed.

Lemma doubling_loop_len (text : list ascii) (fuel : nat) :
  forall m step order classes r,
    Py.len order = Py.len text ->
    ManberMyers.doubling_loop fuel text m step order classes = Ok r ->
    Py.len r = Py.len text.
Proof.
  induction fuel as [|fuel IH]; intros m step order classes r Ho H;
    cbn [ManberMyers.doubling_loop] in H; destruct (step <? m).
  - discriminate.
  - congruence.
  - inv_binds H. eapply IH; [|exact H]. eapply sort_doubled_len; eauto.
  - congruence.
Qed.

Lemma manbermyers_len (text : list ascii) (r : list Z) :
  suffix_array_manbermyers text = Ok r -> Py.len r = Py.len text.
Proof.
  unfold suffix_array_manbermyers. intros H. inv_binds H.
  eapply doubling_loop_len; [|exact H]. eapply sort_chars_len; eauto.
Qed.

Lemma fill_len (src : list Z) (g : Z -> Z) (l : list Z) (k : Z) (out : list Z)
  (r : Z * list Z) :
  Py.for_each l (k, out) (fun p ks =>
    v <- Py.getitem src p ;;
    out <- Py.setitem (snd ks) (fst ks) (g v) ;;
    Ok (fst ks + 1, out)) = Ok r ->
  Py.len (snd r) = Py.len out.
Proof.
  apply (for_each_invariant (fun ks => Py.len (snd ks) = Py.len out)); [|reflexivity].
  intros x s s' Hs Hb. inv_binds Hb. injection Hb as <-. cbn [snd].
  apply setitem_len in E0. congruence.
Qed.

Lemma merge_loop_len (fuel : nat) (s s12 sa12 sa0 : list Z) (m n0 n02 : Z) :
  forall st r,
    KS.merge_loop fuel s s12 sa12 sa0 m n0 n02 st = Ok r ->
    Py.len r = Py.len (KS.ms_sa st).
Proof.
  induction fuel as [|fuel IH]; intros st r H; cbn [KS.merge_loop] in H;
    destruct (KS.ms_k st <? m); try discriminate; try congruence.
  apply bind_Ok in H as (x & Ex & H).
  apply bind_Ok in H as (j & Ej & H).
  apply bind_Ok in H as (smaller & Es & H).
  apply bind_Ok in H as (st' & Est & H).
  apply IH in H. cbn [KS.ms_sa] in H. rewrite H. clear H IH Es.
  destruct smaller.
  - apply bind_Ok in Est as (out & Eo & Est). apply setitem_len in Eo.
    destruct (KS.ms_t st + 1 =? n02).
    + apply bind_Ok in Est as (ks & Eks & Est). injection Est as <-. cbn [KS.ms_sa].
      apply (fill_len sa0 (fun v => v)) in Eks. congruence.
    + injection Est as <-. exact Eo.
  - apply bind_Ok in Est as (out & Eo & Est). apply setitem_len in Eo.
    destruct (KS.ms_p st + 1 =? n0).
    + apply bind_Ok in Est as (ks & Eks & Est). injection Est as <-. cbn [KS.ms_sa].
      apply (fill_len sa12 (KS.get_i n0)) in Eks. congruence.
    + injection Est as <-. exact Eo.
Qed.

Lemma kaerkkaeinensanders_len (fuel : nat) (t : KS.text) (m k : Z) (r : list Z) :
  0 <= m ->
  KS.suffix_array_kaerkkaeinensanders fuel t m k = Ok r -> Py.len r = m.
Proof.
  intros Hm H. destruct fuel as [|fuel]; [discriminate|].
  cbn [KS.suffix_array_kaerkkaeinensanders] in H.
  apply bind_Ok in H as (s & _ & H).
  apply bind_Ok in H as (sj & _ & H).
  apply bind_Ok in H as (a1 & _ & H).
  apply bind_Ok in H as (a2 & _ & H).
  apply bind_Ok in H as (a3 & _ & H).
  apply bind_Ok in H as (st & _ & H).
  apply bind_Ok in H as (ranked & _ & H).
  apply bind_Ok in H as (sj' & _ & H).
  apply bind_Ok in H as (sa0 & _ & H).
  apply merge_loop_len in H. cbn [KS.ms_sa] in H. rewrite H.
  now apply len_replicate.
Qed.

(** Whatever the strategy, the suffix array has the length of the text. *)
Lemma build_sa_len (strategy : string) (text : list ascii) (full : list Z) :
  build_sa strategy text = Ok full -> Py.len full = Py.len text.
Proof.
  unfold build_sa. destruct (String.eqb strategy "Simple").
  - intros [= <-]. unfold Py.len. now rewrite suffix_array_simple_length.
  - destruct (String.eqb strategy "ManberMyers").
    + apply manbermyers_len.
    + apply kaerkkaeinensanders_len, len_nonneg.
Qed.

(* ================================================================== *)
(** * Valid references and constructed indexes *)
(* ================================================================== *)

Lemma getitem_last {A : Type} (l : list A) (d : A) :
  l <> [] -> Py.getitem l (-1) = Ok (last l d).
Proof.
  intros Hne. destruct (exists_last Hne) as (l' & x & ->).
  rewrite last_last. unfold Py.getitem, Py.norm_index.
  rewrite len_app, len_cons. pose proof (len_nonneg l').
  replace (0 <=? -1) with false by reflexivity. cbn [andb].
  replace (- (Py.len l' + (1 + Py.len [])) <=? -1) with true
    by (symmetry; apply Z.leb_le; change (Py.len (@nil A)) with 0; lia).
  replace (-1 <? 0) with true by reflexivity. cbn [andb].
  change (Py.len (@nil A)) with 0.
  replace (Z.to_nat (-1 + (Py.len l' + (1 + 0)))) with (length l')
    by (unfold Py.len; lia).
  rewrite nth_error_app2 by lia. now rewrite Nat.sub_diag.
Qed.

Lemma is_dna_not_dollar (c : ascii) : is_dna c = true -> chr_eq c cDollar = false.
Proof.
  unfold is_dna. cbn [existsb]. rewrite !orb_true_iff, !chr_eq_true.
  intros [-> | [-> | [-> | [-> | [-> | H]]]]]; try reflexivity. discriminate.
Qed.

Lemma is_dna_in_alphabet (c : ascii) : is_dna c = true -> in_alphabet c = true.
Proof.
  unfold is_dna, in_alphabet, alphabet. cbn [existsb]. intros ->. apply orb_true_r.
Qed.

Lemma filter_all {A : Type} (p : A -> bool) (l : list A) :
  forallb p l = true -> filter p l = l.
Proof.
  induction l as [|x l IH]; [reflexivity|]. cbn [forallb filter].
  intros H. apply andb_prop in H as [-> H]. now rewrite IH.
Qed.

(** The constructor works on the genome followed by one sentinel. *)
Lemma with_sentinel_valid (reference_genome : list ascii) :
  valid_reference reference_genome ->
  with_sentinel reference_genome = terminated reference_genome /\
  genome_of reference_genome <> [] /\
  forallb is_dna (genome_of reference_genome) = true.
Proof.
  intros (g & Hne & Hdna & Hr).
  assert (Hg : filter is_dna g = g) by now apply filter_all.
  destruct Hr as [-> | ->]; unfold terminated, genome_of, with_sentinel.
  - rewrite (getitem_last g cA Hne), Hg.
    assert (Hl : is_dna (last g cA) = true).
    { rewrite forallb_forall in Hdna. apply Hdna.
      destruct (exists_last Hne) as (l' & x & ->). rewrite last_last.
      apply in_or_app. right. now left. }
    rewrite (is_dna_not_dollar _ Hl). cbn [negb]. auto.
  - rewrite (getitem_last (g ++ [cDollar]) cA) by (destruct g; discriminate).
    rewrite last_last. cbn [chr_eq negb]. rewrite filter_app, Hg.
    cbn. rewrite app_nil_r. auto.
Qed.

Lemma terminated_len (reference_genome : list ascii) :
  valid_reference reference_genome -> 2 <= Py.len (terminated reference_genome).
Proof.
  intros H. apply with_sentinel_valid in H as (_ & Hne & _).
  unfold terminated. rewrite len_app, len_cons.
  destruct (genome_of reference_genome); [now elim Hne|].
  rewrite len_cons. pose proof (len_nonneg l). change (Py.len (@nil ascii)) with 0. lia.
Qed.

(** A constructed index over a text of at least two symbols encodes the
    transform its strategy computed, symbol for symbol. *)
Lemma init_encodes (reference_genome : list ascii) (strategy : string) (comp : Z)
  (self : WaveletTree) :
  __init__ reference_genome strategy comp = Ok self ->
  exists bwt,
    bwt_of strategy (with_sentinel reference_genome) = Ok bwt /\
    Py.len bwt = n self /\ forallb in_alphabet bwt = true /\
    create_bit_vecs bwt = Ok (bits self, bucket_bits self, bucket_step_bits self) /\
    (2 <= n self -> encodes self bwt).
Proof.
  intros H. apply init_Ok in H
    as (full & bwt & Hne & Hc & Eb & Eg & Ef & Hal & Ec & En & _).
  exists bwt. unfold bwt_of. rewrite Eb. cbn [bind].
  assert (Hlen : Py.len bwt = n self).
  { rewrite En. apply build_sa_len in Eb. rewrite <- Eb.
    apply get_bwt_Ok in Eg as (El & _). unfold Py.len. now rewrite El. }
  repeat split; auto.
  - eapply get_bwt_alphabet; eauto.
  - intros H2. apply create_bit_vecs_encodes; auto. lia.
Qed.

(** ** A valid reference *)

Lemma gattaca_valid :
  valid_reference (list_ascii_of_string "GATTACA").
Proof.
  exists (list_ascii_of_string "GATTACA"). split; [discriminate|]. split; [reflexivity|].
  now left.
Qed.

(** ** Claim C6 *)

Lemma init_root_bits (reference_genome : list ascii) (strategy : string) (comp : Z)
  (self : WaveletTree) :
  __init__ reference_genome strategy comp = Ok self ->
  exists bwt,
    bwt_of strategy (with_sentinel reference_genome) = Ok bwt /\
    Py.len bwt = n self /\ forallb in_alphabet bwt = true /\ bwt <> [] /\
    Py.getitem (bits self) 0 = Ok (map (node_bit 0) bwt) /\
    Py.getitem (bucket_step_bits self) 0 = Ok (Z.log2 (Py.len bwt)).
Proof.
  intros H. destruct (init_encodes _ _ _ _ H) as (bwt & Eb & El & Hal & Ec & _).
  apply init_Ok in H as (full & bwt' & _ & _ & _ & Eg & _).
  exists bwt. repeat split; auto.
  - unfold bwt_of in Eb. apply bind_Ok in Eb as (full' & _ & Eb).
    apply get_bwt_Ok in Eb as (Elen & Hne & _). intros ->.
    destruct full'; [now elim Hne|discriminate].
  - assert (Hne : bwt <> []).
    { unfold bwt_of in Eb. apply bind_Ok in Eb as (full' & _ & Eb).
      apply get_bwt_Ok in Eb as (Elen & Hne & _). intros ->.
      destruct full'; [now elim Hne|discriminate]. }
    destruct (create_bit_vecs_spec bwt Hne)
      as (b0 & b1 & b2 & b3 & b4 & s1 & s2 & s3 & s4 & E & _).
    rewrite E in Ec.
    pose proof (f_equal (fun r => match r with Ok (a, _, _) => a | _ => [] end) Ec) as Ebits.
    cbv beta iota in Ebits. rewrite <- Ebits. reflexivity.
  - assert (Hne : bwt <> []).
    { unfold bwt_of in Eb. apply bind_Ok in Eb as (full' & _ & Eb).
      apply get_bwt_Ok in Eb as (Elen & Hne & _). intros ->.
      destruct full'; [now elim Hne|discriminate]. }
    destruct (create_bit_vecs_spec bwt Hne)
      as (b0 & b1 & b2 & b3 & b4 & s1 & s2 & s3 & s4 & E & _).
    rewrite E in Ec.
    pose proof (f_equal (fun r => match r with Ok (_, _, a) => a | _ => [] end) Ec) as Es.
    cbv beta iota in Es. rewrite <- Es. reflexivity.
Qed.

(** C6, as amended: in every constructed index the root bit vector has
    [B0[i] = 1] exactly when [BWT[i]] is one of [C], [G], [T], [$]; the
    symbols [N] and [A] of the left subtree get 0. *)
Theorem root_bit_iff_right_subtree (reference_genome : list ascii) (strategy : string)
  (comp : Z) (self : WaveletTree) :
  __init__ reference_genome strategy comp = Ok self ->
  exists bwt b0,
    bwt_of strategy (with_sentinel reference_genome) = Ok bwt /\
    Py.getitem (bits self) 0 = Ok b0 /\
    forall i, 0 <= i < n self ->
      exists ch bit,
        Py.getitem bwt i = Ok ch /\ Py.getitem b0 i = Ok bit /\
        (bit = true <-> In ch [cC; cG; cT; cDollar]).
Proof.
  intros H. destruct (init_root_bits _ _ _ _ H) as (bwt & Eb & El & Hal & _ & E0 & _).
  exists bwt, (map (node_bit 0) bwt). repeat split; auto.
  intros i Hi. exists (nth (Z.to_nat i) bwt cA), (node_bit 0 (nth (Z.to_nat i) bwt cA)).
  rewrite <- El in Hi.
  split; [now apply getitem_nth|]. split; [now apply getitem_map_nth|].
  assert (Hx : in_alphabet (nth (Z.to_nat i) bwt cA) = true).
  { rewrite forallb_forall in Hal. apply Hal, nth_In. unfold Py.len in Hi. lia. }
  apply in_alphabet_cases in Hx as [-> | [-> | [-> | [-> | [-> | ->]]]]];
    vm_compute; split; intros Hh; try discriminate; auto;
    repeat (destruct Hh as [Hh|Hh]; try discriminate Hh); contradiction.
Qed.

Lemma root_bit_iff_right_subtree_witness :
  exists self,
    __init__ (list_ascii_of_string "GATTACA") "ManberMyers" 1 = Ok self /\
    exists bwt b0,
      bwt_of "ManberMyers" (with_sentinel (list_ascii_of_string "GATTACA")) = Ok bwt /\
      Py.getitem (bits self) 0 = Ok b0 /\
      forall i, 0 <= i < n self ->
        exists ch bit,
          Py.getitem bwt i = Ok ch /\ Py.getitem b0 i = Ok bit /\
          (bit = true <-> In ch [cC; cG; cT; cDollar]).
Proof.
  eexists. split; [vm_compute; reflexivity|].
  apply (root_bit_iff_right_subtree (list_ascii_of_string "GATTACA") "ManberMyers" 1).
  vm_compute; reflexivity.
Defined.

(** The claim as stated fails: for the reference ["A"] the transform is
    ["A$"], its first symbol [A] is in [{A, C, G, T, $}], and the root bit
    at 0 is 0. *)
Lemma root_bit_of_A_is_zero :
  exists self b0,
    __init__ [cA] "Simple" 1 = Ok self /\
    bwt_of "Simple" (with_sentinel [cA]) = Ok [cA; cDollar] /\
    Py.getitem (bits self) 0 = Ok b0 /\
    Py.getitem [cA; cDollar] 0 = Ok cA /\
    In cA [cA; cC; cG; cT; cDollar] /\
    Py.getitem b0 0 = Ok false.
Proof.
  do 2 eexists. split; [vm_compute; reflexivity|].
  split; [vm_compute; reflexivity|]. split; [vm_compute; reflexivity|].
  split; [reflexivity|]. split; [now left|reflexivity].
Qed.

(** ** Claim C9 *)

(** The strides that [create_bit_vecs] stores: the guarded formula for
    the nodes 1 to 4, the bare logarithm for the root. *)
Lemma bucket_strides (bwt : list ascii) (bv : list (list bool)) (bk : list (list Z))
  (steps : list Z) :
  create_bit_vecs bwt = Ok (bv, bk, steps) ->
  Py.getitem steps 0 = Ok (Z.log2 (Py.len bwt)) /\
  forall k, (1 <= k < 5)%nat -> routed k bwt <> [] ->
    Py.getitem steps (Z.of_nat k) = Ok (Z.max (Z.log2 (Py.len (routed k bwt))) 1).
Proof.
  intros H.
  assert (Hne : bwt <> []).
  { intros ->. vm_compute in H. discriminate. }
  destruct (create_bit_vecs_spec bwt Hne)
    as (b0 & b1 & b2 & b3 & b4 & s1 & s2 & s3 & s4 & E & _ & H1 & H2 & H3 & H4).
  rewrite E in H. injection H as _ _ <-. split; [reflexivity|].
  intros k Hk Hr. destruct k as [|[|[|[|[|k]]]]]; try lia.
  - destruct (H1 Hr) as [-> _]. reflexivity.
  - destruct (H2 Hr) as [-> _]. reflexivity.
  - destruct (H3 Hr) as [-> _]. reflexivity.
  - destruct (H4 Hr) as [-> _]. reflexivity.
Qed.

(** C9 fails at the root: the reference ["$"] is accepted, its root bit
    vector has one bit, and the stored stride is [floor(log2 1) = 0], not
    [max(0, 1) = 1]; every query then divides by zero. *)
Lemma root_stride_zero :
  exists self,
    __init__ [cDollar] "Simple" 32 = Ok self /\
    Py.getitem (bits self) 0 = Ok [true] /\
    Py.getitem (bucket_step_bits self) 0 = Ok 0 /\
    Z.max (Z.log2 (Py.len [true])) 1 = 1 /\
    rank self (PStr cDollar) 0 = Raise ZeroDivisionError /\
    access self 0 0 = Raise ZeroDivisionError.
Proof.
  eexists. split; [vm_compute; reflexivity|]. repeat split; vm_compute; reflexivity.
Qed.

(** ** Claim C7 *)

Lemma raises_bind {A B : Type} (m : outcome A) (k : A -> outcome B) :
  raises m -> raises (bind m k).
Proof. intros [e ->]. now exists e. Qed.

Lemma raises_Raise {A : Type} (e : exn) : raises (@Raise A e).
Proof. now exists e. Qed.

Lemma rank_bit_node_high (self : WaveletTree) (i node : Z) (bv : list bool) :
  Py.getitem (bits self) node = Ok bv -> Py.len bv <= i ->
  raises (rank_bit_node self i node).
Proof.
  intros Hb Hi. unfold rank_bit_node.
  apply bind_raises; [apply getitem_no_fuel|]. intros step _.
  apply bind_raises; [apply int_div_no_fuel|]. intros bi _.
  rewrite Hb. cbn [bind].
  apply bind_raises.
  { apply for_each_no_fuel. intros x s. apply bind_no_fuel; [apply getitem_no_fuel|].
    discriminate. }
  intros r _. apply bind_raises; [apply getitem_no_fuel|]. intros bucket _.
  apply bind_raises; [apply getitem_no_fuel|]. intros base _.
  rewrite getitem_high by exact Hi. apply raises_Raise.
Qed.

Lemma codes_nonempty (c : pyval) (cs : list bool) :
  Dict.get codes c = Ok cs -> cs <> [].
Proof.
  unfold codes, minidict. cbn [Dict.get].
  repeat (destruct (pyval_eqb _ c); [intros [= <-]; discriminate|]).
  discriminate.
Qed.

Lemma rank_high (self : WaveletTree) (c : pyval) (i : Z) (bv : list bool) :
  Py.getitem (bits self) 0 = Ok bv -> Py.len bv <= i -> raises (rank self c i).
Proof.
  intros Hb Hi. unfold rank.
  apply bind_raises; [apply dict_get_no_fuel|]. intros cs Ecs.
  apply codes_nonempty in Ecs. destruct cs as [|code cs]; [now elim Ecs|].
  cbn [rank_loop as_int bind]. apply raises_bind.
  eapply rank_bit_node_high; eauto.
Qed.

Lemma access_high (self : WaveletTree) (i : Z) (bv : list bool) :
  Py.getitem (bits self) 0 = Ok bv -> Py.len bv <= i -> raises (access self i 0).
Proof.
  intros Hb Hi. unfold access.
  change (Py.getitem meta 0) with (Ok (A := list pyval) [PNone; PInt 0; PInt 1; PInt 2]).
  cbn [bind].
  change (Py.getitem [PNone; PInt 0; PInt 1; PInt 2] 2) with (Ok (PInt 1)).
  cbn [bind is_none is_str]. rewrite Hb. cbn [bind].
  rewrite getitem_high by exact Hi. apply raises_Raise.
Qed.

Lemma for_each_measure {A S : Type} (mu : S -> Z) (l : list A) (s s' : S) body :
  (forall x s s', body x s = Ok s' -> mu s' = mu s + 1) ->
  Py.for_each l s body = Ok s' -> mu s' = mu s + Py.len l.
Proof.
  intros Hb. revert s. induction l as [|x l IH]; intros s H.
  - injection H as <-. change (Py.len (@nil A)) with 0. lia.
  - cbn [Py.for_each] in H. apply bind_Ok in H as (s1 & E1 & H).
    apply IH in H. apply Hb in E1. rewrite len_cons. lia.
Qed.

Lemma sample_loop_bits_len (bstep comp : Z) (full : list Z) (st st' : sampling_state) :
  sample_loop bstep comp full st = Ok st' ->
  Py.len (ss_bits st') = Py.len (ss_bits st) + Py.len full.
Proof.
  unfold sample_loop. intros H.
  apply (for_each_measure (fun s => Py.len (ss_bits s))) in H.
  - rewrite H. f_equal. unfold Py.len.
    rewrite length_combine, range_length. rewrite Z.sub_0_r, Nat2Z.id. lia.
  - clear. intros [index num] s s' Hb. cbn [fst snd] in Hb.
    apply bind_Ok in Hb as (r & _ & Hb).
    assert (Hl : forall b,
      (if 0 <? index
       then m <- Py.mod_ index bstep ;;
            (if m =? 0
             then Ok (SS (ss_compressed b) (ss_bucket b ++ [ss_rank b]) (ss_bits b) (ss_rank b))
             else Ok b)
       else Ok b) = Ok s' -> ss_bits s' = ss_bits b).
    { intros b Hb'. destruct (0 <? index).
      - apply bind_Ok in Hb' as (m & _ & Hb'). destruct (m =? 0); now injection Hb' as <-.
      - now injection Hb' as <-. }
    apply Hl in Hb. rewrite Hb.
    destruct (r =? 0); cbn [ss_bits]; rewrite len_app; reflexivity.
Qed.

Lemma get_sa_high (reference_genome : list ascii) (strategy : string) (comp : Z)
  (self : WaveletTree) (fuel : nat) (i : Z) :
  __init__ reference_genome strategy comp = Ok self -> n self <= i ->
  raises (get_sa fuel self i).
Proof.
  intros H Hi. apply init_Ok in H
    as (full & bwt & _ & _ & Eb & _ & _ & _ & _ & En & Ec & _ & Hs).
  apply build_sa_len in Eb. unfold get_sa. rewrite Ec.
  destruct (comp =? 1).
  - destruct Hs as (-> & _). rewrite getitem_high by lia. apply raises_Raise.
  - destruct Hs as (sa0 & r0 & st & _ & _ & Est & _ & Ebv & _).
    apply sample_loop_bits_len in Est. cbn [ss_bits] in Est.
    change (Py.len (@nil bool)) with 0 in Est.
    apply raises_bind. unfold bitvector_at. rewrite Ebv.
    rewrite getitem_high by lia. apply raises_Raise.
Qed.

(** C7, as amended: on every constructed index, [access(i)], [rank(c, i)]
    and [get_sa(i)] raise for every index [i >= n].  Negative indices are
    not rejected: Python counts them from the end. *)
Theorem index_beyond_end_raises (reference_genome : list ascii) (strategy : string)
  (comp : Z) (self : WaveletTree) (fuel : nat) (c : pyval) (i : Z) :
  __init__ reference_genome strategy comp = Ok self -> n self <= i ->
  raises (access self i 0) /\ raises (rank self c i) /\ raises (get_sa fuel self i).
Proof.
  intros H Hi. destruct (init_root_bits _ _ _ _ H) as (bwt & _ & El & _ & _ & E0 & _).
  assert (Hlen : Py.len (map (node_bit 0) bwt) <= i) by (rewrite len_map; lia).
  split; [eapply access_high; eauto|].
  split; [eapply rank_high; eauto|].
  eapply get_sa_high; eauto.
Qed.

Lemma index_beyond_end_raises_witness :
  exists self,
    __init__ (list_ascii_of_string "GATTACA") "KaerkkaeinenSanders" 3 = Ok self /\
    n self <= 8 /\
    raises (access self 8 0) /\ raises (rank self (PStr cA) 8) /\
    raises (get_sa 8 self 8).
Proof.
  eexists. split; [vm_compute; reflexivity|]. split; [vm_compute; discriminate|].
  apply (index_beyond_end_raises (list_ascii_of_string "GATTACA")
           "KaerkkaeinenSanders" 3); [vm_compute; reflexivity|vm_compute; discriminate].
Defined.

(** The claim as stated fails for negative indices: on the index of ["A"]
    ([n = 2]) the index [-1] is outside [[0, n)], and [access], [rank] and
    [get_sa] all return a value. *)
Lemma negative_index_returns :
  exists self,
    __init__ [cA] "Simple" 1 = Ok self /\ n self = 2 /\
    access self (-1) 0 = Ok (PStr cDollar) /\
    rank self (PStr cDollar) (-1) = Ok 1 /\
    get_sa 0 self (-1) = Ok 0.
Proof.
  eexists. split; [vm_compute; reflexivity|]. repeat split; vm_compute; reflexivity.
Qed.

(** ** Claim C8 *)

Lemma count_range_raises (text : list ascii) :
  forallb in_alphabet text = false ->
  Py.for_each (Py.range 0 (Py.len text)) (dict6 0 0 0 0 0 0)
    (fun i count =>
       c <- Py.getitem text i ;;
       v <- Dict.get count (PStr c) ;;
       Ok (Dict.set count (PStr c) (v + 1)))
  = Raise KeyError.
Proof.
  intros H.
  change (Py.for_each (Py.range 0 (Py.len text)) (dict6 0 0 0 0 0 0)
            (fun i s => c <- Py.getitem text i ;; count_body c s) = Raise KeyError).
  now rewrite for_each_range_getitem, count_loop, H.
Qed.

Lemma sort_chars_raises (text : list ascii) :
  forallb in_alphabet text = false -> ManberMyers.sort_chars text = Raise KeyError.
Proof.
  intros H. unfold ManberMyers.sort_chars.
  pose proof (count_range_raises text H) as E. unfold dict6 in E. rewrite E.
  reflexivity.
Qed.

Lemma to_int_raises (text : list ascii) :
  forallb in_alphabet text = false -> KS.to_int text = Raise KeyError.
Proof.
  unfold KS.to_int. induction text as [|x l IH]; [discriminate|].
  cbn [forallb map_each]. intros H. destruct (in_alphabet x) eqn:Hx.
  - cbn [andb] in H. rewrite (IH H).
    apply in_alphabet_cases in Hx as [-> | [-> | [-> | [-> | [-> | ->]]]]];
      reflexivity.
  - change [(PStr cDollar, 1); (PStr cA, 2); (PStr cC, 3); (PStr cG, 4);
            (PStr cN, 5); (PStr cT, 6)] with (dict6 1 2 3 4 5 6).
    now rewrite dict6_get_outside.
Qed.

Lemma build_sa_invalid (strategy : string) (text : list ascii) :
  text <> [] -> forallb in_alphabet text = false ->
  build_sa strategy text <> OutOfFuel.
Proof.
  intros Hne H. unfold build_sa. destruct (String.eqb strategy "Simple"); [discriminate|].
  destruct (String.eqb strategy "ManberMyers").
  - unfold suffix_array_manbermyers. now rewrite sort_chars_raises.
  - cbn [KS.suffix_array_kaerkkaeinensanders].
    destruct text as [|x l]; [now elim Hne|].
    change (Py.getitem (x :: l) 0) with (Ok x). cbn [bind].
    now rewrite to_int_raises.
Qed.

Lemma get_bwt_no_fuel (text : list ascii) (full : list Z) :
  get_bwt text full <> OutOfFuel.
Proof.
  unfold get_bwt. destruct full; [discriminate|].
  apply map_each_no_fuel. intros w. destruct (w =? 0); [discriminate|].
  apply getitem_no_fuel.
Qed.

Lemma sample_loop_no_fuel (bstep comp : Z) (full : list Z) (st : sampling_state) :
  sample_loop bstep comp full st <> OutOfFuel.
Proof.
  unfold sample_loop. apply for_each_no_fuel. intros x s.
  apply bind_no_fuel; [apply mod_no_fuel|]. intros r.
  destruct (0 <? fst x); [|discriminate].
  apply bind_no_fuel; [apply mod_no_fuel|]. intros m.
  destruct (m =? 0); discriminate.
Qed.

Lemma suffix_array_invalid (c bstep : Z) (text : list ascii) (strategy : string)
  (comp : Z) :
  text <> [] -> forallb in_alphabet text = false ->
  suffix_array c bstep text strategy comp <> OutOfFuel.
Proof.
  intros Hne H. rewrite suffix_array_unfold.
  apply bind_no_fuel; [now apply build_sa_invalid|]. intros full.
  apply bind_no_fuel; [apply get_bwt_no_fuel|]. intros code.
  destruct (c =? 1); [discriminate|].
  apply bind_no_fuel; [apply getitem_no_fuel|]. intros sa0.
  apply bind_no_fuel; [apply mod_no_fuel|]. intros r0.
  apply bind_no_fuel; [apply sample_loop_no_fuel|]. discriminate.
Qed.

(** C8: whatever the strategy and the sample rate, construction from an
    input that holds a symbol outside [{A, C, G, N, T, $}] raises an
    exception: no index object is returned. *)
Theorem invalid_symbol_raises (reference_genome : list ascii) (strategy : string)
  (comp : Z) :
  (exists c, In c reference_genome /\ in_alphabet c = false) ->
  raises (__init__ reference_genome strategy comp).
Proof.
  intros (c & Hin & Hc). unfold __init__.
  destruct (negb _); [apply raises_Raise|].
  destruct (Py.len reference_genome <? 1); [apply raises_Raise|].
  destruct (comp <? 1); [apply raises_Raise|].
  assert (Hne : reference_genome <> []) by (intros ->; contradiction).
  rewrite (getitem_last reference_genome cA Hne). cbn [bind].
  set (text := if negb (chr_eq (last reference_genome cA) cDollar)
               then reference_genome ++ [cDollar] else reference_genome).
  assert (Hin' : In c text).
  { unfold text. destruct (negb _); [apply in_or_app; now left|exact Hin]. }
  assert (Hal : forallb in_alphabet text = false).
  { destruct (forallb in_alphabet text) eqn:E; [|reflexivity].
    rewrite forallb_forall in E. rewrite (E c Hin') in Hc. discriminate. }
  assert (Hne' : text <> []) by (intros E; rewrite E in Hin'; contradiction).
  apply bind_raises.
  { unfold Py.int_log2. destruct (Py.len text <=? 0); discriminate. }
  intros bstep _. apply bind_raises; [now apply suffix_array_invalid|].
  intros [[[sa1 bv1] bk1] bwt] _. rewrite shifts_f_raises by exact Hal.
  apply raises_Raise.
Qed.

Lemma invalid_symbol_raises_witness :
  (exists c, In c (list_ascii_of_string "GAXTACA") /\ in_alphabet c = false) /\
  raises (__init__ (list_ascii_of_string "GAXTACA") "Simple" 4).
Proof.
  assert (H : exists c, In c (list_ascii_of_string "GAXTACA") /\ in_alphabet c = false).
  { exists "X"%char. split; [vm_compute; tauto|reflexivity]. }
  split; [exact H|].
  apply (invalid_symbol_raises (list_ascii_of_string "GAXTACA") "Simple" 4 H).
Defined.

(* ================================================================== *)
(** * The order on strings and the suffix array of [Simple] *)
(* ================================================================== *)

Lemma str_lt_irrefl (a : list ascii) : str_lt a a = false.
Proof.
  induction a as [|x a IH]; [reflexivity|]. cbn [str_lt].
  now rewrite Nat.ltb_irrefl.
Qed.

Lemma str_lt_trans (a b c : list ascii) :
  str_lt a b = true -> str_lt b c = true -> str_lt a c = true.
Proof.
  revert b c. induction a as [|x a IH]; intros [|y b] [|z c]; cbn [str_lt];
    try discriminate; auto.
  destruct (nat_of_ascii x <? nat_of_ascii y)%nat eqn:Exy;
    destruct (nat_of_ascii y <? nat_of_ascii x)%nat eqn:Eyx;
    destruct (nat_of_ascii y <? nat_of_ascii z)%nat eqn:Eyz;
    destruct (nat_of_ascii z <? nat_of_ascii y)%nat eqn:Ezy;
    try discriminate;
    repeat match goal with
      | H : (_ <? _)%nat = true |- _ => apply Nat.ltb_lt in H
      | H : (_ <? _)%nat = false |- _ => apply Nat.ltb_ge in H
      end;
    intros H1 H2.
  all: try (replace (nat_of_ascii x <? nat_of_ascii z)%nat with true
              by (symmetry; apply Nat.ltb_lt; lia); reflexivity).
  assert (Hxz : nat_of_ascii x = nat_of_ascii z) by lia.
  rewrite Hxz, Nat.ltb_irrefl. eauto.
Qed.

Lemma nat_of_ascii_inj (x y : ascii) : nat_of_ascii x = nat_of_ascii y -> x = y.
Proof.
  intros H. rewrite <- (ascii_nat_embedding x), <- (ascii_nat_embedding y).
  now rewrite H.
Qed.

Lemma str_lt_total (a b : list ascii) :
  a <> b -> str_lt a b = true \/ str_lt b a = true.
Proof.
  revert b. induction a as [|x a IH]; intros [|y b] Hne; cbn [str_lt].
  - now elim Hne.
  - now left.
  - now right.
  - destruct (nat_of_ascii x <? nat_of_ascii y)%nat eqn:Exy; [now left|].
    destruct (nat_of_ascii y <? nat_of_ascii x)%nat eqn:Eyx; [now right|].
    apply Nat.ltb_ge in Exy, Eyx.
    assert (x = y) by (apply nat_of_ascii_inj; lia). subst y.
    apply IH. congruence.
Qed.

Lemma str_lt_asym (a b : list ascii) : str_lt a b = true -> str_lt b a = false.
Proof.
  intros H. destruct (str_lt b a) eqn:E; [|reflexivity].
  pose proof (str_lt_trans _ _ _ H E) as F. now rewrite str_lt_irrefl in F.
Qed.

Lemma str_eqb_eq (a b : list ascii) : str_eqb a b = true <-> a = b.
Proof.
  revert b. induction a as [|x a IH]; intros [|y b]; cbn [str_eqb];
    split; try discriminate; auto.
  - intros H. apply andb_prop in H as [H1 H2]. apply Ascii.eqb_eq in H1.
    apply IH in H2. congruence.
  - intros [= -> ->]. rewrite Ascii.eqb_refl. now apply IH.
Qed.

Lemma tuple_lt_trans (p q r : list ascii * Z) :
  tuple_lt p q = true -> tuple_lt q r = true -> tuple_lt p r = true.
Proof.
  destruct p as [a i], q as [b j], r as [c k]. unfold tuple_lt. cbn [fst snd].
  destruct (str_eqb a b) eqn:Eab; destruct (str_eqb b c) eqn:Ebc;
    try (apply str_eqb_eq in Eab; subst b); try (apply str_eqb_eq in Ebc; subst c).
  - assert (E : str_eqb a a = true) by now apply str_eqb_eq. rewrite E.
    intros H1 H2. apply Z.ltb_lt in H1, H2. apply Z.ltb_lt. lia.
  - now rewrite Ebc.
  - now rewrite Eab.
  - intros H1 H2. pose proof (str_lt_trans _ _ _ H1 H2) as H3.
    destruct (str_eqb a c) eqn:Eac; [|exact H3].
    apply str_eqb_eq in Eac. subst c. now rewrite (str_lt_asym _ _ H1) in H2.
Qed.

Lemma tuple_lt_irrefl (p : list ascii * Z) : tuple_lt p p = false.
Proof.
  destruct p as [a i]. unfold tuple_lt. cbn [fst snd].
  assert (E : str_eqb a a = true) by now apply str_eqb_eq.
  rewrite E. apply Z.ltb_irrefl.
Qed.

Section Sorted.

Context {A : Type} (lt : A -> A -> bool).
Hypothesis lt_trans : forall a b c, lt a b = true -> lt b c = true -> lt a c = true.
Hypothesis lt_irrefl : forall a, lt a a = false.

Lemma sorted_insert_perm (x : A) (l : list A) :
  Permutation (sorted_insert lt x l) (x :: l).
Proof.
  induction l as [|y l IH]; [reflexivity|]. cbn [sorted_insert].
  destruct (lt x y); [reflexivity|].
  rewrite IH. apply perm_swap.
Qed.

Lemma sorted_insert_sorted (x : A) (l : list A) :
  StronglySorted (fun a b => lt b a = false) l ->
  StronglySorted (fun a b => lt b a = false) (sorted_insert lt x l).
Proof.
  induction l as [|y l IH]; intros Hs; cbn [sorted_insert].
  - constructor; constructor.
  - inversion Hs as [|? ? Hl Hy]; subst. destruct (lt x y) eqn:E.
    + constructor; [exact Hs|]. constructor.
      * destruct (lt y x) eqn:F; [|reflexivity].
        pose proof (lt_trans _ _ _ E F) as G. now rewrite lt_irrefl in G.
      * rewrite Forall_forall in *. intros z Hz. specialize (Hy z Hz).
        destruct (lt z x) eqn:F; [|reflexivity].
        pose proof (lt_trans _ _ _ F E) as G. congruence.
    + constructor; [now apply IH|].
      rewrite Forall_forall in *. intros z Hz.
      apply (Permutation_in _ (sorted_insert_perm x l)) in Hz.
      destruct Hz as [<-|Hz]; [exact E|now apply Hy].
Qed.

Lemma sorted_fold_spec (l acc : list A) :
  StronglySorted (fun a b => lt b a = false) acc ->
  Permutation (fold_left (fun acc x => sorted_insert lt x acc) l acc) (l ++ acc) /\
  StronglySorted (fun a b => lt b a = false)
    (fold_left (fun acc x => sorted_insert lt x acc) l acc).
Proof.
  revert acc. induction l as [|x l IH]; intros acc Hs; cbn [fold_left app].
  - split; [reflexivity|exact Hs].
  - destruct (IH (sorted_insert lt x acc) (sorted_insert_sorted x acc Hs)) as [Hp Hs'].
    split; [|exact Hs']. rewrite Hp.
    rewrite sorted_insert_perm. symmetry. apply Permutation_middle.
Qed.

Lemma sorted_spec (l : list A) :
  Permutation (sorted lt l) l /\
  StronglySorted (fun a b => lt b a = false) (sorted lt l).
Proof.
  unfold sorted. destruct (sorted_fold_spec l [] (SSorted_nil _)) as [Hp Hs].
  rewrite app_nil_r in Hp. auto.
Qed.

End Sorted.

Lemma suf_length (text : list ascii) (p : nat) : length (suf text p) = (length text - p)%nat.
Proof. unfold suf. apply length_skipn. Qed.

Lemma suf_inj (text : list ascii) (p q : nat) :
  (p < length text)%nat -> (q < length text)%nat -> suf text p = suf text q -> p = q.
Proof.
  intros Hp Hq E. apply (f_equal (@length ascii)) in E. rewrite !suf_length in E. lia.
Qed.

Lemma StronglySorted_map {A B : Type} (R : B -> B -> Prop) (g : A -> B) (l : list A) :
  StronglySorted (fun a b => R (g a) (g b)) l -> StronglySorted R (map g l).
Proof.
  induction 1 as [|x l Hs IH Hx]; cbn [map]; constructor; auto.
  rewrite Forall_forall in *. intros y Hy. apply in_map_iff in Hy as (z & <- & Hz). auto.
Qed.

Lemma StronglySorted_weaken {A : Type} (R R' : A -> A -> Prop) (l : list A) :
  NoDup l ->
  (forall a b, In a l -> In b l -> a <> b -> R a b -> R' a b) ->
  StronglySorted R l -> StronglySorted R' l.
Proof.
  intros Hnd HR Hs. induction Hs as [|x l Hs IH Hx]; constructor.
  - inversion Hnd; subst. apply IH; auto. intros a b Ha Hb. apply HR; now right.
  - inversion Hnd as [|? ? Hnx _]; subst.
    rewrite Forall_forall in *. intros y Hy.
    apply HR; [now left|now right| |auto]. intros ->. contradiction.
Qed.

Lemma NoDup_map_inj {A B : Type} (g : A -> B) (l : list A) :
  (forall a b, In a l -> In b l -> g a = g b -> a = b) ->
  NoDup l -> NoDup (map g l).
Proof.
  intros Hg Hnd. induction Hnd as [|x l Hx Hnd IH]; cbn [map]; constructor.
  - intros Hin. apply in_map_iff in Hin as (y & E & Hy).
    assert (y = x) by (apply Hg; [now right|now left|exact E]). subst y. contradiction.
  - apply IH. intros a b Ha Hb. apply Hg; now right.
Qed.

(** [suffix_array_simple] returns the suffix array. *)
Lemma suffix_array_simple_spec (text : list ascii) :
  is_suffix_array text (suffix_array_simple text).
Proof.
  unfold suffix_array_simple.
  set (pairs := map (fun i => (skipn i text, Z.of_nat i)) (seq 0 (length text))).
  destruct (sorted_spec tuple_lt tuple_lt_trans tuple_lt_irrefl pairs) as [Hp Hs].
  set (srt := sorted tuple_lt pairs) in *.
  exists (map (fun pr => Z.to_nat (snd pr)) srt).
  assert (Hin : forall pr, In pr srt ->
            exists i, (i < length text)%nat /\ pr = (suf text i, Z.of_nat i)).
  { intros pr Hpr. apply (Permutation_in _ Hp) in Hpr. unfold pairs in Hpr.
    apply in_map_iff in Hpr as (i & <- & Hi). apply in_seq in Hi. exists i.
    split; [lia|reflexivity]. }
  assert (Hnd : NoDup srt).
  { apply (Permutation_NoDup (Permutation_sym Hp)). unfold pairs.
    apply NoDup_map_inj; [|apply seq_NoDup].
    intros a b _ _ [= _ E]. lia. }
  split; [|split].
  - rewrite map_map. apply map_ext_in. intros pr Hpr.
    destruct (Hin pr Hpr) as (i & _ & ->). cbn [snd]. lia.
  - rewrite Hp. unfold pairs. rewrite map_map. cbn [snd].
    erewrite map_ext; [rewrite map_id; reflexivity|]. intros i. cbn. lia.
  - unfold suffix_sorted. apply StronglySorted_map.
    revert Hs. apply StronglySorted_weaken; [exact Hnd|]. intros a b Ha Hb Hne Hab.
    destruct (Hin a Ha) as (i & Hi & ->). destruct (Hin b Hb) as (j & Hj & ->).
    cbn [snd]. rewrite !Nat2Z.id.
    unfold tuple_lt in Hab. cbn [fst snd] in Hab.
    assert (Hij : i <> j) by congruence.
    destruct (str_eqb (suf text j) (suf text i)) eqn:E.
    + apply str_eqb_eq in E. apply suf_inj in E; auto; congruence.
    + destruct (str_lt_total (suf text i) (suf text j)) as [H|H]; auto.
      * intros F. apply suf_inj in F; auto.
      * congruence.
Qed.

(* ================================================================== *)
(** * Sorted lists *)
(* ================================================================== *)

Lemma StronglySorted_filter {A : Type} (R : A -> A -> Prop) (p : A -> bool) (l : list A) :
  StronglySorted R l -> StronglySorted R (filter p l).
Proof.
  induction 1 as [|x l Hs IH Hx]; cbn [filter]; [constructor|].
  destruct (p x); [|exact IH]. constructor; [exact IH|].
  rewrite Forall_forall in *. intros y Hy. apply filter_In in Hy as [Hy _]. auto.
Qed.

Lemma Permutation_filter_compat {A : Type} (p : A -> bool) (l l' : list A) :
  Permutation l l' -> Permutation (filter p l) (filter p l').
Proof.
  induction 1 as [|x l l' Hp IH|x y l|l l' l'' H1 IH1 H2 IH2]; cbn [filter].
  - constructor.
  - destruct (p x); [now constructor|exact IH].
  - destruct (p x), (p y); try reflexivity. apply perm_swap.
  - now transitivity (filter p l').
Qed.

Lemma map_filter_comm {A B : Type} (g : A -> B) (p : B -> bool) (l : list A) :
  map g (filter (fun x => p (g x)) l) = filter p (map g l).
Proof.
  induction l as [|x l IH]; [reflexivity|]. cbn [filter map].
  destruct (p (g x)); cbn [map]; now rewrite IH.
Qed.

(** Two lists sorted by an asymmetric relation that hold the same
    elements are equal. *)
Lemma sorted_perm_eq {A : Type} (R : A -> A -> Prop) (l1 l2 : list A) :
  (forall a b, R a b -> R b a -> False) ->
  StronglySorted R l1 -> StronglySorted R l2 -> Permutation l1 l2 -> l1 = l2.
Proof.
  intros Hasym Hs1. revert l2. induction Hs1 as [|x l1 Hs1 IH Hx]; intros l2 Hs2 Hp.
  - apply Permutation_nil in Hp. now subst.
  - destruct l2 as [|y l2]; [apply Permutation_sym, Permutation_nil in Hp; discriminate|].
    inversion Hs2 as [|? ? Hs2' Hy]; subst.
    rewrite Forall_forall in Hx, Hy.
    assert (Exy : x = y).
    { assert (Hyin : In y (x :: l1))
        by (apply (Permutation_in _ (Permutation_sym Hp)); now left).
      assert (Hxin : In x (y :: l2)) by (apply (Permutation_in _ Hp); now left).
      destruct Hyin as [E|Hyin]; [exact E|].
      destruct Hxin as [E|Hxin]; [now symmetry|].
      exfalso. apply (Hasym x y); auto. }
    subst y. f_equal. apply IH; auto. eapply Permutation_cons_inv; eauto.
Qed.

Lemma filter_none {A : Type} (p : A -> bool) (l : list A) :
  (forall x, In x l -> p x = false) -> filter p l = [].
Proof.
  induction l as [|x l IH]; intros H; [reflexivity|]. cbn [filter].
  rewrite (H x) by now left. apply IH. intros y Hy. apply H. now right.
Qed.

(** A list sorted by a key is the block of the smaller keys, then the
    block of the key, then the block of the larger keys. *)
Lemma sorted_key_split {A : Type} (key : A -> nat) (k : nat) (l : list A) :
  StronglySorted (fun a b => (key a <= key b)%nat) l ->
  l = filter (fun a => (key a <? k)%nat) l
      ++ filter (fun a => (key a =? k)%nat) l
      ++ filter (fun a => (k <? key a)%nat) l.
Proof.
  induction 1 as [|x l Hs IH Hx]; [reflexivity|].
  rewrite Forall_forall in Hx. cbn [filter].
  destruct (lt_eq_lt_dec (key x) k) as [[Hlt|Heq]|Hgt].
  - replace (key x <? k)%nat with true by (symmetry; apply Nat.ltb_lt; lia).
    replace (key x =? k)%nat with false by (symmetry; apply Nat.eqb_neq; lia).
    replace (k <? key x)%nat with false by (symmetry; apply Nat.ltb_ge; lia).
    cbn [app]. now rewrite <- IH.
  - replace (key x <? k)%nat with false by (symmetry; apply Nat.ltb_ge; lia).
    replace (key x =? k)%nat with true by (symmetry; apply Nat.eqb_eq; lia).
    replace (k <? key x)%nat with false by (symmetry; apply Nat.ltb_ge; lia).
    assert (E : filter (fun a => (key a <? k)%nat) l = []).
    { apply filter_none. intros y Hy. specialize (Hx y Hy). apply Nat.ltb_ge. lia. }
    rewrite E in *. cbn [app] in *. now rewrite <- IH.
  - replace (key x <? k)%nat with false by (symmetry; apply Nat.ltb_ge; lia).
    replace (key x =? k)%nat with false by (symmetry; apply Nat.eqb_neq; lia).
    replace (k <? key x)%nat with true by (symmetry; apply Nat.ltb_lt; lia).
    assert (E1 : filter (fun a => (key a <? k)%nat) l = []).
    { apply filter_none. intros y Hy. specialize (Hx y Hy). apply Nat.ltb_ge. lia. }
    assert (E2 : filter (fun a => (key a =? k)%nat) l = []).
    { apply filter_none. intros y Hy. specialize (Hx y Hy). apply Nat.eqb_neq. lia. }
    rewrite E1, E2 in *. cbn [app] in *. now rewrite <- IH.
Qed.

(* ================================================================== *)
(** * The LF mapping on the suffix array of a terminated text *)
(* ================================================================== *)

Lemma str_lt_cons_same (c : ascii) (a b : list ascii) :
  str_lt (c :: a) (c :: b) = str_lt a b.
Proof. cbn [str_lt]. now rewrite Nat.ltb_irrefl. Qed.

Lemma str_lt_head (x y : ascii) (a b : list ascii) :
  str_lt (x :: a) (y :: b) = true -> (nat_of_ascii x <= nat_of_ascii y)%nat.
Proof.
  cbn [str_lt]. destruct (nat_of_ascii x <? nat_of_ascii y)%nat eqn:E.
  - apply Nat.ltb_lt in E. intros _. lia.
  - destruct (nat_of_ascii y <? nat_of_ascii x)%nat eqn:F; [discriminate|].
    apply Nat.ltb_ge in F. intros _. lia.
Qed.

Lemma suf_cons (text : list ascii) (p : nat) :
  (p < length text)%nat -> suf text p = nth p text cA :: suf text (S p).
Proof.
  unfold suf. revert p. induction text as [|x l IH]; intros p Hp; [cbn in Hp; lia|].
  destruct p as [|p]; [reflexivity|]. cbn [skipn nth]. apply IH. cbn in Hp. lia.
Qed.

Lemma prev_perm (m : nat) :
  (1 <= m)%nat -> Permutation (map (prev m) (seq 0 m)) (seq 0 m).
Proof.
  intros Hm. destruct m as [|m]; [lia|].
  cbn [seq map]. change (prev (S m) 0) with (S m - 1)%nat.
  replace (S m - 1)%nat with m by lia.
  assert (E : map (prev (S m)) (seq 1 m) = seq 0 m).
  { rewrite <- seq_shift, map_map. erewrite map_ext; [apply map_id|].
    intros a. unfold prev. cbn. lia. }
  rewrite E.
  change (0%nat :: seq 1 m) with (seq 0 (S m)). rewrite seq_S. cbn [Nat.add].
  apply Permutation_cons_append.
Qed.

Lemma chr_eq_code (c x : ascii) :
  chr_eq c x = (nat_of_ascii x =? nat_of_ascii c)%nat.
Proof.
  destruct (chr_eq c x) eqn:E.
  - apply chr_eq_true in E. subst. now rewrite Nat.eqb_refl.
  - symmetry. apply Nat.eqb_neq. intros F. apply nat_of_ascii_inj in F. subst.
    unfold chr_eq in E. now rewrite Ascii.eqb_refl in E.
Qed.

Lemma nth_seq_map {A : Type} (l : list A) (d : A) :
  map (fun q => nth q l d) (seq 0 (length l)) = l.
Proof.
  induction l as [|x l IH]; [reflexivity|]. cbn [length seq map nth]. f_equal.
  rewrite <- seq_shift, map_map. exact IH.
Qed.

Section LF.

Variable text : list ascii.
Variable san : list nat.
Hypothesis Hperm : Permutation san (seq 0 (length text)).
Hypothesis Hsorted : suffix_sorted text san.
Hypothesis Hterm : sentinel_terminated text.

Let m := length text.

Lemma san_lt (p : nat) : In p san -> (p < m)%nat.
Proof. intros H. apply (Permutation_in _ Hperm) in H. apply in_seq in H. unfold m. lia. Qed.

Lemma san_length : length san = m.
Proof. rewrite (Permutation_length Hperm). apply length_seq. Qed.

Lemma text_pos : (1 <= m)%nat.
Proof. destruct Hterm as (g & -> & _). unfold m. rewrite length_app. cbn. lia. Qed.

Lemma text_last : nth (m - 1) text cA = cDollar.
Proof.
  destruct Hterm as (g & E & _). unfold m. rewrite E, length_app. cbn [length].
  replace (length g + 1 - 1)%nat with (length g) by lia. apply nth_middle.
Qed.

Lemma text_dollar_pos (q : nat) :
  (q < m)%nat -> nth q text cA = cDollar -> q = (m - 1)%nat.
Proof.
  destruct Hterm as (g & E & Hg). unfold m. rewrite E, length_app. cbn [length].
  intros Hq Hd. destruct (Nat.eq_dec q (length g)) as [->|Hne]; [lia|].
  rewrite app_nth1 in Hd by lia.
  rewrite forallb_forall in Hg.
  assert (Hin : In (nth q g cA) g) by (apply nth_In; lia).
  apply Hg in Hin. rewrite Hd in Hin. discriminate.
Qed.

Lemma prev_lt (p : nat) : (p < m)%nat -> (prev m p < m)%nat.
Proof. pose proof text_pos. unfold prev. destruct (p =? 0)%nat; lia. Qed.

Lemma key_sorted :
  StronglySorted
    (fun a b => (nat_of_ascii (nth a text cA) <= nat_of_ascii (nth b text cA))%nat) san.
Proof.
  generalize Hsorted. unfold suffix_sorted. apply StronglySorted_weaken.
  { apply (Permutation_NoDup (Permutation_sym Hperm)), seq_NoDup. }
  intros a b Ha Hb _ Hab. apply san_lt in Ha, Hb.
  rewrite (suf_cons text a), (suf_cons text b) in Hab by assumption.
  eapply str_lt_head; eauto.
Qed.

(** The rows whose transform symbol is [c], moved one position back, are
    the rows whose first symbol is [c], in the same order. *)
Lemma column_eq (c : ascii) :
  map (prev m) (filter (fun p => chr_eq c (bwt_sym text p)) san)
  = filter (fun q => chr_eq c (nth q text cA)) san.
Proof.
  apply (sorted_perm_eq (fun p q => str_lt (suf text p) (suf text q) = true)).
  - intros a b H1 H2. rewrite (str_lt_asym _ _ H1) in H2. discriminate.
  - apply StronglySorted_map.
    assert (Hs : StronglySorted (fun p q => str_lt (suf text p) (suf text q) = true)
                   (filter (fun p => chr_eq c (bwt_sym text p)) san))
      by now apply StronglySorted_filter.
    revert Hs. apply StronglySorted_weaken.
    { apply NoDup_filter. apply (Permutation_NoDup (Permutation_sym Hperm)), seq_NoDup. }
    intros a b Ha Hb Hne Hab.
    apply filter_In in Ha as [Ha Hca]. apply filter_In in Hb as [Hb Hcb].
    apply san_lt in Ha, Hb. apply chr_eq_true in Hca. apply chr_eq_true in Hcb.
    unfold bwt_sym in Hca, Hcb. fold m in Hca, Hcb.
    assert (Ha0 : a <> 0%nat).
    { intros ->. change (prev m 0) with (m - 1)%nat in Hca. rewrite text_last in Hca.
      rewrite Hca in Hcb. symmetry in Hcb. apply text_dollar_pos in Hcb; [|now apply prev_lt].
      unfold prev in Hcb. destruct (b =? 0)%nat eqn:E; [apply Nat.eqb_eq in E; lia|].
      apply Nat.eqb_neq in E. lia. }
    assert (Hb0 : b <> 0%nat).
    { intros ->. change (prev m 0) with (m - 1)%nat in Hcb. rewrite text_last in Hcb.
      rewrite Hcb in Hca. symmetry in Hca. apply text_dollar_pos in Hca; [|now apply prev_lt].
      unfold prev in Hca. destruct (a =? 0)%nat eqn:E; [apply Nat.eqb_eq in E; lia|].
      apply Nat.eqb_neq in E. lia. }
    assert (Ea : prev m a = (a - 1)%nat)
      by (unfold prev; destruct (a =? 0)%nat eqn:E; [apply Nat.eqb_eq in E; lia|reflexivity]).
    assert (Eb : prev m b = (b - 1)%nat)
      by (unfold prev; destruct (b =? 0)%nat eqn:E; [apply Nat.eqb_eq in E; lia|reflexivity]).
    rewrite Ea, Eb in *.
    rewrite (suf_cons text (a - 1)), (suf_cons text (b - 1)) by (fold m; lia).
    rewrite <- Hca, <- Hcb, str_lt_cons_same.
    replace (S (a - 1)) with a by lia. replace (S (b - 1)) with b by lia. exact Hab.
  - now apply StronglySorted_filter.
  - unfold bwt_sym. fold m.
    rewrite (map_filter_comm (prev m) (fun q => chr_eq c (nth q text cA)) san).
    transitivity (filter (fun q => chr_eq c (nth q text cA)) (map (prev m) (seq 0 m))).
    { apply Permutation_filter_compat, Permutation_map, Hperm. }
    transitivity (filter (fun q => chr_eq c (nth q text cA)) (seq 0 m)).
    { apply Permutation_filter_compat, prev_perm, text_pos. }
    apply Permutation_filter_compat. symmetry. exact Hperm.
Qed.

Lemma smaller_rows (c : ascii) :
  length (filter (fun a => (nat_of_ascii (nth a text cA) <? nat_of_ascii c)%nat) san)
  = smaller c text.
Proof.
  rewrite (Permutation_length (Permutation_filter_compat _ _ _ Hperm)).
  unfold smaller.
  rewrite <- (nth_seq_map text cA) at 2.
  rewrite <- (map_filter_comm (fun q => nth q text cA)
                (fun x => (nat_of_ascii x <? nat_of_ascii c)%nat)).
  now rewrite length_map.
Qed.

(** The LF step: from the row [i] of the suffix at [p], the row counted
    by the cumulative table and the rank is the row of the suffix one
    position back. *)
Lemma lf_rows (i : nat) :
  (i < m)%nat ->
  let p := nth i san 0%nat in
  let c := bwt_sym text p in
  let r := length (filter (fun q => chr_eq c (bwt_sym text q)) (firstn (S i) san)) in
  (1 <= r)%nat /\ (smaller c text + r - 1 < m)%nat /\
  nth (smaller c text + r - 1) san 0%nat = prev m p.
Proof.
  intros Hi p c r.
  assert (Hi' : (i < length san)%nat) by (rewrite san_length; exact Hi).
  assert (Hc : (fun q => chr_eq c (bwt_sym text q)) (nth i san 0%nat) = true)
    by (cbv beta; fold p; fold c; now apply chr_eq_true).
  destruct (nth_filter_rank _ san i 0%nat Hi' Hc) as [[Hr1 Hr2] Hnth].
  fold r in Hr1, Hr2, Hnth. fold p in Hnth.
  set (R := filter (fun q => chr_eq c (bwt_sym text q)) san) in *.
  set (B := filter (fun q => chr_eq c (nth q text cA)) san).
  assert (EB : map (prev m) R = B) by apply column_eq.
  assert (HB : length B = length R) by (rewrite <- EB; apply length_map).
  assert (EBk : B = filter (fun a => (nat_of_ascii (nth a text cA) =? nat_of_ascii c)%nat) san).
  { unfold B. apply filter_ext. intros a. apply chr_eq_code. }
  pose proof (sorted_key_split (fun a => nat_of_ascii (nth a text cA))
                (nat_of_ascii c) san key_sorted) as Hsplit.
  cbv beta in Hsplit. rewrite <- EBk in Hsplit.
  set (L := filter (fun a => (nat_of_ascii (nth a text cA) <? nat_of_ascii c)%nat) san) in *.
  assert (HL : length L = smaller c text) by apply smaller_rows.
  assert (Hlen : length san = (length L + (length B + length
            (filter (fun a => (nat_of_ascii c <? nat_of_ascii (nth a text cA))%nat) san)))%nat).
  { rewrite Hsplit at 1. now rewrite !length_app. }
  rewrite san_length in Hlen.
  split; [exact Hr1|]. split; [lia|].
  rewrite Hsplit, <- HL.
  replace (length L + r - 1)%nat with (length L + (r - 1))%nat by lia.
  rewrite app_nth2_plus, app_nth1 by lia.
  rewrite <- EB.
  rewrite (nth_indep _ 0%nat (prev m 0%nat)) by (rewrite length_map; lia).
  rewrite map_nth. now rewrite Hnth.
Qed.

End LF.

(* ================================================================== *)
(** * The cumulative table and the transform, row by row *)
(* ================================================================== *)

Lemma smaller_cons (c x : ascii) (l : list ascii) :
  smaller c (x :: l)
  = ((if (nat_of_ascii x <? nat_of_ascii c)%nat then 1 else 0) + smaller c l)%nat.
Proof. unfold smaller. cbn [filter]. now destruct (nat_of_ascii x <? nat_of_ascii c)%nat. Qed.

Lemma smaller_counts (text : list ascii) :
  forallb in_alphabet text = true ->
  Z.of_nat (smaller cDollar text) = 0 /\
  Z.of_nat (smaller cA text) = count cDollar text /\
  Z.of_nat (smaller cC text) = count cDollar text + count cA text /\
  Z.of_nat (smaller cG text) = count cDollar text + count cA text + count cC text /\
  Z.of_nat (smaller cN text)
    = count cDollar text + count cA text + count cC text + count cG text /\
  Z.of_nat (smaller cT text)
    = count cDollar text + count cA text + count cC text + count cG text + count cN text.
Proof.
  induction text as [|x l IH]; intros H.
  - repeat split; reflexivity.
  - cbn [forallb] in H. apply andb_true_iff in H as [Hx Hl].
    destruct (IH Hl) as (I0 & I1 & I2 & I3 & I4 & I5).
    rewrite !smaller_cons, !count_cons, !Nat2Z.inj_add, I0, I1, I2, I3, I4, I5.
    apply in_alphabet_cases in Hx as [-> | [-> | [-> | [-> | [-> | ->]]]]];
      repeat match goal with
             | |- context [(nat_of_ascii ?a <? nat_of_ascii ?b)%nat] =>
                 let v := eval vm_compute in (nat_of_ascii a <? nat_of_ascii b)%nat in
                 change (nat_of_ascii a <? nat_of_ascii b)%nat with v
             | |- context [chr_eq ?a ?b] =>
                 let v := eval vm_compute in (chr_eq a b) in
                 change (chr_eq a b) with v
             end;
      cbv iota; unfold Z.b2z; change (Z.of_nat 1) with 1; change (Z.of_nat 0) with 0;
      repeat split; lia.
Qed.

Lemma c_table_smaller (text : list ascii) (c : ascii) :
  forallb in_alphabet text = true -> in_alphabet c = true ->
  Dict.get (c_table text) (PStr c) = Ok (Z.of_nat (smaller c text)).
Proof.
  intros Ht Hc. destruct (smaller_counts text Ht) as (I0 & I1 & I2 & I3 & I4 & I5).
  apply in_alphabet_cases in Hc as [-> | [-> | [-> | [-> | [-> | ->]]]]];
    unfold c_table, dict6; cbn [Dict.get pyval_eqb app]; cbn;
    f_equal; congruence.
Qed.

Lemma bwt_rows (text : list ascii) (san : list nat) (bwt : list ascii) :
  sentinel_terminated text ->
  (forall p, In p san -> (p < length text)%nat) ->
  get_bwt text (map Z.of_nat san) = Ok bwt ->
  bwt = map (bwt_sym text) san.
Proof.
  intros Hterm Hlt H. apply get_bwt_Ok in H as (Hlen & _ & _ & Hrow).
  rewrite length_map in Hlen, Hrow.
  apply (nth_ext _ _ cA (bwt_sym text 0%nat)); [now rewrite length_map|].
  intros i Hi. rewrite Hlen in Hi. rewrite map_nth.
  specialize (Hrow i Hi).
  change 0 with (Z.of_nat 0) in Hrow at 1 3. rewrite !map_nth in Hrow.
  assert (Hp : (nth i san 0%nat < length text)%nat) by (apply Hlt, nth_In; lia).
  unfold bwt_sym, prev. destruct (nth i san 0 =? 0)%nat eqn:E.
  - apply Nat.eqb_eq in E. rewrite E in Hrow. cbn in Hrow. injection Hrow as <-.
    symmetry. now apply text_last.
  - apply Nat.eqb_neq in E.
    replace (Z.of_nat (nth i san 0%nat) =? 0) with false in Hrow
      by (symmetry; apply Z.eqb_neq; lia).
    rewrite (getitem_nth text _ cA) in Hrow by (unfold Py.len; lia).
    injection Hrow as <-. f_equal. lia.
Qed.

(** The sentinel's suffix is the smallest: it is on row 0. *)
Lemma san_first (text : list ascii) (san : list nat) :
  Permutation san (seq 0 (length text)) -> suffix_sorted text san ->
  sentinel_terminated text ->
  nth 0 san 0%nat = (length text - 1)%nat.
Proof.
  intros Hperm Hsorted Hterm.
  pose proof (text_pos text san Hperm Hsorted Hterm) as Hm.
  pose proof (san_length text san Hperm) as Hl.
  pose proof (key_sorted text san Hperm Hsorted) as Hk.
  pose proof (san_lt text san Hperm) as Hlt.
  assert (Hin : In (length text - 1)%nat san).
  { apply (Permutation_in _ (Permutation_sym Hperm)). apply in_seq. lia. }
  pose proof (text_last text Hterm) as Hlast.
  destruct Hterm as (g & Et & Hg). clear Hperm Hsorted.
  destruct san as [|p rest]; [cbn in Hl; lia|]. cbn [nth].
  apply StronglySorted_inv in Hk as [_ Hk]. rewrite Forall_forall in Hk.
  destruct Hin as [E|Hin]; [exact E|].
  apply Hk in Hin. rewrite Hlast in Hin.
  assert (Hp : (p < length text)%nat) by (apply Hlt; now left).
  destruct (Nat.eq_dec p (length text - 1)) as [E|Hne]; [exact E|exfalso].
  assert (Hpg : (p < length g)%nat).
  { rewrite Et, length_app in Hp, Hne. cbn [length] in Hp, Hne. lia. }
  rewrite Et, app_nth1 in Hin by exact Hpg.
  rewrite forallb_forall in Hg.
  assert (Hd : is_dna (nth p g cA) = true) by (apply Hg, nth_In, Hpg).
  revert Hin Hd. generalize (nth p g cA). intros x Hin Hx.
  unfold is_dna in Hx. cbn [existsb] in Hx.
  repeat (apply orb_true_iff in Hx as [Hx|Hx];
          [apply chr_eq_true in Hx; subst x; vm_compute in Hin; lia|]).
  discriminate.
Qed.

(* ================================================================== *)
(** * One LF step on an index *)
(* ================================================================== *)

Section Index.

Variable self : WaveletTree.
Variable text : list ascii.
Variable san : list nat.
Hypothesis Hperm : Permutation san (seq 0 (length text)).
Hypothesis Hsorted : suffix_sorted text san.
Hypothesis Hterm : sentinel_terminated text.
Hypothesis Halpha : forallb in_alphabet text = true.
Hypothesis Henc : encodes self (map (bwt_sym text) san).
Hypothesis Hf : f self = c_table text.

Let m := length text.
Let bwt := map (bwt_sym text) san.

Lemma bwt_len : Py.len bwt = Z.of_nat m.
Proof. unfold bwt, Py.len. now rewrite length_map, (san_length text san Hperm). Qed.

Lemma bwt_sym_alphabet (p : nat) : (p < m)%nat -> in_alphabet (bwt_sym text p) = true.
Proof.
  intros Hp. rewrite forallb_forall in Halpha. apply Halpha. unfold bwt_sym.
  apply nth_In. now apply (prev_lt text san Hperm Hsorted Hterm).
Qed.

Lemma bwt_alphabet : forallb in_alphabet bwt = true.
Proof.
  apply forallb_forall. intros c Hc. unfold bwt in Hc. apply in_map_iff in Hc as (p & <- & Hp).
  apply bwt_sym_alphabet. now apply (san_lt text san Hperm).
Qed.

Lemma bwt_nth (i : nat) : nth i bwt cA = bwt_sym text (nth i san 0%nat) \/ (m <= i)%nat.
Proof.
  destruct (Nat.lt_ge_cases i m) as [Hi|Hi]; [left|now right].
  unfold bwt. rewrite (nth_indep _ cA (bwt_sym text 0%nat)) by
    (rewrite length_map, (san_length text san Hperm); exact Hi).
  apply map_nth.
Qed.

(** One LF step: the row reached from row [i] by [rank] and the
    cumulative table is the row of the suffix one position back. *)
Lemma lf_step (i : nat) :
  (i < m)%nat ->
  exists j r skip,
    rank self (PStr (nth i bwt cA)) (Z.of_nat i) = Ok r /\
    Dict.get (f self) (PStr (nth i bwt cA)) = Ok skip /\
    r + skip - 1 = Z.of_nat j /\ (j < m)%nat /\
    nth j san 0%nat = prev m (nth i san 0%nat).
Proof.
  intros Hi.
  destruct (lf_rows text san Hperm Hsorted Hterm i Hi) as (Hr1 & Hr2 & Hr3).
  set (p := nth i san 0%nat) in *. set (c := bwt_sym text p) in *.
  set (r := length (filter (fun q => chr_eq c (bwt_sym text q)) (firstn (S i) san))) in *.
  fold m in Hr2, Hr3.
  assert (Ec : nth i bwt cA = c) by (destruct (bwt_nth i) as [E|E]; [exact E|lia]).
  assert (Hp : (p < m)%nat).
  { apply (san_lt text san Hperm). apply nth_In.
    rewrite (san_length text san Hperm). exact Hi. }
  assert (Hc : in_alphabet c = true) by now apply bwt_sym_alphabet.
  exists (smaller c text + r - 1)%nat, (Z.of_nat r), (Z.of_nat (smaller c text)).
  rewrite Ec. split; [|split; [|split; [lia|split; [exact Hr2|exact Hr3]]]].
  - rewrite (rank_spec self bwt c (Z.of_nat i) Henc bwt_alphabet Hc)
      by (rewrite bwt_len; lia).
    f_equal. unfold count_upto, bwt, Py.len. f_equal.
    replace (Z.to_nat (Z.of_nat i + 1)) with (S i) by lia.
    rewrite firstn_map, <- (map_filter_comm (bwt_sym text) (chr_eq c)).
    now rewrite length_map.
  - rewrite Hf. now apply c_table_smaller.
Qed.

(** [access] reads the transform. *)
Lemma access_row (i : nat) :
  (i < m)%nat ->
  access self (Z.of_nat i) 0 = Ok (PStr (nth i bwt cA)).
Proof.
  intros Hi.
  rewrite (access_spec self bwt (Z.of_nat i) Henc bwt_alphabet) by (rewrite bwt_len; lia).
  now rewrite Nat2Z.id.
Qed.

End Index.

(* ================================================================== *)
(** * The sampled suffix array *)
(* ================================================================== *)

(** The sampling loop builds its bucket as [bucket_loop] does over the
    sampling bits. *)
Lemma sample_loop_bucket (bstep comp : Z) :
  comp <> 0 ->
  forall rest index st,
    Py.for_each (combine (Py.range index (index + Py.len rest)) rest) st
      (fun indexnum st =>
         let index := fst indexnum in
         let num := snd indexnum in
         r <- Py.mod_ num comp ;;
         let st :=
           if r =? 0
           then SS (ss_compressed st ++ [num]) (ss_bucket st)
                   (ss_bits st ++ [true]) (ss_rank st + 1)
           else SS (ss_compressed st) (ss_bucket st)
                   (ss_bits st ++ [false]) (ss_rank st) in
         if 0 <? index then
           m <- Py.mod_ index bstep ;;
           if m =? 0
           then Ok (SS (ss_compressed st) (ss_bucket st ++ [ss_rank st])
                       (ss_bits st) (ss_rank st))
           else Ok st
         else Ok st)
    = (bucket <- bucket_loop bstep (map (sampled comp) rest) index
                   (ss_rank st) (ss_bucket st) ;;
       Ok (SS (ss_compressed st ++ filter (sampled comp) rest) bucket
              (ss_bits st ++ map (sampled comp) rest)
              (ss_rank st + ones (map (sampled comp) rest)))).
Proof.
  intros Hc.
  match goal with
  | |- forall rest index st, Py.for_each _ _ ?b = _ => remember b as body eqn:Eb
  end.
  assert (Hstep : forall i x c b bs r,
    body (i, x) (SS c b bs r) =
    let st := if sampled comp x then SS (c ++ [x]) b (bs ++ [true]) (r + 1)
              else SS c b (bs ++ [false]) r in
    if 0 <? i then
      m <- Py.mod_ i bstep ;;
      if m =? 0
      then Ok (SS (ss_compressed st) (ss_bucket st ++ [ss_rank st]) (ss_bits st) (ss_rank st))
      else Ok st
    else Ok st).
  { intros. subst body. cbn [fst snd]. unfold Py.mod_ at 1.
    replace (comp =? 0) with false by (symmetry; now apply Z.eqb_neq).
    reflexivity. }
  clear Eb.
  induction rest as [|x rest IH]; intros index st.
  - change (Py.len (@nil Z)) with 0. rewrite range_nil by lia.
    destruct st as [c b bs r]. cbn. rewrite !app_nil_r, Z.add_0_r. reflexivity.
  - rewrite len_cons, range_cons by (pose proof (len_nonneg rest); lia).
    replace (index + (1 + Py.len rest)) with (index + 1 + Py.len rest) by lia.
    cbn [combine Py.for_each map filter bucket_loop].
    destruct st as [c b bs r]. rewrite Hstep.
    cbn [ss_compressed ss_bucket ss_bits ss_rank].
    assert (Hones : forall y, ones (y :: map (sampled comp) rest)
                              = Z.b2z y + ones (map (sampled comp) rest)) by reflexivity.
    rewrite Hones.
    destruct (sampled comp x); unfold Z.b2z; cbv zeta;
      cbn [ss_compressed ss_bucket ss_bits ss_rank];
      (destruct (0 <? index);
       [ destruct (Py.mod_ index bstep) as [mm|e|]; cbn [bind]; [|reflexivity|reflexivity];
         destruct (mm =? 0)
       | ]);
      cbn [bind]; rewrite IH; cbn [ss_compressed ss_bucket ss_bits ss_rank];
      rewrite <- ?app_assoc; cbn [app]; rewrite ?Z.add_0_r;
      destruct (bucket_loop _ _ _ _ _); cbn [bind]; try reflexivity;
      do 2 f_equal; lia.
Qed.

Lemma sample_loop_spec (bstep comp : Z) (full : list Z) (sa0 r0 : Z) :
  1 <= bstep -> comp <> 0 ->
  Py.getitem full 0 = Ok sa0 -> Py.mod_ sa0 comp = Ok r0 ->
  exists bucket,
    sample_loop bstep comp full (SS [] [Z.b2z (r0 =? 0)] [] 0)
    = Ok (SS (filter (sampled comp) full) bucket (map (sampled comp) full)
             (ones (map (sampled comp) full))) /\
    bucket_ok bstep (map (sampled comp) full) bucket.
Proof.
  intros Hb Hc H0 Hr.
  destruct full as [|x rest]; [discriminate H0|].
  change (Py.getitem (x :: rest) 0) with (Ok (A := Z) x) in H0. injection H0 as <-.
  unfold Py.mod_ in Hr. replace (comp =? 0) with false in Hr by (symmetry; now apply Z.eqb_neq).
  injection Hr as <-. fold (sampled comp x).
  unfold sample_loop.
  replace (Py.len (x :: rest)) with (0 + Py.len (x :: rest)) by lia.
  rewrite (sample_loop_bucket bstep comp Hc (x :: rest) 0).
  cbn [ss_compressed ss_bucket ss_bits ss_rank app].
  destruct (bucket_loop_first bstep (sampled comp x) (map (sampled comp) rest) Hb)
    as (bucket & E & Hok).
  exists bucket. cbn [map]. rewrite E. cbn [bind]. split; [|exact Hok].
  now rewrite Z.add_0_l.
Qed.

Lemma rank_bit_spec (self : WaveletTree) (bv : list bool) (bucket : list Z) (i : Z) :
  compression_sa self <> 0 -> 1 <= bucket_step_sa self ->
  bitvector self = Some bv -> bucket_sa self = Some bucket ->
  bucket_ok (bucket_step_sa self) bv bucket ->
  0 <= i < Py.len bv ->
  rank_bit self i = Ok (prefix_ones bv (i + 1)).
Proof.
  intros Hc Hs Ebv Ebk Hok Hi. unfold rank_bit.
  replace (compression_sa self =? 0) with false by (symmetry; now apply Z.eqb_neq).
  unfold Py.int_div.
  replace (bucket_step_sa self =? 0) with false by (symmetry; apply Z.eqb_neq; lia).
  cbn [bind]. rewrite Ebv, Ebk. cbn [bind].
  rewrite Z.quot_div_nonneg by lia.
  set (step := bucket_step_sa self) in *.
  assert (Hq : 0 <= i / step) by (apply Z.div_pos; lia).
  assert (Hq' : i / step * step <= i).
  { pose proof (Z.mul_div_le i step ltac:(lia)). lia. }
  rewrite scan_range by lia. cbn [bind].
  rewrite (Hok (i / step)) by lia. cbn [bind]. f_equal. lia.
Qed.

(** The sampled entry of a marked row. *)
Lemma sampled_lookup (comp : Z) (full : list Z) (i : nat) :
  (i < length full)%nat -> sampled comp (nth i full 0) = true ->
  Py.getitem (filter (sampled comp) full)
    (prefix_ones (map (sampled comp) full) (Z.of_nat i + 1) - 1)
  = Ok (nth i full 0).
Proof.
  intros Hi Hs.
  destruct (nth_filter_rank (sampled comp) full i 0 Hi Hs) as [[H1 H2] H3].
  rewrite prefix_ones_filter.
  replace (Z.to_nat (Z.of_nat i + 1)) with (S i) by lia.
  unfold Py.len at 1.
  rewrite (getitem_nth _ _ 0) by (unfold Py.len; lia).
  f_equal. rewrite <- H3. f_equal. lia.
Qed.

(* ================================================================== *)
(** * The LF walk of [get_sa] *)
(* ================================================================== *)

Section Sampled.

Variable self : WaveletTree.
Variable text : list ascii.
Variable san : list nat.
Variable bucket : list Z.
Hypothesis Hperm : Permutation san (seq 0 (length text)).
Hypothesis Hsorted : suffix_sorted text san.
Hypothesis Hterm : sentinel_terminated text.
Hypothesis Halpha : forallb in_alphabet text = true.
Hypothesis Henc : encodes self (map (bwt_sym text) san).
Hypothesis Hf : f self = c_table text.
Hypothesis Hcomp : 1 < compression_sa self.
Hypothesis Hstep : 1 <= bucket_step_sa self.
Hypothesis Hbv :
  bitvector self = Some (map (sampled (compression_sa self)) (map Z.of_nat san)).
Hypothesis Hsa : sa self = filter (sampled (compression_sa self)) (map Z.of_nat san).
Hypothesis Hbk : bucket_sa self = Some bucket.
Hypothesis Hok :
  bucket_ok (bucket_step_sa self)
    (map (sampled (compression_sa self)) (map Z.of_nat san)) bucket.

Let m := length text.
Let bwt := map (bwt_sym text) san.
Let full := map Z.of_nat san.

Lemma full_nth (i : nat) : nth i full 0 = Z.of_nat (nth i san 0%nat).
Proof. unfold full. change 0 with (Z.of_nat 0) at 1. apply map_nth. Qed.

Lemma full_length : length full = m.
Proof. unfold full. now rewrite length_map, (san_length text san Hperm). Qed.

Lemma bit_row (i : nat) :
  (i < m)%nat ->
  bitvector_at self (Z.of_nat i)
  = Ok (sampled (compression_sa self) (Z.of_nat (nth i san 0%nat))).
Proof.
  intros Hi. unfold bitvector_at. rewrite Hbv. fold full.
  rewrite (getitem_map_nth _ full _ 0) by (unfold Py.len; rewrite full_length; lia).
  now rewrite Nat2Z.id, full_nth.
Qed.

Lemma sampled_row (i : nat) :
  (i < m)%nat -> sampled (compression_sa self) (Z.of_nat (nth i san 0%nat)) = true ->
  exists r,
    rank_bit self (Z.of_nat i) = Ok r /\
    Py.getitem (sa self) (r - 1) = Ok (Z.of_nat (nth i san 0%nat)).
Proof.
  intros Hi Hs. eexists. split.
  - apply (rank_bit_spec self _ bucket (Z.of_nat i) ltac:(lia) Hstep Hbv Hbk Hok).
    fold full. unfold Py.len. rewrite length_map, full_length. lia.
  - rewrite Hsa. fold full. rewrite <- full_nth.
    apply sampled_lookup; [rewrite full_length; exact Hi|now rewrite full_nth].
Qed.

(** The walk from a row whose suffix starts at [v]: it stops after
    [k <= v] steps on a marked row whose suffix starts at [v - k]. *)
Lemma lf_walk_spec (v : nat) :
  forall (row : nat) (counter : Z) (fuel : nat),
    (row < m)%nat -> nth row san 0%nat = v -> (v <= fuel)%nat ->
    exists (row' k : nat),
      lf_walk fuel self (PStr (nth row bwt cA)) (Z.of_nat row) counter
      = Ok (Z.of_nat row', counter + Z.of_nat k) /\
      (row' < m)%nat /\ (k <= v)%nat /\ nth row' san 0%nat = (v - k)%nat /\
      sampled (compression_sa self) (Z.of_nat (v - k)) = true.
Proof.
  induction v as [|v IH]; intros row counter fuel Hrow Hv Hfuel.
  - exists row, 0%nat. destruct fuel; cbn [lf_walk]; rewrite (bit_row row Hrow), Hv;
      cbn [bind]; change (sampled (compression_sa self) (Z.of_nat 0)) with true;
      cbn [negb]; rewrite Z.add_0_r; auto.
  - destruct (sampled (compression_sa self) (Z.of_nat (S v))) eqn:Es.
    + exists row, 0%nat. rewrite Nat.sub_0_r.
      destruct fuel; cbn [lf_walk]; rewrite (bit_row row Hrow), Hv, Es;
        cbn [bind negb]; rewrite Z.add_0_r; repeat split; auto; lia.
    + destruct fuel as [|fuel]; [lia|].
      cbn [lf_walk]. rewrite (bit_row row Hrow), Hv, Es. cbn [bind negb].
      destruct (lf_step self text san Hperm Hsorted Hterm Halpha Henc Hf row Hrow)
        as (j & r & skip & Er & Esk & Ej & Hj & Hnj).
      fold bwt in Er, Esk. rewrite Er. cbn [bind]. rewrite Esk. cbn [bind].
      rewrite Ej.
      rewrite (access_row self text san Hperm Hsorted Hterm Halpha Henc j Hj).
      cbn [bind]. fold bwt.
      rewrite Hv in Hnj. change (prev (length text) (S v)) with (S v - 1)%nat in Hnj.
      rewrite Nat.sub_succ, Nat.sub_0_r in Hnj.
      destruct (IH j (counter + 1) fuel Hj Hnj ltac:(lia)) as (row' & k & E & H1 & H2 & H3 & H4).
      exists row', (S k). rewrite E. split; [do 2 f_equal; lia|].
      split; [exact H1|]. split; [lia|]. now rewrite Nat.sub_succ.
Qed.

(** [get_sa] on a sampled index returns the entry of the full suffix array. *)
Lemma get_sa_sampled (fuel : nat) (i : nat) :
  (i < m)%nat -> (m - 1 <= fuel)%nat ->
  get_sa fuel self (Z.of_nat i) = Ok (Z.of_nat (nth i san 0%nat)).
Proof.
  intros Hi Hfuel. unfold get_sa.
  replace (compression_sa self =? 1) with false by (symmetry; apply Z.eqb_neq; lia).
  rewrite (bit_row i Hi). cbn [bind].
  destruct (sampled (compression_sa self) (Z.of_nat (nth i san 0%nat))) eqn:Es.
  - destruct (sampled_row i Hi Es) as (r & -> & Er). exact Er.
  - rewrite (access_row self text san Hperm Hsorted Hterm Halpha Henc i Hi). cbn [bind].
    fold bwt.
    assert (Hv : (nth i san 0%nat < m)%nat).
    { apply (san_lt text san Hperm), nth_In. rewrite (san_length text san Hperm). exact Hi. }
    destruct (lf_walk_spec (nth i san 0%nat) i 0 fuel Hi eq_refl ltac:(lia))
      as (row' & k & E & H1 & H2 & H3 & H4).
    rewrite E. cbn [bind]. rewrite <- H3 in H4.
    destruct (sampled_row row' H1 H4) as (r & -> & Er). cbn [bind].
    rewrite Er. cbn [bind]. f_equal. lia.
Qed.

End Sampled.

(* ================================================================== *)
(** * The reverse transform of [__str__] *)
(* ================================================================== *)

Lemma skipn_nth_cons {A : Type} (l : list A) (k : nat) (d : A) :
  (k < length l)%nat -> skipn k l = nth k l d :: skipn (S k) l.
Proof.
  revert k. induction l as [|x l IH]; intros k Hk; [cbn in Hk; lia|].
  destruct k as [|k]; [reflexivity|]. cbn [skipn nth]. apply IH. cbn in Hk. lia.
Qed.

Section Reverse.

Variable self : WaveletTree.
Variable genome : list ascii.
Variable san : list nat.
Let text := genome ++ [cDollar].
Hypothesis Hperm : Permutation san (seq 0 (length text)).
Hypothesis Hsorted : suffix_sorted text san.
Hypothesis Hdna : forallb is_dna genome = true.
Hypothesis Hne : genome <> [].
Hypothesis Henc : encodes self (map (bwt_sym text) san).
Hypothesis Hf : f self = c_table text.
Hypothesis Hn : n self = Py.len text.

Let m := length text.
Let bwt := map (bwt_sym text) san.

Lemma reverse_terminated : sentinel_terminated text.
Proof. exists genome. split; [reflexivity|exact Hdna]. Qed.

Lemma reverse_alphabet : forallb in_alphabet text = true.
Proof.
  unfold text. rewrite forallb_app. apply andb_true_iff. split; [|reflexivity].
  rewrite forallb_forall in *. intros c Hc. apply is_dna_in_alphabet. now apply Hdna.
Qed.

Lemma reverse_m : m = S (length genome).
Proof. unfold m, text. rewrite length_app. cbn [length]. lia. Qed.

(** The row of the suffix at [v >= 1] carries the symbol before it. *)
Lemma reverse_char (row v : nat) :
  (row < m)%nat -> nth row san 0%nat = v -> (1 <= v)%nat ->
  nth row bwt cA = nth (v - 1) genome cA.
Proof.
  intros Hrow Hv H1.
  assert (Hvm : (v < m)%nat).
  { rewrite <- Hv. apply (san_lt text san Hperm), nth_In.
    rewrite (san_length text san Hperm). exact Hrow. }
  destruct (bwt_nth text san Hperm row) as [E|E]; [|fold m in E; lia].
  fold bwt in E. rewrite E, Hv. unfold bwt_sym, prev.
  destruct (v =? 0)%nat eqn:E0; [apply Nat.eqb_eq in E0; lia|].
  unfold text. apply app_nth1. rewrite reverse_m in Hvm. lia.
Qed.

Lemma reverse_loop (l : list Z) :
  forall (v row : nat),
    (length l + 1 <= v)%nat -> (row < m)%nat -> nth row san 0%nat = v ->
    exists row',
      Py.for_each l (PStr (nth (v - 1) genome cA), Z.of_nat row, skipn (v - 1) genome)
        (fun _ st =>
           let '(next_char, next_row, original) := st in
           rank <- rank self next_char next_row ;;
           skip <- Dict.get (f self) next_char ;;
           let next_row := rank + skip - 1 in
           next_char <- access self next_row 0 ;;
           c <- as_str next_char ;;
           Ok (next_char, next_row, c :: original))
      = Ok (PStr (nth (v - 1 - length l) genome cA), Z.of_nat row',
            skipn (v - 1 - length l) genome).
Proof.
  match goal with
  | |- forall v row, _ -> _ -> _ -> exists row', Py.for_each _ _ ?b = _ =>
      remember b as body eqn:Eb
  end.
  assert (Hbody : forall x c r o,
    body x (c, r, o) =
    (rank <- rank self c r ;;
     skip <- Dict.get (f self) c ;;
     next_char <- access self (rank + skip - 1) 0 ;;
     ch <- as_str next_char ;;
     Ok (next_char, rank + skip - 1, ch :: o))) by (intros; subst body; reflexivity).
  clear Eb.
  induction l as [|x l IH]; intros v row Hv Hrow Hsan.
  - exists row. cbn [Py.for_each length]. now rewrite Nat.sub_0_r.
  - cbn [length] in Hv. cbn [Py.for_each]. rewrite Hbody.
    assert (Hvm : (v < m)%nat).
    { rewrite <- Hsan. apply (san_lt text san Hperm), nth_In.
      rewrite (san_length text san Hperm). exact Hrow. }
    destruct (lf_step self text san Hperm Hsorted reverse_terminated reverse_alphabet
                Henc Hf row Hrow) as (j & r & skip & Er & Esk & Ej & Hj & Hnj).
    fold bwt m in Er, Esk, Hnj. rewrite (reverse_char row v Hrow Hsan ltac:(lia)) in Er, Esk.
    rewrite Er. cbn [bind]. rewrite Esk. cbn [bind]. rewrite Ej.
    rewrite (access_row self text san Hperm Hsorted reverse_terminated reverse_alphabet
               Henc j Hj). cbn [bind as_str]. fold bwt.
    rewrite Hsan in Hnj. unfold prev in Hnj.
    destruct (v =? 0)%nat eqn:E0; [apply Nat.eqb_eq in E0; lia|].
    rewrite (reverse_char j (v - 1) Hj Hnj ltac:(lia)).
    rewrite reverse_m in Hvm.
    replace (skipn (v - 1) genome) with (skipn (S (v - 1 - 1)) genome) by (f_equal; lia).
    rewrite <- (skipn_nth_cons genome (v - 1 - 1) cA) by lia.
    destruct (IH (v - 1)%nat j ltac:(lia) Hj Hnj) as (row' & E).
    exists row'. rewrite E. cbn [length].
    replace (v - 1 - S (length l))%nat with (v - 1 - 1 - length l)%nat by lia.
    reflexivity.
Qed.

(** [__str__] returns the genome: the text without its sentinel. *)
Lemma str_genome : __str__ self = Ok genome.
Proof.
  pose proof reverse_m as Hm.
  assert (Hg : (1 <= length genome)%nat) by (destruct genome; [now elim Hne|cbn; lia]).
  pose proof (san_first text san Hperm Hsorted reverse_terminated) as H0. fold m in H0.
  unfold __str__.
  change (access self 0 0) with (access self (Z.of_nat 0) 0).
  rewrite (access_row self text san Hperm Hsorted reverse_terminated reverse_alphabet
             Henc 0%nat) by (fold m; lia).
  cbn [bind]. unfold as_str at 1. cbn [bind]. fold bwt.
  rewrite (reverse_char 0%nat (m - 1)%nat ltac:(lia) H0 ltac:(lia)).
  rewrite Hn. fold text. unfold Py.len. fold m.
  replace (Z.of_nat m - 1 - 1) with (Z.of_nat (m - 2)) by lia.
  assert (Hlast : [nth (m - 1 - 1) genome cA] = skipn (m - 1 - 1) genome).
  { rewrite (skipn_nth_cons genome (m - 1 - 1) cA) by lia.
    rewrite skipn_all2 by lia. reflexivity. }
  rewrite Hlast.
  destruct (reverse_loop (Py.range 0 (Z.of_nat (m - 2))) (m - 1)%nat 0%nat) as (row' & E).
  - rewrite range_length. lia.
  - lia.
  - exact H0.
  - change (Z.of_nat 0) with 0 in E. cbv zeta in E. rewrite E. cbn [bind snd].
    rewrite range_length. f_equal.
    replace (m - 1 - 1 - Z.to_nat (Z.of_nat (m - 2) - 0))%nat with 0%nat by lia.
    reflexivity.
Qed.

End Reverse.

(* ================================================================== *)
(** * What the constructor establishes *)
(* ================================================================== *)

Lemma terminated_sentinel (reference_genome : list ascii) :
  valid_reference reference_genome -> sentinel_terminated (terminated reference_genome).
Proof.
  intros H. apply with_sentinel_valid in H as (_ & _ & Hd).
  exists (genome_of reference_genome). split; [reflexivity|exact Hd].
Qed.

Lemma terminated_alphabet (reference_genome : list ascii) :
  valid_reference reference_genome ->
  forallb in_alphabet (terminated reference_genome) = true.
Proof.
  intros H. apply with_sentinel_valid in H as (_ & _ & Hd).
  unfold terminated. rewrite forallb_app. apply andb_true_iff. split; [|reflexivity].
  rewrite forallb_forall in *. intros c Hc. apply is_dna_in_alphabet. now apply Hd.
Qed.

(** The index of a valid reference, over the rows [san] of its suffix
    array. *)
Lemma init_index (reference_genome : list ascii) (strategy : string) (comp : Z)
  (self : WaveletTree) (san : list nat) :
  valid_reference reference_genome ->
  __init__ reference_genome strategy comp = Ok self ->
  build_sa strategy (terminated reference_genome) = Ok (map Z.of_nat san) ->
  Permutation san (seq 0 (length (terminated reference_genome))) ->
  encodes self (map (bwt_sym (terminated reference_genome)) san) /\
  f self = c_table (terminated reference_genome) /\
  n self = Py.len (terminated reference_genome) /\
  compression_sa self = comp /\ 1 <= comp /\ 1 <= bucket_step_sa self /\
  (comp = 1 -> sa self = map Z.of_nat san) /\
  (comp <> 1 ->
   exists bucket,
     bitvector self = Some (map (sampled comp) (map Z.of_nat san)) /\
     sa self = filter (sampled comp) (map Z.of_nat san) /\
     bucket_sa self = Some bucket /\
     bucket_ok (bucket_step_sa self) (map (sampled comp) (map Z.of_nat san)) bucket).
Proof.
  intros Hv H Hb Hperm.
  pose proof (terminated_len _ Hv) as H2.
  pose proof (terminated_sentinel _ Hv) as Hterm.
  destruct (with_sentinel_valid _ Hv) as (Ew & _ & _).
  pose proof (init_encodes _ _ _ _ H) as (bwt & Ebwt & _ & _ & _ & Henc).
  apply init_Ok in H
    as (full & bwt' & _ & Hc & Eb & Eg & Ef & _ & _ & En & Ec & Es & Hs).
  rewrite Ew in *. rewrite Hb in Eb. injection Eb as <-.
  unfold bwt_of in Ebwt. rewrite Hb in Ebwt. cbn [bind] in Ebwt.
  apply bwt_rows in Ebwt; [|exact Hterm|apply (san_lt _ _ Hperm)].
  subst bwt.
  assert (Hstep : 1 <= bucket_step_sa self) by (rewrite Es; now apply log2_ge_1).
  split; [apply Henc; lia|]. do 5 (split; [assumption|]).
  split.
  - intros ->. cbn in Hs. tauto.
  - intros Hne. replace (comp =? 1) with false in Hs by (symmetry; now apply Z.eqb_neq).
    destruct Hs as (sa0 & r0 & st & E0 & Er & Est & Esa & Ebv & Ebk).
    rewrite <- Es in Est.
    destruct (sample_loop_spec (bucket_step_sa self) comp (map Z.of_nat san) sa0 r0
                Hstep ltac:(lia) E0 Er) as (bucket & Esl & Hok).
    rewrite Esl in Est. injection Est as <-. cbn [ss_compressed ss_bits ss_bucket] in *.
    exists bucket. auto.
Qed.

(** Construction succeeds on a valid reference once the builder has
    returned the suffix array. *)
Lemma init_succeeds (reference_genome : list ascii) (strategy : string) (comp : Z)
  (san : list nat) :
  valid_reference reference_genome ->
  strategy = "KaerkkaeinenSanders"%string \/ strategy = "ManberMyers"%string
  \/ strategy = "Simple"%string ->
  1 <= comp ->
  build_sa strategy (terminated reference_genome) = Ok (map Z.of_nat san) ->
  Permutation san (seq 0 (length (terminated reference_genome))) ->
  exists self, __init__ reference_genome strategy comp = Ok self.
Proof.
  intros Hv Hst Hc Hb Hperm.
  pose proof (terminated_len _ Hv) as H2.
  pose proof (terminated_sentinel _ Hv) as Hterm.
  pose proof (terminated_alphabet _ Hv) as Hal.
  destruct (with_sentinel_valid _ Hv) as (Ew & Hg & _).
  assert (Hne : reference_genome <> []).
  { intros ->. now apply Hg. }
  unfold __init__.
  replace (negb _) with false
    by (destruct Hst as [-> | [-> | ->]]; reflexivity).
  replace (Py.len reference_genome <? 1) with false.
  2:{ symmetry. apply Z.ltb_ge. destruct reference_genome; [now elim Hne|].
      rewrite len_cons. pose proof (len_nonneg reference_genome). lia. }
  replace (comp <? 1) with false by (symmetry; apply Z.ltb_ge; lia).
  assert (Elast : exists last, Py.getitem reference_genome (-1) = Ok last).
  { exists (last reference_genome cA). now apply getitem_last. }
  destruct Elast as (lst & Elast). rewrite Elast. cbn [bind].
  assert (Etext : (if negb (chr_eq lst cDollar) then reference_genome ++ [cDollar]
                   else reference_genome) = terminated reference_genome)
    by (rewrite <- Ew; unfold with_sentinel; now rewrite Elast).
  rewrite Etext. set (text := terminated reference_genome) in *.
  unfold Py.int_log2. replace (Py.len text <=? 0) with false by (symmetry; apply Z.leb_gt; lia).
  cbn [bind]. rewrite suffix_array_unfold, Hb. cbn [bind].
  assert (Hlen : length san = length text) by (rewrite (Permutation_length Hperm); apply length_seq).
  assert (Hbwt : get_bwt text (map Z.of_nat san) = Ok (map (bwt_sym text) san)).
  { destruct (get_bwt text (map Z.of_nat san)) as [bwt|e|] eqn:Eg.
    - f_equal. apply bwt_rows in Eg; auto. apply (san_lt _ _ Hperm).
    - exfalso. revert Eg. unfold get_bwt.
      destruct (map Z.of_nat san) eqn:Em.
      { apply (f_equal (@length Z)) in Em. rewrite length_map in Em. cbn in Em.
        unfold Py.len in H2. lia. }
      rewrite <- Em. clear Em.
      assert (Hin : forall p, In p san -> (p < length text)%nat) by apply (san_lt _ _ Hperm).
      clear - Hin. induction san as [|p l IH]; [discriminate|].
      cbn [map map_each].
      assert (Hp : (p < length text)%nat) by (apply Hin; now left).
      assert (Ex : exists x, (if Z.of_nat p =? 0 then Ok cDollar
                              else Py.getitem text (Z.of_nat p - 1)) = Ok x).
      { destruct (Z.of_nat p =? 0) eqn:E0; [eauto|]. apply Z.eqb_neq in E0.
        rewrite (getitem_nth text _ cA) by (unfold Py.len; lia). eauto. }
      destruct Ex as (x & ->). cbn [bind].
      destruct (map_each _ (map Z.of_nat l)) eqn:El; cbn [bind]; try discriminate.
      intros Hx. apply (IH (fun q Hq => Hin q (or_intror Hq))). exact Hx.
    - now apply get_bwt_no_fuel in Eg. }
  rewrite Hbwt. cbn [bind].
  assert (Hsamp : exists s1 bv1 bk1,
    (if comp =? 1 then Ok (map Z.of_nat san, None, None, map (bwt_sym text) san)
     else
       sa0 <- Py.getitem (map Z.of_nat san) 0 ;;
       r0 <- Py.mod_ sa0 comp ;;
       st <- sample_loop (Z.log2 (Py.len text)) comp (map Z.of_nat san)
               (SS [] [Z.b2z (r0 =? 0)] [] 0) ;;
       Ok (ss_compressed st, Some (ss_bits st), Some (ss_bucket st),
           map (bwt_sym text) san))
    = Ok (s1, bv1, bk1, map (bwt_sym text) san)).
  { destruct (comp =? 1) eqn:E1; [eauto|]. apply Z.eqb_neq in E1.
    destruct san as [|p l]; [cbn in Hlen; unfold Py.len in H2; lia|].
    cbn [map]. change (Py.getitem (Z.of_nat p :: map Z.of_nat l) 0) with (Ok (A := Z) (Z.of_nat p)).
    cbn [bind]. unfold Py.mod_ at 1.
    replace (comp =? 0) with false by (symmetry; apply Z.eqb_neq; lia). cbn [bind].
    destruct (sample_loop_spec (Z.log2 (Py.len text)) comp (Z.of_nat p :: map Z.of_nat l)
                (Z.of_nat p) (Z.of_nat p mod comp) (log2_ge_1 _ H2) ltac:(lia) eq_refl)
      as (bucket & Esl & _).
    { unfold Py.mod_. now replace (comp =? 0) with false by (symmetry; apply Z.eqb_neq; lia). }
    rewrite Esl. cbn [bind]. eauto. }
  destruct Hsamp as (s1 & bv1 & bk1 & ->). cbn [bind].
  rewrite (shifts_f_spec text Hal). cbn [bind].
  destruct (create_bit_vecs_spec (map (bwt_sym text) san))
    as (b0 & b1 & b2 & b3 & b4 & t1 & t2 & t3 & t4 & -> & _).
  { intros E. apply (f_equal (@length ascii)) in E. rewrite length_map in E.
    cbn in E. unfold Py.len in H2. lia. }
  cbn [bind]. eauto.
Qed.

(** [get_sa] returns the entry of the suffix array, whatever the sample
    rate. *)
Lemma get_sa_full (reference_genome : list ascii) (strategy : string) (comp : Z)
  (self : WaveletTree) (san : list nat) (fuel i : nat) :
  valid_reference reference_genome ->
  __init__ reference_genome strategy comp = Ok self ->
  build_sa strategy (terminated reference_genome) = Ok (map Z.of_nat san) ->
  Permutation san (seq 0 (length (terminated reference_genome))) ->
  suffix_sorted (terminated reference_genome) san ->
  (i < length (terminated reference_genome))%nat ->
  (length (terminated reference_genome) - 1 <= fuel)%nat ->
  get_sa fuel self (Z.of_nat i) = Ok (Z.of_nat (nth i san 0%nat)).
Proof.
  intros Hv H Hb Hperm Hsorted Hi Hfuel.
  destruct (init_index _ _ _ _ _ Hv H Hb Hperm)
    as (Henc & Hf & Hn & Hc & Hc1 & Hstep & Hone & Hsamp).
  destruct (Z.eq_dec comp 1) as [E1|E1].
  - unfold get_sa. rewrite Hc, E1. cbn [Z.eqb Pos.eqb]. rewrite (Hone E1).
    rewrite (getitem_nth _ _ 0)
      by (unfold Py.len; rewrite length_map, (san_length _ _ Hperm); lia).
    rewrite Nat2Z.id. f_equal. change 0 with (Z.of_nat 0). apply map_nth.
  - destruct (Hsamp E1) as (bucket & Hbv & Hsa & Hbk & Hok).
    rewrite <- Hc in Hbv, Hsa, Hok.
    apply (get_sa_sampled self (terminated reference_genome) san bucket); auto.
    + now apply terminated_sentinel.
    + now apply terminated_alphabet.
    + lia.
Qed.

(** The walk of [get_sa] from any row: it stops within [n - 1] steps. *)
Lemma lf_walk_bound (reference_genome : list ascii) (strategy : string) (comp : Z)
  (self : WaveletTree) (san : list nat) (fuel i : nat) :
  valid_reference reference_genome ->
  __init__ reference_genome strategy comp = Ok self ->
  build_sa strategy (terminated reference_genome) = Ok (map Z.of_nat san) ->
  Permutation san (seq 0 (length (terminated reference_genome))) ->
  suffix_sorted (terminated reference_genome) san ->
  1 < comp ->
  (i < length (terminated reference_genome))%nat ->
  (length (terminated reference_genome) - 1 <= fuel)%nat ->
  exists c row k,
    access self (Z.of_nat i) 0 = Ok c /\
    lf_walk fuel self c (Z.of_nat i) 0 = Ok (row, k) /\
    0 <= k <= n self - 1 /\ bitvector_at self row = Ok true.
Proof.
  intros Hv H Hb Hperm Hsorted Hgt Hi Hfuel.
  destruct (init_index _ _ _ _ _ Hv H Hb Hperm)
    as (Henc & Hf & Hn & Hc & Hc1 & Hstep & Hone & Hsamp).
  destruct (Hsamp ltac:(lia)) as (bucket & Hbv & Hsa & Hbk & Hok).
  rewrite <- Hc in Hbv, Hsa, Hok, Hgt.
  pose proof (terminated_sentinel _ Hv) as Hterm.
  pose proof (terminated_alphabet _ Hv) as Hal.
  set (text := terminated reference_genome) in *.
  assert (Hvi : (nth i san 0%nat < length text)%nat).
  { apply (san_lt text san Hperm), nth_In. rewrite (san_length text san Hperm). exact Hi. }
  destruct (lf_walk_spec self text san Hperm Hsorted Hterm Hal Henc Hf Hbv
              (nth i san 0%nat) i 0 fuel Hi eq_refl ltac:(lia))
    as (row' & k & E & H1 & H2 & H3 & H4).
  exists (PStr (nth i (map (bwt_sym text) san) cA)), (Z.of_nat row'), (0 + Z.of_nat k).
  split; [now apply (access_row self text san Hperm Hsorted Hterm Hal Henc)|].
  split; [exact E|]. split; [rewrite Hn; unfold Py.len; lia|].
  rewrite (bit_row self text san Hperm Hbv row' H1), H3. now rewrite H4.
Qed.

(** [__str__] on the index of a valid reference returns its genome. *)
Lemma str_of_init (reference_genome : list ascii) (strategy : string) (comp : Z)
  (self : WaveletTree) (san : list nat) :
  valid_reference reference_genome ->
  __init__ reference_genome strategy comp = Ok self ->
  build_sa strategy (terminated reference_genome) = Ok (map Z.of_nat san) ->
  Permutation san (seq 0 (length (terminated reference_genome))) ->
  suffix_sorted (terminated reference_genome) san ->
  __str__ self = Ok (genome_of reference_genome).
Proof.
  intros Hv H Hb Hperm Hsorted.
  destruct (init_index _ _ _ _ _ Hv H Hb Hperm) as (Henc & Hf & Hn & _).
  destruct (with_sentinel_valid _ Hv) as (_ & Hg & Hd).
  now apply (str_genome self (genome_of reference_genome) san).
Qed.

(* ================================================================== *)
(** * Loops and arrays *)
(* ================================================================== *)

(** A loop whose body keeps an invariant indexed by the number of turns
    returns, and the invariant holds at the end. *)
Lemma for_each_ind {A S : Type} (I : nat -> S -> Prop) (l : list A) (s : S)
  (body : A -> S -> outcome S) :
  I 0%nat s ->
  (forall k x s, nth_error l k = Some x -> I k s ->
     exists s', body x s = Ok s' /\ I (Datatypes.S k) s') ->
  exists s', Py.for_each l s body = Ok s' /\ I (length l) s'.
Proof.
  revert I s. induction l as [|x l IH]; intros I s H0 Hstep.
  - exists s. split; [reflexivity|exact H0].
  - destruct (Hstep 0%nat x s eq_refl H0) as (s1 & E1 & H1).
    cbn [Py.for_each]. rewrite E1. cbn [bind].
    destruct (IH (fun k => I (Datatypes.S k)) s1 H1) as (s' & E & H').
    + intros k y s2 Hk Hs2. apply (Hstep (Datatypes.S k)); assumption.
    + exists s'. split; [exact E|exact H'].
Qed.

Lemma range_nth_error (a b : Z) (k : nat) :
  (Z.of_nat k < b - a) -> nth_error (Py.range a b) k = Some (a + Z.of_nat k).
Proof.
  intros H. unfold Py.range.
  rewrite nth_error_map, nth_error_nth' with (d := 0%nat) by (rewrite length_seq; lia).
  rewrite seq_nth by lia. reflexivity.
Qed.

Lemma range_nth_error_inv (a b x : Z) (k : nat) :
  nth_error (Py.range a b) k = Some x -> x = a + Z.of_nat k /\ Z.of_nat k < b - a.
Proof.
  intros H.
  assert (Hk : (k < length (Py.range a b))%nat) by (apply nth_error_Some; congruence).
  rewrite range_length in Hk.
  rewrite range_nth_error in H by lia. injection H as <-. lia.
Qed.

Lemma rev_range_nth_error_inv (m : Z) (x : Z) (k : nat) :
  nth_error (rev (Py.range 0 m)) k = Some x ->
  x = m - 1 - Z.of_nat k /\ Z.of_nat k < m.
Proof.
  intros H.
  assert (Hk : (k < length (rev (Py.range 0 m)))%nat) by (apply nth_error_Some; congruence).
  rewrite length_rev, range_length in Hk.
  rewrite nth_error_rev, range_length in H.
  replace (k <? Z.to_nat (m - 0))%nat with true in H by (symmetry; apply Nat.ltb_lt; lia).
  apply range_nth_error_inv in H as [-> _]. lia.
Qed.

Lemma getitem_nat {A : Type} (l : list A) (k : nat) (d : A) :
  (k < length l)%nat -> Py.getitem l (Z.of_nat k) = Ok (nth k l d).
Proof.
  intros H. rewrite (getitem_nth l _ d) by (unfold Py.len; lia). now rewrite Nat2Z.id.
Qed.

Lemma setitem_nat {A : Type} (l : list A) (k : nat) (x : A) :
  (k < length l)%nat -> Py.setitem l (Z.of_nat k) x = Ok (Py.update k x l).
Proof.
  intros H. unfold Py.setitem, Py.norm_index, Py.len.
  replace (0 <=? Z.of_nat k) with true by (symmetry; apply Z.leb_le; lia).
  replace (Z.of_nat k <? Z.of_nat (length l)) with true by (symmetry; apply Z.ltb_lt; lia).
  cbn [andb]. now rewrite Nat2Z.id.
Qed.

Lemma nth_update_same {A : Type} (l : list A) (k : nat) (x d : A) :
  (k < length l)%nat -> nth k (Py.update k x l) d = x.
Proof.
  revert k. induction l as [|y l IH]; intros k H; [cbn in H; lia|].
  destruct k as [|k]; [reflexivity|]. cbn [Py.update nth]. apply IH. cbn in H. lia.
Qed.

Lemma nth_update_other {A : Type} (l : list A) (k j : nat) (x d : A) :
  j <> k -> nth j (Py.update k x l) d = nth j l d.
Proof.
  revert k j. induction l as [|y l IH]; intros k j H.
  - destruct k; reflexivity.
  - destruct k as [|k], j as [|j]; cbn [Py.update nth]; try reflexivity; try congruence.
    apply IH. congruence.
Qed.

Lemma nth_replicate {A : Type} (x d : A) (m : Z) (k : nat) :
  (Z.of_nat k < m) -> nth k (Py.replicate x m) d = x.
Proof.
  intros H. unfold Py.replicate. rewrite nth_repeat_lt by lia. reflexivity.
Qed.

Lemma length_replicate {A : Type} (x : A) (m : Z) :
  length (Py.replicate x m) = Z.to_nat m.
Proof. apply repeat_length. Qed.

(* ================================================================== *)
(** * Counting sort, abstractly *)
(* ================================================================== *)

Section StableSort.

Variable K : nat -> nat.

Lemma key_less_S (n k : nat) :
  key_less K (S n) k = (key_less K n k + (if (K n <? k)%nat then 1 else 0))%nat.
Proof.
  unfold key_less. rewrite seq_S, filter_app, length_app. cbn [filter Nat.add].
  now destruct (K n <? k)%nat.
Qed.

Lemma key_count_S (n k : nat) :
  key_count K (S n) k = (key_count K n k + (if (K n =? k)%nat then 1 else 0))%nat.
Proof.
  unfold key_count. rewrite seq_S, filter_app, length_app. cbn [filter Nat.add].
  now destruct (K n =? k)%nat.
Qed.

Lemma key_count_mono (i n k : nat) : (i <= n)%nat -> (key_count K i k <= key_count K n k)%nat.
Proof.
  induction 1 as [|n Hle IH]; [lia|]. rewrite key_count_S. lia.
Qed.

Lemma key_count_lt (i n : nat) : (i < n)%nat -> (key_count K i (K i) < key_count K n (K i))%nat.
Proof.
  intros H. apply Nat.lt_le_trans with (key_count K (S i) (K i)).
  - rewrite key_count_S, Nat.eqb_refl. lia.
  - apply key_count_mono. lia.
Qed.

Lemma key_less_count (n k k' : nat) :
  (k < k')%nat -> (key_less K n k + key_count K n k <= key_less K n k')%nat.
Proof.
  intros H. induction n as [|n IH]; [reflexivity|].
  rewrite !key_less_S, key_count_S.
  destruct (Nat.ltb_spec (K n) k), (Nat.eqb_spec (K n) k), (Nat.ltb_spec (K n) k'); lia.
Qed.

Lemma key_less_count_le (n k : nat) : (key_less K n k + key_count K n k <= n)%nat.
Proof.
  induction n as [|n IH]; [reflexivity|].
  rewrite key_less_S, key_count_S.
  destruct (Nat.ltb_spec (K n) k), (Nat.eqb_spec (K n) k); lia.
Qed.

Lemma stable_pos_lt (n i : nat) : (i < n)%nat -> (stable_pos K n i < n)%nat.
Proof.
  intros H. unfold stable_pos.
  pose proof (key_count_lt i n H). pose proof (key_less_count_le n (K i)). lia.
Qed.

Lemma stable_pos_mono (n i j : nat) :
  (i < n)%nat -> (j < n)%nat -> stable_lt K i j -> (stable_pos K n i < stable_pos K n j)%nat.
Proof.
  intros Hi Hj [Hlt|[Heq Hij]]; unfold stable_pos.
  - pose proof (key_count_lt i n Hi). pose proof (key_less_count n _ _ Hlt). lia.
  - rewrite <- Heq. pose proof (key_count_lt i j Hij). lia.
Qed.

Lemma stable_lt_total (i j : nat) : stable_lt K i j \/ i = j \/ stable_lt K j i.
Proof. unfold stable_lt. lia. Qed.

Lemma stable_lt_asym (i j : nat) : stable_lt K i j -> stable_lt K j i -> False.
Proof. unfold stable_lt. lia. Qed.

Lemma stable_pos_inj (n i j : nat) :
  (i < n)%nat -> (j < n)%nat -> stable_pos K n i = stable_pos K n j -> i = j.
Proof.
  intros Hi Hj E. destruct (stable_lt_total i j) as [H|[H|H]]; [|exact H|].
  - pose proof (stable_pos_mono n i j Hi Hj H). lia.
  - pose proof (stable_pos_mono n j i Hj Hi H). lia.
Qed.

Lemma stable_pos_lt_inv (n i j : nat) :
  (i < n)%nat -> (j < n)%nat -> (stable_pos K n i < stable_pos K n j)%nat -> stable_lt K i j.
Proof.
  intros Hi Hj H. destruct (stable_lt_total i j) as [H'|[H'|H']]; [exact H'| |].
  - subst. lia.
  - pose proof (stable_pos_mono n j i Hj Hi H'). lia.
Qed.

End StableSort.

Lemma StronglySorted_map_seq {A : Type} (R : A -> A -> Prop) (g : nat -> A) (len a : nat) :
  (forall x y, (a <= x)%nat -> (x < y)%nat -> (y < a + len)%nat -> R (g x) (g y)) ->
  StronglySorted R (map g (seq a len)).
Proof.
  revert a. induction len as [|len IH]; intros a H; [constructor|].
  cbn [seq map]. constructor.
  - apply IH. intros x y Hx Hxy Hy. apply H; lia.
  - apply Forall_forall. intros z Hz. apply in_map_iff in Hz as (y & <- & Hy).
    apply in_seq in Hy. apply H; lia.
Qed.

(** An array filled at the stable places is the stable sort. *)
Lemma fill_sorted {A : Type} (K : nat -> nat) (n : nat) (V : nat -> A) (out : list A) (d : A) :
  length out = n ->
  (forall i, (i < n)%nat -> nth (stable_pos K n i) out d = V i) ->
  exists sigma,
    out = map V sigma /\ Permutation sigma (seq 0 n) /\
    StronglySorted (stable_lt K) sigma.
Proof.
  intros Hlen Hfill.
  assert (Hb : FinFun.bFun n (stable_pos K n)) by (intros x Hx; now apply stable_pos_lt).
  assert (Hinj : FinFun.bInjective n (stable_pos K n))
    by (intros x y Hx Hy E; now apply (stable_pos_inj K n)).
  apply (FinFun.bInjective_bSurjective Hb) in Hinj.
  apply (FinFun.bSurjective_bBijective Hb) in Hinj as (g & Hg & Hgf).
  exists (map g (seq 0 n)). split; [|split].
  - apply (nth_ext _ _ d (V (g 0%nat))); [now rewrite !length_map, length_seq|].
    intros x Hx. rewrite Hlen in Hx.
    rewrite map_map, (map_nth (fun y => V (g y))), seq_nth by exact Hx. cbn [Nat.add].
    destruct (Hgf x Hx) as [_ E]. rewrite <- E at 1. apply Hfill, Hg, Hx.
  - apply NoDup_Permutation_bis.
    + apply NoDup_map_inj; [|apply seq_NoDup].
      intros x y Hx Hy E. apply in_seq in Hx, Hy.
      destruct (Hgf x ltac:(lia)) as [_ Ex]. destruct (Hgf y ltac:(lia)) as [_ Ey].
      congruence.
    + now rewrite length_map.
    + intros z Hz. apply in_map_iff in Hz as (y & <- & Hy). apply in_seq in Hy.
      apply in_seq. pose proof (Hg y ltac:(lia)). lia.
  - apply StronglySorted_map_seq. intros x y _ Hxy Hy. cbn [Nat.add] in Hy.
    apply (stable_pos_lt_inv K n); [apply Hg; lia|apply Hg; lia|].
    destruct (Hgf x ltac:(lia)) as [_ Ex]. destruct (Hgf y ltac:(lia)) as [_ Ey].
    rewrite Ex, Ey. exact Hxy.
Qed.

(* ================================================================== *)
(** * Naming the items of a sorted list *)
(* ================================================================== *)

Section Naming.

Variable A : Type.
Variable le : A -> A -> Prop.
Variable same : A -> A -> bool.
Variable l : list A.
Variable d : A.
Hypothesis le_trans : forall a b c, le a b -> le b c -> le a c.
Hypothesis l_sorted :
  forall i j, (i <= j)%nat -> (j < length l)%nat -> le (nth i l d) (nth j l d).
Hypothesis same_spec :
  forall x, (S x < length l)%nat ->
    (same (nth x l d) (nth (S x) l d) = true <-> le (nth (S x) l d) (nth x l d)).

Lemma name_at_S (i : nat) :
  name_at same l d (S i)
  = (name_at same l d i + (if same (nth i l d) (nth (S i) l d) then 0 else 1))%nat.
Proof.
  unfold name_at. rewrite seq_S, filter_app, length_app. cbn [filter Nat.add].
  now destruct (same (nth i l d) (nth (S i) l d)).
Qed.

Lemma name_at_mono (i j : nat) :
  (i <= j)%nat -> (name_at same l d i <= name_at same l d j)%nat.
Proof. induction 1 as [|j Hle IH]; [lia|]. rewrite name_at_S. lia. Qed.

Lemma name_at_le (i : nat) : (name_at same l d i <= i)%nat.
Proof.
  induction i as [|i IH]; [reflexivity|]. rewrite name_at_S.
  destruct (same _ _); lia.
Qed.

Lemma name_eq_iff (i j : nat) :
  (i <= j)%nat -> (j < length l)%nat ->
  (name_at same l d i = name_at same l d j <-> le (nth j l d) (nth i l d)).
Proof.
  induction 1 as [|j Hle IH]; intros Hj.
  - split; [intros _; apply l_sorted; lia|reflexivity].
  - specialize (IH ltac:(lia)). rewrite name_at_S.
    pose proof (name_at_mono i j Hle) as Hm.
    pose proof (same_spec j Hj) as Hs.
    split.
    + intros E. destruct (same (nth j l d) (nth (S j) l d)); [|lia].
      apply le_trans with (nth j l d); [now apply Hs|]. apply IH. lia.
    + intros H.
      assert (H1 : le (nth (S j) l d) (nth j l d)).
      { apply le_trans with (nth i l d); [exact H|]. apply l_sorted; lia. }
      apply Hs in H1. rewrite H1.
      assert (H2 : le (nth j l d) (nth i l d)).
      { apply le_trans with (nth (S j) l d); [|exact H]. apply l_sorted; lia. }
      apply IH in H2. lia.
Qed.

Lemma name_lt_iff (i j : nat) :
  (i < length l)%nat -> (j < length l)%nat ->
  ((name_at same l d i < name_at same l d j)%nat <-> ~ le (nth j l d) (nth i l d)).
Proof.
  intros Hi Hj. destruct (Nat.le_gt_cases i j) as [Hij|Hij].
  - pose proof (name_at_mono i j Hij). pose proof (name_eq_iff i j Hij Hj) as He.
    split; [intros H1 H2; apply He in H2; lia|].
    intros H1. destruct (Nat.eq_dec (name_at same l d i) (name_at same l d j)) as [E|E]; [|lia].
    apply He in E. contradiction.
  - pose proof (name_at_mono j i ltac:(lia)).
    split; [lia|]. intros H1. exfalso. apply H1. apply l_sorted; lia.
Qed.

End Naming.

(* ================================================================== *)
(** * Cyclic windows of a text *)
(* ================================================================== *)

Lemma str_lt_app_eq (a u v : list ascii) : str_lt (a ++ u) (a ++ v) = str_lt u v.
Proof. induction a as [|x a IH]; [reflexivity|]. cbn [app]. now rewrite str_lt_cons_same. Qed.

Lemma str_lt_app_ne (a b u v : list ascii) :
  length a = length b -> a <> b -> str_lt (a ++ u) (b ++ v) = str_lt a b.
Proof.
  revert b. induction a as [|x a IH]; intros [|y b] Hl Hne; try discriminate.
  - now elim Hne.
  - cbn [app str_lt].
    destruct (nat_of_ascii x <? nat_of_ascii y)%nat eqn:E1; [reflexivity|].
    destruct (nat_of_ascii y <? nat_of_ascii x)%nat eqn:E2; [reflexivity|].
    apply Nat.ltb_ge in E1, E2.
    assert (Exy : x = y) by (apply nat_of_ascii_inj; lia). subst y.
    apply IH; [cbn in Hl; lia|congruence].
Qed.

Lemma cyc_length (text : list ascii) (p L : nat) : length (cyc text p L) = L.
Proof. unfold cyc. now rewrite length_map, length_seq. Qed.

Lemma map_seq_ext {A : Type} (g h : nat -> A) (a b len : nat) :
  (forall k, (k < len)%nat -> g (a + k)%nat = h (b + k)%nat) ->
  map g (seq a len) = map h (seq b len).
Proof.
  revert a b. induction len as [|len IH]; intros a b H; [reflexivity|].
  cbn [seq map]. f_equal.
  - specialize (H 0%nat ltac:(lia)). now rewrite !Nat.add_0_r in H.
  - apply IH. intros k Hk. specialize (H (S k) ltac:(lia)).
    now rewrite <- !Nat.add_succ_comm in H.
Qed.

Lemma cyc_add (text : list ascii) (p L1 L2 : nat) :
  cyc text p (L1 + L2)
  = cyc text p L1 ++ cyc text ((p + L1) mod length text) L2.
Proof.
  unfold cyc. rewrite seq_app, map_app. f_equal. cbn [Nat.add].
  apply map_seq_ext. intros k _. cbn [Nat.add].
  now rewrite Nat.Div0.add_mod_idemp_l, Nat.add_assoc.
Qed.

Lemma cyc_suf (text : list ascii) (p : nat) :
  (p <= length text)%nat -> cyc text p (length text - p) = suf text p.
Proof.
  intros Hp. unfold cyc, suf.
  apply (nth_ext _ _ cA cA).
  - rewrite length_map, length_seq, length_skipn. reflexivity.
  - intros k Hk. rewrite length_map, length_seq in Hk.
    rewrite (nth_indep _ cA (nth ((p + 0) mod length text) text cA))
      by (rewrite length_map, length_seq; exact Hk).
    rewrite (map_nth (fun k => nth ((p + k) mod length text) text cA)), seq_nth by exact Hk.
    rewrite nth_skipn. cbn [Nat.add]. now rewrite Nat.mod_small by lia.
Qed.

(** A window that reaches the end of the text starts with the suffix. *)
Lemma cyc_suf_app (text : list ascii) (p L : nat) :
  (p <= length text)%nat -> (length text - p <= L)%nat ->
  exists rest, cyc text p L = suf text p ++ rest.
Proof.
  intros Hp HL. replace L with ((length text - p) + (L - (length text - p)))%nat by lia.
  rewrite cyc_add, cyc_suf by exact Hp. eauto.
Qed.

Lemma cyc_one (text : list ascii) (p : nat) :
  (p < length text)%nat -> cyc text p 1 = [nth p text cA].
Proof.
  intros Hp. unfold cyc. cbn [seq map]. now rewrite Nat.add_0_r, Nat.mod_small.
Qed.

(** Rotating the positions of a text permutes them. *)
Lemma rotate_perm (m d : nat) :
  Permutation (map (fun p => (p + d) mod m)%nat (seq 0 m)) (seq 0 m).
Proof.
  destruct m as [|m]; [reflexivity|].
  apply NoDup_Permutation_bis.
  - apply NoDup_map_inj; [|apply seq_NoDup].
    intros a b Ha Hb E. apply in_seq in Ha, Hb.
    pose proof (Nat.div_mod_eq (a + d) (S m)) as Ea.
    pose proof (Nat.div_mod_eq (b + d) (S m)) as Eb.
    rewrite E in Ea.
    assert (Hq : ((a + d) / S m = (b + d) / S m)%nat) by nia.
    rewrite Hq in Ea. lia.
  - now rewrite length_map.
  - intros z Hz. apply in_map_iff in Hz as (y & <- & Hy).
    apply in_seq. pose proof (Nat.mod_upper_bound (y + d) (S m)). lia.
Qed.

(** In a sentinel-terminated text, two windows at distinct positions that
    are as long as the text compare as the suffixes do. *)
Lemma cyc_suf_order (text : list ascii) (p q L : nat) :
  sentinel_terminated text ->
  (p < length text)%nat -> (q < length text)%nat -> p <> q ->
  (length text <= L)%nat ->
  str_lt (cyc text p L) (cyc text q L) = str_lt (suf text p) (suf text q).
Proof.
  intros Hterm Hp Hq Hne HL.
  set (m := length text) in *.
  set (k := (m - Nat.max p q)%nat).
  assert (Hk : (1 <= k)%nat) by (unfold k; lia).
  assert (Hsplit : forall r, (r < m)%nat -> (r <= Nat.max p q)%nat ->
            exists a u v, cyc text r L = a ++ u /\ suf text r = a ++ v /\
                          length a = k /\ nth (k - 1) a cA = nth (r + k - 1) text cA).
  { intros r Hr Hrk.
    destruct (cyc_suf_app text r L ltac:(lia) ltac:(lia)) as (rest & E).
    exists (firstn k (suf text r)), (skipn k (suf text r) ++ rest), (skipn k (suf text r)).
    split; [|split; [|split]].
    - rewrite E, app_assoc, firstn_skipn. reflexivity.
    - now rewrite firstn_skipn.
    - rewrite length_firstn, suf_length. fold m. unfold k. lia.
    - rewrite nth_firstn. replace (k - 1 <? k)%nat with true by (symmetry; apply Nat.ltb_lt; lia).
      unfold suf. rewrite nth_skipn. f_equal. lia. }
  destruct (Hsplit p Hp ltac:(lia)) as (a1 & u1 & v1 & E1 & F1 & L1 & N1).
  destruct (Hsplit q Hq ltac:(lia)) as (a2 & u2 & v2 & E2 & F2 & L2 & N2).
  assert (Hdiff : a1 <> a2).
  { intros E. rewrite E in N1. rewrite N2 in N1.
    pose proof (text_last text Hterm) as Hlast. fold m in Hlast.
    destruct (Nat.max_spec p q) as [[Hlt Hmax]|[Hle Hmax]].
    - assert (Eq : (q + k - 1 = m - 1)%nat) by (unfold k; lia).
      rewrite Eq, Hlast in N1. symmetry in N1.
      apply (text_dollar_pos text Hterm) in N1; unfold m, k in *; lia.
    - assert (Eq : (p + k - 1 = m - 1)%nat) by (unfold k; lia).
      rewrite Eq, Hlast in N1.
      apply (text_dollar_pos text Hterm) in N1; unfold m, k in *; lia. }
  rewrite E1, E2, F1, F2.
  rewrite !str_lt_app_ne by (auto; congruence). reflexivity.
Qed.

(* ================================================================== *)
(** * Manber-Myers: [sort_chars] *)
(* ================================================================== *)

Lemma dict_of_get (F : ascii -> Z) (c : ascii) :
  in_alphabet c = true -> Dict.get (dict_of F) (PStr c) = Ok (F c).
Proof.
  intros H. apply in_alphabet_cases in H as [-> | [-> | [-> | [-> | [-> | ->]]]]];
    reflexivity.
Qed.

Lemma dict_of_set (F : ascii -> Z) (c : ascii) (z : Z) :
  in_alphabet c = true ->
  Dict.set (dict_of F) (PStr c) z = dict_of (fun x => if chr_eq x c then z else F x).
Proof.
  intros H. apply in_alphabet_cases in H as [-> | [-> | [-> | [-> | [-> | ->]]]]];
    reflexivity.
Qed.

Lemma dict_of_ext (F G : ascii -> Z) :
  (forall c, in_alphabet c = true -> F c = G c) -> dict_of F = dict_of G.
Proof.
  intros H. unfold dict_of. now rewrite !H by reflexivity.
Qed.

Lemma key_less_chars (text : list ascii) (k : nat) :
  key_less (char_key text) (length text) k
  = length (filter (fun x => (nat_of_ascii x <? k)%nat) text).
Proof.
  unfold key_less, char_key.
  replace (filter (fun x => (nat_of_ascii x <? k)%nat) text)
    with (filter (fun x => (nat_of_ascii x <? k)%nat)
            (map (fun q => nth q text cA) (seq 0 (length text))))
    by now rewrite nth_seq_map.
  rewrite <- (map_filter_comm (fun q => nth q text cA) (fun x => (nat_of_ascii x <? k)%nat)).
  now rewrite length_map.
Qed.

Lemma key_count_chars (text : list ascii) (c : ascii) :
  Z.of_nat (key_count (char_key text) (length text) (nat_of_ascii c)) = count c text.
Proof.
  unfold key_count, char_key, count, Py.len. f_equal.
  replace (filter (chr_eq c) text)
    with (filter (chr_eq c) (map (fun q => nth q text cA) (seq 0 (length text))))
    by now rewrite nth_seq_map.
  rewrite <- (map_filter_comm (fun q => nth q text cA) (chr_eq c)), length_map.
  f_equal. apply filter_ext. intros a. symmetry. apply chr_eq_code.
Qed.

Lemma key_less_smaller (text : list ascii) (c : ascii) :
  key_less (char_key text) (length text) (nat_of_ascii c) = smaller c text.
Proof. apply key_less_chars. Qed.

(** The cumulative loop over the keys of the dictionary. *)
Lemma sort_chars_cumulate (z0 z1 z2 z3 z4 z5 : Z) :
  let count := dict6 z0 z1 z2 z3 z4 z5 in
  let keys := Dict.keys count in
  Py.for_each (combine (Py.range 0 (Py.len keys)) keys) count
    (fun ij count =>
       let i := fst ij in
       let j := snd ij in
       if pyval_eqb j (PStr cDollar) then Ok count
       else
         v <- Dict.get count j ;;
         kprev <- Py.getitem keys (i - 1) ;;
         u <- Dict.get count kprev ;;
         Ok (Dict.set count j (v + u)))
  = Ok (dict6 z0 (z1 + z0) (z2 + (z1 + z0)) (z3 + (z2 + (z1 + z0)))
              (z4 + (z3 + (z2 + (z1 + z0)))) (z5 + (z4 + (z3 + (z2 + (z1 + z0)))))).
Proof. reflexivity. Qed.

Lemma sort_chars_fill (text : list ascii) :
  forallb in_alphabet text = true ->
  exists co,
    Py.for_each (rev (Py.range 0 (Py.len text)))
      (dict_of (fun c => Z.of_nat (key_less (char_key text) (length text) (nat_of_ascii c)
                                   + key_count (char_key text) (length text) (nat_of_ascii c))),
       Py.replicate 0 (Py.len text))
      (fun i co =>
         c <- Py.getitem text i ;;
         v <- Dict.get (fst co) (PStr c) ;;
         let count := Dict.set (fst co) (PStr c) (v - 1) in
         order <- Py.setitem (snd co) (v - 1) i ;;
         Ok (count, order))
    = Ok co /\
    length (snd co) = length text /\
    forall i, (i < length text)%nat ->
      nth (stable_pos (char_key text) (length text) i) (snd co) 0 = Z.of_nat i.
Proof.
  intros Hal. set (n := length text). set (K := char_key text).
  destruct (for_each_ind
    (fun k (co : Dict.t Z * list Z) =>
       fst co = dict_of (fun c => Z.of_nat (key_less K n (nat_of_ascii c)
                                            + key_count K (n - k) (nat_of_ascii c))) /\
       length (snd co) = n /\
       forall i, (n - k <= i)%nat -> (i < n)%nat ->
         nth (stable_pos K n i) (snd co) 0 = Z.of_nat i)
    (rev (Py.range 0 (Py.len text)))
    (dict_of (fun c => Z.of_nat (key_less K n (nat_of_ascii c)
                                 + key_count K n (nat_of_ascii c))),
     Py.replicate 0 (Py.len text))
    (fun i co =>
         c <- Py.getitem text i ;;
         v <- Dict.get (fst co) (PStr c) ;;
         let count := Dict.set (fst co) (PStr c) (v - 1) in
         order <- Py.setitem (snd co) (v - 1) i ;;
         Ok (count, order))) as (co & E & Hd & Hl & Hf).
  - cbn [fst snd]. rewrite Nat.sub_0_r. split; [reflexivity|].
    split; [rewrite length_replicate; unfold Py.len, n; lia|]. intros i H1 H2. lia.
  - intros k x [cnt ord] Hx (Hd & Hl & Hf). cbn [fst snd] in *.
    apply rev_range_nth_error_inv in Hx as [Ex Hk]. unfold Py.len in Ex, Hk. fold n in Ex, Hk.
    set (i := (n - 1 - k)%nat).
    assert (Ei : x = Z.of_nat i) by (unfold i; lia). clear Ex. subst x.
    assert (Hi : (i < n)%nat) by (unfold i; lia).
    rewrite (getitem_nat text i cA) by exact Hi. cbn [bind].
    assert (Hc : in_alphabet (nth i text cA) = true).
    { rewrite forallb_forall in Hal. apply Hal, nth_In, Hi. }
    rewrite Hd, dict_of_get by exact Hc. cbn [bind].
    replace (n - k)%nat with (S i) by (unfold i; lia).
    assert (Ev : Z.of_nat (key_less K n (nat_of_ascii (nth i text cA))
                           + key_count K (S i) (nat_of_ascii (nth i text cA))) - 1
                 = Z.of_nat (stable_pos K n i)).
    { rewrite key_count_S. unfold stable_pos.
      change (nat_of_ascii (nth i text cA)) with (K i). rewrite Nat.eqb_refl. lia. }
    rewrite Ev.
    pose proof (stable_pos_lt K n i Hi) as Hp.
    rewrite setitem_nat by lia. cbn [bind].
    eexists. split; [reflexivity|]. cbn [fst snd].
    replace (n - S k)%nat with i by (unfold i; lia).
    split; [|split].
    + rewrite dict_of_set by exact Hc. apply dict_of_ext. intros c' Hc'.
      destruct (chr_eq c' (nth i text cA)) eqn:Ec.
      * apply chr_eq_true in Ec. subst c'. unfold stable_pos. reflexivity.
      * rewrite key_count_S.
        replace (K i =? nat_of_ascii c')%nat with false; [now rewrite Nat.add_0_r|].
        symmetry. apply Nat.eqb_neq. unfold K, char_key. intros F.
        apply nat_of_ascii_inj in F. subst c'. unfold chr_eq in Ec.
        now rewrite Ascii.eqb_refl in Ec.
    + now rewrite update_length.
    + intros j Hj1 Hj2. destruct (Nat.eq_dec j i) as [->|Hne].
      * apply nth_update_same. lia.
      * rewrite nth_update_other.
        -- apply Hf; [unfold i in *; lia|exact Hj2].
        -- intros F. apply (stable_pos_inj K n) in F; auto.
  - exists co. split; [exact E|]. rewrite length_rev, range_length in Hf.
    split; [exact Hl|]. intros i Hi. apply Hf; [unfold Py.len; lia|exact Hi].
Qed.

(** [sort_chars] returns the positions in the stable order of their
    symbols. *)
Lemma sort_chars_spec (text : list ascii) :
  forallb in_alphabet text = true ->
  exists sigma,
    ManberMyers.sort_chars text = Ok (map Z.of_nat sigma) /\
    Permutation sigma (seq 0 (length text)) /\
    StronglySorted (stable_lt (char_key text)) sigma.
Proof.
  intros Hal. unfold ManberMyers.sort_chars.
  change [(PStr cDollar, 0); (PStr cA, 0); (PStr cC, 0);
          (PStr cG, 0); (PStr cN, 0); (PStr cT, 0)] with (dict6 0 0 0 0 0 0).
  rewrite (for_each_range_getitem text (dict6 0 0 0 0 0 0)
             (fun c count => v <- Dict.get count (PStr c) ;;
                             Ok (Dict.set count (PStr c) (v + 1)))).
  change (fun c count => v <- Dict.get count (PStr c) ;; Ok (Dict.set count (PStr c) (v + 1)))
    with count_body.
  rewrite count_loop, Hal. cbn [bind]. rewrite !Z.add_0_l.
  pose proof (sort_chars_cumulate (count cDollar text) (count cA text) (count cC text)
                (count cG text) (count cN text) (count cT text)) as Hcum.
  cbv zeta in Hcum |- *. rewrite Hcum. clear Hcum.
  cbn [bind].
  destruct (sort_chars_fill text Hal) as (co & E & Hl & Hf).
  assert (Ed : dict6 (count cDollar text) (count cA text + count cDollar text)
        (count cC text + (count cA text + count cDollar text))
        (count cG text + (count cC text + (count cA text + count cDollar text)))
        (count cN text + (count cG text + (count cC text + (count cA text + count cDollar text))))
        (count cT text + (count cN text + (count cG text + (count cC text
           + (count cA text + count cDollar text)))))
     = dict_of (fun c => Z.of_nat (key_less (char_key text) (length text) (nat_of_ascii c)
                         + key_count (char_key text) (length text) (nat_of_ascii c)))).
  { unfold dict_of. rewrite !Nat2Z.inj_add, !key_count_chars, !key_less_smaller.
    destruct (smaller_counts text Hal) as (I0 & I1 & I2 & I3 & I4 & I5).
    rewrite I0, I1, I2, I3, I4, I5. unfold dict6. repeat (f_equal; try lia). }
  cbv zeta in E. rewrite Ed, E. cbn [bind].
  destruct (fill_sorted (char_key text) (length text) Z.of_nat (snd co) 0 Hl Hf)
    as (sigma & Es & Hp & Hs).
  exists sigma. rewrite Es. auto.
Qed.

(* ================================================================== *)
(** * Manber-Myers: equivalence classes *)
(* ================================================================== *)

Lemma StronglySorted_nth {A : Type} (R : A -> A -> Prop) (l : list A) (d : A) :
  StronglySorted R l ->
  forall i j, (i < j)%nat -> (j < length l)%nat -> R (nth i l d) (nth j l d).
Proof.
  induction 1 as [|x l Hs IH Hx]; intros i j Hij Hj; [cbn in Hj; lia|].
  destruct j as [|j]; [lia|]. cbn [length] in Hj.
  destruct i as [|i]; cbn [nth].
  - rewrite Forall_forall in Hx. apply Hx, nth_In. lia.
  - apply IH; lia.
Qed.

Lemma str_le_trans (a b c : list ascii) :
  str_lt b a = false -> str_lt c b = false -> str_lt c a = false.
Proof.
  intros H1 H2. destruct (str_lt c a) eqn:E; [|reflexivity].
  destruct (list_eq_dec ascii_dec a b) as [->|Hne]; [congruence|].
  destruct (str_lt_total a b Hne) as [H|H]; [|congruence].
  rewrite (str_lt_trans c a b E H) in H2. discriminate.
Qed.

Lemma str_le_antisym (a b : list ascii) :
  str_lt a b = false -> str_lt b a = false -> a = b.
Proof.
  intros H1 H2. destruct (list_eq_dec ascii_dec a b) as [E|Hne]; [exact E|].
  destruct (str_lt_total a b Hne); congruence.
Qed.

Lemma perm_nth_inj (ord : list nat) (m : nat) (i j : nat) :
  Permutation ord (seq 0 m) -> (i < m)%nat -> (j < m)%nat ->
  nth i ord 0%nat = nth j ord 0%nat -> i = j.
Proof.
  intros Hp Hi Hj E.
  assert (Hnd : NoDup ord) by (apply (Permutation_NoDup (Permutation_sym Hp)), seq_NoDup).
  assert (Hl : length ord = m) by (rewrite (Permutation_length Hp); apply length_seq).
  rewrite NoDup_nth in Hnd. apply Hnd; [lia|lia|exact E].
Qed.

Lemma perm_nth_lt (ord : list nat) (m : nat) (i : nat) :
  Permutation ord (seq 0 m) -> (i < m)%nat -> (nth i ord 0%nat < m)%nat.
Proof.
  intros Hp Hi.
  assert (Hl : length ord = m) by (rewrite (Permutation_length Hp); apply length_seq).
  assert (Hin : In (nth i ord 0%nat) (seq 0 m)).
  { apply (Permutation_in _ Hp), nth_In. lia. }
  apply in_seq in Hin. lia.
Qed.

Lemma perm_nth_ex (ord : list nat) (m : nat) (p : nat) :
  Permutation ord (seq 0 m) -> (p < m)%nat ->
  exists i, (i < m)%nat /\ nth i ord 0%nat = p.
Proof.
  intros Hp Hlt.
  assert (Hl : length ord = m) by (rewrite (Permutation_length Hp); apply length_seq).
  assert (Hin : In p ord).
  { apply (Permutation_in _ (Permutation_sym Hp)), in_seq. lia. }
  destruct (In_nth ord p 0%nat Hin) as (i & Hi & E). exists i. split; [lia|exact E].
Qed.

(** The loop that writes the names of a sorted sequence of positions into
    an array indexed by position. *)
Lemma naming_loop (same : nat -> nat -> bool) (ord : list nat) (m : nat)
  (body : Z -> list Z -> outcome (list Z)) (arr0 : list Z) :
  Permutation ord (seq 0 m) ->
  length arr0 = m -> nth (nth 0 ord 0%nat) arr0 0 = 0 ->
  (forall i arr, (1 <= i)%nat -> (i < m)%nat -> length arr = m ->
     (forall x, (x < i)%nat ->
        nth (nth x ord 0%nat) arr 0 = Z.of_nat (name_at same ord 0%nat x)) ->
     body (Z.of_nat i) arr
     = Ok (Py.update (nth i ord 0%nat) (Z.of_nat (name_at same ord 0%nat i)) arr)) ->
  exists arr,
    Py.for_each (Py.range 1 (Z.of_nat m)) arr0 body = Ok arr /\
    length arr = m /\
    forall x, (x < m)%nat ->
      nth (nth x ord 0%nat) arr 0 = Z.of_nat (name_at same ord 0%nat x).
Proof.
  intros Hp Hl H0 Hbody.
  destruct (for_each_ind
    (fun k (arr : list Z) =>
       length arr = m /\
       forall x, (x < S k)%nat -> (x < m)%nat ->
         nth (nth x ord 0%nat) arr 0 = Z.of_nat (name_at same ord 0%nat x))
    (Py.range 1 (Z.of_nat m)) arr0 body) as (arr & E & Hl' & Hn).
  - split; [exact Hl|]. intros x Hx _. replace x with 0%nat by lia. exact H0.
  - intros k x arr Hx (Hla & Hna).
    apply range_nth_error_inv in Hx as [-> Hk].
    replace (1 + Z.of_nat k) with (Z.of_nat (S k)) by lia.
    rewrite (Hbody (S k) arr) by (try lia; intros y Hy; apply Hna; lia).
    eexists. split; [reflexivity|]. split; [now rewrite update_length|].
    intros y Hy Hym. destruct (Nat.eq_dec y (S k)) as [->|Hne].
    + apply nth_update_same. rewrite Hla. apply (perm_nth_lt ord m); [exact Hp|lia].
    + rewrite nth_update_other; [apply Hna; lia|].
      intros F. apply (perm_nth_inj ord m) in F; auto; lia.
  - exists arr. split; [exact E|]. split; [exact Hl'|].
    intros x Hx. rewrite range_length in Hn.
    destruct (Nat.eq_dec m 0) as [->|Hm]; [lia|].
    apply Hn; lia.
Qed.

Lemma nth_map_of_nat (l : list nat) (i : nat) :
  nth i (map Z.of_nat l) 0 = Z.of_nat (nth i l 0%nat).
Proof. change 0 with (Z.of_nat 0) at 1. apply map_nth. Qed.

(** An array of names over a sorted order is a numbering of the windows. *)
Lemma names_inv (text : list ascii) (L : nat) (same : nat -> nat -> bool)
  (ord : list nat) (classes : list Z) :
  Permutation ord (seq 0 (length text)) ->
  length classes = length text ->
  (forall i j, (i <= j)%nat -> (j < length text)%nat ->
     str_lt (cyc text (nth j ord 0%nat) L) (cyc text (nth i ord 0%nat) L) = false) ->
  (forall x, (S x < length text)%nat ->
     (same (nth x ord 0%nat) (nth (S x) ord 0%nat) = true
      <-> cyc text (nth x ord 0%nat) L = cyc text (nth (S x) ord 0%nat) L)) ->
  (forall x, (x < length text)%nat ->
     nth (nth x ord 0%nat) classes 0 = Z.of_nat (name_at same ord 0%nat x)) ->
  mm_inv text L (map Z.of_nat ord) classes.
Proof.
  intros Hp Hl Hsorted Hsame Hnames.
  set (m := length text) in *.
  assert (Hlo : length ord = m) by (rewrite (Permutation_length Hp); apply length_seq).
  set (le := fun a b : nat => str_lt (cyc text b L) (cyc text a L) = false).
  assert (le_trans : forall a b c, le a b -> le b c -> le a c).
  { unfold le. intros a b c H1 H2. exact (str_le_trans _ _ _ H1 H2). }
  assert (l_sorted : forall i j, (i <= j)%nat -> (j < length ord)%nat ->
            le (nth i ord 0%nat) (nth j ord 0%nat)).
  { intros i j Hij Hj. apply Hsorted; [exact Hij|lia]. }
  assert (same_spec : forall x, (S x < length ord)%nat ->
            (same (nth x ord 0%nat) (nth (S x) ord 0%nat) = true
             <-> le (nth (S x) ord 0%nat) (nth x ord 0%nat))).
  { intros x Hx. rewrite Hsame by lia. unfold le. split.
    - intros ->. apply str_lt_irrefl.
    - intros H. apply str_le_antisym; [exact H|]. apply Hsorted; lia. }
  exists ord. split; [reflexivity|]. split; [exact Hp|]. split; [exact Hl|].
  split; [|split].
  - intros p Hlt. destruct (perm_nth_ex ord m p Hp Hlt) as (i & Hi & <-).
    rewrite Hnames by exact Hi. pose proof (name_at_le nat same ord 0%nat i). lia.
  - intros p q Hlp Hlq.
    destruct (perm_nth_ex ord m p Hp Hlp) as (i & Hi & <-).
    destruct (perm_nth_ex ord m q Hp Hlq) as (j & Hj & <-).
    rewrite !Hnames by assumption.
    pose proof (name_lt_iff nat le same ord 0%nat le_trans l_sorted same_spec i j
                  ltac:(lia) ltac:(lia)) as Hlt.
    unfold le in Hlt. rewrite <- Nat2Z.inj_lt, Hlt.
    destruct (str_lt (cyc text (nth i ord 0%nat) L) (cyc text (nth j ord 0%nat) L));
      split; congruence.
  - intros i j Hij Hj. rewrite !Hnames by lia.
    apply inj_le. now apply name_at_mono.
Qed.

(** [compute_classes] numbers the symbols of the text. *)
Lemma compute_classes_spec (text : list ascii) (ord : list nat) :
  (1 <= length text)%nat ->
  Permutation ord (seq 0 (length text)) ->
  StronglySorted (stable_lt (char_key text)) ord ->
  exists classes,
    ManberMyers.compute_classes text (map Z.of_nat ord) = Ok classes /\
    mm_inv text 1 (map Z.of_nat ord) classes.
Proof.
  intros Hn Hp Hs. set (m := length text) in *.
  assert (Hlo : length ord = m) by (rewrite (Permutation_length Hp); apply length_seq).
  set (same := fun a b : nat => chr_eq (nth b text cA) (nth a text cA)).
  unfold ManberMyers.compute_classes.
  change (Py.getitem (map Z.of_nat ord) 0)
    with (Py.getitem (map Z.of_nat ord) (Z.of_nat 0)).
  rewrite (getitem_nat _ 0%nat 0) by (rewrite length_map; lia). cbn [bind].
  rewrite nth_map_of_nat.
  pose proof (perm_nth_lt ord m 0%nat Hp ltac:(lia)) as H0.
  rewrite setitem_nat by (rewrite length_replicate; unfold Py.len; fold m; lia).
  cbn [bind]. unfold Py.len. fold m.
  destruct (naming_loop same ord m
    (fun i classes =>
       oi <- Py.getitem (map Z.of_nat ord) i ;;
       ci <- Py.getitem text oi ;;
       op <- Py.getitem (map Z.of_nat ord) (i - 1) ;;
       cp <- Py.getitem text op ;;
       v <- Py.getitem classes op ;;
       if negb (chr_eq ci cp) then Py.setitem classes oi (v + 1)
       else Py.setitem classes oi v)
    (Py.update (nth 0 ord 0%nat) 0 (Py.replicate 0 (Z.of_nat m))) Hp)
    as (classes & E & Hl & Hnames).
  - rewrite update_length, length_replicate. lia.
  - apply nth_update_same. rewrite length_replicate. lia.
  - intros i arr Hi1 Hi2 Hla Hna.
    rewrite (getitem_nat _ i 0) by (rewrite length_map; lia). cbn [bind].
    rewrite nth_map_of_nat.
    pose proof (perm_nth_lt ord m i Hp Hi2) as Hoi.
    pose proof (perm_nth_lt ord m (i - 1)%nat Hp ltac:(lia)) as Hop.
    rewrite (getitem_nat text _ cA) by (fold m; lia). cbn [bind].
    replace (Z.of_nat i - 1) with (Z.of_nat (i - 1)) by lia.
    rewrite (getitem_nat _ (i - 1)%nat 0) by (rewrite length_map; lia). cbn [bind].
    rewrite nth_map_of_nat.
    rewrite (getitem_nat text _ cA) by (fold m; lia). cbn [bind].
    rewrite (getitem_nat arr _ 0) by lia. cbn [bind].
    rewrite (Hna (i - 1)%nat) by lia.
    assert (En : name_at same ord 0%nat i
                 = (name_at same ord 0%nat (i - 1)
                    + (if same (nth (i - 1) ord 0%nat) (nth i ord 0%nat) then 0 else 1))%nat).
    { pose proof (name_at_S nat same ord 0%nat (i - 1)) as E.
      now replace (S (i - 1)) with i in E by lia. }
    rewrite En.
    fold (same (nth (i - 1) ord 0%nat) (nth i ord 0%nat)).
    destruct (same (nth (i - 1) ord 0%nat) (nth i ord 0%nat)); cbn [negb];
      rewrite setitem_nat by lia; do 2 f_equal; lia.
  - exists classes. split; [exact E|].
    apply (names_inv text 1 same ord classes Hp Hl).
    + intros i j Hij Hj.
      pose proof (perm_nth_lt ord m i Hp ltac:(lia)) as Hoi.
      pose proof (perm_nth_lt ord m j Hp Hj) as Hoj.
      rewrite !cyc_one by assumption. cbn [str_lt].
      assert (Hk : (char_key text (nth i ord 0%nat) <= char_key text (nth j ord 0%nat))%nat).
      { destruct (Nat.eq_dec i j) as [->|Hne]; [lia|].
        pose proof (StronglySorted_nth _ ord 0%nat Hs i j ltac:(lia) ltac:(lia)) as H.
        unfold stable_lt in H. lia. }
      unfold char_key in Hk.
      replace (_ <? _)%nat with false by (symmetry; apply Nat.ltb_ge; exact Hk).
      now destruct (_ <? _)%nat.
    + intros x Hx.
      pose proof (perm_nth_lt ord m x Hp ltac:(lia)) as Hox.
      pose proof (perm_nth_lt ord m (S x) Hp Hx) as Hosx.
      rewrite !cyc_one by assumption. unfold same. rewrite chr_eq_true.
      split; [intros ->; reflexivity|intros [= E']; now symmetry].
    + exact Hnames.
Qed.

(* ================================================================== *)
(** * Manber-Myers: [sort_doubled] *)
(* ================================================================== *)

Lemma key_less_succ (K : nat -> nat) (m k : nat) :
  key_less K m (S k) = (key_less K m k + key_count K m k)%nat.
Proof.
  induction m as [|m IH]; [reflexivity|].
  rewrite !key_less_S, key_count_S, IH.
  destruct (Nat.ltb_spec (K m) (S k)), (Nat.ltb_spec (K m) k), (Nat.eqb_spec (K m) k); lia.
Qed.

Lemma key_less_0 (K : nat -> nat) (m : nat) : key_less K m 0 = 0%nat.
Proof. induction m as [|m IH]; [reflexivity|]. now rewrite key_less_S, IH. Qed.

Lemma key_less_perm (K : nat -> nat) (g : nat -> nat) (m k : nat) :
  Permutation (map g (seq 0 m)) (seq 0 m) ->
  key_less (fun i => K (g i)) m k = key_less K m k.
Proof.
  intros Hp. unfold key_less.
  rewrite <- (length_map g), (map_filter_comm g (fun p => (K p <? k)%nat)).
  apply Permutation_length, Permutation_filter_compat, Hp.
Qed.

Lemma key_count_perm (K : nat -> nat) (g : nat -> nat) (m k : nat) :
  Permutation (map g (seq 0 m)) (seq 0 m) ->
  key_count (fun i => K (g i)) m k = key_count K m k.
Proof.
  intros Hp. unfold key_count.
  rewrite <- (length_map g), (map_filter_comm g (fun p => (K p =? k)%nat)).
  apply Permutation_length, Permutation_filter_compat, Hp.
Qed.

(** First loop: the number of positions of every class. *)
Lemma sort_doubled_count (classes : list Z) (m : nat) :
  length classes = m ->
  (forall p, (p < m)%nat -> 0 <= nth p classes 0 < Z.of_nat m) ->
  exists cnt,
    Py.for_each (Py.range 0 (Z.of_nat m)) (Py.replicate 0 (Z.of_nat m))
      (fun i count =>
         cl <- Py.getitem classes i ;;
         v <- Py.getitem count cl ;;
         Py.setitem count cl (v + 1))
    = Ok cnt /\
    length cnt = m /\
    forall k, (k < m)%nat ->
      nth k cnt 0 = Z.of_nat (key_count (fun p => Z.to_nat (nth p classes 0)) m k).
Proof.
  intros Hl Hc. set (K := fun p => Z.to_nat (nth p classes 0)).
  destruct (for_each_ind
    (fun t (cnt : list Z) =>
       length cnt = m /\
       forall k, (k < m)%nat -> nth k cnt 0 = Z.of_nat (key_count K t k))
    (Py.range 0 (Z.of_nat m)) (Py.replicate 0 (Z.of_nat m))
    (fun i count =>
         cl <- Py.getitem classes i ;;
         v <- Py.getitem count cl ;;
         Py.setitem count cl (v + 1))) as (cnt & E & Hlc & Hk).
  - split; [rewrite length_replicate; lia|]. intros k Hk.
    rewrite nth_replicate by lia. reflexivity.
  - intros t x cnt Hx (Hlc & Hk). apply range_nth_error_inv in Hx as [-> Ht].
    cbn [Z.add]. rewrite (getitem_nat classes t 0) by lia. cbn [bind].
    pose proof (Hc t ltac:(lia)) as Hct.
    replace (nth t classes 0) with (Z.of_nat (K t)) by (unfold K; lia).
    assert (HKt : (K t < m)%nat) by (unfold K; lia).
    rewrite (getitem_nat cnt _ 0) by lia. cbn [bind].
    rewrite setitem_nat by lia.
    eexists. split; [reflexivity|]. split; [now rewrite update_length|].
    intros k Hkm. rewrite key_count_S.
    destruct (Nat.eqb_spec (K t) k) as [->|Hne].
    + rewrite nth_update_same by lia. rewrite Hk by lia. lia.
    + rewrite nth_update_other by congruence. rewrite Hk by lia. lia.
  - exists cnt. rewrite range_length in Hk.
    replace (Z.to_nat (Z.of_nat m - 0)) with m in Hk by lia. auto.
Qed.

(** Second loop: the number of positions up to every class. *)
Lemma sort_doubled_cumulate (K : nat -> nat) (cnt0 : list Z) (m : nat) :
  length cnt0 = m ->
  (forall k, (k < m)%nat -> nth k cnt0 0 = Z.of_nat (key_count K m k)) ->
  exists cnt,
    Py.for_each (Py.range 1 (Z.of_nat m)) cnt0
      (fun j count =>
         v <- Py.getitem count j ;;
         u <- Py.getitem count (j - 1) ;;
         Py.setitem count j (v + u))
    = Ok cnt /\
    length cnt = m /\
    forall k, (k < m)%nat ->
      nth k cnt 0 = Z.of_nat (key_less K m k + key_count K m k).
Proof.
  intros Hl H0.
  destruct (for_each_ind
    (fun t (cnt : list Z) =>
       length cnt = m /\
       (forall k, (k <= t)%nat -> (k < m)%nat ->
          nth k cnt 0 = Z.of_nat (key_less K m k + key_count K m k)) /\
       (forall k, (t < k)%nat -> (k < m)%nat ->
          nth k cnt 0 = Z.of_nat (key_count K m k)))
    (Py.range 1 (Z.of_nat m)) cnt0
    (fun j count =>
         v <- Py.getitem count j ;;
         u <- Py.getitem count (j - 1) ;;
         Py.setitem count j (v + u))) as (cnt & E & Hlc & Hlo & Hhi).
  - split; [exact Hl|]. split.
    + intros k Hk Hkm. replace k with 0%nat by lia. rewrite key_less_0. apply H0. lia.
    + intros k _ Hkm. now apply H0.
  - intros t x cnt Hx (Hlc & Hlo & Hhi). apply range_nth_error_inv in Hx as [-> Ht].
    replace (1 + Z.of_nat t) with (Z.of_nat (S t)) by lia.
    rewrite (getitem_nat cnt (S t) 0) by lia. cbn [bind].
    replace (Z.of_nat (S t) - 1) with (Z.of_nat t) by lia.
    rewrite (getitem_nat cnt t 0) by lia. cbn [bind].
    rewrite setitem_nat by lia.
    eexists. split; [reflexivity|]. split; [now rewrite update_length|]. split.
    + intros k Hk Hkm. destruct (Nat.eq_dec k (S t)) as [->|Hne].
      * rewrite nth_update_same by lia.
        rewrite Hhi, Hlo by lia. rewrite key_less_succ. lia.
      * rewrite nth_update_other by exact Hne. apply Hlo; lia.
    + intros k Hk Hkm. rewrite nth_update_other by lia. apply Hhi; lia.
  - exists cnt. split; [exact E|]. split; [exact Hlc|]. intros k Hk.
    rewrite range_length in Hlo. apply Hlo; lia.
Qed.

(** Third loop: every position, moved back by [L], is written at its
    stable place. *)
Lemma sort_doubled_fill (ord : list nat) (classes cnt0 : list Z) (m L : nat) :
  let startf := fun i => ((nth i ord 0%nat + (m - L)) mod m)%nat in
  let K := fun i => Z.to_nat (nth (startf i) classes 0) in
  (1 <= L)%nat -> (L < m)%nat ->
  Permutation ord (seq 0 m) ->
  length classes = m ->
  (forall p, (p < m)%nat -> 0 <= nth p classes 0 < Z.of_nat m) ->
  length cnt0 = m ->
  (forall k, (k < m)%nat -> nth k cnt0 0 = Z.of_nat (key_less K m k + key_count K m k)) ->
  exists cn,
    Py.for_each (rev (Py.range 0 (Z.of_nat m))) (cnt0, Py.replicate 0 (Z.of_nat m))
      (fun i cn =>
         oi <- Py.getitem (map Z.of_nat ord) i ;;
         start <- Py.mod_ (oi - Z.of_nat L + Z.of_nat m) (Z.of_nat m) ;;
         cl <- Py.getitem classes start ;;
         v <- Py.getitem (fst cn) cl ;;
         count <- Py.setitem (fst cn) cl (v - 1) ;;
         new_order <- Py.setitem (snd cn) (v - 1) start ;;
         Ok (count, new_order))
    = Ok cn /\
    length (snd cn) = m /\
    forall i, (i < m)%nat -> nth (stable_pos K m i) (snd cn) 0 = Z.of_nat (startf i).
Proof.
  intros startf K HL1 HL2 Hp Hlc Hc Hl0 H0.
  assert (Hlo : length ord = m) by (rewrite (Permutation_length Hp); apply length_seq).
  assert (Hst : forall i, (startf i < m)%nat)
    by (intros i; unfold startf; apply Nat.mod_upper_bound; lia).
  assert (HK : forall i, (K i < m)%nat).
  { intros i. unfold K. pose proof (Hc (startf i) (Hst i)). lia. }
  destruct (for_each_ind
    (fun t (cn : list Z * list Z) =>
       length (fst cn) = m /\
       (forall k, (k < m)%nat ->
          nth k (fst cn) 0 = Z.of_nat (key_less K m k + key_count K (m - t) k)) /\
       length (snd cn) = m /\
       forall i, (m - t <= i)%nat -> (i < m)%nat ->
         nth (stable_pos K m i) (snd cn) 0 = Z.of_nat (startf i))
    (rev (Py.range 0 (Z.of_nat m))) (cnt0, Py.replicate 0 (Z.of_nat m))
    (fun i cn =>
         oi <- Py.getitem (map Z.of_nat ord) i ;;
         start <- Py.mod_ (oi - Z.of_nat L + Z.of_nat m) (Z.of_nat m) ;;
         cl <- Py.getitem classes start ;;
         v <- Py.getitem (fst cn) cl ;;
         count <- Py.setitem (fst cn) cl (v - 1) ;;
         new_order <- Py.setitem (snd cn) (v - 1) start ;;
         Ok (count, new_order))) as (cn & E & _ & _ & Hlout & Hf).
  - cbn [fst snd]. rewrite Nat.sub_0_r. split; [exact Hl0|]. split; [exact H0|].
    split; [rewrite length_replicate; lia|]. intros i H1 H2. lia.
  - intros t x [cnt out] Hx (Hlcn & Hcn & Hlout & Hf). cbn [fst snd] in *.
    apply rev_range_nth_error_inv in Hx as [Ex Ht].
    set (i := (m - 1 - t)%nat).
    assert (Ei : x = Z.of_nat i) by (unfold i; lia). clear Ex. subst x.
    assert (Hi : (i < m)%nat) by (unfold i; lia).
    rewrite (getitem_nat _ i 0) by (rewrite length_map; lia). cbn [bind].
    rewrite nth_map_of_nat.
    unfold Py.mod_. replace (Z.of_nat m =? 0) with false by (symmetry; apply Z.eqb_neq; lia).
    cbn [bind].
    replace ((Z.of_nat (nth i ord 0%nat) - Z.of_nat L + Z.of_nat m) mod Z.of_nat m)
      with (Z.of_nat (startf i)).
    2:{ unfold startf. rewrite Nat2Z.inj_mod. f_equal. lia. }
    rewrite (getitem_nat classes _ 0) by (rewrite Hlc; apply Hst). cbn [bind].
    pose proof (Hc (startf i) (Hst i)) as Hci.
    replace (nth (startf i) classes 0) with (Z.of_nat (K i)) by (unfold K; lia).
    rewrite (getitem_nat cnt _ 0) by (rewrite Hlcn; apply HK). cbn [bind].
    replace (m - t)%nat with (S i) in Hcn, Hf by (unfold i; lia).
    rewrite Hcn by apply HK.
    assert (Ev : Z.of_nat (key_less K m (K i) + key_count K (S i) (K i)) - 1
                 = Z.of_nat (stable_pos K m i)).
    { rewrite key_count_S, Nat.eqb_refl. unfold stable_pos. lia. }
    rewrite Ev.
    pose proof (stable_pos_lt K m i Hi) as Hpos.
    rewrite setitem_nat by (rewrite Hlcn; apply HK). cbn [bind].
    rewrite setitem_nat by lia. cbn [bind].
    eexists. split; [reflexivity|]. cbn [fst snd].
    replace (m - S t)%nat with i by (unfold i; lia).
    split; [now rewrite update_length|]. split; [|split].
    + intros k Hk. destruct (Nat.eq_dec k (K i)) as [->|Hne].
      * rewrite nth_update_same by (rewrite Hlcn; apply HK). reflexivity.
      * rewrite nth_update_other by exact Hne. rewrite Hcn by exact Hk.
        rewrite key_count_S.
        replace (K i =? k)%nat with false by (symmetry; apply Nat.eqb_neq; congruence).
        now rewrite Nat.add_0_r.
    + now rewrite update_length.
    + intros j Hj1 Hj2. destruct (Nat.eq_dec j i) as [->|Hne].
      * apply nth_update_same. lia.
      * rewrite nth_update_other.
        -- apply Hf; [lia|exact Hj2].
        -- intros F. apply (stable_pos_inj K m) in F; auto.
  - exists cn. split; [exact E|]. rewrite length_rev, range_length in Hf.
    split; [exact Hlout|]. intros i Hi. apply Hf; [lia|exact Hi].
Qed.

Lemma rotate_back (m L p : nat) :
  (L <= m)%nat -> (p < m)%nat -> (((p + (m - L)) mod m + L) mod m = p)%nat.
Proof.
  intros HL Hp. rewrite Nat.Div0.add_mod_idemp_l.
  replace (p + (m - L) + L)%nat with (p + 1 * m)%nat by lia.
  rewrite Nat.Div0.mod_add. apply Nat.mod_small, Hp.
Qed.

(** [sort_doubled] sorts the positions by their windows of twice the
    length. *)
Lemma sort_doubled_spec (text : list ascii) (L : nat) (order classes : list Z) :
  mm_inv text L order classes ->
  (1 <= L)%nat -> (L < length text)%nat ->
  exists ord',
    ManberMyers.sort_doubled text (Z.of_nat L) order classes = Ok (map Z.of_nat ord') /\
    Permutation ord' (seq 0 (length text)) /\
    forall i j, (i <= j)%nat -> (j < length text)%nat ->
      str_lt (cyc text (nth j ord' 0%nat) (L + L)) (cyc text (nth i ord' 0%nat) (L + L))
      = false.
Proof.
  intros (ord & -> & Hp & Hlc & Hc & H3 & H5) HL1 HL2.
  set (m := length text) in *.
  assert (Hlo : length ord = m) by (rewrite (Permutation_length Hp); apply length_seq).
  set (startf := fun i => ((nth i ord 0%nat + (m - L)) mod m)%nat).
  set (Kc := fun p => Z.to_nat (nth p classes 0)).
  set (K := fun i => Z.to_nat (nth (startf i) classes 0)).
  assert (Hst : forall i, (startf i < m)%nat)
    by (intros i; unfold startf; apply Nat.mod_upper_bound; lia).
  assert (Hperm : Permutation (map startf (seq 0 m)) (seq 0 m)).
  { transitivity (map (fun p => (p + (m - L)) mod m)%nat ord).
    - rewrite <- (nth_seq_map ord 0%nat). rewrite Hlo, map_map. reflexivity.
    - transitivity (map (fun p => (p + (m - L)) mod m)%nat (seq 0 m)).
      + now apply Permutation_map.
      + apply rotate_perm. }
  unfold ManberMyers.sort_doubled. unfold Py.len. fold m.
  destruct (sort_doubled_count classes m Hlc Hc) as (cnt1 & E1 & Hl1 & Hk1).
  rewrite E1. cbn [bind].
  destruct (sort_doubled_cumulate Kc cnt1 m Hl1 Hk1) as (cnt2 & E2 & Hl2 & Hk2).
  rewrite E2. cbn [bind].
  destruct (sort_doubled_fill ord classes cnt2 m L HL1 HL2 Hp Hlc Hc Hl2)
    as (cn & E3 & Hlout & Hfill).
  { intros k Hk. rewrite Hk2 by exact Hk.
    rewrite <- (key_less_perm Kc startf m k Hperm), <- (key_count_perm Kc startf m k Hperm).
    reflexivity. }
  cbv zeta in E3. rewrite E3. cbn [bind]. fold startf in Hfill. fold K in Hfill.
  destruct (fill_sorted K m (fun i => Z.of_nat (startf i)) (snd cn) 0 Hlout Hfill)
    as (sigma & Es & Hps & Hss).
  assert (Hls : length sigma = m) by (rewrite (Permutation_length Hps); apply length_seq).
  exists (map startf sigma). split; [|split].
  - rewrite Es, map_map. reflexivity.
  - transitivity (map startf (seq 0 m)); [now apply Permutation_map|exact Hperm].
  - intros i j Hij Hj.
    rewrite !(nth_indep (map startf sigma) 0%nat (startf 0%nat))
      by (rewrite length_map; lia).
    rewrite !map_nth.
    destruct (Nat.eq_dec i j) as [->|Hne]; [apply str_lt_irrefl|].
    pose proof (StronglySorted_nth _ sigma 0%nat Hss i j ltac:(lia) ltac:(lia)) as Hlt.
    set (si := nth i sigma 0%nat) in *. set (sj := nth j sigma 0%nat) in *.
    assert (Hsi : (si < m)%nat) by (apply (perm_nth_lt sigma m i Hps); lia).
    assert (Hsj : (sj < m)%nat) by (apply (perm_nth_lt sigma m j Hps); lia).
    pose proof (perm_nth_lt ord m si Hp Hsi) as Hoi.
    pose proof (perm_nth_lt ord m sj Hp Hsj) as Hoj.
    rewrite !cyc_add. fold m.
    unfold startf at 2 4. rewrite !rotate_back by lia.
    pose proof (Hc (startf si) (Hst si)) as Hci.
    pose proof (Hc (startf sj) (Hst sj)) as Hcj.
    destruct Hlt as [Hlt|[Heq Hlt]]; unfold K in *.
    + assert (Hz : nth (startf si) classes 0 < nth (startf sj) classes 0) by lia.
      apply (H3 _ _ (Hst si) (Hst sj)) in Hz.
      rewrite str_lt_app_ne.
      * now apply str_lt_asym.
      * now rewrite !cyc_length.
      * intros F. rewrite F, str_lt_irrefl in Hz. discriminate.
    + assert (Hz : nth (startf si) classes 0 = nth (startf sj) classes 0) by lia.
      assert (Ecyc : cyc text (startf sj) L = cyc text (startf si) L).
      { apply str_le_antisym.
        - destruct (str_lt _ _) eqn:F; [|reflexivity].
          apply (H3 _ _ (Hst sj) (Hst si)) in F. lia.
        - destruct (str_lt _ _) eqn:F; [|reflexivity].
          apply (H3 _ _ (Hst si) (Hst sj)) in F. lia. }
      rewrite Ecyc, str_lt_app_eq.
      destruct (str_lt _ _) eqn:F; [|reflexivity].
      apply (H3 _ _ Hoj Hoi) in F.
      pose proof (H5 si sj ltac:(lia) Hsj). lia.
Qed.

(* ================================================================== *)
(** * Manber-Myers: [updated_classes] *)
(* ================================================================== *)

Lemma app_eq_len {A : Type} (a b u v : list A) :
  length a = length b -> a ++ u = b ++ v -> a = b /\ u = v.
Proof.
  revert b. induction a as [|x a IH]; intros [|y b] Hl E; try discriminate.
  - auto.
  - cbn [app] in E. injection E as -> E. cbn in Hl.
    destruct (IH b ltac:(lia) E) as [-> ->]. auto.
Qed.

Lemma cyc_nth (text : list ascii) (p L k : nat) :
  (k < L)%nat -> nth k (cyc text p L) cA = nth ((p + k) mod length text) text cA.
Proof.
  intros Hk. unfold cyc.
  rewrite (nth_indep _ cA (nth ((p + 0) mod length text) text cA))
    by (rewrite length_map, length_seq; exact Hk).
  rewrite (map_nth (fun k => nth ((p + k) mod length text) text cA)), seq_nth by exact Hk.
  reflexivity.
Qed.

(** In a sentinel-terminated text, equal windows at distinct positions do
    not reach the end of the text. *)
Lemma window_no_wrap (text : list ascii) (p q L : nat) :
  sentinel_terminated text ->
  (p < length text)%nat -> (q < length text)%nat -> p <> q ->
  cyc text p L = cyc text q L -> (p + L < length text)%nat.
Proof.
  intros Hterm Hp Hq Hne E. set (m := length text) in *.
  destruct (Nat.lt_ge_cases (p + L) m) as [H|H]; [exact H|exfalso].
  set (o := (m - 1 - p)%nat).
  assert (Ho : (o < L)%nat) by (unfold o; lia).
  pose proof (cyc_nth text p L o Ho) as N1.
  pose proof (cyc_nth text q L o Ho) as N2.
  rewrite E in N1. rewrite N2 in N1. fold m in N1.
  replace (p + o)%nat with (m - 1)%nat in N1 by (unfold o; lia).
  rewrite (Nat.mod_small (m - 1) m) in N1 by lia.
  pose proof (text_last text Hterm) as Hlast. fold m in Hlast. rewrite Hlast in N1.
  apply (text_dollar_pos text Hterm) in N1; [|apply Nat.mod_upper_bound; unfold m in *; lia].
  fold m in N1.
  destruct (Nat.lt_ge_cases (q + o) m) as [Hs|Hs].
  - rewrite Nat.mod_small in N1 by exact Hs. unfold o in *. lia.
  - assert (Em : ((q + o) mod m = q + o - m)%nat).
    { replace (q + o)%nat with ((q + o - m) + 1 * m)%nat at 1 by lia.
      rewrite Nat.Div0.mod_add. apply Nat.mod_small. unfold o. lia. }
    rewrite Em in N1. unfold o in *. lia.
Qed.

Lemma classes_eq_iff (text : list ascii) (L : nat) (classes : list Z) (p q : nat) :
  (forall p q, (p < length text)%nat -> (q < length text)%nat ->
     (nth p classes 0 < nth q classes 0
      <-> str_lt (cyc text p L) (cyc text q L) = true)) ->
  (p < length text)%nat -> (q < length text)%nat ->
  (nth p classes 0 = nth q classes 0 <-> cyc text p L = cyc text q L).
Proof.
  intros H3 Hp Hq. split.
  - intros E. apply str_le_antisym.
    + destruct (str_lt _ _) eqn:F; [|reflexivity]. apply (H3 p q Hp Hq) in F. lia.
    + destruct (str_lt _ _) eqn:F; [|reflexivity]. apply (H3 q p Hq Hp) in F. lia.
  - intros E.
    destruct (Z.lt_trichotomy (nth p classes 0) (nth q classes 0)) as [F|[F|F]];
      [|exact F|].
    + apply (H3 p q Hp Hq) in F. rewrite E, str_lt_irrefl in F. discriminate.
    + apply (H3 q p Hq Hp) in F. rewrite E, str_lt_irrefl in F. discriminate.
Qed.

(** [updated_classes] numbers the windows of twice the length. *)
Lemma updated_classes_spec (text : list ascii) (L : nat) (order classes : list Z)
  (ord' : list nat) :
  sentinel_terminated text ->
  mm_inv text L order classes ->
  (1 <= L)%nat -> (L < length text)%nat ->
  Permutation ord' (seq 0 (length text)) ->
  (forall i j, (i <= j)%nat -> (j < length text)%nat ->
     str_lt (cyc text (nth j ord' 0%nat) (L + L)) (cyc text (nth i ord' 0%nat) (L + L))
     = false) ->
  exists classes',
    ManberMyers.updated_classes (map Z.of_nat ord') classes (Z.of_nat L) = Ok classes' /\
    mm_inv text (L + L) (map Z.of_nat ord') classes'.
Proof.
  intros Hterm (ord & _ & _ & Hlc & Hc & H3 & _) HL1 HL2 Hp Hsorted.
  set (m := length text) in *.
  assert (Hlo : length ord' = m) by (rewrite (Permutation_length Hp); apply length_seq).
  set (same := fun a b : nat =>
    (nth b classes 0 =? nth a classes 0)
    && (nth ((b + L) mod m) classes 0 =? nth ((a + L) mod m) classes 0)).
  assert (Hsame : forall a b, (a < m)%nat -> (b < m)%nat ->
            (same a b = true <-> cyc text a (L + L) = cyc text b (L + L))).
  { intros a b Ha Hb. unfold same. rewrite andb_true_iff, !Z.eqb_eq.
    rewrite !cyc_add. fold m.
    assert (Ha' : ((a + L) mod m < m)%nat) by (apply Nat.mod_upper_bound; lia).
    assert (Hb' : ((b + L) mod m < m)%nat) by (apply Nat.mod_upper_bound; lia).
    rewrite (classes_eq_iff text L classes b a H3 Hb Ha).
    rewrite (classes_eq_iff text L classes _ _ H3 Hb' Ha').
    split.
    - intros [-> ->]. reflexivity.
    - intros E. apply app_eq_len in E; [|now rewrite !cyc_length].
      destruct E as [-> ->]. auto. }
  unfold ManberMyers.updated_classes. unfold Py.len. rewrite length_map, Hlo.
  change (Py.getitem (map Z.of_nat ord') 0)
    with (Py.getitem (map Z.of_nat ord') (Z.of_nat 0)).
  rewrite (getitem_nat _ 0%nat 0) by (rewrite length_map; lia). cbn [bind].
  rewrite nth_map_of_nat.
  pose proof (perm_nth_lt ord' m 0%nat Hp ltac:(lia)) as H0.
  rewrite setitem_nat by (rewrite length_replicate; lia).
  cbn [bind].
  destruct (naming_loop same ord' m
    (fun i new_classes =>
       cur <- Py.getitem (map Z.of_nat ord') i ;;
       prev <- Py.getitem (map Z.of_nat ord') (i - 1) ;;
       let mid := cur + Z.of_nat L in
       mid_prev <- Py.mod_ (prev + Z.of_nat L) (Z.of_nat m) ;;
       ccur <- Py.getitem classes cur ;;
       cprev <- Py.getitem classes prev ;;
       differ <- (if negb (ccur =? cprev) then Ok true
                  else
                    cmid <- Py.getitem classes mid ;;
                    cmidp <- Py.getitem classes mid_prev ;;
                    Ok (negb (cmid =? cmidp))) ;;
       v <- Py.getitem new_classes prev ;;
       if (differ : bool) then Py.setitem new_classes cur (v + 1)
       else Py.setitem new_classes cur v)
    (Py.update (nth 0 ord' 0%nat) 0 (Py.replicate 0 (Z.of_nat m))) Hp)
    as (classes' & E & Hl & Hnames).
  - rewrite update_length, length_replicate. lia.
  - apply nth_update_same. rewrite length_replicate. lia.
  - intros i arr Hi1 Hi2 Hla Hna.
    pose proof (perm_nth_lt ord' m i Hp Hi2) as Hcur.
    pose proof (perm_nth_lt ord' m (i - 1)%nat Hp ltac:(lia)) as Hprev.
    set (cur := nth i ord' 0%nat) in *. set (prev := nth (i - 1) ord' 0%nat) in *.
    rewrite (getitem_nat _ i 0) by (rewrite length_map; lia). cbn [bind].
    rewrite nth_map_of_nat. fold cur.
    replace (Z.of_nat i - 1) with (Z.of_nat (i - 1)) by lia.
    rewrite (getitem_nat _ (i - 1)%nat 0) by (rewrite length_map; lia). cbn [bind].
    rewrite nth_map_of_nat. fold prev.
    unfold Py.mod_. replace (Z.of_nat m =? 0) with false by (symmetry; apply Z.eqb_neq; lia).
    cbn [bind].
    replace ((Z.of_nat prev + Z.of_nat L) mod Z.of_nat m)
      with (Z.of_nat ((prev + L) mod m)) by (rewrite Nat2Z.inj_mod; f_equal; lia).
    rewrite (getitem_nat classes cur 0) by lia. cbn [bind].
    rewrite (getitem_nat classes prev 0) by lia. cbn [bind].
    assert (En : name_at same ord' 0%nat i
                 = (name_at same ord' 0%nat (i - 1)
                    + (if same prev cur then 0 else 1))%nat).
    { pose proof (name_at_S nat same ord' 0%nat (i - 1)) as E.
      replace (S (i - 1)) with i in E by lia. exact E. }
    rewrite En.
    assert (Hne : cur <> prev).
    { intros F. apply (perm_nth_inj ord' m) in F; auto; lia. }
    assert (Hd :
      (if negb (nth cur classes 0 =? nth prev classes 0) then Ok true
       else
         cmid <- Py.getitem classes (Z.of_nat cur + Z.of_nat L) ;;
         cmidp <- Py.getitem classes (Z.of_nat ((prev + L) mod m)) ;;
         Ok (negb (cmid =? cmidp)))
      = Ok (negb (same prev cur))).
    { unfold same. destruct (nth cur classes 0 =? nth prev classes 0) eqn:Ec;
        cbn [negb andb]; [|reflexivity].
      apply Z.eqb_eq in Ec.
      apply (classes_eq_iff text L classes cur prev H3 Hcur Hprev) in Ec.
      pose proof (window_no_wrap text cur prev L Hterm Hcur Hprev Hne Ec) as Hw.
      fold m in Hw.
      replace (Z.of_nat cur + Z.of_nat L) with (Z.of_nat (cur + L)) by lia.
      rewrite (getitem_nat classes (cur + L) 0) by lia. cbn [bind].
      rewrite (getitem_nat classes _ 0) by (rewrite Hlc; apply Nat.mod_upper_bound; lia).
      cbn [bind]. rewrite (Nat.mod_small (cur + L) m) by exact Hw. reflexivity. }
    cbv zeta. rewrite Hd. cbn [bind].
    rewrite (getitem_nat arr prev 0) by lia. cbn [bind].
    pose proof (Hna (i - 1)%nat ltac:(lia)) as Hv. fold prev in Hv. rewrite Hv.
    destruct (same prev cur); cbn [negb];
      rewrite setitem_nat by lia; do 2 f_equal; lia.
  - exists classes'. split; [cbv zeta in E; exact E|].
    apply (names_inv text (L + L) same ord' classes' Hp Hl Hsorted).
    + intros x Hx. apply Hsame.
      * apply (perm_nth_lt ord' m x Hp). lia.
      * apply (perm_nth_lt ord' m (S x) Hp Hx).
    + exact Hnames.
Qed.

(* ================================================================== *)
(** * Manber-Myers: the doubling loop *)
(* ================================================================== *)

Lemma doubling_loop_spec (text : list ascii) (fuel : nat) :
  sentinel_terminated text ->
  forall (L : nat) (order classes : list Z),
    mm_inv text L order classes -> (1 <= L)%nat ->
    (length text <= L * 2 ^ fuel)%nat ->
    exists L' order' classes',
      ManberMyers.doubling_loop fuel text (Py.len text) (Z.of_nat L) order classes
      = Ok order' /\
      mm_inv text L' order' classes' /\ (length text <= L')%nat.
Proof.
  intros Hterm. induction fuel as [|fuel IH]; intros L order classes Hinv HL Hf.
  - cbn [Nat.pow] in Hf. cbn [ManberMyers.doubling_loop]. unfold Py.len.
    replace (Z.of_nat L <? Z.of_nat (length text)) with false
      by (symmetry; apply Z.ltb_ge; lia).
    exists L, order, classes. split; [reflexivity|]. split; [exact Hinv|lia].
  - cbn [ManberMyers.doubling_loop]. unfold Py.len.
    destruct (Z.ltb_spec (Z.of_nat L) (Z.of_nat (length text))) as [Hlt|Hge].
    + destruct (sort_doubled_spec text L order classes Hinv HL ltac:(lia))
        as (ord' & E1 & Hp & Hs).
      rewrite E1. cbn [bind].
      destruct (updated_classes_spec text L order classes ord' Hterm Hinv HL ltac:(lia) Hp Hs)
        as (classes' & E2 & Hinv').
      rewrite E2. cbn [bind].
      replace (Z.of_nat L * 2) with (Z.of_nat (L + L)) by lia.
      apply (IH (L + L)%nat); [exact Hinv'|lia|].
      cbn [Nat.pow] in Hf. lia.
    + exists L, order, classes. split; [reflexivity|]. split; [exact Hinv|lia].
Qed.

Lemma sentinel_alphabet (text : list ascii) :
  sentinel_terminated text -> forallb in_alphabet text = true.
Proof.
  intros (g & -> & Hg). rewrite forallb_app. apply andb_true_iff. split; [|reflexivity].
  rewrite forallb_forall in *. intros c Hc. apply is_dna_in_alphabet. now apply Hg.
Qed.

(** The suffix array is unique. *)
Lemma suffix_array_unique (text : list ascii) (full full' : list Z) :
  is_suffix_array text full -> is_suffix_array text full' -> full = full'.
Proof.
  intros (san & -> & Hp & Hs) (san' & -> & Hp' & Hs'). f_equal.
  apply (sorted_perm_eq (fun p q => str_lt (suf text p) (suf text q) = true)).
  - intros a b H1 H2. rewrite (str_lt_asym _ _ H1) in H2. discriminate.
  - exact Hs.
  - exact Hs'.
  - transitivity (seq 0 (length text)); [exact Hp|now symmetry].
Qed.

(** At the end of the doubling loop the order is the suffix array. *)
Lemma mm_inv_suffix_array (text : list ascii) (L : nat) (order classes : list Z) :
  sentinel_terminated text -> mm_inv text L order classes ->
  (length text <= L)%nat -> is_suffix_array text order.
Proof.
  intros Hterm (ord & -> & Hp & Hlc & Hc & H3 & H5) HL.
  set (m := length text) in *.
  assert (Hlo : length ord = m) by (rewrite (Permutation_length Hp); apply length_seq).
  exists ord. split; [reflexivity|]. split; [exact Hp|].
  unfold suffix_sorted. rewrite <- (nth_seq_map ord 0%nat), Hlo.
  apply StronglySorted_map_seq. intros i j _ Hij Hj. cbn [Nat.add] in Hj.
  pose proof (perm_nth_lt ord m i Hp ltac:(lia)) as Hoi.
  pose proof (perm_nth_lt ord m j Hp Hj) as Hoj.
  assert (Hne : nth i ord 0%nat <> nth j ord 0%nat).
  { intros F. apply (perm_nth_inj ord m) in F; auto; lia. }
  assert (Hle : str_lt (suf text (nth j ord 0%nat)) (suf text (nth i ord 0%nat)) = false).
  { rewrite <- (cyc_suf_order text _ _ L Hterm Hoj Hoi ltac:(congruence) HL).
    destruct (str_lt _ _) eqn:F; [|reflexivity].
    apply (H3 _ _ Hoj Hoi) in F. pose proof (H5 i j ltac:(lia) Hj). lia. }
  destruct (str_lt_total (suf text (nth i ord 0%nat)) (suf text (nth j ord 0%nat))) as [H|H].
  - intros F. apply suf_inj in F; auto.
  - exact H.
  - congruence.
Qed.

(** Manber-Myers returns the suffix array that sorting the suffixes gives. *)
Lemma manbermyers_simple (text : list ascii) :
  sentinel_terminated text ->
  suffix_array_manbermyers text = Ok (suffix_array_simple text).
Proof.
  intros Hterm.
  pose proof (sentinel_alphabet text Hterm) as Hal.
  pose proof (text_last text Hterm) as _.
  assert (Hn : (1 <= length text)%nat).
  { destruct Hterm as (g & -> & _). rewrite length_app. cbn. lia. }
  unfold suffix_array_manbermyers.
  destruct (sort_chars_spec text Hal) as (sigma & E1 & Hp & Hs).
  rewrite E1. cbn [bind].
  destruct (compute_classes_spec text sigma Hn Hp Hs) as (classes & E2 & Hinv).
  rewrite E2. cbn [bind].
  destruct (doubling_loop_spec text (length text) Hterm 1%nat (map Z.of_nat sigma) classes
              Hinv ltac:(lia)) as (L' & order' & classes' & E3 & Hinv' & HL').
  { pose proof (Nat.pow_gt_lin_r 2 (length text) ltac:(lia)). lia. }
  change (Z.of_nat 1) with 1 in E3. rewrite E3. f_equal.
  apply (suffix_array_unique text).
  - now apply (mm_inv_suffix_array text L' order' classes').
  - apply suffix_array_simple_spec.
Qed.

(* ================================================================== *)
(** * Further properties of the code *)
(* ================================================================== *)

Lemma build_sa_sorted (strategy : string) (text : list ascii) :
  strategy = "Simple"%string \/ strategy = "ManberMyers"%string ->
  sentinel_terminated text ->
  build_sa strategy text = Ok (suffix_array_simple text).
Proof.
  intros [-> | ->] Hterm; unfold build_sa; cbn [String.eqb Ascii.eqb Bool.eqb].
  - reflexivity.
  - now apply manbermyers_simple.
Qed.

Lemma gattaca_terminated :
  sentinel_terminated (list_ascii_of_string "GATTACA$").
Proof. exists (list_ascii_of_string "GATTACA"). split; reflexivity. Qed.

(** X1: [suffix_array_simple] returns, for every text, the permutation of
    the positions [[0, n)] that lists the suffixes in strictly increasing
    lexicographic order. *)
Theorem simple_lists_sorted_suffixes (text : list ascii) :
  exists san,
    suffix_array_simple text = map Z.of_nat san /\
    Permutation san (seq 0 (length text)) /\
    StronglySorted (fun p q => str_lt (skipn p text) (skipn q text) = true) san.
Proof. exact (suffix_array_simple_spec text). Qed.

(** X2: on a sentinel-terminated text over the alphabet,
    [suffix_array_manbermyers] raises nothing and returns exactly the list
    that [suffix_array_simple] returns. *)
Theorem manbermyers_agrees_with_simple (text : list ascii) :
  sentinel_terminated text ->
  suffix_array_manbermyers text = Ok (suffix_array_simple text).
Proof. apply manbermyers_simple. Qed.

Lemma manbermyers_agrees_with_simple_witness :
  suffix_array_manbermyers (list_ascii_of_string "GATTACA$")
  = Ok (suffix_array_simple (list_ascii_of_string "GATTACA$")).
Proof.
  apply (manbermyers_agrees_with_simple (list_ascii_of_string "GATTACA$")).
  exact gattaca_terminated.
Defined.

(** X3: on a text over the alphabet, the counting sort [sort_chars] of
    Manber-Myers returns the positions ordered by their symbol, positions
    with the same symbol in increasing order. *)
Theorem sort_chars_orders_by_symbol (text : list ascii) :
  forallb in_alphabet text = true ->
  exists sigma,
    ManberMyers.sort_chars text = Ok (map Z.of_nat sigma) /\
    Permutation sigma (seq 0 (length text)) /\
    StronglySorted
      (fun i j =>
         (nat_of_ascii (nth i text cA) < nat_of_ascii (nth j text cA))%nat \/
         (nat_of_ascii (nth i text cA) = nat_of_ascii (nth j text cA) /\ (i < j)%nat))
      sigma.
Proof. exact (sort_chars_spec text). Qed.

Lemma sort_chars_orders_by_symbol_witness :
  exists sigma,
    ManberMyers.sort_chars (list_ascii_of_string "GATTACA$") = Ok (map Z.of_nat sigma) /\
    Permutation sigma (seq 0 (length (list_ascii_of_string "GATTACA$"))) /\
    StronglySorted
      (fun i j =>
         (nat_of_ascii (nth i (list_ascii_of_string "GATTACA$") cA)
          < nat_of_ascii (nth j (list_ascii_of_string "GATTACA$") cA))%nat \/
         (nat_of_ascii (nth i (list_ascii_of_string "GATTACA$") cA)
          = nat_of_ascii (nth j (list_ascii_of_string "GATTACA$") cA) /\ (i < j)%nat))
      sigma.
Proof.
  apply (sort_chars_orders_by_symbol (list_ascii_of_string "GATTACA$")). reflexivity.
Defined.

(** X4: on a text over the alphabet, [_shifts_f] returns the table that
    holds under each symbol the number of symbols of the text that are
    smaller, and under [None] the length of the text. *)
Theorem shifts_f_counts_smaller (text : list ascii) :
  forallb in_alphabet text = true ->
  exists d,
    _shifts_f text = Ok d /\
    Dict.get d PNone = Ok (Py.len text) /\
    forall c, In c alphabet ->
      Dict.get d (PStr c)
      = Ok (Py.len (filter (fun x => (nat_of_ascii x <? nat_of_ascii c)%nat) text)).
Proof.
  intros H. exists (c_table text). split; [now apply shifts_f_spec|].
  split; [reflexivity|]. intros c Hc.
  rewrite c_table_smaller; [reflexivity|exact H|].
  unfold in_alphabet. apply existsb_exists. exists c. split; [exact Hc|].
  now apply chr_eq_true.
Qed.

Lemma shifts_f_counts_smaller_witness :
  exists d,
    _shifts_f (list_ascii_of_string "GATTACA$") = Ok d /\
    Dict.get d PNone = Ok (Py.len (list_ascii_of_string "GATTACA$")) /\
    forall c, In c alphabet ->
      Dict.get d (PStr c)
      = Ok (Py.len (filter (fun x => (nat_of_ascii x <? nat_of_ascii c)%nat)
                      (list_ascii_of_string "GATTACA$"))).
Proof.
  apply (shifts_f_counts_smaller (list_ascii_of_string "GATTACA$")). reflexivity.
Defined.

(** X5: [_shifts_f] raises [KeyError] on every text that holds a symbol
    outside [{$, A, C, G, N, T}]. *)
Theorem shifts_f_rejects_unknown_symbol (text : list ascii) :
  (exists c, In c text /\ in_alphabet c = false) ->
  _shifts_f text = Raise KeyError.
Proof.
  intros (c & Hc & Hn). apply shifts_f_raises.
  destruct (forallb in_alphabet text) eqn:E; [|reflexivity].
  rewrite forallb_forall in E. rewrite (E c Hc) in Hn. discriminate.
Qed.

Lemma shifts_f_rejects_unknown_symbol_witness :
  _shifts_f (list_ascii_of_string "GAXTACA") = Raise KeyError.
Proof.
  apply (shifts_f_rejects_unknown_symbol (list_ascii_of_string "GAXTACA")).
  exists "X"%char. split; [cbn; tauto|reflexivity].
Defined.

Lemma get_bwt_rows (text : list ascii) (san : list nat) :
  sentinel_terminated text ->
  Permutation san (seq 0 (length text)) ->
  get_bwt text (map Z.of_nat san) = Ok (map (bwt_sym text) san).
Proof.
  intros Hterm Hperm.
  assert (Hm : (1 <= length text)%nat).
  { destruct Hterm as (g & -> & _). rewrite length_app. cbn. lia. }
  assert (Hlen : length san = length text)
    by (rewrite (Permutation_length Hperm); apply length_seq).
  destruct (get_bwt text (map Z.of_nat san)) as [bwt|e|] eqn:Eg.
  - f_equal. apply bwt_rows in Eg; auto. apply (san_lt _ _ Hperm).
  - exfalso. revert Eg. unfold get_bwt.
    destruct (map Z.of_nat san) eqn:Em.
    { apply (f_equal (@length Z)) in Em. rewrite length_map in Em. cbn in Em.
      lia. }
    rewrite <- Em. clear Em.
    assert (Hin : forall p, In p san -> (p < length text)%nat) by apply (san_lt _ _ Hperm).
    clear - Hin. induction san as [|p l IH]; [discriminate|].
    cbn [map map_each].
    assert (Hp : (p < length text)%nat) by (apply Hin; now left).
    assert (Ex : exists x, (if Z.of_nat p =? 0 then Ok cDollar
                            else Py.getitem text (Z.of_nat p - 1)) = Ok x).
    { destruct (Z.of_nat p =? 0) eqn:E0; [eauto|]. apply Z.eqb_neq in E0.
      rewrite (getitem_nth text _ cA) by (unfold Py.len; lia). eauto. }
    destruct Ex as (x & ->). cbn [bind].
    destruct (map_each _ (map Z.of_nat l)) eqn:El; cbn [bind]; try discriminate.
    intros Hx. apply (IH (fun q Hq => Hin q (or_intror Hq))). exact Hx.
  - now apply get_bwt_no_fuel in Eg.
Qed.

(** X6: for a sentinel-terminated text and a list of all its positions,
    [get_bwt] returns a permutation of the text: on every row, the symbol
    that precedes the position of the row, cyclically. *)
Theorem get_bwt_permutes_text (text : list ascii) (san : list nat) :
  sentinel_terminated text ->
  Permutation san (seq 0 (length text)) ->
  exists bwt,
    get_bwt text (map Z.of_nat san) = Ok bwt /\
    Permutation bwt text /\
    forall i, (i < length text)%nat ->
      nth i bwt cA
      = nth (if (nth i san 0 =? 0)%nat then length text - 1 else nth i san 0 - 1)%nat
            text cA.
Proof.
  intros Hterm Hperm. exists (map (bwt_sym text) san).
  split; [now apply get_bwt_rows|]. split.
  - transitivity (map (fun q => nth q text cA) (map (prev (length text)) san)).
    + rewrite map_map. reflexivity.
    + transitivity (map (fun q => nth q text cA) (seq 0 (length text)));
        [|now rewrite nth_seq_map].
      apply Permutation_map.
      transitivity (map (prev (length text)) (seq 0 (length text))).
      * now apply Permutation_map.
      * apply prev_perm. destruct Hterm as (g & -> & _). rewrite length_app. cbn. lia.
  - intros i Hi.
    destruct (bwt_nth text san Hperm i) as [E|E]; [|lia].
    rewrite E. reflexivity.
Qed.

Lemma get_bwt_permutes_text_witness :
  exists bwt,
    get_bwt (list_ascii_of_string "GATTACA$") (map Z.of_nat [7; 6; 4; 1; 5; 0; 3; 2]%nat)
    = Ok bwt /\
    Permutation bwt (list_ascii_of_string "GATTACA$") /\
    forall i, (i < length (list_ascii_of_string "GATTACA$"))%nat ->
      nth i bwt cA
      = nth (if (nth i [7; 6; 4; 1; 5; 0; 3; 2] 0 =? 0)%nat
             then length (list_ascii_of_string "GATTACA$") - 1
             else nth i [7; 6; 4; 1; 5; 0; 3; 2] 0 - 1)%nat
            (list_ascii_of_string "GATTACA$") cA.
Proof.
  apply (get_bwt_permutes_text (list_ascii_of_string "GATTACA$")
           [7; 6; 4; 1; 5; 0; 3; 2]%nat).
  - exact gattaca_terminated.
  - apply NoDup_Permutation_bis.
    + repeat constructor; cbn; intuition discriminate.
    + cbn. lia.
    + intros x Hx. cbn in Hx |- *. intuition lia.
Defined.

(** X7: on the index of a valid reference, whatever the strategy and the
    sample rate, [access(i)] returns for every row [i] in [[0, n)] the
    symbol of the transform that the constructor computed. *)
Theorem access_returns_transform_symbol (reference_genome : list ascii)
  (strategy : string) (comp : Z) (self : WaveletTree) :
  valid_reference reference_genome ->
  __init__ reference_genome strategy comp = Ok self ->
  exists bwt,
    bwt_of strategy (terminated reference_genome) = Ok bwt /\
    forall i, 0 <= i < n self ->
      access self i 0 = Ok (PStr (nth (Z.to_nat i) bwt cA)).
Proof.
  intros Hv H.
  pose proof (terminated_len _ Hv) as H2.
  destruct (with_sentinel_valid _ Hv) as (Ew & _ & _).
  pose proof (init_Ok _ _ _ _ H) as (_ & _ & _ & _ & _ & _ & _ & _ & _ & En & _).
  destruct (init_encodes _ _ _ _ H) as (bwt & Eb & Hl & Hal & _ & Henc).
  rewrite Ew in *. exists bwt. split; [exact Eb|].
  intros i Hi. apply access_spec; [apply Henc; lia|exact Hal|lia].
Qed.

Lemma access_returns_transform_symbol_witness :
  exists self,
    __init__ (list_ascii_of_string "GATTACA") "ManberMyers" 2 = Ok self /\
    exists bwt,
      bwt_of "ManberMyers" (terminated (list_ascii_of_string "GATTACA")) = Ok bwt /\
      forall i, 0 <= i < n self ->
        access self i 0 = Ok (PStr (nth (Z.to_nat i) bwt cA)).
Proof.
  eexists. split; [vm_compute; reflexivity|].
  apply (access_returns_transform_symbol (list_ascii_of_string "GATTACA") "ManberMyers" 2);
    [exact gattaca_valid | vm_compute; reflexivity].
Defined.

Lemma count_sum (l : list ascii) :
  forallb in_alphabet l = true ->
  count cDollar l + count cA l + count cC l + count cG l + count cN l + count cT l
  = Py.len l.
Proof.
  induction l as [|x l IH]; intros H; [reflexivity|].
  cbn [forallb] in H. apply andb_true_iff in H as [Hx Hl].
  rewrite !count_cons, len_cons. specialize (IH Hl).
  apply in_alphabet_cases in Hx as [-> | [-> | [-> | [-> | [-> | ->]]]]];
    repeat match goal with
           | |- context [chr_eq ?a ?b] =>
               let v := eval vm_compute in (chr_eq a b) in change (chr_eq a b) with v
           end;
    unfold Z.b2z; lia.
Qed.

(** X8: on the index of a valid reference, the ranks of the six symbols
    at a row [i] in [[0, n)] add up to [i + 1]: every row of the transform
    up to [i] is counted under exactly one symbol. *)
Theorem ranks_partition_prefix (reference_genome : list ascii)
  (strategy : string) (comp : Z) (self : WaveletTree) (i : Z) :
  valid_reference reference_genome ->
  __init__ reference_genome strategy comp = Ok self ->
  0 <= i < n self ->
  exists r0 r1 r2 r3 r4 r5,
    rank self (PStr cDollar) i = Ok r0 /\ rank self (PStr cA) i = Ok r1 /\
    rank self (PStr cC) i = Ok r2 /\ rank self (PStr cG) i = Ok r3 /\
    rank self (PStr cN) i = Ok r4 /\ rank self (PStr cT) i = Ok r5 /\
    r0 + r1 + r2 + r3 + r4 + r5 = i + 1.
Proof.
  intros Hv H Hi.
  pose proof (terminated_len _ Hv) as H2.
  destruct (with_sentinel_valid _ Hv) as (Ew & _ & _).
  pose proof (init_Ok _ _ _ _ H) as (_ & _ & _ & _ & _ & _ & _ & _ & _ & En & _).
  destruct (init_encodes _ _ _ _ H) as (bwt & Eb & Hl & Hal & _ & Henc).
  rewrite Ew in *. specialize (Henc ltac:(lia)).
  exists (count_upto cDollar bwt i), (count_upto cA bwt i), (count_upto cC bwt i),
         (count_upto cG bwt i), (count_upto cN bwt i), (count_upto cT bwt i).
  repeat (split; [apply rank_spec; auto; lia|]).
  unfold count_upto. fold (count cDollar (firstn (Z.to_nat (i + 1)) bwt)).
  fold (count cA (firstn (Z.to_nat (i + 1)) bwt)).
  fold (count cC (firstn (Z.to_nat (i + 1)) bwt)).
  fold (count cG (firstn (Z.to_nat (i + 1)) bwt)).
  fold (count cN (firstn (Z.to_nat (i + 1)) bwt)).
  fold (count cT (firstn (Z.to_nat (i + 1)) bwt)).
  rewrite count_sum by (apply forallb_firstn; exact Hal).
  apply len_firstn. lia.
Qed.

Lemma ranks_partition_prefix_witness :
  exists self,
    __init__ (list_ascii_of_string "GATTACA") "Simple" 1 = Ok self /\
    exists r0 r1 r2 r3 r4 r5,
      rank self (PStr cDollar) 4 = Ok r0 /\ rank self (PStr cA) 4 = Ok r1 /\
      rank self (PStr cC) 4 = Ok r2 /\ rank self (PStr cG) 4 = Ok r3 /\
      rank self (PStr cN) 4 = Ok r4 /\ rank self (PStr cT) 4 = Ok r5 /\
      r0 + r1 + r2 + r3 + r4 + r5 = 4 + 1.
Proof.
  eexists. split; [vm_compute; reflexivity|].
  apply (ranks_partition_prefix (list_ascii_of_string "GATTACA") "Simple" 1);
    [exact gattaca_valid | vm_compute; reflexivity | vm_compute; split; [discriminate|reflexivity]].
Defined.

(** X9: [__init__] raises [ValueError] when the strategy is none of the
    three names, when the reference is empty, or when the sample rate is
    below 1. *)
Theorem init_rejects_bad_arguments (reference_genome : list ascii)
  (strategy : string) (comp : Z) :
  (strategy <> "KaerkkaeinenSanders"%string /\ strategy <> "ManberMyers"%string
   /\ strategy <> "Simple"%string)
  \/ reference_genome = [] \/ comp < 1 ->
  __init__ reference_genome strategy comp = Raise ValueError.
Proof.
  intros H. unfold __init__.
  destruct (String.eqb_spec strategy "KaerkkaeinenSanders") as [E1|E1];
  destruct (String.eqb_spec strategy "ManberMyers") as [E2|E2];
  destruct (String.eqb_spec strategy "Simple") as [E3|E3];
    cbn [orb negb]; try reflexivity;
    (destruct (Z.ltb_spec (Py.len reference_genome) 1) as [Hl|Hl]; [reflexivity|]);
    (destruct (Z.ltb_spec comp 1) as [Hc|Hc]; [reflexivity|]);
    exfalso; destruct H as [(N1 & N2 & N3) | [-> | Hlt]];
    try contradiction; try lia; unfold Py.len in Hl; cbn in Hl; lia.
Qed.

Lemma init_rejects_bad_arguments_witness :
  __init__ (list_ascii_of_string "GATTACA") "Simple" 0 = Raise ValueError.
Proof.
  apply (init_rejects_bad_arguments (list_ascii_of_string "GATTACA") "Simple" 0).
  right. right. lia.
Defined.

(** X10: on every constructed index, [__len__] is the length of the
    reference without a final sentinel: the constructor appends [$] only
    when the reference does not end with it. *)
Theorem len_excludes_the_sentinel (reference_genome : list ascii)
  (strategy : string) (comp : Z) (self : WaveletTree) :
  __init__ reference_genome strategy comp = Ok self ->
  (forall g, reference_genome = g ++ [cDollar] -> __len__ self = Py.len g) /\
  ((forall g, reference_genome <> g ++ [cDollar]) ->
   __len__ self = Py.len reference_genome).
Proof.
  intros H.
  apply init_Ok in H as (_ & _ & Hne & _ & _ & _ & _ & _ & _ & En & _).
  unfold __len__. rewrite En. unfold with_sentinel.
  rewrite (getitem_last reference_genome cA Hne).
  split.
  - intros g ->. rewrite last_last. change (chr_eq cDollar cDollar) with true.
    cbn [negb]. rewrite len_app. unfold Py.len at 2. cbn [length]. lia.
  - intros Hno.
    destruct (chr_eq (last reference_genome cA) cDollar) eqn:E.
    + exfalso. apply chr_eq_true in E.
      destruct (exists_last Hne) as (g & x & Eg). rewrite Eg, last_last in E.
      subst x. now apply (Hno g).
    + cbn [negb]. rewrite len_app. unfold Py.len at 2. cbn [length]. lia.
Qed.

Lemma len_excludes_the_sentinel_witness :
  exists self,
    __init__ (list_ascii_of_string "GATTACA$") "Simple" 1 = Ok self /\
    (forall g, list_ascii_of_string "GATTACA$" = g ++ [cDollar] -> __len__ self = Py.len g) /\
    ((forall g, list_ascii_of_string "GATTACA$" <> g ++ [cDollar]) ->
     __len__ self = Py.len (list_ascii_of_string "GATTACA$")).
Proof.
  eexists. split; [vm_compute; reflexivity|].
  apply (len_excludes_the_sentinel (list_ascii_of_string "GATTACA$") "Simple" 1).
  vm_compute. reflexivity.
Defined.

Lemma sampling_of_init (reference_genome : list ascii) (strategy : string) (comp : Z)
  (self : WaveletTree) :
  valid_reference reference_genome ->
  __init__ reference_genome strategy comp = Ok self ->
  exists full,
    build_sa strategy (terminated reference_genome) = Ok full /\
    Py.len full = n self /\ 2 <= n self /\ 1 <= comp /\
    compression_sa self = comp /\ 1 <= bucket_step_sa self /\
    (comp = 1 -> sa self = full /\ bitvector self = None /\ bucket_sa self = None) /\
    (comp <> 1 ->
     exists bucket,
       sa self = filter (sampled comp) full /\
       bitvector self = Some (map (sampled comp) full) /\
       bucket_sa self = Some bucket /\
       bucket_ok (bucket_step_sa self) (map (sampled comp) full) bucket).
Proof.
  intros Hv H.
  pose proof (terminated_len _ Hv) as H2.
  destruct (with_sentinel_valid _ Hv) as (Ew & _ & _).
  apply init_Ok in H
    as (full & bwt & _ & Hc & Eb & _ & _ & _ & _ & En & Ec & Es & Hs).
  rewrite Ew in *. exists full.
  assert (Hstep : 1 <= bucket_step_sa self) by (rewrite Es; now apply log2_ge_1).
  pose proof (build_sa_len _ _ _ Eb) as Hl.
  split; [exact Eb|]. split; [congruence|]. split; [lia|]. split; [exact Hc|].
  split; [exact Ec|]. split; [exact Hstep|]. split.
  - intros ->. cbn in Hs. exact Hs.
  - intros Hne. replace (comp =? 1) with false in Hs by (symmetry; now apply Z.eqb_neq).
    destruct Hs as (sa0 & r0 & st & E0 & Er & Est & Esa & Ebv & Ebk).
    rewrite <- Es in Est.
    destruct (sample_loop_spec (bucket_step_sa self) comp full sa0 r0
                Hstep ltac:(lia) E0 Er) as (bucket & Esl & Hok).
    rewrite Esl in Est. injection Est as <-. cbn [ss_compressed ss_bits ss_bucket] in *.
    exists bucket. auto.
Qed.

(** X11: the index of a valid reference stores the suffix array that its
    builder returned: in full when the sample rate is 1, and otherwise
    exactly the entries that are multiples of the sample rate, in row
    order, with a bit vector that marks their rows. *)
Theorem sampling_keeps_multiples (reference_genome : list ascii) (strategy : string)
  (comp : Z) (self : WaveletTree) :
  valid_reference reference_genome ->
  __init__ reference_genome strategy comp = Ok self ->
  exists full,
    build_sa strategy (terminated reference_genome) = Ok full /\
    (comp = 1 -> sa self = full /\ bitvector self = None /\ bucket_sa self = None) /\
    (comp <> 1 ->
     sa self = filter (fun num => num mod comp =? 0) full /\
     bitvector self = Some (map (fun num => num mod comp =? 0) full)).
Proof.
  intros Hv H.
  destruct (sampling_of_init _ _ _ _ Hv H)
    as (full & Eb & _ & _ & _ & _ & _ & H1 & Hn).
  exists full. split; [exact Eb|]. split; [exact H1|].
  intros Hne. destruct (Hn Hne) as (bucket & Esa & Ebv & _). auto.
Qed.

Lemma sampling_keeps_multiples_witness :
  exists self,
    __init__ (list_ascii_of_string "GATTACA") "KaerkkaeinenSanders" 3 = Ok self /\
    exists full,
      build_sa "KaerkkaeinenSanders" (terminated (list_ascii_of_string "GATTACA")) = Ok full /\
      (3 = 1 -> sa self = full /\ bitvector self = None /\ bucket_sa self = None) /\
      (3 <> 1 ->
       sa self = filter (fun num => num mod 3 =? 0) full /\
       bitvector self = Some (map (fun num => num mod 3 =? 0) full)).
Proof.
  eexists. split; [vm_compute; reflexivity|].
  apply (sampling_keeps_multiples (list_ascii_of_string "GATTACA") "KaerkkaeinenSanders" 3);
    [exact gattaca_valid | vm_compute; reflexivity].
Defined.

(** X12: on the index of a valid reference built with a sample rate other
    than 1, [rank_bit(i)] is, for every row [i] in [[0, n)], the number of
    rows up to [i] whose suffix-array entry is kept. *)
Theorem rank_bit_counts_kept_rows (reference_genome : list ascii) (strategy : string)
  (comp : Z) (self : WaveletTree) :
  valid_reference reference_genome ->
  __init__ reference_genome strategy comp = Ok self ->
  comp <> 1 ->
  exists full,
    build_sa strategy (terminated reference_genome) = Ok full /\
    forall i, 0 <= i < n self ->
      rank_bit self i
      = Ok (Py.len (filter (fun num => num mod comp =? 0) (firstn (Z.to_nat (i + 1)) full))).
Proof.
  intros Hv H Hne.
  destruct (sampling_of_init _ _ _ _ Hv H)
    as (full & Eb & Hl & H2 & Hc & Ec & Hstep & _ & Hn).
  destruct (Hn Hne) as (bucket & Esa & Ebv & Ebk & Hok).
  exists full. split; [exact Eb|]. intros i Hi.
  rewrite (rank_bit_spec self _ bucket i ltac:(lia) Hstep Ebv Ebk Hok)
    by (rewrite len_map; lia).
  now rewrite prefix_ones_filter.
Qed.

Lemma rank_bit_counts_kept_rows_witness :
  exists self,
    __init__ (list_ascii_of_string "GATTACA") "KaerkkaeinenSanders" 3 = Ok self /\
    exists full,
      build_sa "KaerkkaeinenSanders" (terminated (list_ascii_of_string "GATTACA")) = Ok full /\
      forall i, 0 <= i < n self ->
        rank_bit self i
        = Ok (Py.len (filter (fun num => num mod 3 =? 0) (firstn (Z.to_nat (i + 1)) full))).
Proof.
  eexists. split; [vm_compute; reflexivity|].
  apply (rank_bit_counts_kept_rows (list_ascii_of_string "GATTACA") "KaerkkaeinenSanders" 3);
    [exact gattaca_valid | vm_compute; reflexivity | discriminate].
Defined.

Lemma sorted_index (reference_genome : list ascii) (strategy : string) :
  valid_reference reference_genome ->
  strategy = "Simple"%string \/ strategy = "ManberMyers"%string ->
  exists san,
    suffix_array_simple (terminated reference_genome) = map Z.of_nat san /\
    build_sa strategy (terminated reference_genome) = Ok (map Z.of_nat san) /\
    Permutation san (seq 0 (length (terminated reference_genome))) /\
    suffix_sorted (terminated reference_genome) san.
Proof.
  intros Hv Hst.
  destruct (suffix_array_simple_spec (terminated reference_genome)) as (san & E & Hp & Hs).
  exists san. split; [exact E|]. split; [|auto].
  rewrite <- E. apply build_sa_sorted; [exact Hst|]. now apply terminated_sentinel.
Qed.

(** X13: with the strategies [Simple] and [ManberMyers], whatever the
    sample rate, [get_sa(i)] on the index of a valid reference returns for
    every row [i] in [[0, n)] the [i]-th entry of the suffix array of the
    sentinel-terminated reference; the walk needs no more than [n - 1]
    turns. *)
Theorem get_sa_returns_suffix_array_entry (reference_genome : list ascii)
  (strategy : string) (comp : Z) (self : WaveletTree) (fuel : nat) (i : Z) :
  valid_reference reference_genome ->
  strategy = "Simple"%string \/ strategy = "ManberMyers"%string ->
  __init__ reference_genome strategy comp = Ok self ->
  0 <= i < n self -> (Z.to_nat (n self - 1) <= fuel)%nat ->
  get_sa fuel self i
  = Ok (nth (Z.to_nat i) (suffix_array_simple (terminated reference_genome)) 0).
Proof.
  intros Hv Hst H Hi Hfuel.
  destruct (sorted_index _ _ Hv Hst) as (san & E & Eb & Hp & Hs).
  destruct (init_index _ _ _ _ _ Hv H Eb Hp) as (_ & _ & Hn & _).
  unfold Py.len in Hn.
  rewrite E, nth_map_of_nat. rewrite <- (Z2Nat.id i) at 1 by lia.
  apply (get_sa_full reference_genome strategy comp self san); auto; lia.
Qed.

Lemma get_sa_returns_suffix_array_entry_witness :
  exists self,
    __init__ (list_ascii_of_string "GATTACA") "ManberMyers" 3 = Ok self /\
    get_sa 7 self 2
    = Ok (nth (Z.to_nat 2)
            (suffix_array_simple (terminated (list_ascii_of_string "GATTACA"))) 0).
Proof.
  eexists. split; [vm_compute; reflexivity|].
  apply (get_sa_returns_suffix_array_entry (list_ascii_of_string "GATTACA")
           "ManberMyers" 3);
    [exact gattaca_valid | now right | vm_compute; reflexivity
    | vm_compute; split; [discriminate|reflexivity] | vm_compute; lia].
Defined.

(** X14: with the strategies [Simple] and [ManberMyers] and a sample rate
    above 1, the loop of [get_sa] started at any row [i] in [[0, n)] of the
    index of a valid reference stops on a marked row after at most [n - 1]
    turns. *)
Theorem get_sa_walk_stops (reference_genome : list ascii)
  (strategy : string) (comp : Z) (self : WaveletTree) (fuel : nat) (i : Z) :
  valid_reference reference_genome ->
  strategy = "Simple"%string \/ strategy = "ManberMyers"%string ->
  __init__ reference_genome strategy comp = Ok self ->
  1 < comp -> 0 <= i < n self -> (Z.to_nat (n self - 1) <= fuel)%nat ->
  exists c row k,
    access self i 0 = Ok c /\
    lf_walk fuel self c i 0 = Ok (row, k) /\
    0 <= k <= n self - 1 /\ bitvector_at self row = Ok true.
Proof.
  intros Hv Hst H Hc Hi Hfuel.
  destruct (sorted_index _ _ Hv Hst) as (san & E & Eb & Hp & Hs).
  destruct (init_index _ _ _ _ _ Hv H Eb Hp) as (_ & _ & Hn & _).
  unfold Py.len in Hn.
  rewrite <- (Z2Nat.id i) by lia.
  apply (lf_walk_bound reference_genome strategy comp self san); auto; lia.
Qed.

Lemma get_sa_walk_stops_witness :
  exists self,
    __init__ (list_ascii_of_string "GATTACA") "Simple" 3 = Ok self /\
    exists c row k,
      access self 2 0 = Ok c /\
      lf_walk 7 self c 2 0 = Ok (row, k) /\
      0 <= k <= n self - 1 /\ bitvector_at self row = Ok true.
Proof.
  eexists. split; [vm_compute; reflexivity|].
  apply (get_sa_walk_stops (list_ascii_of_string "GATTACA") "Simple" 3);
    [exact gattaca_valid | now left | vm_compute; reflexivity | lia
    | vm_compute; split; [discriminate|reflexivity] | vm_compute; lia].
Defined.

(** X15: with the strategies [Simple] and [ManberMyers], [__str__] on the
    index of a genome over [{A, C, G, N, T}], given with or without the
    final sentinel, returns the genome. *)
Theorem str_returns_the_genome (genome reference_genome : list ascii)
  (strategy : string) (comp : Z) (self : WaveletTree) :
  genome <> [] -> forallb is_dna genome = true ->
  reference_genome = genome \/ reference_genome = genome ++ [cDollar] ->
  strategy = "Simple"%string \/ strategy = "ManberMyers"%string ->
  __init__ reference_genome strategy comp = Ok self ->
  __str__ self = Ok genome.
Proof.
  intros Hne Hd Hr Hst H.
  assert (Hv : valid_reference reference_genome) by (exists genome; auto).
  destruct (sorted_index _ _ Hv Hst) as (san & E & Eb & Hp & Hs).
  rewrite (str_of_init reference_genome strategy comp self san Hv H Eb Hp Hs).
  f_equal. unfold genome_of.
  destruct Hr as [-> | ->].
  - now apply filter_all.
  - rewrite filter_app, (filter_all is_dna genome Hd). cbn. apply app_nil_r.
Qed.

Lemma str_returns_the_genome_witness :
  exists self,
    __init__ (list_ascii_of_string "GATTACA$") "ManberMyers" 3 = Ok self /\
    __str__ self = Ok (list_ascii_of_string "GATTACA").
Proof.
  eexists. split; [vm_compute; reflexivity|].
  apply (str_returns_the_genome (list_ascii_of_string "GATTACA")
           (list_ascii_of_string "GATTACA$") "ManberMyers" 3);
    [discriminate | reflexivity | now right | now right | vm_compute; reflexivity].
Defined.

(** X16: with the strategies [Simple] and [ManberMyers] and any sample
    rate from 1 on, the constructor returns an index for every genome over
    [{A, C, G, N, T}], given with or without the final sentinel; its
    length [n] counts the genome and the sentinel. *)
Theorem init_returns_an_index (genome reference_genome : list ascii)
  (strategy : string) (comp : Z) :
  genome <> [] -> forallb is_dna genome = true ->
  reference_genome = genome \/ reference_genome = genome ++ [cDollar] ->
  strategy = "Simple"%string \/ strategy = "ManberMyers"%string ->
  1 <= comp ->
  exists self,
    __init__ reference_genome strategy comp = Ok self /\
    n self = Py.len genome + 1 /\ compression_sa self = comp.
Proof.
  intros Hne Hd Hr Hst Hc.
  assert (Hv : valid_reference reference_genome) by (exists genome; auto).
  destruct (sorted_index _ _ Hv Hst) as (san & E & Eb & Hp & Hs).
  destruct (init_succeeds reference_genome strategy comp san Hv) as (self & H); auto.
  { destruct Hst as [-> | ->]; auto. }
  exists self. split; [exact H|].
  destruct (init_index _ _ _ _ _ Hv H Eb Hp) as (_ & _ & Hn & Hcs & _).
  split; [|exact Hcs]. rewrite Hn. unfold terminated, genome_of.
  rewrite len_app. unfold Py.len at 2. cbn [length].
  destruct Hr as [-> | ->].
  - now rewrite (filter_all is_dna genome Hd).
  - rewrite filter_app, (filter_all is_dna genome Hd). cbn. now rewrite app_nil_r.
Qed.

Lemma init_returns_an_index_witness :
  exists self,
    __init__ (list_ascii_of_string "GATTACA") "ManberMyers" 32 = Ok self /\
    n self = Py.len (list_ascii_of_string "GATTACA") + 1 /\ compression_sa self = 32.
Proof.
  apply (init_returns_an_index (list_ascii_of_string "GATTACA")
           (list_ascii_of_string "GATTACA") "ManberMyers" 32);
    [discriminate | reflexivity | now left | now right | lia].
Defined.

(** X17: with the strategies [Simple] and [ManberMyers], one step of the
    walk from a row [i] of the index of a valid reference, through
    [access], [rank] and the table [f], lands on the row of the suffix that
    starts one position earlier (the last position for the suffix at 0). *)
Theorem lf_step_moves_one_back (reference_genome : list ascii)
  (strategy : string) (comp : Z) (self : WaveletTree) (i : Z) :
  valid_reference reference_genome ->
  strategy = "Simple"%string \/ strategy = "ManberMyers"%string ->
  __init__ reference_genome strategy comp = Ok self ->
  0 <= i < n self ->
  exists c r skip,
    access self i 0 = Ok (PStr c) /\
    rank self (PStr c) i = Ok r /\
    Dict.get (f self) (PStr c) = Ok skip /\
    0 <= r + skip - 1 < n self /\
    nth (Z.to_nat (r + skip - 1)) (suffix_array_simple (terminated reference_genome)) 0
    = (if nth (Z.to_nat i) (suffix_array_simple (terminated reference_genome)) 0 =? 0
       then n self - 1
       else nth (Z.to_nat i) (suffix_array_simple (terminated reference_genome)) 0 - 1).
Proof.
  intros Hv Hst H Hi.
  destruct (sorted_index _ _ Hv Hst) as (san & E & Eb & Hp & Hs).
  destruct (init_index _ _ _ _ _ Hv H Eb Hp) as (Henc & Hf & Hn & _).
  pose proof (terminated_sentinel _ Hv) as Hterm.
  pose proof (terminated_alphabet _ Hv) as Hal.
  set (text := terminated reference_genome) in *.
  unfold Py.len in Hn.
  assert (Hi' : (Z.to_nat i < length text)%nat) by lia.
  destruct (lf_step self text san Hp Hs Hterm Hal Henc Hf (Z.to_nat i) Hi')
    as (j & r & skip & Er & Esk & Ej & Hj & Hnj).
  pose proof (access_row self text san Hp Hs Hterm Hal Henc (Z.to_nat i) Hi') as Ea.
  rewrite Z2Nat.id in Er, Ea by lia.
  exists (nth (Z.to_nat i) (map (bwt_sym text) san) cA), r, skip.
  split; [exact Ea|]. split; [exact Er|]. split; [exact Esk|].
  split; [lia|].
  rewrite E, !nth_map_of_nat, Ej, Nat2Z.id, Hnj. unfold prev.
  destruct (Nat.eqb_spec (nth (Z.to_nat i) san 0%nat) 0) as [E0|E0].
  - rewrite E0. cbn [Z.of_nat Z.eqb]. lia.
  - replace (Z.of_nat (nth (Z.to_nat i) san 0%nat) =? 0) with false
      by (symmetry; apply Z.eqb_neq; lia).
    lia.
Qed.

Lemma lf_step_moves_one_back_witness :
  exists self,
    __init__ (list_ascii_of_string "GATTACA") "Simple" 3 = Ok self /\
    exists c r skip,
      access self 2 0 = Ok (PStr c) /\
      rank self (PStr c) 2 = Ok r /\
      Dict.get (f self) (PStr c) = Ok skip /\
      0 <= r + skip - 1 < n self /\
      nth (Z.to_nat (r + skip - 1))
        (suffix_array_simple (terminated (list_ascii_of_string "GATTACA"))) 0
      = (if nth (Z.to_nat 2)
              (suffix_array_simple (terminated (list_ascii_of_string "GATTACA"))) 0 =? 0
         then n self - 1
         else nth (Z.to_nat 2)
                (suffix_array_simple (terminated (list_ascii_of_string "GATTACA"))) 0 - 1).
Proof.
  eexists. split; [vm_compute; reflexivity|].
  apply (lf_step_moves_one_back (list_ascii_of_string "GATTACA") "Simple" 3);
    [exact gattaca_valid | now left | vm_compute; reflexivity
    | vm_compute; split; [discriminate|reflexivity]].
Defined.

(* ================================================================== *)
(** * Kaerkkaeinen-Sanders: [radix_pass] *)
(* ================================================================== *)

Section RadixPass.

Variable a r : list Z.
Variable m : nat.
Variable len_k : Z.
Hypothesis Hm : (m <= length a)%nat.
Hypothesis Hk : 0 <= len_k.
Hypothesis Ha : forall i, (i < m)%nat -> 0 <= nth i a 0 < Py.len r.
Hypothesis Hr :
  forall i, (i < m)%nat -> 0 <= nth (Z.to_nat (nth i a 0)) r 0 <= len_k.

Let K := fun i => Z.to_nat (nth (Z.to_nat (nth i a 0)) r 0).
Let nk := Z.to_nat (len_k + 1).

Lemma radix_key (i : nat) :
  (i < m)%nat ->
  (ai <- Py.getitem a (Z.of_nat i) ;; Py.getitem r ai) = Ok (Z.of_nat (K i)) /\
  (K i < nk)%nat.
Proof.
  intros Hi. rewrite (getitem_nat a i 0) by lia. cbn [bind].
  pose proof (Ha i Hi) as H1. pose proof (Hr i Hi) as H2.
  rewrite (getitem_nth r _ 0) by exact H1. unfold K, nk. split; [f_equal; lia|lia].
Qed.

Lemma radix_count :
  exists c,
    Py.for_each (Py.range 0 (Z.of_nat m)) (Py.replicate 0 (len_k + 1))
      (fun i c =>
         ai <- Py.getitem a i ;;
         key <- Py.getitem r ai ;;
         v <- Py.getitem c key ;;
         Py.setitem c key (v + 1))
    = Ok c /\
    length c = nk /\
    forall k, (k < nk)%nat -> nth k c 0 = Z.of_nat (key_count K m k).
Proof.
  destruct (for_each_ind
    (fun t (c : list Z) =>
       length c = nk /\
       forall k, (k < nk)%nat -> nth k c 0 = Z.of_nat (key_count K t k))
    (Py.range 0 (Z.of_nat m)) (Py.replicate 0 (len_k + 1))
    (fun i c =>
         ai <- Py.getitem a i ;;
         key <- Py.getitem r ai ;;
         v <- Py.getitem c key ;;
         Py.setitem c key (v + 1))) as (c & E & Hl & Hc).
  - split; [apply length_replicate|]. intros k Hkk.
    rewrite nth_replicate by (unfold nk in Hkk; lia). reflexivity.
  - intros t x c Hx (Hl & Hc). apply range_nth_error_inv in Hx as [-> Ht].
    cbn [Z.add]. assert (Htm : (t < m)%nat) by lia.
    destruct (radix_key t Htm) as [Ek HKt].
    rewrite (getitem_nat a t 0) in Ek |- * by lia. cbn [bind] in Ek |- *.
    rewrite Ek. cbn [bind].
    rewrite (getitem_nat c _ 0) by lia. cbn [bind].
    rewrite setitem_nat by lia.
    eexists. split; [reflexivity|]. split; [now rewrite update_length|].
    intros k Hkk. rewrite key_count_S.
    destruct (Nat.eqb_spec (K t) k) as [->|Hne].
    + rewrite nth_update_same by lia. rewrite Hc by lia. lia.
    + rewrite nth_update_other by congruence. rewrite Hc by lia. lia.
  - exists c. rewrite range_length in Hc.
    replace (Z.to_nat (Z.of_nat m - 0)) with m in Hc by lia. auto.
Qed.

Lemma radix_sums (c0 : list Z) :
  length c0 = nk ->
  (forall k, (k < nk)%nat -> nth k c0 0 = Z.of_nat (key_count K m k)) ->
  exists cs,
    Py.for_each (Py.range 0 (len_k + 1)) (c0, 0)
      (fun i cs =>
         t <- Py.getitem (fst cs) i ;;
         c <- Py.setitem (fst cs) i (snd cs) ;;
         Ok (c, snd cs + t))
    = Ok cs /\
    length (fst cs) = nk /\
    forall k, (k < nk)%nat -> nth k (fst cs) 0 = Z.of_nat (key_less K m k).
Proof.
  intros Hl0 H0.
  destruct (for_each_ind
    (fun t (cs : list Z * Z) =>
       length (fst cs) = nk /\
       snd cs = Z.of_nat (key_less K m t) /\
       (forall k, (k < t)%nat -> (k < nk)%nat ->
          nth k (fst cs) 0 = Z.of_nat (key_less K m k)) /\
       (forall k, (t <= k)%nat -> (k < nk)%nat ->
          nth k (fst cs) 0 = Z.of_nat (key_count K m k)))
    (Py.range 0 (len_k + 1)) (c0, 0)
    (fun i cs =>
         t <- Py.getitem (fst cs) i ;;
         c <- Py.setitem (fst cs) i (snd cs) ;;
         Ok (c, snd cs + t))) as (cs & E & Hl & _ & Hlo & _).
  - cbn [fst snd]. split; [exact Hl0|]. split; [now rewrite key_less_0|].
    split; [intros k Hk0; lia|]. intros k _ Hkk. now apply H0.
  - intros t x [c s] Hx (Hl & Hs & Hlo & Hhi). cbn [fst snd] in *.
    apply range_nth_error_inv in Hx as [-> Ht]. cbn [Z.add].
    assert (Htk : (t < nk)%nat) by (unfold nk; lia).
    rewrite (getitem_nat c t 0) by lia. cbn [bind].
    rewrite setitem_nat by lia. cbn [bind].
    eexists. split; [reflexivity|]. cbn [fst snd].
    split; [now rewrite update_length|]. split; [|split].
    + rewrite Hs, (Hhi t) by lia. rewrite key_less_succ. lia.
    + intros k Hkt Hkk. destruct (Nat.eq_dec k t) as [->|Hne].
      * rewrite nth_update_same by lia. exact Hs.
      * rewrite nth_update_other by exact Hne. apply Hlo; lia.
    + intros k Hkt Hkk. rewrite nth_update_other by lia. apply Hhi; lia.
  - exists cs. split; [exact E|]. split; [exact Hl|]. intros k Hkk.
    rewrite range_length in Hlo. apply Hlo; [unfold nk in Hkk; lia|exact Hkk].
Qed.

Lemma radix_fill (c0 : list Z) :
  length c0 = nk ->
  (forall k, (k < nk)%nat -> nth k c0 0 = Z.of_nat (key_less K m k)) ->
  exists bc,
    Py.for_each (Py.range 0 (Z.of_nat m)) (Py.replicate 0 (Z.of_nat m), c0)
      (fun i bc =>
         ai <- Py.getitem a i ;;
         key <- Py.getitem r ai ;;
         pos <- Py.getitem (snd bc) key ;;
         b <- Py.setitem (fst bc) pos ai ;;
         c <- Py.setitem (snd bc) key (pos + 1) ;;
         Ok (b, c))
    = Ok bc /\
    length (fst bc) = m /\
    forall i, (i < m)%nat -> nth (stable_pos K m i) (fst bc) 0 = nth i a 0.
Proof.
  intros Hl0 H0.
  destruct (for_each_ind
    (fun t (bc : list Z * list Z) =>
       length (snd bc) = nk /\
       (forall k, (k < nk)%nat ->
          nth k (snd bc) 0 = Z.of_nat (key_less K m k + key_count K t k)) /\
       length (fst bc) = m /\
       forall i, (i < t)%nat -> (i < m)%nat ->
         nth (stable_pos K m i) (fst bc) 0 = nth i a 0)
    (Py.range 0 (Z.of_nat m)) (Py.replicate 0 (Z.of_nat m), c0)
    (fun i bc =>
         ai <- Py.getitem a i ;;
         key <- Py.getitem r ai ;;
         pos <- Py.getitem (snd bc) key ;;
         b <- Py.setitem (fst bc) pos ai ;;
         c <- Py.setitem (snd bc) key (pos + 1) ;;
         Ok (b, c))) as (bc & E & _ & _ & Hlb & Hf).
  - cbn [fst snd]. split; [exact Hl0|]. split.
    + intros k Hkk. rewrite H0 by exact Hkk. f_equal. unfold key_count. cbn. lia.
    + split; [rewrite length_replicate; lia|]. intros i Hi. lia.
  - intros t x [b c] Hx (Hlc & Hc & Hlb & Hf). cbn [fst snd] in *.
    apply range_nth_error_inv in Hx as [-> Ht]. cbn [Z.add].
    assert (Htm : (t < m)%nat) by lia.
    destruct (radix_key t Htm) as [Ek HKt].
    rewrite (getitem_nat a t 0) in Ek |- * by lia. cbn [bind] in Ek |- *.
    rewrite Ek. cbn [bind].
    rewrite (getitem_nat c _ 0) by lia. cbn [bind].
    rewrite Hc by exact HKt. fold (stable_pos K m t).
    pose proof (stable_pos_lt K m t Htm) as Hpos.
    rewrite setitem_nat by lia. cbn [bind].
    rewrite setitem_nat by lia. cbn [bind].
    eexists. split; [reflexivity|]. cbn [fst snd].
    split; [now rewrite update_length|]. split; [|split].
    + intros k Hkk. rewrite key_count_S.
      destruct (Nat.eqb_spec (K t) k) as [Heq|Hne].
      * subst k. rewrite nth_update_same by lia. unfold stable_pos. lia.
      * rewrite nth_update_other by congruence. rewrite Hc by exact Hkk. f_equal. lia.
    + now rewrite update_length.
    + intros j Hj Hjm. destruct (Nat.eq_dec j t) as [->|Hne].
      * apply nth_update_same. lia.
      * rewrite nth_update_other.
        -- apply Hf; lia.
        -- intros F. apply (stable_pos_inj K m) in F; auto.
  - exists bc. split; [exact E|]. split; [exact Hlb|].
    intros i Hi. rewrite range_length in Hf. apply Hf; lia.
Qed.

(** [radix_pass] is a stable counting sort of the first [len_a] entries of
    [a] by the key [r[a[i]]]. *)
Lemma radix_pass_spec :
  exists sigma,
    KS.radix_pass a r (Z.of_nat m) len_k = Ok (map (fun i => nth i a 0) sigma) /\
    Permutation sigma (seq 0 m) /\
    StronglySorted (stable_lt K) sigma.
Proof.
  unfold KS.radix_pass.
  destruct radix_count as (c1 & E1 & Hl1 & Hc1). rewrite E1. cbn [bind].
  destruct (radix_sums c1 Hl1 Hc1) as (cs & E2 & Hl2 & Hc2). rewrite E2. cbn [bind].
  destruct (radix_fill (fst cs) Hl2 Hc2) as (bc & E3 & Hlb & Hf). rewrite E3. cbn [bind].
  destruct (fill_sorted K m (fun i => nth i a 0) (fst bc) 0 Hlb Hf) as (sigma & Es & Hp & Hs).
  exists sigma. rewrite Es. auto.
Qed.

End RadixPass.

(** X18: [radix_pass] is a stable counting sort: when the first [len_a]
    entries of [a] index [r] and their keys [r[a[i]]] lie in
    [[0, len_k]], it returns these entries ordered by key, entries with
    the same key in their order in [a]. *)
Theorem radix_pass_sorts_stably (a r : list Z) (m : nat) (len_k : Z) :
  (m <= length a)%nat -> 0 <= len_k ->
  (forall i, (i < m)%nat -> 0 <= nth i a 0 < Py.len r) ->
  (forall i, (i < m)%nat -> 0 <= nth (Z.to_nat (nth i a 0)) r 0 <= len_k) ->
  exists sigma,
    KS.radix_pass a r (Z.of_nat m) len_k = Ok (map (fun i => nth i a 0) sigma) /\
    Permutation sigma (seq 0 m) /\
    StronglySorted
      (fun i j =>
         nth (Z.to_nat (nth i a 0)) r 0 < nth (Z.to_nat (nth j a 0)) r 0 \/
         (nth (Z.to_nat (nth i a 0)) r 0 = nth (Z.to_nat (nth j a 0)) r 0 /\ (i < j)%nat))
      sigma.
Proof.
  intros Hm Hk Ha Hr.
  destruct (radix_pass_spec a r m len_k Hm Hk Ha Hr) as (sigma & E & Hp & Hs).
  exists sigma. split; [exact E|]. split; [exact Hp|].
  revert Hs. apply StronglySorted_weaken.
  - apply (Permutation_NoDup (Permutation_sym Hp)), seq_NoDup.
  - intros i j Hi Hj _ H.
    apply (Permutation_in _ Hp) in Hi, Hj. apply in_seq in Hi, Hj.
    pose proof (Hr i ltac:(lia)). pose proof (Hr j ltac:(lia)).
    unfold stable_lt in H. lia.
Qed.

Lemma radix_pass_sorts_stably_witness :
  exists sigma,
    KS.radix_pass [1; 2; 4; 5] [2; 3; 1; 3; 0; 0] (Z.of_nat 4) 6
    = Ok (map (fun i => nth i [1; 2; 4; 5] 0) sigma) /\
    Permutation sigma (seq 0 4) /\
    StronglySorted
      (fun i j =>
         nth (Z.to_nat (nth i [1; 2; 4; 5] 0)) [2; 3; 1; 3; 0; 0] 0
         < nth (Z.to_nat (nth j [1; 2; 4; 5] 0)) [2; 3; 1; 3; 0; 0] 0 \/
         (nth (Z.to_nat (nth i [1; 2; 4; 5] 0)) [2; 3; 1; 3; 0; 0] 0
          = nth (Z.to_nat (nth j [1; 2; 4; 5] 0)) [2; 3; 1; 3; 0; 0] 0 /\ (i < j)%nat))
      sigma.
Proof.
  apply (radix_pass_sorts_stably [1; 2; 4; 5] [2; 3; 1; 3; 0; 0] 4 6).
  - cbn. lia.
  - lia.
  - intros i Hi. do 4 (destruct i as [|i]; [vm_compute; split; [discriminate|reflexivity]|]). lia.
  - intros i Hi. do 4 (destruct i as [|i]; [vm_compute; split; discriminate|]). lia.
Defined.

(** X19: on a non-empty transform over the alphabet, [create_bit_vecs]
    returns five bit vectors that follow the tree: the root has one bit
    per symbol, nodes 1 and 2 share the bits of the root between them, and
    nodes 3 and 4 share those of node 2. *)
Theorem create_bit_vecs_partitions (bwt : list ascii) :
  bwt <> [] -> forallb in_alphabet bwt = true ->
  exists b0 b1 b2 b3 b4 buckets steps,
    create_bit_vecs bwt = Ok ([b0; b1; b2; b3; b4], buckets, steps) /\
    Py.len b0 = Py.len bwt /\
    Py.len b1 + Py.len b2 = Py.len b0 /\
    Py.len b3 + Py.len b4 = Py.len b2 /\
    ones b0 = Py.len b2 /\ Py.len buckets = 5 /\ Py.len steps = 5.
Proof.
  intros Hne Hal.
  destruct (create_bit_vecs_spec bwt Hne)
    as (k0 & k1 & k2 & k3 & k4 & s1 & s2 & s3 & s4 & E & _).
  do 7 eexists. split; [exact E|]. rewrite !len_map.
  unfold routed.
  set (right := filter (fun ch => negb (chr_eq ch cN) && negb (chr_eq ch cA)) bwt).
  assert (H12 : Py.len (filter (fun ch => chr_eq ch cN || chr_eq ch cA) bwt)
                + Py.len right = Py.len bwt).
  { rewrite <- (filter_split_len (fun ch => chr_eq ch cN || chr_eq ch cA) bwt). f_equal.
    unfold right. f_equal. apply filter_ext. intros x. now rewrite negb_orb. }
  assert (H34 : Py.len (filter (fun ch => chr_eq ch cC || chr_eq ch cG) right)
                + Py.len (filter (fun ch => chr_eq ch cT || chr_eq ch cDollar) right)
                = Py.len right).
  { rewrite <- (filter_split_len (fun ch => chr_eq ch cC || chr_eq ch cG) right). f_equal.
    f_equal. apply filter_ext_in. intros x Hx. unfold right in Hx.
    apply filter_In in Hx as [Hx Hr].
    rewrite forallb_forall in Hal. specialize (Hal x Hx).
    apply in_alphabet_cases in Hal as [-> | [-> | [-> | [-> | [-> | ->]]]]];
      first [reflexivity | discriminate Hr]. }
  repeat split; try assumption; try reflexivity.
  rewrite <- (prefix_ones_all (map (node_bit 0) bwt)), len_map, prefix_ones_filter.
  replace (firstn (Z.to_nat (Py.len bwt)) bwt) with bwt
    by (unfold Py.len; now rewrite Nat2Z.id, firstn_all).
  unfold right, node_bit.
  f_equal. apply filter_ext. intros x. now rewrite negb_orb.
Qed.

Lemma create_bit_vecs_partitions_witness :
  exists b0 b1 b2 b3 b4 buckets steps,
    create_bit_vecs (list_ascii_of_string "ACTGA$TA")
    = Ok ([b0; b1; b2; b3; b4], buckets, steps) /\
    Py.len b0 = Py.len (list_ascii_of_string "ACTGA$TA") /\
    Py.len b1 + Py.len b2 = Py.len b0 /\
    Py.len b3 + Py.len b4 = Py.len b2 /\
    ones b0 = Py.len b2 /\ Py.len buckets = 5 /\ Py.len steps = 5.
Proof.
  apply (create_bit_vecs_partitions (list_ascii_of_string "ACTGA$TA"));
    [discriminate | reflexivity].
Defined.

(** X20: on the index of a valid reference, [rank_bit_node(i, node)]
    returns, for each of the five nodes and every position [i] of the bit
    vector of the node, the number of positions up to [i] that hold the
    same bit as position [i]. *)
Theorem rank_bit_node_counts_equal_bits (reference_genome : list ascii)
  (strategy : string) (comp : Z) (self : WaveletTree) (node : nat) (bv : list bool)
  (i : Z) :
  valid_reference reference_genome ->
  __init__ reference_genome strategy comp = Ok self ->
  (node < 5)%nat -> Py.getitem (bits self) (Z.of_nat node) = Ok bv ->
  0 <= i < Py.len bv ->
  rank_bit_node self i (Z.of_nat node)
  = Ok (Py.len (filter (fun b => Bool.eqb b (nth (Z.to_nat i) bv false))
                  (firstn (Z.to_nat (i + 1)) bv))).
Proof.
  intros Hv H Hnode Ebv Hi.
  pose proof (terminated_len _ Hv) as H2.
  destruct (with_sentinel_valid _ Hv) as (Ew & _ & _).
  pose proof (init_Ok _ _ _ _ H) as (_ & _ & _ & _ & _ & _ & _ & _ & _ & En & _).
  destruct (init_encodes _ _ _ _ H) as (bwt & _ & Hl & _ & _ & Henc).
  rewrite Ew in *. specialize (Henc ltac:(lia)).
  destruct (Henc node Hnode) as (step & bucket & Eb & _).
  rewrite Eb in Ebv. injection Ebv as <-. rewrite len_map in Hi.
  rewrite (rank_bit_node_spec self bwt node i Henc Hnode Hi). f_equal.
  rewrite firstn_map.
  rewrite (nth_indep _ false (node_bit node cA))
    by (rewrite length_map; unfold Py.len in Hi; lia).
  rewrite map_nth.
  rewrite <- (map_filter_comm (node_bit node)
                (fun b => Bool.eqb b (node_bit node (nth (Z.to_nat i) (routed node bwt) cA)))).
  now rewrite len_map.
Qed.

Lemma rank_bit_node_counts_equal_bits_witness :
  exists self,
    __init__ (list_ascii_of_string "GATTACA") "Simple" 1 = Ok self /\
    rank_bit_node self 3 (Z.of_nat 2)
    = Ok (Py.len (filter (fun b => Bool.eqb b (nth (Z.to_nat 3) [false; true; false; true; true] false))
                    (firstn (Z.to_nat (3 + 1)) [false; true; false; true; true]))).
Proof.
  eexists. split; [vm_compute; reflexivity|].
  apply (rank_bit_node_counts_equal_bits (list_ascii_of_string "GATTACA") "Simple" 1);
    [exact gattaca_valid | vm_compute; reflexivity | lia | vm_compute; reflexivity
    | vm_compute; split; [discriminate|reflexivity]].
Defined.

(** X21: whenever one of the three builders returns, its result has
    exactly one entry for every symbol of the text. *)
Theorem builders_return_one_entry_per_symbol (strategy : string) (text : list ascii)
  (full : list Z) :
  build_sa strategy text = Ok full -> Py.len full = Py.len text.
Proof. apply build_sa_len. Qed.

Lemma builders_return_one_entry_per_symbol_witness :
  Py.len [7; 6; 4; 1; 5; 0; 3; 2] = Py.len (list_ascii_of_string "GATTACA$").
Proof.
  apply (builders_return_one_entry_per_symbol "KaerkkaeinenSanders"
           (list_ascii_of_string "GATTACA$") [7; 6; 4; 1; 5; 0; 3; 2]).
  vm_compute. reflexivity.
Defined.

(** X22: called on a node whose children are leaves (1, 3 or 4),
    [access] returns the symbol of the left leaf for every index and every
    index object: it reads no bit vector there. *)
Theorem access_below_root_returns_left_leaf (self : WaveletTree) (i : Z) :
  access self i 1 = Ok (PStr cN) /\
  access self i 3 = Ok (PStr cC) /\
  access self i 4 = Ok (PStr cT).
Proof. repeat split. Qed.

Lemma to_int_codes (text : list ascii) :
  forallb in_alphabet text = true -> KS.to_int text = Ok (map ks_code text).
Proof.
  unfold KS.to_int. induction text as [|x l IH]; intros H; [reflexivity|].
  cbn [forallb] in H. apply andb_true_iff in H as [Hx Hl].
  cbn [map_each map]. rewrite (IH Hl).
  apply in_alphabet_cases in Hx as [-> | [-> | [-> | [-> | [-> | ->]]]]]; reflexivity.
Qed.

(** X23: on a text over the alphabet, [to_int] returns one code between 1
    and 6 for every symbol, and the codes are ordered as the symbols are. *)
Theorem to_int_keeps_the_order (text : list ascii) :
  forallb in_alphabet text = true ->
  exists s,
    KS.to_int text = Ok s /\ length s = length text /\
    forall i j, (i < length text)%nat -> (j < length text)%nat ->
      1 <= nth i s 0 <= 6 /\
      (nth i s 0 < nth j s 0
       <-> (nat_of_ascii (nth i text cA) < nat_of_ascii (nth j text cA))%nat).
Proof.
  intros H. exists (map ks_code text). split; [now apply to_int_codes|].
  split; [apply length_map|]. intros i j Hi Hj.
  rewrite !(nth_indep (map ks_code text) 0 (ks_code cA)) by (rewrite length_map; lia).
  rewrite !map_nth.
  rewrite forallb_forall in H.
  pose proof (H _ (nth_In text cA Hi)) as Hci.
  pose proof (H _ (nth_In text cA Hj)) as Hcj.
  revert Hci Hcj. generalize (nth i text cA) (nth j text cA). intros x y Hx Hy.
  apply in_alphabet_cases in Hx as [-> | [-> | [-> | [-> | [-> | ->]]]]];
    apply in_alphabet_cases in Hy as [-> | [-> | [-> | [-> | [-> | ->]]]]];
    vm_compute; repeat split; intros; try discriminate; try lia; try reflexivity;
    try (exfalso; lia).
Qed.

Lemma to_int_keeps_the_order_witness :
  exists s,
    KS.to_int (list_ascii_of_string "GATTACA$") = Ok s /\
    length s = length (list_ascii_of_string "GATTACA$") /\
    forall i j, (i < length (list_ascii_of_string "GATTACA$"))%nat ->
                (j < length (list_ascii_of_string "GATTACA$"))%nat ->
      1 <= nth i s 0 <= 6 /\
      (nth i s 0 < nth j s 0
       <-> (nat_of_ascii (nth i (list_ascii_of_string "GATTACA$") cA)
            < nat_of_ascii (nth j (list_ascii_of_string "GATTACA$") cA))%nat).
Proof.
  apply (to_int_keeps_the_order (list_ascii_of_string "GATTACA$")). reflexivity.
Defined.

(** X24: on a non-empty text over the alphabet, [compute_classes] applied
    to the order of [sort_chars] numbers the positions by their symbol:
    the class of a position is below that of another exactly when its
    symbol is the smaller one, and every class is below [n]. *)
Theorem compute_classes_numbers_symbols (text : list ascii) :
  text <> [] -> forallb in_alphabet text = true ->
  exists order classes,
    ManberMyers.sort_chars text = Ok order /\
    ManberMyers.compute_classes text order = Ok classes /\
    length classes = length text /\
    forall p q, (p < length text)%nat -> (q < length text)%nat ->
      0 <= nth p classes 0 < Z.of_nat (length text) /\
      (nth p classes 0 < nth q classes 0
       <-> (nat_of_ascii (nth p text cA) < nat_of_ascii (nth q text cA))%nat).
Proof.
  intros Hne Hal.
  assert (Hn : (1 <= length text)%nat) by (destruct text; [now elim Hne|cbn; lia]).
  destruct (sort_chars_spec text Hal) as (sigma & E1 & Hp & Hs).
  destruct (compute_classes_spec text sigma Hn Hp Hs)
    as (classes & E2 & ord & _ & _ & Hlc & Hc & H3 & _).
  exists (map Z.of_nat sigma), classes. split; [exact E1|]. split; [exact E2|].
  split; [exact Hlc|]. intros p q Hlp Hlq. split; [now apply Hc|].
  rewrite (H3 p q Hlp Hlq), !cyc_one by assumption. cbn [str_lt].
  destruct (Nat.ltb_spec (nat_of_ascii (nth p text cA)) (nat_of_ascii (nth q text cA)));
    [tauto|].
  split; [|lia]. destruct (_ <? _)%nat; discriminate.
Qed.

Lemma compute_classes_numbers_symbols_witness :
  exists order classes,
    ManberMyers.sort_chars (list_ascii_of_string "GATTACA$") = Ok order /\
    ManberMyers.compute_classes (list_ascii_of_string "GATTACA$") order = Ok classes /\
    length classes = length (list_ascii_of_string "GATTACA$") /\
    forall p q, (p < length (list_ascii_of_string "GATTACA$"))%nat ->
                (q < length (list_ascii_of_string "GATTACA$"))%nat ->
      0 <= nth p classes 0 < Z.of_nat (length (list_ascii_of_string "GATTACA$")) /\
      (nth p classes 0 < nth q classes 0
       <-> (nat_of_ascii (nth p (list_ascii_of_string "GATTACA$") cA)
            < nat_of_ascii (nth q (list_ascii_of_string "GATTACA$") cA))%nat).
Proof.
  apply (compute_classes_numbers_symbols (list_ascii_of_string "GATTACA$"));
    [discriminate | reflexivity].
Defined.

(** X25: for every strategy, [get_sa(i)] on the index of a valid
    reference returns the entry of row [i] that the builder computed
    whenever the index keeps it: always with sample rate 1, and otherwise
    on the rows whose entry is a multiple of the sample rate.  No walk is
    made on these rows. *)
Theorem get_sa_reads_kept_entries (reference_genome : list ascii)
  (strategy : string) (comp : Z) (self : WaveletTree) (fuel : nat) :
  valid_reference reference_genome ->
  __init__ reference_genome strategy comp = Ok self ->
  exists full,
    build_sa strategy (terminated reference_genome) = Ok full /\
    forall i, 0 <= i < n self ->
      comp = 1 \/ nth (Z.to_nat i) full 0 mod comp = 0 ->
      get_sa fuel self i = Ok (nth (Z.to_nat i) full 0).
Proof.
  intros Hv H.
  destruct (sampling_of_init _ _ _ _ Hv H)
    as (full & Eb & Hl & H2 & Hc & Ec & Hstep & H1 & Hn).
  exists full. split; [exact Eb|]. intros i Hi Hkept.
  unfold get_sa. rewrite Ec.
  destruct (Z.eq_dec comp 1) as [E1|E1].
  - rewrite E1. cbn [Z.eqb Pos.eqb]. destruct (H1 E1) as (-> & _).
    apply getitem_nth. lia.
  - destruct Hkept as [F|Hk]; [contradiction|].
    replace (comp =? 1) with false by (symmetry; now apply Z.eqb_neq).
    destruct (Hn E1) as (bucket & Esa & Ebv & Ebk & Hok).
    unfold bitvector_at. rewrite Ebv.
    rewrite (getitem_map_nth (sampled comp) full i 0) by lia. cbn [bind].
    assert (Hs : sampled comp (nth (Z.to_nat i) full 0) = true)
      by (unfold sampled; now apply Z.eqb_eq).
    rewrite Hs.
    rewrite (rank_bit_spec self _ bucket i ltac:(lia) Hstep Ebv Ebk Hok)
      by (rewrite len_map; lia).
    cbn [bind]. rewrite Esa.
    rewrite <- (Z2Nat.id i) at 1 by lia.
    apply sampled_lookup; [unfold Py.len in Hl; lia|exact Hs].
Qed.

Lemma get_sa_reads_kept_entries_witness :
  exists self,
    __init__ (list_ascii_of_string "GATTACA") "KaerkkaeinenSanders" 3 = Ok self /\
    exists full,
      build_sa "KaerkkaeinenSanders" (terminated (list_ascii_of_string "GATTACA")) = Ok full /\
      forall i, 0 <= i < n self ->
        3 = 1 \/ nth (Z.to_nat i) full 0 mod 3 = 0 ->
        get_sa 0 self i = Ok (nth (Z.to_nat i) full 0).
Proof.
  eexists. split; [vm_compute; reflexivity|].
  apply (get_sa_reads_kept_entries (list_ascii_of_string "GATTACA")
           "KaerkkaeinenSanders" 3 _ 0);
    [exact gattaca_valid | vm_compute; reflexivity].
Defined.

(** X26: on a non-empty text that holds a symbol outside
    [{$, A, C, G, N, T}], the builders of Manber-Myers and
    Kaerkkaeinen-Sanders raise [KeyError] before they sort anything. *)
Theorem builders_reject_unknown_symbol (text : list ascii) (fuel : nat) (m k : Z) :
  (exists c, In c text /\ in_alphabet c = false) ->
  suffix_array_manbermyers text = Raise KeyError /\
  KS.suffix_array_kaerkkaeinensanders (S fuel) (KS.Chars text) m k = Raise KeyError.
Proof.
  intros (c & Hc & Hn).
  assert (Hal : forallb in_alphabet text = false).
  { destruct (forallb in_alphabet text) eqn:E; [|reflexivity].
    rewrite forallb_forall in E. rewrite (E c Hc) in Hn. discriminate. }
  split.
  - unfold suffix_array_manbermyers. now rewrite sort_chars_raises.
  - cbn [KS.suffix_array_kaerkkaeinensanders].
    destruct text as [|x l]; [destruct Hc|].
    change (Py.getitem (x :: l) 0) with (Ok (A := ascii) x). cbn [bind].
    now rewrite to_int_raises.
Qed.

Lemma builders_reject_unknown_symbol_witness :
  suffix_array_manbermyers (list_ascii_of_string "GAXTACA$") = Raise KeyError /\
  KS.suffix_array_kaerkkaeinensanders (S 8) (KS.Chars (list_ascii_of_string "GAXTACA$")) 8 6
  = Raise KeyError.
Proof.
  apply (builders_reject_unknown_symbol (list_ascii_of_string "GAXTACA$") 8 8 6).
  exists "X"%char. split; [cbn; tauto|reflexivity].
Defined.

(** X27: on a text of a single symbol of the alphabet, the builder of
    Kaerkkaeinen-Sanders returns [[1]], which is no position of the text,
    where [suffix_array_simple] and [suffix_array_manbermyers] return
    [[0]]. *)
Theorem kaerkkaeinensanders_single_symbol (c : ascii) (fuel : nat) :
  in_alphabet c = true ->
  KS.suffix_array_kaerkkaeinensanders (S fuel) (KS.Chars [c]) 1 6 = Ok [1] /\
  suffix_array_simple [c] = [0] /\
  suffix_array_manbermyers [c] = Ok [0].
Proof.
  intros H.
  apply in_alphabet_cases in H as [-> | [-> | [-> | [-> | [-> | ->]]]]];
    repeat split; vm_compute; reflexivity.
Qed.

Lemma kaerkkaeinensanders_single_symbol_witness :
  KS.suffix_array_kaerkkaeinensanders (S 1) (KS.Chars [cDollar]) 1 6 = Ok [1] /\
  suffix_array_simple [cDollar] = [0] /\
  suffix_array_manbermyers [cDollar] = Ok [0].
Proof.
  apply (kaerkkaeinensanders_single_symbol cDollar 1). reflexivity.
Defined.

(** X28: on a sentinel-terminated text, the suffix array that
    [suffix_array_simple] and [suffix_array_manbermyers] return starts
    with the position of the sentinel, [n - 1]. *)
Theorem suffix_array_starts_at_sentinel (text : list ascii) :
  sentinel_terminated text ->
  nth 0 (suffix_array_simple text) 0 = Py.len text - 1 /\
  exists full,
    suffix_array_manbermyers text = Ok full /\ nth 0 full 0 = Py.len text - 1.
Proof.
  intros Hterm.
  assert (H0 : nth 0 (suffix_array_simple text) 0 = Py.len text - 1).
  { destruct (suffix_array_simple_spec text) as (san & E & Hp & Hs).
    rewrite E, nth_map_of_nat, (san_first text san Hp Hs Hterm).
    assert (Hn : (1 <= length text)%nat).
    { destruct Hterm as (g & -> & _). rewrite length_app. cbn. lia. }
    unfold Py.len. lia. }
  split; [exact H0|].
  exists (suffix_array_simple text). split; [now apply manbermyers_simple|exact H0].
Qed.

Lemma suffix_array_starts_at_sentinel_witness :
  nth 0 (suffix_array_simple (list_ascii_of_string "GATTACA$")) 0
  = Py.len (list_ascii_of_string "GATTACA$") - 1 /\
  exists full,
    suffix_array_manbermyers (list_ascii_of_string "GATTACA$") = Ok full /\
    nth 0 full 0 = Py.len (list_ascii_of_string "GATTACA$") - 1.
Proof.
  apply (suffix_array_starts_at_sentinel (list_ascii_of_string "GATTACA$")).
  exact gattaca_terminated.
Defined.

(* ================================================================== *)
(** * Rank against the transform of the sorted suffixes *)
(* ================================================================== *)

Lemma rank_in_transform (reference_genome : list ascii) (strategy : string) (comp : Z)
  (self : WaveletTree) (san : list nat) :
  valid_reference reference_genome ->
  __init__ reference_genome strategy comp = Ok self ->
  build_sa strategy (terminated reference_genome) = Ok (map Z.of_nat san) ->
  Permutation san (seq 0 (length (terminated reference_genome))) ->
  suffix_sorted (terminated reference_genome) san ->
  forall c i, In c alphabet -> 0 <= i < n self ->
    rank self (PStr c) i =
    Ok (count_upto c (map (bwt_sym (terminated reference_genome)) san) i).
Proof.
  intros Hv H Hb Hp Hs c i Hc Hi.
  destruct (init_index _ _ _ _ _ Hv H Hb Hp) as (He & _ & Hn & _).
  pose proof (terminated_sentinel _ Hv) as Hterm.
  pose proof (terminated_alphabet _ Hv) as Hal.
  apply rank_spec; auto.
  - exact (bwt_alphabet _ _ Hp Hs Hterm Hal).
  - unfold in_alphabet. apply existsb_exists. exists c. split; [exact Hc|].
    now apply chr_eq_true.
  - rewrite (bwt_len _ _ Hp). rewrite Hn in Hi. unfold Py.len in Hi. exact Hi.
Qed.

(* ================================================================== *)
(** * Kaerkkaeinen-Sanders: the order of suffixes *)
(* ================================================================== *)

Section SufOrder.

Variable w : nat -> Z.

Lemma suf_lt_step (p q : nat) :
  suf_lt w p q <-> w p < w q \/ (w p = w q /\ suf_lt w (p + 1) (q + 1)).
Proof.
  split.
  - intros (d & He & Hd). destruct d as [|d].
    + left. now rewrite !Nat.add_0_r in Hd.
    + right. split.
      * specialize (He 0%nat ltac:(lia)). now rewrite !Nat.add_0_r in He.
      * exists d. split.
        -- intros e Hlt. specialize (He (S e) ltac:(lia)).
           replace (p + 1 + e)%nat with (p + S e)%nat by lia.
           replace (q + 1 + e)%nat with (q + S e)%nat by lia. exact He.
        -- replace (p + 1 + d)%nat with (p + S d)%nat by lia.
           replace (q + 1 + d)%nat with (q + S d)%nat by lia. exact Hd.
  - intros [H | [E (d & He & Hd)]].
    + exists 0%nat. split; [intros e He; lia|]. now rewrite !Nat.add_0_r.
    + exists (S d). split.
      * intros [|e] Hlt; [now rewrite !Nat.add_0_r|].
        specialize (He e ltac:(lia)).
        replace (p + S e)%nat with (p + 1 + e)%nat by lia.
        replace (q + S e)%nat with (q + 1 + e)%nat by lia. exact He.
      * replace (p + S d)%nat with (p + 1 + d)%nat by lia.
        replace (q + S d)%nat with (q + 1 + d)%nat by lia. exact Hd.
Qed.

Lemma suf_lt_irrefl (p : nat) : ~ suf_lt w p p.
Proof. intros (d & _ & H). lia. Qed.

Lemma suf_lt_asym (p q : nat) : suf_lt w p q -> suf_lt w q p -> False.
Proof.
  intros (d1 & He1 & H1) (d2 & He2 & H2).
  destruct (Nat.lt_trichotomy d1 d2) as [H | [H | H]].
  - specialize (He2 d1 H). lia.
  - subst. lia.
  - specialize (He1 d2 H). lia.
Qed.

Lemma suf_lt_trans (p q r : nat) : suf_lt w p q -> suf_lt w q r -> suf_lt w p r.
Proof.
  intros (d1 & He1 & H1) (d2 & He2 & H2).
  destruct (Nat.lt_trichotomy d1 d2) as [H | [H | H]].
  - exists d1. split.
    + intros e He. rewrite (He1 e He). apply He2. lia.
    + rewrite <- (He2 d1 H). exact H1.
  - subst d2. exists d1. split.
    + intros e He. rewrite (He1 e He). now apply He2.
    + lia.
  - exists d2. split.
    + intros e He. rewrite He1 by lia. now apply He2.
    + rewrite (He1 d2 H). exact H2.
Qed.

Lemma suf_lt_tri (p q : nat) :
  suf_lt w p q <-> tri_lt w p q \/ (tri_eq w p q /\ suf_lt w (p + 3) (q + 3)).
Proof.
  pose proof (suf_lt_step p q) as H0.
  pose proof (suf_lt_step (p + 1) (q + 1)) as H1.
  pose proof (suf_lt_step (p + 1 + 1) (q + 1 + 1)) as H2.
  replace (p + 1 + 1 + 1)%nat with (p + 3)%nat in H2 by lia.
  replace (q + 1 + 1 + 1)%nat with (q + 3)%nat in H2 by lia.
  replace (p + 1 + 1)%nat with (p + 2)%nat in H1, H2 by lia.
  replace (q + 1 + 1)%nat with (q + 2)%nat in H1, H2 by lia.
  unfold tri_lt, tri_eq. tauto.
Qed.

Lemma tri_same_eq (p q : nat) : tri_same w p q = true <-> tri_eq w p q.
Proof.
  unfold tri_same, tri_eq. rewrite !andb_true_iff, !Z.eqb_eq. tauto.
Qed.

Lemma tri_total (p q : nat) : tri_lt w p q \/ tri_eq w p q \/ tri_lt w q p.
Proof. unfold tri_lt, tri_eq. lia. Qed.

Lemma tri_lt_not (p q : nat) : tri_lt w p q <-> ~ (tri_lt w q p \/ tri_eq w q p).
Proof. unfold tri_lt, tri_eq. lia. Qed.

Lemma tri_le_trans (a b c : nat) :
  tri_lt w a b \/ tri_eq w a b -> tri_lt w b c \/ tri_eq w b c ->
  tri_lt w a c \/ tri_eq w a c.
Proof. unfold tri_lt, tri_eq. lia. Qed.

Variable n : nat.
Hypothesis Hpos : forall i, (i < n)%nat -> 1 <= w i.
Hypothesis Hzero : forall i, (n <= i)%nat -> w i = 0.

Lemma w_nonneg (i : nat) : 0 <= w i.
Proof.
  destruct (Nat.lt_ge_cases i n) as [H|H]; [pose proof (Hpos i H)|pose proof (Hzero i H)]; lia.
Qed.

Lemma w_inside (i : nat) : 1 <= w i -> (i < n)%nat.
Proof.
  intros H. destruct (Nat.lt_ge_cases i n) as [H1|H1]; [exact H1|].
  pose proof (Hzero i H1). lia.
Qed.

Lemma suf_lt_total_aux (f : nat) :
  forall p q, p <> q -> (p < n \/ q < n)%nat -> (n - Nat.min p q <= f)%nat ->
    suf_lt w p q \/ suf_lt w q p.
Proof.
  induction f as [|f IH]; intros p q Hne Hlt Hf; [lia|].
  destruct (Z.lt_trichotomy (w p) (w q)) as [H | [H | H]].
  - left. apply suf_lt_step. now left.
  - assert (Hp : (p < n)%nat).
    { destruct Hlt as [Hl|Hl]; [exact Hl|]. apply w_inside. rewrite H. now apply Hpos. }
    assert (Hq : (q < n)%nat).
    { apply w_inside. rewrite <- H. now apply Hpos. }
    destruct (IH (p + 1)%nat (q + 1)%nat) as [H1|H1]; try lia.
    + left. apply suf_lt_step. right. now split.
    + right. apply suf_lt_step. right. now split.
  - right. apply suf_lt_step. now left.
Qed.

Lemma suf_lt_total (p q : nat) :
  p <> q -> (p < n \/ q < n)%nat -> suf_lt w p q \/ suf_lt w q p.
Proof. intros H1 H2. now apply (suf_lt_total_aux (n - Nat.min p q)). Qed.

Lemma suf_lt_end (p q : nat) : (n <= p)%nat -> (q < n)%nat -> suf_lt w p q.
Proof.
  intros Hp Hq. apply suf_lt_step. left. rewrite (Hzero p Hp). pose proof (Hpos q Hq). lia.
Qed.

Lemma suf_lt_not_end (p q : nat) : (n <= q)%nat -> ~ suf_lt w p q.
Proof.
  intros Hq (d & _ & H). rewrite (Hzero (q + d)%nat) in H by lia.
  pose proof (w_nonneg (p + d)%nat). lia.
Qed.

Lemma tri_eq_inside_lt (p q : nat) :
  (p < q)%nat -> (q <= n)%nat -> tri_eq w p q -> (q + 2 < n)%nat.
Proof.
  intros Hpq Hq (E0 & E1 & E2).
  destruct (Nat.lt_ge_cases (q + 2) n) as [H|H]; [exact H|exfalso].
  assert (Hc : (q = n \/ q + 1 = n \/ q + 2 = n)%nat) by lia.
  destruct Hc as [Hc | [Hc | Hc]].
  - pose proof (Hzero q ltac:(lia)). pose proof (Hpos p ltac:(lia)). lia.
  - pose proof (Hzero (q + 1)%nat ltac:(lia)). pose proof (Hpos (p + 1)%nat ltac:(lia)). lia.
  - pose proof (Hzero (q + 2)%nat ltac:(lia)). pose proof (Hpos (p + 2)%nat ltac:(lia)). lia.
Qed.

Lemma tri_eq_inside (p q : nat) :
  p <> q -> (p <= n)%nat -> (q <= n)%nat -> tri_eq w p q ->
  (p + 2 < n)%nat /\ (q + 2 < n)%nat.
Proof.
  intros Hne Hp Hq H.
  destruct (Nat.lt_ge_cases p q) as [Hl|Hl].
  - pose proof (tri_eq_inside_lt p q Hl Hq H). lia.
  - assert (H' : tri_eq w q p) by (unfold tri_eq in *; intuition congruence).
    pose proof (tri_eq_inside_lt q p ltac:(lia) Hp H'). lia.
Qed.

Lemma tri_lt_suf (p q : nat) : tri_lt w p q -> suf_lt w p q.
Proof. intros H. apply suf_lt_tri. now left. Qed.

End SufOrder.

(* ================================================================== *)
(** * Kaerkkaeinen-Sanders: positions and entries of the reduced text *)
(* ================================================================== *)

From Stdlib Require Import ZifyNat.

Ltac dm := unfold ks_pos, ks_idx in *;
  repeat (match goal with
  | |- context [(?a <? ?b)%nat] => destruct (Nat.ltb_spec a b)
  | |- context [(?a =? ?b)%nat] => destruct (Nat.eqb_spec a b)
  | H : context [(?a <? ?b)%nat] |- _ => destruct (Nat.ltb_spec a b)
  | H : context [(?a =? ?b)%nat] |- _ => destruct (Nat.eqb_spec a b)
  end; cbv iota in *);
  zify; Z.to_euclidean_division_equations; lia.

Section Positions.

Variable n : nat.
Let n0 := ((n + 2) / 3)%nat.
Let n1 := ((n + 1) / 3)%nat.
Let n2 := (n / 3)%nat.
Let n02 := (n0 + n2)%nat.

Lemma ks_idx_pos (a : nat) : ks_idx n0 (ks_pos n0 a) = a.
Proof. subst n0. dm. Qed.

Lemma ks_pos_idx (p : nat) :
  (p mod 3 <> 0)%nat -> (p <= n)%nat -> ks_pos n0 (ks_idx n0 p) = p.
Proof. subst n0. intros H1 H2. dm. Qed.

Lemma ks_pos_bound (a : nat) :
  (a < n02)%nat ->
  (ks_pos n0 a < n + n0 - n1)%nat /\ (ks_pos n0 a <= n)%nat /\ (ks_pos n0 a mod 3 <> 0)%nat.
Proof. subst n02 n0 n1 n2. intros H. repeat split; dm. Qed.

Lemma ks_idx_bound (p : nat) :
  (p mod 3 <> 0)%nat -> (p < n + n0 - n1)%nat -> (ks_idx n0 p < n02)%nat.
Proof. subst n02 n0 n1 n2. intros H1 H2. dm. Qed.

Lemma ks_pos_inj (a b : nat) : ks_pos n0 a = ks_pos n0 b -> a = b.
Proof. intros H. rewrite <- (ks_idx_pos a), <- (ks_idx_pos b). now rewrite H. Qed.

Lemma ks_pos_next (a : nat) :
  (ks_pos n0 a + 2 < n)%nat ->
  (a + 1 <= n02)%nat /\ ks_pos n0 (a + 1) = (ks_pos n0 a + 3)%nat.
Proof. subst n02 n0 n1 n2. intros H. split; dm. Qed.

Lemma ks_pos_last (a : nat) :
  (a = n02)%nat -> (ks_pos n0 a <= n)%nat -> ks_pos n0 a = n /\ (n + n0 - n1 = n)%nat.
Proof. subst n02 n0 n1 n2. intros H1 H2. split; dm. Qed.

Lemma ks_sizes : (2 <= n)%nat -> (1 <= n0 /\ n02 < n /\ n0 - n1 <= 1 /\ n1 <= n0 /\ 3 * n0 <= n + 2
   /\ n0 <= n2 + 1 /\ n2 <= n0 /\ n = n0 + n1 + n2 /\ n0 - n1 < n02)%nat.
Proof. subst n02 n0 n1 n2. intros H. repeat split; dm. Qed.

End Positions.

(* ================================================================== *)
(** * Kaerkkaeinen-Sanders: the reduced text orders the sampled suffixes *)
(* ================================================================== *)

Section Correspondence.

Variable w r : nat -> Z.
Variable n : nat.
Let n0 := ((n + 2) / 3)%nat.
Let n1 := ((n + 1) / 3)%nat.
Let n2 := (n / 3)%nat.
Let n02 := (n0 + n2)%nat.
Hypothesis Hpos : forall i, (i < n)%nat -> 1 <= w i.
Hypothesis Hzero : forall i, (n <= i)%nat -> w i = 0.
Hypothesis Hr0 : forall a, (n02 <= a)%nat -> r a = 0.
Hypothesis Hr1 : forall a, (a < n02)%nat -> 1 <= r a.
Hypothesis Hrlt :
  forall a b, (a < n02)%nat -> (b < n02)%nat ->
    (r a < r b <-> tri_lt w (ks_pos n0 a) (ks_pos n0 b)).

Let V (a : nat) : Prop := (a <= n02)%nat /\ (ks_pos n0 a <= n)%nat.

Lemma names_lt_ext (a b : nat) :
  V a -> V b -> (r a < r b <-> tri_lt w (ks_pos n0 a) (ks_pos n0 b)).
Proof.
  intros [Ha Hpa] [Hb Hpb].
  destruct (Nat.eq_dec a n02) as [Ea|Ea], (Nat.eq_dec b n02) as [Eb|Eb].
  - subst a b. unfold tri_lt. lia.
  - destruct (ks_pos_last n a Ea Hpa) as [E1 E2].
    destruct (ks_pos_bound n b ltac:(fold n0 n2 n02; lia)) as (H1 & _).
    fold n0 n1 in E1, E2, H1. rewrite E2 in H1.
    pose proof (Hr0 a ltac:(lia)). pose proof (Hr1 b ltac:(lia)).
    pose proof (Hzero _ (Nat.le_refl n)). pose proof (Hpos _ H1).
    rewrite E1. unfold tri_lt. lia.
  - destruct (ks_pos_last n b Eb Hpb) as [E1 E2].
    destruct (ks_pos_bound n a ltac:(fold n0 n2 n02; lia)) as (H1 & _).
    fold n0 n1 in E1, E2, H1. rewrite E2 in H1.
    pose proof (Hr0 b ltac:(lia)). pose proof (Hr1 a ltac:(lia)).
    pose proof (Hzero _ (Nat.le_refl n)). pose proof (Hpos _ H1).
    rewrite E1. unfold tri_lt. lia.
  - apply Hrlt; lia.
Qed.

Lemma names_eq_ext (a b : nat) :
  V a -> V b -> (r a = r b <-> tri_eq w (ks_pos n0 a) (ks_pos n0 b)).
Proof.
  intros Ha Hb.
  pose proof (names_lt_ext a b Ha Hb) as H1.
  pose proof (names_lt_ext b a Hb Ha) as H2.
  unfold tri_lt, tri_eq in *. lia.
Qed.

Lemma ks_corr_aux (f : nat) :
  forall a b, V a -> V b -> (n02 + 1 - a <= f)%nat ->
    (suf_lt r a b <-> suf_lt w (ks_pos n0 a) (ks_pos n0 b)).
Proof.
  induction f as [|f IH]; intros a b Ha Hb Hf; [destruct Ha; lia|].
  destruct (Nat.eq_dec a b) as [->|Hne].
  { split; intros H; now apply suf_lt_irrefl in H. }
  pose proof (names_lt_ext a b Ha Hb) as Hlt.
  pose proof (names_eq_ext a b Ha Hb) as Heq.
  rewrite (suf_lt_step r a b), (suf_lt_tri w (ks_pos n0 a) (ks_pos n0 b)).
  assert (Hnext : tri_eq w (ks_pos n0 a) (ks_pos n0 b) ->
            (suf_lt r (a + 1) (b + 1) <->
             suf_lt w (ks_pos n0 a + 3) (ks_pos n0 b + 3))).
  { intros Ht.
    assert (Hp : ks_pos n0 a <> ks_pos n0 b).
    { intros F. apply Hne. exact (ks_pos_inj n a b F). }
    destruct Ha as [Ha Hpa], Hb as [Hb Hpb].
    destruct (tri_eq_inside w n Hpos Hzero _ _ Hp Hpa Hpb Ht) as [Ia Ib].
    destruct (ks_pos_next n a Ia) as [Na Ea].
    destruct (ks_pos_next n b Ib) as [Nb Eb].
    fold n0 n2 n02 in Na, Ea, Nb, Eb.
    rewrite <- Ea, <- Eb. apply IH.
    - split; [exact Na|]. rewrite Ea. lia.
    - split; [exact Nb|]. rewrite Eb. lia.
    - lia. }
  tauto.
Qed.

Lemma ks_corr (a b : nat) :
  (a < n02)%nat -> (b < n02)%nat ->
  (suf_lt r a b <-> suf_lt w (ks_pos n0 a) (ks_pos n0 b)).
Proof.
  intros Ha Hb. apply (ks_corr_aux (n02 + 1 - a)).
  - split; [lia|]. apply (ks_pos_bound n a). fold n0 n2 n02. exact Ha.
  - split; [lia|]. apply (ks_pos_bound n b). fold n0 n2 n02. exact Hb.
  - lia.
Qed.

End Correspondence.

(* ================================================================== *)
(** * Kaerkkaeinen-Sanders: ranks of the sampled suffixes *)
(* ================================================================== *)

Section Ranks.

Variable w rk : nat -> Z.
Variable n : nat.
Variable sigma : list nat.
Let n0 := ((n + 2) / 3)%nat.
Let n1 := ((n + 1) / 3)%nat.
Let n2 := (n / 3)%nat.
Let n02 := (n0 + n2)%nat.
Hypothesis Hpos : forall i, (i < n)%nat -> 1 <= w i.
Hypothesis Hzero : forall i, (n <= i)%nat -> w i = 0.
Hypothesis Hperm : Permutation sigma (seq 0 n02).
Hypothesis Hsorted :
  StronglySorted (fun a b => suf_lt w (ks_pos n0 a) (ks_pos n0 b)) sigma.
Hypothesis Hrk : forall i, (i < n02)%nat -> rk (nth i sigma 0%nat) = Z.of_nat i + 1.
Hypothesis Hrk0 : forall a, (n02 <= a)%nat -> rk a = 0.

Lemma sigma_at (a : nat) : (a < n02)%nat -> exists i, (i < n02)%nat /\ nth i sigma 0%nat = a.
Proof.
  intros Ha.
  assert (Hin : In a sigma).
  { apply (Permutation_in _ (Permutation_sym Hperm)), in_seq. lia. }
  apply (In_nth _ _ 0%nat) in Hin as (i & Hi & E).
  rewrite (Permutation_length Hperm), length_seq in Hi. now exists i.
Qed.

Lemma rank_order (a b : nat) :
  (a <= n02)%nat -> (ks_pos n0 a <= n)%nat -> (b <= n02)%nat -> (ks_pos n0 b <= n)%nat ->
  a <> b ->
  (rk a <= rk b <-> suf_lt w (ks_pos n0 a) (ks_pos n0 b)).
Proof.
  intros Ha Hpa Hb Hpb Hne.
  assert (Hl : length sigma = n02) by (rewrite (Permutation_length Hperm); apply length_seq).
  destruct (Nat.eq_dec a n02) as [Ea|Ea], (Nat.eq_dec b n02) as [Eb|Eb].
  - lia.
  - destruct (ks_pos_last n a Ea Hpa) as [E1 E2].
    destruct (ks_pos_bound n b ltac:(fold n0 n2 n02; lia)) as (H1 & _).
    fold n0 n1 in E1, E2, H1. rewrite E2 in H1.
    destruct (sigma_at b ltac:(lia)) as (j & Hj & Ej).
    pose proof (Hrk j Hj) as Hr. rewrite Ej in Hr.
    rewrite (Hrk0 a) by lia. split; [intros _|lia].
    rewrite E1. apply (suf_lt_end w n Hpos Hzero); [lia|exact H1].
  - destruct (ks_pos_last n b Eb Hpb) as [E1 E2]. fold n0 n1 in E1, E2.
    destruct (sigma_at a ltac:(lia)) as (i & Hi & Ei).
    pose proof (Hrk i Hi) as Hr. rewrite Ei in Hr.
    rewrite (Hrk0 b) by lia. split; [lia|]. intros F. exfalso.
    rewrite E1 in F. revert F. apply (suf_lt_not_end w n Hpos Hzero). lia.
  - destruct (sigma_at a ltac:(lia)) as (i & Hi & Ei).
    destruct (sigma_at b ltac:(lia)) as (j & Hj & Ej).
    pose proof (Hrk i Hi) as Hri. pose proof (Hrk j Hj) as Hrj.
    rewrite Ei in Hri. rewrite Ej in Hrj. rewrite Hri, Hrj.
    assert (Hij : i <> j) by (intros F; subst j; congruence).
    split.
    + intros H. rewrite <- Ei, <- Ej.
      apply (StronglySorted_nth _ _ 0%nat Hsorted); lia.
    + intros H. destruct (Nat.lt_ge_cases i j) as [Hlt|Hge]; [lia|exfalso].
      assert (H' : suf_lt w (ks_pos n0 b) (ks_pos n0 a)).
      { rewrite <- Ei, <- Ej.
        apply (StronglySorted_nth _ _ 0%nat Hsorted); lia. }
      exact (suf_lt_asym w _ _ H H').
Qed.

(** From [t = n0 - n1] on, the sorted entries stand for suffixes of the
    text: the entry of the position [n], if there is one, comes first. *)
Lemma sigma_real (t : nat) :
  (n0 - n1 <= t)%nat -> (t < n02)%nat -> (ks_pos n0 (nth t sigma 0%nat) < n)%nat.
Proof.
  intros Ht Ht2.
  assert (Hl : length sigma = n02) by (rewrite (Permutation_length Hperm); apply length_seq).
  assert (Hin : (nth t sigma 0%nat < n02)%nat).
  { assert (H : In (nth t sigma 0%nat) sigma) by (apply nth_In; lia).
    apply (Permutation_in _ Hperm), in_seq in H. lia. }
  destruct (ks_pos_bound n _ Hin) as (H1 & H2 & _). fold n0 n1 in H1, H2.
  destruct (Nat.eq_dec (ks_pos n0 (nth t sigma 0%nat)) n) as [E|E]; [exfalso|lia].
  assert (H0 : (1 <= t)%nat) by lia.
  pose proof (StronglySorted_nth _ _ 0%nat Hsorted 0%nat t ltac:(lia) ltac:(lia)) as F.
  cbv beta in F. rewrite E in F. revert F.
  apply (suf_lt_not_end w n Hpos Hzero). lia.
Qed.

End Ranks.

(* ================================================================== *)
(** * Kaerkkaeinen-Sanders: the loops that fill an array *)
(* ================================================================== *)

Lemma update_app_len {A : Type} (pre : list A) (x v : A) (rest : list A) :
  Py.update (length pre) v (pre ++ x :: rest) = pre ++ v :: rest.
Proof. induction pre as [|y pre IH]; cbn; congruence. Qed.

Lemma setitem_app {A : Type} (pre : list A) (x v : A) (rest : list A) :
  Py.setitem (pre ++ x :: rest) (Z.of_nat (length pre)) v = Ok (pre ++ v :: rest).
Proof.
  rewrite setitem_nat by (rewrite length_app; cbn; lia). now rewrite update_app_len.
Qed.

Lemma skipn_cons_nth {A : Type} (L : list A) (a : nat) (d : A) :
  (a < length L)%nat -> skipn a L = nth a L d :: skipn (S a) L.
Proof.
  revert a. induction L as [|y L IH]; intros [|a] H; cbn in *; try lia; auto.
  apply IH. lia.
Qed.

(** A loop that appends to the filled part of an array the images of the
    items that pass a test. *)
Lemma filter_loop (f : Z -> bool) (g : Z -> Z) (l : list Z) :
  forall pre rest, (length (filter f l) <= length rest)%nat ->
  Py.for_each l (pre ++ rest, Z.of_nat (length pre))
    (fun i sj =>
       if f i then s' <- Py.setitem (fst sj) (snd sj) (g i) ;; Ok (s', snd sj + 1)
       else Ok sj)
  = Ok (pre ++ map g (filter f l) ++ skipn (length (filter f l)) rest,
        Z.of_nat (length pre + length (filter f l))).
Proof.
  induction l as [|x l IH]; intros pre rest H.
  - cbn. now rewrite Nat.add_0_r.
  - cbn [Py.for_each filter]. cbn [filter] in H. cbv beta. destruct (f x) eqn:E.
    + cbn [length] in H. destruct rest as [|r0 rest]; [cbn in H; lia|].
      cbn [fst snd]. rewrite setitem_app. cbn [bind].
      replace (Z.of_nat (length pre) + 1) with (Z.of_nat (length (pre ++ [g x])))
        by (rewrite length_app; cbn; lia).
      replace (pre ++ g x :: rest) with ((pre ++ [g x]) ++ rest)
        by (now rewrite <- app_assoc).
      rewrite IH by (cbn in H; lia).
      f_equal. f_equal.
      * rewrite <- app_assoc. reflexivity.
      * rewrite length_app. cbn. lia.
    + cbn [bind]. apply IH. exact H.
Qed.

(** Reading a list by index in a loop is iterating over the list. *)
Lemma for_each_range_get {A S : Type} (L : list A) (F : A -> S -> outcome S) (m : nat) :
  forall (a : nat) (s0 : S),
  (a + m <= length L)%nat ->
  Py.for_each (map Z.of_nat (seq a m)) s0 (fun i s => x <- Py.getitem L i ;; F x s)
  = Py.for_each (firstn m (skipn a L)) s0 F.
Proof.
  induction m as [|m IH]; intros a s0 H; [reflexivity|].
  destruct (nth_error L a) as [x|] eqn:E;
    [|apply nth_error_None in E; lia].
  rewrite (skipn_cons_nth L a x) by lia.
  cbn [seq map firstn Py.for_each]. rewrite (getitem_nat L a x) by lia.
  cbn [bind]. destruct (F (nth a L x) s0); cbn [bind]; try reflexivity.
  apply IH. lia.
Qed.

(** A loop that writes one entry per turn, at places that differ. *)
Lemma scatter_loop (m : nat) (idxf : nat -> nat) (val : nat -> Z) (arr : list Z)
  (body : Z -> list Z -> outcome (list Z)) :
  (forall i, (i < m)%nat -> (idxf i < length arr)%nat) ->
  (forall i j, (i < m)%nat -> (j < m)%nat -> idxf i = idxf j -> i = j) ->
  (forall i arr', (i < m)%nat -> length arr' = length arr ->
     body (Z.of_nat i) arr' = Ok (Py.update (idxf i) (val i) arr')) ->
  exists arr',
    Py.for_each (Py.range 0 (Z.of_nat m)) arr body = Ok arr' /\
    length arr' = length arr /\
    (forall i, (i < m)%nat -> nth (idxf i) arr' 0 = val i) /\
    (forall a, (forall i, (i < m)%nat -> idxf i <> a) -> nth a arr' 0 = nth a arr 0).
Proof.
  intros Hb Hinj Hbody.
  destruct (for_each_ind
    (fun k (arr' : list Z) =>
       length arr' = length arr /\
       (forall i, (i < k)%nat -> (i < m)%nat -> nth (idxf i) arr' 0 = val i) /\
       (forall a, (forall i, (i < k)%nat -> (i < m)%nat -> idxf i <> a) ->
                  nth a arr' 0 = nth a arr 0))
    (Py.range 0 (Z.of_nat m)) arr body) as (arr' & E & Hl & Hv & Ho).
  - split; [reflexivity|]. split; [intros i Hi; lia|]. intros a _. reflexivity.
  - intros k x arr' Hx (Hl & Hv & Ho).
    apply range_nth_error_inv in Hx as [-> Hk]. cbn [Z.add].
    assert (Hkm : (k < m)%nat) by lia.
    rewrite (Hbody k arr' Hkm Hl). eexists. split; [reflexivity|].
    split; [now rewrite update_length|]. split.
    + intros i Hi Him. destruct (Nat.eq_dec i k) as [->|Hne].
      * apply nth_update_same. rewrite Hl. now apply Hb.
      * rewrite nth_update_other; [apply Hv; lia|].
        intros F. apply Hne. now apply Hinj.
    + intros a Ha. rewrite nth_update_other; [apply Ho; intros i Hi; apply Ha; lia|].
      intros F. apply (Ha k); auto.
  - rewrite range_length in *. exists arr'. split; [exact E|]. split; [exact Hl|]. split.
    + intros i Hi. apply Hv; lia.
    + intros a Ha. apply Ho. intros i _ Hi. now apply Ha.
Qed.

(** A loop that copies a stretch of a list to the end of the filled part
    of an array. *)
Lemma copy_loop (src : list Z) (F : Z -> Z) (cnt : nat) :
  forall (lo : nat) (pre rest : list Z),
  (lo + cnt <= length src)%nat -> (cnt <= length rest)%nat ->
  Py.for_each (Py.range (Z.of_nat lo) (Z.of_nat (lo + cnt)))
    (Z.of_nat (length pre), pre ++ rest)
    (fun p ks =>
       v <- Py.getitem src p ;;
       sa <- Py.setitem (snd ks) (fst ks) (F v) ;;
       Ok (fst ks + 1, sa))
  = Ok (Z.of_nat (length pre + cnt),
        pre ++ map F (firstn cnt (skipn lo src)) ++ skipn cnt rest).
Proof.
  induction cnt as [|cnt IH]; intros lo pre rest H1 H2.
  - rewrite Nat.add_0_r, range_nil by lia. cbn. now rewrite Nat.add_0_r.
  - rewrite range_cons by lia. cbn [Py.for_each]. cbv beta.
    rewrite (getitem_nat src lo 0) by lia. cbn [bind fst snd].
    destruct rest as [|r0 rest]; [cbn in H2; lia|].
    rewrite setitem_app. cbn [bind].
    replace (Z.of_nat (length pre) + 1) with (Z.of_nat (length (pre ++ [F (nth lo src 0)])))
      by (rewrite length_app; cbn; lia).
    replace (pre ++ F (nth lo src 0) :: rest) with ((pre ++ [F (nth lo src 0)]) ++ rest)
      by (now rewrite <- app_assoc).
    replace (Z.of_nat lo + 1) with (Z.of_nat (S lo)) by lia.
    replace (Z.of_nat (lo + S cnt)) with (Z.of_nat (S lo + cnt)) by lia.
    rewrite IH by (cbn in *; lia).
    rewrite (skipn_cons_nth src lo 0) by lia.
    f_equal. f_equal.
    + rewrite length_app. cbn. lia.
    + rewrite <- app_assoc. reflexivity.
Qed.

(** One pass of the radix sort on a list of positions: the result lists
    the same positions by key, and keeps the order of the positions that
    have the same key. *)
Lemma radix_step (al : list nat) (pad r : list Z) (len_k : Z) (key : nat -> Z)
  (R' : nat -> nat -> Prop) :
  0 <= len_k ->
  (forall p, In p al -> (p < length r)%nat /\ nth p r 0 = key p /\ 0 <= key p <= len_k) ->
  StronglySorted R' al ->
  exists bl,
    KS.radix_pass (map Z.of_nat al ++ pad) r (Z.of_nat (length al)) len_k
    = Ok (map Z.of_nat bl) /\
    Permutation bl al /\
    StronglySorted (fun u v => key u < key v \/ (key u = key v /\ R' u v)) bl.
Proof.
  intros Hk Hal Hs.
  set (a := map Z.of_nat al ++ pad).
  assert (Hnth : forall i, (i < length al)%nat -> nth i a 0 = Z.of_nat (nth i al 0%nat)).
  { intros i Hi. unfold a. rewrite app_nth1 by (now rewrite length_map).
    change 0 with (Z.of_nat 0%nat). apply map_nth. }
  assert (Hin : forall i, (i < length al)%nat -> In (nth i al 0%nat) al)
    by (intros i Hi; now apply nth_In).
  destruct (radix_pass_spec a r (length al) len_k) as (sigma & E & Hp & Hsig).
  - unfold a. rewrite length_app, length_map. lia.
  - exact Hk.
  - intros i Hi. rewrite (Hnth i Hi). destruct (Hal _ (Hin i Hi)) as (H1 & _).
    unfold Py.len. lia.
  - intros i Hi. rewrite (Hnth i Hi), Nat2Z.id.
    destruct (Hal _ (Hin i Hi)) as (_ & H1 & H2). now rewrite H1.
  - assert (Hlt : forall i, In i sigma -> (i < length al)%nat).
    { intros i Hi. apply (Permutation_in _ Hp), in_seq in Hi. lia. }
    exists (map (fun i => nth i al 0%nat) sigma). split; [|split].
    + rewrite E. rewrite map_map. f_equal. apply map_ext_in.
      intros i Hi. apply Hnth. now apply Hlt.
    + apply Permutation_trans with (map (fun i => nth i al 0%nat) (seq 0 (length al)));
        [now apply Permutation_map|]. now rewrite nth_seq_map.
    + apply StronglySorted_map. revert Hsig. apply StronglySorted_weaken.
      * apply (Permutation_NoDup (Permutation_sym Hp)), seq_NoDup.
      * intros i j Hi Hj Hne H. apply Hlt in Hi, Hj.
        destruct (Hal _ (Hin i Hi)) as (_ & Hki & Hbi).
        destruct (Hal _ (Hin j Hj)) as (_ & Hkj & Hbj).
        unfold stable_lt in H. rewrite (Hnth i Hi), (Hnth j Hj), !Nat2Z.id in H.
        rewrite Hki, Hkj in H.
        destruct H as [H | [H1 H2]]; [left; lia|right].
        split; [lia|]. apply (StronglySorted_nth _ _ 0%nat Hs); lia.
Qed.

(* ================================================================== *)
(** * Kaerkkaeinen-Sanders: sampling and sorting the triples *)
(* ================================================================== *)

Lemma StronglySorted_any {A : Type} (l : list A) : StronglySorted (fun _ _ => True) l.
Proof.
  induction l as [|x l IH]; constructor; [exact IH|]. apply Forall_forall. auto.
Qed.

Lemma quot3_nat (m : nat) : Z.quot (Z.of_nat m) 3 = Z.of_nat (m / 3).
Proof. rewrite Z.quot_div_nonneg by lia. zify. Z.to_euclidean_division_equations. lia. Qed.

Lemma mod3_nat (m : nat) : Z.of_nat m mod 3 = Z.of_nat (m mod 3).
Proof. zify. Z.to_euclidean_division_equations. lia. Qed.

Lemma get_i_nat (n0 x : nat) :
  KS.get_i (Z.of_nat n0) (Z.of_nat x) = Z.of_nat (ks_pos n0 x).
Proof.
  unfold KS.get_i, ks_pos.
  destruct (Z.ltb_spec (Z.of_nat x) (Z.of_nat n0)), (Nat.ltb_spec x n0); lia.
Qed.

Lemma setitem_idx (n0 p : nat) (l : list Z) (v : Z) :
  (if Z.of_nat p mod 3 =? 1 then Py.setitem l (Z.quot (Z.of_nat p) 3) v
   else Py.setitem l (Z.quot (Z.of_nat p) 3 + Z.of_nat n0) v)
  = Py.setitem l (Z.of_nat (ks_idx n0 p)) v.
Proof.
  unfold ks_idx. rewrite quot3_nat, mod3_nat.
  destruct (Z.eqb_spec (Z.of_nat (p mod 3)) 1), (Nat.eqb_spec (p mod 3) 1);
    try lia; [reflexivity|]. f_equal. lia.
Qed.

Section KSBody.

Variable s : list Z.
Variable n : nat.
Variable k : Z.
Hypothesis Hn : (2 <= n)%nat.
Hypothesis Hs : ks_text s n k.

Let w := zstr s.
Let n0 := ((n + 2) / 3)%nat.
Let n1 := ((n + 1) / 3)%nat.
Let n2 := (n / 3)%nat.
Let n02 := (n0 + n2)%nat.

Lemma ks_len : length s = (n + 3)%nat.
Proof. apply Hs. Qed.

Lemma ks_pos_w (i : nat) : (i < n)%nat -> 1 <= w i <= k.
Proof. intros H. now apply Hs. Qed.

Lemma ks_pos_w1 (i : nat) : (i < n)%nat -> 1 <= w i.
Proof. intros H. now apply ks_pos_w. Qed.

Lemma ks_zero_w (i : nat) : (n <= i)%nat -> w i = 0.
Proof. intros H. now apply Hs. Qed.

Lemma ks_k : 1 <= k.
Proof. pose proof (ks_pos_w 0%nat ltac:(lia)). lia. Qed.

Lemma ks_w_range (i : nat) : 0 <= w i <= k.
Proof.
  pose proof ks_k. destruct (Nat.lt_ge_cases i n) as [H1|H1].
  - pose proof (ks_pos_w i H1). lia.
  - rewrite (ks_zero_w i H1). lia.
Qed.

Lemma ks_getitem (i : nat) : (i < n + 3)%nat -> Py.getitem s (Z.of_nat i) = Ok (w i).
Proof. intros H. apply getitem_nat. now rewrite ks_len. Qed.

(** The positions that are no multiple of 3, in increasing order. *)
Let P := filter (fun i => negb (i mod 3 =? 0)%nat) (seq 0 (n + n0 - n1)).

Lemma ks_sample_in (p : nat) : In p P <-> (p < n + n0 - n1)%nat /\ (p mod 3 <> 0)%nat.
Proof.
  unfold P. rewrite filter_In, in_seq, negb_true_iff, Nat.eqb_neq. intuition lia.
Qed.

Lemma ks_sample_le (p : nat) : In p P -> (p <= n)%nat /\ (p mod 3 <> 0)%nat.
Proof.
  intros H. apply ks_sample_in in H as [H1 H2]. split; [|exact H2].
  pose proof (ks_sizes n Hn). fold n0 n1 n2 n02 in H. lia.
Qed.

Lemma ks_sample_nodup : NoDup P.
Proof. apply NoDup_filter, seq_NoDup. Qed.

Lemma ks_sample_perm : Permutation P (map (ks_pos n0) (seq 0 n02)).
Proof.
  apply NoDup_Permutation.
  - exact ks_sample_nodup.
  - apply NoDup_map_inj; [|apply seq_NoDup]. intros a b _ _. apply (ks_pos_inj n).
  - intros p. rewrite ks_sample_in, in_map_iff. split.
    + intros [H1 H2]. exists (ks_idx n0 p). split.
      * apply (ks_pos_idx n); [exact H2|].
        pose proof (ks_sizes n Hn) as Hz. fold n0 n1 n2 n02 in Hz. lia.
      * apply in_seq. pose proof (ks_idx_bound n p H2 H1) as Hb.
        fold n0 n2 n02 in Hb. lia.
    + intros (a & <- & Ha). apply in_seq in Ha.
      destruct (ks_pos_bound n a) as (H1 & _ & H2); [fold n0 n2 n02; lia|].
      split; [exact H1|exact H2].
Qed.

Lemma ks_sample_length : length P = n02.
Proof. now rewrite (Permutation_length ks_sample_perm), length_map, length_seq. Qed.

Lemma ks_init_s12 :
  Py.for_each (Py.range 0 (Z.of_nat n + Z.of_nat n0 - Z.of_nat n1))
    (Py.replicate 0 (Z.of_nat n02 + 3), 0)
    (fun i sj =>
       if negb (i mod 3 =? 0) then
         s12 <- Py.setitem (fst sj) (snd sj) i ;; Ok (s12, snd sj + 1)
       else Ok sj)
  = Ok (map Z.of_nat P ++ [0; 0; 0], Z.of_nat n02).
Proof.
  pose proof (ks_sizes n Hn) as Hz. fold n0 n1 n2 n02 in Hz.
  replace (Z.of_nat n + Z.of_nat n0 - Z.of_nat n1) with (Z.of_nat (n + n0 - n1)) by lia.
  rewrite range_0_seq.
  assert (Ef : filter (fun i => negb (i mod 3 =? 0)) (map Z.of_nat (seq 0 (n + n0 - n1)))
               = map Z.of_nat P).
  { rewrite filter_map_swap. unfold P. f_equal. apply filter_ext. intros a.
    rewrite mod3_nat. f_equal.
    destruct (Z.eqb_spec (Z.of_nat (a mod 3)) 0), (Nat.eqb_spec (a mod 3) 0); lia. }
  pose proof (filter_loop (fun i => negb (i mod 3 =? 0)) (fun i => i)
                (map Z.of_nat (seq 0 (n + n0 - n1))) []
                (Py.replicate 0 (Z.of_nat n02 + 3))) as H.
  cbn [app length Z.of_nat Nat.add] in H. rewrite H; clear H.
  - rewrite Ef, map_id, length_map, ks_sample_length. f_equal. f_equal. f_equal.
    unfold Py.replicate.
    replace (Z.to_nat (Z.of_nat n02 + 3)) with (n02 + 3)%nat by lia.
    rewrite repeat_app, skipn_app, repeat_length, Nat.sub_diag.
    rewrite skipn_all2 by (rewrite repeat_length; lia). reflexivity.
  - rewrite Ef, length_map, ks_sample_length. unfold Py.replicate.
    rewrite repeat_length. lia.
Qed.

Lemma ks_sort_triples :
  exists L1 L2 L3,
    KS.radix_pass (map Z.of_nat P ++ [0; 0; 0]) (skipn 2 s) (Z.of_nat n02) k
    = Ok (map Z.of_nat L1) /\
    KS.radix_pass (map Z.of_nat L1 ++ [0; 0; 0]) (skipn 1 s) (Z.of_nat n02) k
    = Ok (map Z.of_nat L2) /\
    KS.radix_pass (map Z.of_nat L2 ++ [0; 0; 0]) s (Z.of_nat n02) k
    = Ok (map Z.of_nat L3) /\
    length L2 = n02 /\
    Permutation L3 (map (ks_pos n0) (seq 0 n02)) /\
    StronglySorted (fun u v => tri_lt w u v \/ tri_eq w u v) L3.
Proof.
  pose proof ks_k as Hk. pose proof ks_len as Hl.
  destruct (radix_step P [0; 0; 0] (skipn 2 s) k (fun p => w (p + 2)%nat)
              (fun _ _ => True)) as (L1 & E1 & Hp1 & Hs1).
  { lia. }
  { intros p Hp. apply ks_sample_le in Hp as [Hp _].
    rewrite length_skipn, nth_skipn, Hl. split; [lia|]. split.
    - unfold w, zstr. f_equal. lia.
    - apply ks_w_range. }
  { apply StronglySorted_any. }
  destruct (radix_step L1 [0; 0; 0] (skipn 1 s) k (fun p => w (p + 1)%nat)
              (fun u v => w (u + 2)%nat < w (v + 2)%nat \/
                          (w (u + 2)%nat = w (v + 2)%nat /\ True)))
    as (L2 & E2 & Hp2 & Hs2).
  { lia. }
  { intros p Hp. apply (Permutation_in _ Hp1), ks_sample_le in Hp as [Hp _].
    rewrite length_skipn, nth_skipn, Hl. split; [lia|]. split.
    - unfold w, zstr. f_equal. lia.
    - apply ks_w_range. }
  { exact Hs1. }
  destruct (radix_step L2 [0; 0; 0] s k (fun p => w p)
              (fun u v => w (u + 1)%nat < w (v + 1)%nat \/
                 (w (u + 1)%nat = w (v + 1)%nat /\
                  (w (u + 2)%nat < w (v + 2)%nat \/
                   (w (u + 2)%nat = w (v + 2)%nat /\ True)))))
    as (L3 & E3 & Hp3 & Hs3).
  { lia. }
  { intros p Hp.
    apply (Permutation_in _ Hp2), (Permutation_in _ Hp1), ks_sample_le in Hp as [Hp _].
    rewrite Hl. split; [lia|]. split; [reflexivity|apply ks_w_range]. }
  { exact Hs2. }
  assert (Hl1 : length L1 = n02) by (rewrite (Permutation_length Hp1); apply ks_sample_length).
  assert (Hl2 : length L2 = n02) by (rewrite (Permutation_length Hp2); exact Hl1).
  rewrite ks_sample_length in E1. rewrite Hl1 in E2. rewrite Hl2 in E3.
  exists L1, L2, L3. repeat split; auto.
  - transitivity L2; [exact Hp3|]. transitivity L1; [exact Hp2|].
    transitivity P; [exact Hp1|exact ks_sample_perm].
  - revert Hs3. apply StronglySorted_weaken.
    + apply (Permutation_NoDup (l := P)); [|exact ks_sample_nodup].
      symmetry. transitivity L2; [exact Hp3|]. transitivity L1; [exact Hp2|exact Hp1].
    + intros a b _ _ _ H. unfold tri_lt, tri_eq. lia.
Qed.

End KSBody.

(* ================================================================== *)
(** * Kaerkkaeinen-Sanders: naming the triples *)
(* ================================================================== *)

Lemma name_at_gap {A : Type} (same : A -> A -> bool) (l : list A) (d : A) (i j : nat) :
  (i <= j)%nat -> (name_at same l d j <= name_at same l d i + (j - i))%nat.
Proof.
  induction 1 as [|j Hle IH]; [lia|]. rewrite name_at_S.
  destruct (same _ _); lia.
Qed.

Section KSNaming.

Variable s : list Z.
Variable n : nat.
Variable k : Z.
Hypothesis Hn : (2 <= n)%nat.
Hypothesis Hs : ks_text s n k.
Variable L3 : list nat.

Let w := zstr s.
Let n0 := ((n + 2) / 3)%nat.
Let n1 := ((n + 1) / 3)%nat.
Let n2 := (n / 3)%nat.
Let n02 := (n0 + n2)%nat.

Hypothesis HpL : Permutation L3 (map (ks_pos n0) (seq 0 n02)).
Hypothesis HsL : StronglySorted (fun u v => tri_lt w u v \/ tri_eq w u v) L3.

Lemma L3_length : length L3 = n02.
Proof. now rewrite (Permutation_length HpL), length_map, length_seq. Qed.

Lemma L3_nodup : NoDup L3.
Proof.
  apply (Permutation_NoDup (Permutation_sym HpL)).
  apply NoDup_map_inj; [|apply seq_NoDup]. intros a b _ _. apply (ks_pos_inj n).
Qed.

Lemma L3_entry (i : nat) :
  (i < n02)%nat ->
  (nth i L3 0%nat <= n)%nat /\ (ks_idx n0 (nth i L3 0%nat) < n02)%nat /\
  ks_pos n0 (ks_idx n0 (nth i L3 0%nat)) = nth i L3 0%nat.
Proof.
  intros Hi.
  assert (Hin : In (nth i L3 0%nat) L3) by (apply nth_In; now rewrite L3_length).
  apply (Permutation_in _ HpL), in_map_iff in Hin as (a & E & Ha).
  apply in_seq in Ha. rewrite <- E.
  destruct (ks_pos_bound n a) as (_ & H2 & _); [fold n0 n2 n02; lia|].
  fold n0 in H2. pose proof (ks_idx_pos n a) as Hip. fold n0 in Hip. rewrite Hip.
  repeat split; [exact H2|lia].
Qed.

Lemma L3_idx_inj (i j : nat) :
  (i < n02)%nat -> (j < n02)%nat ->
  ks_idx n0 (nth i L3 0%nat) = ks_idx n0 (nth j L3 0%nat) -> i = j.
Proof.
  intros Hi Hj E.
  destruct (L3_entry i Hi) as (_ & _ & Ei). destruct (L3_entry j Hj) as (_ & _ & Ej).
  rewrite E, Ej in Ei.
  apply (proj1 (NoDup_nth L3 0%nat) L3_nodup); rewrite ?L3_length; auto.
Qed.

Lemma L3_at (a : nat) :
  (a < n02)%nat -> exists i, (i < n02)%nat /\ nth i L3 0%nat = ks_pos n0 a.
Proof.
  intros Ha.
  assert (Hin : In (ks_pos n0 a) L3).
  { apply (Permutation_in _ (Permutation_sym HpL)), in_map, in_seq. lia. }
  apply (In_nth _ _ 0%nat) in Hin as (i & Hi & E). rewrite L3_length in Hi. now exists i.
Qed.

Lemma ks_naming (X : list Z) :
  length X = (n02 + 3)%nat -> (forall a, (n02 <= a)%nat -> nth a X 0 = 0) ->
  exists st,
    KS.naming s (map Z.of_nat L3 ++ [0; 0; 0]) X (Z.of_nat n0) (Z.of_nat n02) = Ok st /\
    length (KS.ns_s12 st) = (n02 + 3)%nat /\
    (forall a, (n02 <= a)%nat -> nth a (KS.ns_s12 st) 0 = 0) /\
    (forall i, (i < n02)%nat ->
       nth (ks_idx n0 (nth i L3 0%nat)) (KS.ns_s12 st) 0
       = Z.of_nat (name_at (tri_same w) L3 0%nat i) + 1) /\
    KS.ns_name st = Z.of_nat (name_at (tri_same w) L3 0%nat (n02 - 1)) + 1.
Proof.
  intros HlX HzX.
  pose proof (ks_sizes n Hn) as Hz. fold n0 n1 n2 n02 in Hz.
  set (I := fun (i : nat) (st : KS.naming_state) =>
    length (KS.ns_s12 st) = (n02 + 3)%nat /\
    (forall a, (n02 <= a)%nat -> nth a (KS.ns_s12 st) 0 = 0) /\
    (forall x, (x < i)%nat -> (x < n02)%nat ->
       nth (ks_idx n0 (nth x L3 0%nat)) (KS.ns_s12 st) 0
       = Z.of_nat (name_at (tri_same w) L3 0%nat x) + 1) /\
    match i with
    | O => KS.ns_name st = 0 /\ KS.ns_c0 st = -1 /\ KS.ns_c1 st = -1 /\ KS.ns_c2 st = -1
    | S i' =>
        KS.ns_name st = Z.of_nat (name_at (tri_same w) L3 0%nat i') + 1 /\
        KS.ns_c0 st = w (nth i' L3 0%nat) /\
        KS.ns_c1 st = w (nth i' L3 0%nat + 1)%nat /\
        KS.ns_c2 st = w (nth i' L3 0%nat + 2)%nat
    end).
  unfold KS.naming.
  match goal with
  | |- exists st, Py.for_each ?l ?s0 ?body = Ok st /\ _ =>
      destruct (for_each_ind I l s0 body) as (st & E & HI)
  end.
  - unfold I. cbn [KS.ns_s12 KS.ns_name KS.ns_c0 KS.ns_c1 KS.ns_c2].
    repeat split; auto. intros x Hx; lia.
  - intros i x st Hx (Hl & Hz0 & Hw & Hm).
    apply range_nth_error_inv in Hx as [-> Hi]. cbn [Z.add].
    assert (Hi' : (i < n02)%nat) by lia.
    destruct (L3_entry i Hi') as (Hp & Hidx & _).
    set (p := nth i L3 0%nat) in *.
    assert (Eg : Py.getitem (map Z.of_nat L3 ++ [0; 0; 0]) (Z.of_nat i) = Ok (Z.of_nat p)).
    { rewrite (getitem_nat _ i 0) by (rewrite length_app, length_map, L3_length; lia).
      rewrite app_nth1 by (rewrite length_map, L3_length; lia).
      change 0 with (Z.of_nat 0%nat) at 1. now rewrite map_nth. }
    destruct st as [nm c0 c1 c2 arr].
    cbn [KS.ns_s12 KS.ns_name KS.ns_c0 KS.ns_c1 KS.ns_c2] in *.
    cbv beta. rewrite Eg. cbn [bind].
    rewrite (ks_getitem s n k Hs p) by lia. cbn [bind].
    replace (Z.of_nat p + 1) with (Z.of_nat (p + 1)) by lia.
    rewrite (ks_getitem s n k Hs (p + 1)) by lia. cbn [bind].
    replace (Z.of_nat p + 2) with (Z.of_nat (p + 2)) by lia.
    rewrite (ks_getitem s n k Hs (p + 2)) by lia. cbn [bind].
    cbv zeta. cbn [KS.ns_s12 KS.ns_name KS.ns_c0 KS.ns_c1 KS.ns_c2].
    fold w.
    set (fresh := negb (w p =? c0) || negb (w (p + 1)%nat =? c1)
                  || negb (w (p + 2)%nat =? c2)).
    assert (Hfresh :
      (if fresh then KS.NS (nm + 1) (w p) (w (p + 1)%nat) (w (p + 2)%nat) arr
       else KS.NS nm c0 c1 c2 arr)
      = KS.NS (Z.of_nat (name_at (tri_same w) L3 0%nat i) + 1)
              (w p) (w (p + 1)%nat) (w (p + 2)%nat) arr).
    { destruct i as [|i'].
      - destruct Hm as (-> & -> & -> & ->).
        assert (Ef : fresh = true).
        { unfold fresh. pose proof (ks_w_range s n k Hn Hs p) as Hr. fold w in Hr.
          destruct (Z.eqb_spec (w p) (-1)); [lia|reflexivity]. }
        rewrite Ef. reflexivity.
      - destruct Hm as (-> & -> & -> & ->).
        rewrite (name_at_S _ (tri_same w) L3 0%nat i'). fold p.
        assert (Ef : fresh = negb (tri_same w (nth i' L3 0%nat) p)).
        { unfold fresh, tri_same. rewrite !negb_andb.
          rewrite (Z.eqb_sym (w p)), (Z.eqb_sym (w (p + 1)%nat)),
            (Z.eqb_sym (w (p + 2)%nat)). reflexivity. }
        rewrite Ef. destruct (tri_same w (nth i' L3 0%nat) p) eqn:Et; cbn [negb].
        + apply tri_same_eq in Et. destruct Et as (e0 & e1 & e2).
          rewrite e0, e1, e2. f_equal. lia.
        + f_equal. lia. }
    rewrite Hfresh. cbn [KS.ns_s12 KS.ns_name KS.ns_c0 KS.ns_c1 KS.ns_c2].
    rewrite setitem_idx. rewrite setitem_nat by lia. cbn [bind].
    eexists. split; [reflexivity|]. unfold I.
    cbn [KS.ns_s12 KS.ns_name KS.ns_c0 KS.ns_c1 KS.ns_c2].
    split; [now rewrite update_length|]. split; [|split].
    + intros a Ha. rewrite nth_update_other by lia. now apply Hz0.
    + intros x Hx Hxn. destruct (Nat.eq_dec x i) as [->|Hne].
      * fold p. apply nth_update_same. lia.
      * rewrite nth_update_other; [apply Hw; lia|].
        intros F. apply Hne. now apply L3_idx_inj.
    + repeat split; reflexivity.
  - rewrite range_length in HI. rewrite Z.sub_0_r, Nat2Z.id in HI.
    destruct HI as (Hl & Hz0 & Hw & Hm).
    exists st. split; [exact E|]. split; [exact Hl|]. split; [exact Hz0|]. split.
    + intros i Hi. apply Hw; lia.
    + destruct n02 as [|m] eqn:En; [lia|]. destruct Hm as (Hm & _).
      rewrite Hm. now replace (S m - 1)%nat with m by lia.
Qed.

(** The names are in the order of the triples. *)
Variable R : list Z.
Variable name : Z.
Hypothesis HRl : length R = (n02 + 3)%nat.
Hypothesis HR0 : forall a, (n02 <= a)%nat -> nth a R 0 = 0.
Hypothesis HRn :
  forall i, (i < n02)%nat ->
    nth (ks_idx n0 (nth i L3 0%nat)) R 0 = Z.of_nat (name_at (tri_same w) L3 0%nat i) + 1.
Hypothesis Hname : name = Z.of_nat (name_at (tri_same w) L3 0%nat (n02 - 1)) + 1.

Let r := zstr R.

Lemma L3_sorted (i j : nat) :
  (i <= j)%nat -> (j < length L3)%nat ->
  tri_lt w (nth i L3 0%nat) (nth j L3 0%nat) \/ tri_eq w (nth i L3 0%nat) (nth j L3 0%nat).
Proof.
  intros Hij Hj. destruct (Nat.eq_dec i j) as [->|Hne].
  - right. unfold tri_eq. auto.
  - apply (StronglySorted_nth _ _ 0%nat HsL); lia.
Qed.

Lemma L3_same (x : nat) :
  (S x < length L3)%nat ->
  (tri_same w (nth x L3 0%nat) (nth (S x) L3 0%nat) = true <->
   (tri_lt w (nth (S x) L3 0%nat) (nth x L3 0%nat) \/
    tri_eq w (nth (S x) L3 0%nat) (nth x L3 0%nat))).
Proof.
  intros Hx. rewrite tri_same_eq.
  pose proof (L3_sorted x (S x) ltac:(lia) Hx) as H.
  unfold tri_lt, tri_eq in *. lia.
Qed.

Lemma ks_name_of (a : nat) :
  (a < n02)%nat ->
  exists i, (i < n02)%nat /\ nth i L3 0%nat = ks_pos n0 a /\
            r a = Z.of_nat (name_at (tri_same w) L3 0%nat i) + 1.
Proof.
  intros Ha. destruct (L3_at a Ha) as (i & Hi & E). exists i. split; [exact Hi|].
  split; [exact E|]. pose proof (HRn i Hi) as H.
  pose proof (ks_idx_pos n a) as Hip. fold n0 in Hip. rewrite E, Hip in H. exact H.
Qed.

Lemma ks_names_range (a : nat) : (a < n02)%nat -> 1 <= r a <= name.
Proof.
  intros Ha. destruct (ks_name_of a Ha) as (i & Hi & _ & E). rewrite E, Hname.
  pose proof (name_at_mono _ (tri_same w) L3 0%nat i (n02 - 1) ltac:(lia)). lia.
Qed.

Lemma ks_names_lt (a b : nat) :
  (a < n02)%nat -> (b < n02)%nat ->
  (r a < r b <-> tri_lt w (ks_pos n0 a) (ks_pos n0 b)).
Proof.
  intros Ha Hb.
  destruct (ks_name_of a Ha) as (i & Hi & Ei & Ea).
  destruct (ks_name_of b Hb) as (j & Hj & Ej & Eb).
  rewrite Ea, Eb, <- Ei, <- Ej.
  pose proof (name_lt_iff nat (fun u v => tri_lt w u v \/ tri_eq w u v) (tri_same w) L3 0%nat
                (tri_le_trans w) L3_sorted L3_same i j) as H.
  rewrite L3_length in H. specialize (H Hi Hj).
  rewrite (tri_lt_not w (nth i L3 0%nat) (nth j L3 0%nat)). rewrite <- H. lia.
Qed.

Lemma ks_name_bound : 1 <= name <= Z.of_nat n02.
Proof.
  pose proof (ks_sizes n Hn) as Hz. fold n0 n1 n2 n02 in Hz.
  pose proof (name_at_le _ (tri_same w) L3 0%nat (n02 - 1)). lia.
Qed.

Lemma ks_names_distinct (i : nat) :
  name = Z.of_nat n02 -> (i < n02)%nat ->
  nth (ks_idx n0 (nth i L3 0%nat)) R 0 = Z.of_nat i + 1.
Proof.
  intros Hfull Hi. rewrite (HRn i Hi).
  pose proof (name_at_gap (tri_same w) L3 0%nat i (n02 - 1) ltac:(lia)).
  pose proof (name_at_le _ (tri_same w) L3 0%nat i). lia.
Qed.

Lemma ks_names_strict (i j : nat) :
  name = Z.of_nat n02 -> (i < j)%nat -> (j < n02)%nat ->
  tri_lt w (nth i L3 0%nat) (nth j L3 0%nat).
Proof.
  intros Hfull Hij Hj.
  pose proof (name_lt_iff nat (fun u v => tri_lt w u v \/ tri_eq w u v) (tri_same w) L3 0%nat
                (tri_le_trans w) L3_sorted L3_same i j) as H.
  rewrite L3_length in H. specialize (H ltac:(lia) Hj).
  apply (tri_lt_not w). apply H.
  pose proof (ks_names_distinct i Hfull ltac:(lia)) as H1.
  pose proof (ks_names_distinct j Hfull Hj) as H2.
  rewrite (HRn i ltac:(lia)) in H1. rewrite (HRn j Hj) in H2. lia.
Qed.

End KSNaming.

(* ================================================================== *)
(** * Kaerkkaeinen-Sanders: ranks, and the suffixes at multiples of 3 *)
(* ================================================================== *)

Lemma StronglySorted_impl {A : Type} (R R' : A -> A -> Prop) (l : list A) :
  (forall a b, R a b -> R' a b) -> StronglySorted R l -> StronglySorted R' l.
Proof.
  intros H Hs. induction Hs as [|x l Hs IH Hx]; constructor; [exact IH|].
  rewrite Forall_forall in *. intros y Hy. apply H, Hx, Hy.
Qed.

Lemma filter_seq_below (a b : nat) :
  filter (fun x => (x <? a)%nat) (seq 0 (a + b)) = seq 0 a.
Proof.
  rewrite seq_app, filter_app. cbn [Nat.add].
  rewrite filter_all, filter_none, app_nil_r; [reflexivity| |].
  - intros x Hx. apply in_seq in Hx. apply Nat.ltb_ge. lia.
  - apply forallb_forall. intros x Hx. apply in_seq in Hx. apply Nat.ltb_lt. lia.
Qed.

Lemma getitem_map_nat (l : list nat) (pad : list Z) (i : nat) :
  (i < length l)%nat ->
  Py.getitem (map Z.of_nat l ++ pad) (Z.of_nat i) = Ok (Z.of_nat (nth i l 0%nat)).
Proof.
  intros H. rewrite (getitem_nat _ i 0) by (rewrite length_app, length_map; lia).
  rewrite app_nth1 by (now rewrite length_map).
  change 0 with (Z.of_nat 0%nat) at 1. now rewrite map_nth.
Qed.

Section KSRank.

Variable s : list Z.
Variable n : nat.
Variable k : Z.
Hypothesis Hn : (2 <= n)%nat.
Hypothesis Hs : ks_text s n k.

Let w := zstr s.
Let n0 := ((n + 2) / 3)%nat.
Let n1 := ((n + 1) / 3)%nat.
Let n2 := (n / 3)%nat.
Let n02 := (n0 + n2)%nat.

Lemma ks_rank_rec (R : list Z) (sigmaR : list nat) :
  length R = (n02 + 3)%nat -> Permutation sigmaR (seq 0 n02) ->
  exists rkl,
    Py.for_each (Py.range 0 (Z.of_nat n02)) R
      (fun i s12 => x <- Py.getitem (map Z.of_nat sigmaR) i ;; Py.setitem s12 x (i + 1))
    = Ok rkl /\
    length rkl = (n02 + 3)%nat /\
    (forall i, (i < n02)%nat -> nth (nth i sigmaR 0%nat) rkl 0 = Z.of_nat i + 1) /\
    (forall a, (n02 <= a)%nat -> nth a rkl 0 = nth a R 0).
Proof.
  intros HlR Hp.
  assert (Hl : length sigmaR = n02) by (rewrite (Permutation_length Hp); apply length_seq).
  destruct (scatter_loop n02 (fun i => nth i sigmaR 0%nat) (fun i => Z.of_nat i + 1) R
    (fun i s12 => x <- Py.getitem (map Z.of_nat sigmaR) i ;; Py.setitem s12 x (i + 1)))
    as (rkl & E & Hlr & Hv & Ho).
  - intros i Hi. pose proof (perm_nth_lt sigmaR n02 i Hp Hi). lia.
  - intros i j Hi Hj. now apply (perm_nth_inj sigmaR n02).
  - intros i arr' Hi Hla. cbv beta.
    pose proof (getitem_map_nat sigmaR [] i ltac:(lia)) as Eg. rewrite app_nil_r in Eg.
    rewrite Eg. cbn [bind]. apply setitem_nat.
    pose proof (perm_nth_lt sigmaR n02 i Hp Hi). lia.
  - exists rkl. split; [exact E|]. split; [now rewrite Hlr|]. split; [exact Hv|].
    intros a Ha. apply Ho. intros i Hi. pose proof (perm_nth_lt sigmaR n02 i Hp Hi). lia.
Qed.

Lemma ks_rank_inv (R : list Z) (L3 : list nat) :
  length L3 = n02 -> length R = (n02 + 3)%nat ->
  (forall i, (i < n02)%nat -> nth (ks_idx n0 (nth i L3 0%nat)) R 0 = Z.of_nat i + 1) ->
  Permutation (map (ks_idx n0) L3) (seq 0 n02) ->
  Py.for_each (Py.range 0 (Z.of_nat n02)) (map Z.of_nat L3 ++ [0; 0; 0])
    (fun i sa12 => x <- Py.getitem R i ;; Py.setitem sa12 (x - 1) i)
  = Ok (map Z.of_nat (map (ks_idx n0) L3) ++ [0; 0; 0]).
Proof.
  intros HlL HlR HR Hp.
  assert (Hat : forall a, (a < n02)%nat ->
            exists j, (j < n02)%nat /\ ks_idx n0 (nth j L3 0%nat) = a /\
                      nth a R 0 = Z.of_nat j + 1).
  { intros a Ha.
    assert (Hin : In a (map (ks_idx n0) L3)).
    { apply (Permutation_in _ (Permutation_sym Hp)), in_seq. lia. }
    apply (In_nth _ _ (ks_idx n0 0%nat)) in Hin as (j & Hj & E).
    rewrite length_map, HlL in Hj. rewrite map_nth in E.
    exists j. split; [exact Hj|]. split; [exact E|]. rewrite <- E. now apply HR. }
  destruct (scatter_loop n02 (fun a => Z.to_nat (nth a R 0 - 1)) (fun a => Z.of_nat a)
    (map Z.of_nat L3 ++ [0; 0; 0])
    (fun i sa12 => x <- Py.getitem R i ;; Py.setitem sa12 (x - 1) i))
    as (arr & E & Hla & Hv & Ho).
  - intros a Ha. destruct (Hat a Ha) as (j & Hj & _ & Ej). rewrite Ej.
    rewrite length_app, length_map, HlL. cbn [length]. lia.
  - intros a b Ha Hb Eab.
    destruct (Hat a Ha) as (ja & Hja & Ea1 & Ea2).
    destruct (Hat b Hb) as (jb & Hjb & Eb1 & Eb2).
    rewrite Ea2, Eb2 in Eab. assert (ja = jb) by lia. subst jb. congruence.
  - intros a arr' Ha Hl'. cbv beta.
    rewrite (getitem_nat R a 0) by lia. cbn [bind].
    destruct (Hat a Ha) as (j & Hj & _ & Ej).
    replace (nth a R 0 - 1) with (Z.of_nat (Z.to_nat (nth a R 0 - 1))) at 1 by lia.
    apply setitem_nat. rewrite Hl', length_app, length_map, HlL. cbn [length]. lia.
  - rewrite E. f_equal.
    apply (nth_ext _ _ 0 0).
    + rewrite Hla, !length_app, !length_map. reflexivity.
    + intros q Hq. rewrite Hla, length_app, length_map, HlL in Hq. cbn [length] in Hq.
      destruct (Nat.lt_ge_cases q n02) as [Hlt|Hge].
      * assert (Ha : (ks_idx n0 (nth q L3 0%nat) < n02)%nat).
        { assert (Hin : In (ks_idx n0 (nth q L3 0%nat)) (map (ks_idx n0) L3))
            by (apply in_map, nth_In; lia).
          apply (Permutation_in _ Hp), in_seq in Hin. lia. }
        pose proof (Hv _ Ha) as H. cbv beta in H.
        rewrite (HR q Hlt) in H.
        replace (Z.to_nat (Z.of_nat q + 1 - 1)) with q in H by lia.
        rewrite H. rewrite app_nth1 by (rewrite !length_map; lia).
        change 0 with (Z.of_nat 0%nat) at 1. rewrite map_nth.
        f_equal. rewrite (nth_indep (map (ks_idx n0) L3) 0%nat (ks_idx n0 0%nat))
          by (rewrite length_map; lia).
        now rewrite map_nth.
      * rewrite Ho.
        -- rewrite !app_nth2 by (rewrite ?length_map; lia).
           now rewrite !length_map.
        -- intros a Ha. destruct (Hat a Ha) as (j & Hj & _ & Ej). rewrite Ej. lia.
Qed.

Variable sigma : list nat.
Variable pad : list Z.
Hypothesis Hsp : Permutation sigma (seq 0 n02).
Hypothesis Hss : StronglySorted (fun a b => suf_lt w (ks_pos n0 a) (ks_pos n0 b)) sigma.

Lemma ks_sa0 :
  exists B,
    (sj <- Py.for_each (Py.range 0 (Z.of_nat n02)) (Py.replicate 0 (Z.of_nat n0), 0)
       (fun i sj =>
          x <- Py.getitem (map Z.of_nat sigma ++ pad) i ;;
          if x <? Z.of_nat n0 then
            s0 <- Py.setitem (fst sj) (snd sj) (3 * x) ;; Ok (s0, snd sj + 1)
          else Ok sj) ;;
     KS.radix_pass (fst sj) s (Z.of_nat n0) k) = Ok (map Z.of_nat B) /\
    length B = n0 /\ StronglySorted (suf_lt w) B /\
    (forall j, In j B -> (j < n)%nat /\ (j mod 3 = 0)%nat).
Proof.
  pose proof (ks_sizes n Hn) as Hz. fold n0 n1 n2 n02 in Hz.
  assert (Hl : length sigma = n02) by (rewrite (Permutation_length Hsp); apply length_seq).
  set (flt := filter (fun x => (x <? n0)%nat) sigma).
  set (al := map (fun x => (3 * x)%nat) flt).
  assert (Hlf : length flt = n0).
  { unfold flt.
    rewrite (Permutation_length (Permutation_filter_compat _ _ _ Hsp)).
    unfold n02. now rewrite filter_seq_below, length_seq. }
  assert (Hla : length al = n0) by (unfold al; now rewrite length_map).
  assert (Ef : filter (fun x => x <? Z.of_nat n0) (map Z.of_nat sigma) = map Z.of_nat flt).
  { rewrite filter_map_swap. unfold flt. f_equal. apply filter_ext. intros a.
    destruct (Z.ltb_spec (Z.of_nat a) (Z.of_nat n0)), (Nat.ltb_spec a n0); lia. }
  rewrite range_0_seq.
  pose proof (for_each_range_get (map Z.of_nat sigma ++ pad)
    (fun x (sj : list Z * Z) =>
       if x <? Z.of_nat n0 then
         s0 <- Py.setitem (fst sj) (snd sj) (3 * x) ;; Ok (s0, snd sj + 1)
       else Ok sj) n02 0 (Py.replicate 0 (Z.of_nat n0), 0)) as H1.
  cbv beta in H1. rewrite H1 by (rewrite length_app, length_map; lia). clear H1.
  cbn [skipn]. rewrite firstn_app, length_map, Hl, Nat.sub_diag. cbn [firstn].
  rewrite app_nil_r, firstn_all2 by (rewrite length_map; lia).
  pose proof (filter_loop (fun x => x <? Z.of_nat n0) (fun x => 3 * x)
                (map Z.of_nat sigma) [] (Py.replicate 0 (Z.of_nat n0))) as H2.
  cbn [app length Z.of_nat Nat.add] in H2. rewrite H2; clear H2.
  2:{ rewrite Ef, length_map, Hlf. unfold Py.replicate. rewrite repeat_length. lia. }
  cbn [bind fst]. rewrite Ef, length_map, Hlf.
  unfold Py.replicate. rewrite skipn_all2 by (rewrite repeat_length; lia).
  replace (map (fun x => 3 * x) (map Z.of_nat flt)) with (map Z.of_nat al).
  2:{ unfold al. rewrite !map_map. apply map_ext. intros a. lia. }
  destruct (radix_step al [] s k w (fun u v => suf_lt w (u + 1) (v + 1)))
    as (B & E & Hp & Hsb).
  - pose proof (ks_k s n k Hn Hs). lia.
  - intros p Hp. unfold al in Hp. apply in_map_iff in Hp as (x & <- & Hx).
    unfold flt in Hx. apply filter_In in Hx as [_ Hx]. apply Nat.ltb_lt in Hx.
    rewrite (ks_len s n k Hs). split; [lia|]. split; [reflexivity|].
    apply (ks_w_range s n k Hn Hs).
  - unfold al. apply StronglySorted_map. unfold flt.
    assert (Hnd : NoDup (filter (fun x => (x <? n0)%nat) sigma)).
    { apply NoDup_filter, (Permutation_NoDup (Permutation_sym Hsp)), seq_NoDup. }
    apply (StronglySorted_weaken (fun a b => suf_lt w (ks_pos n0 a) (ks_pos n0 b)));
      [exact Hnd| |now apply StronglySorted_filter].
    intros a b Ha Hb _ H. apply filter_In in Ha as [_ Ha]. apply filter_In in Hb as [_ Hb].
    unfold ks_pos in H. rewrite Ha, Hb in H. exact H.
  - rewrite Hla in E. exists B. split; [exact E|]. split.
    + now rewrite (Permutation_length Hp).
    + split.
      * revert Hsb. apply StronglySorted_impl. intros a b H.
        apply suf_lt_step. exact H.
      * intros j Hj. apply (Permutation_in _ Hp) in Hj. unfold al in Hj.
        apply in_map_iff in Hj as (x & <- & Hx).
        unfold flt in Hx. apply filter_In in Hx as [_ Hx]. apply Nat.ltb_lt in Hx.
        split; [lia|]. zify. Z.to_euclidean_division_equations. lia.
Qed.

End KSRank.

(* ================================================================== *)
(** * Kaerkkaeinen-Sanders: the merge *)
(* ================================================================== *)

Lemma StronglySorted_app {A : Type} (R : A -> A -> Prop) (l1 l2 : list A) :
  StronglySorted R l1 -> StronglySorted R l2 ->
  (forall x y, In x l1 -> In y l2 -> R x y) -> StronglySorted R (l1 ++ l2).
Proof.
  intros H1 H2 H. induction H1 as [|x l1 H1 IH Hx]; [exact H2|].
  cbn [app]. constructor.
  - apply IH. intros a b Ha Hb. apply H; [now right|exact Hb].
  - apply Forall_app. split; [exact Hx|]. apply Forall_forall. intros y Hy.
    apply H; [now left|exact Hy].
Qed.

Lemma StronglySorted_skipn {A : Type} (R : A -> A -> Prop) (l : list A) (m : nat) :
  StronglySorted R l -> StronglySorted R (skipn m l).
Proof.
  intros H. revert m. induction H as [|x l H IH Hx]; intros [|m]; cbn [skipn];
    try constructor; auto.
Qed.

Lemma In_skipn_nth {A : Type} (l : list A) (m : nat) (d y : A) :
  In y (skipn m l) -> exists i, (m <= i)%nat /\ (i < length l)%nat /\ nth i l d = y.
Proof.
  intros H. apply (In_nth _ _ d) in H as (i & Hi & E).
  rewrite length_skipn in Hi. rewrite nth_skipn in E. exists (m + i)%nat.
  repeat split; [lia|lia|exact E].
Qed.

Lemma StronglySorted_irrefl_NoDup {A : Type} (R : A -> A -> Prop) (l : list A) :
  (forall a, ~ R a a) -> StronglySorted R l -> NoDup l.
Proof.
  intros Hi H. induction H as [|x l H IH Hx]; constructor; [|exact IH].
  intros F. rewrite Forall_forall in Hx. exact (Hi x (Hx x F)).
Qed.

Lemma leq2_true (a1 a2 b1 b2 : Z) :
  KS.leq2 a1 a2 b1 b2 = true <-> a1 < b1 \/ (a1 = b1 /\ a2 <= b2).
Proof.
  unfold KS.leq2. rewrite orb_true_iff, andb_true_iff, Z.ltb_lt, Z.eqb_eq, Z.leb_le.
  reflexivity.
Qed.

Lemma leq3_true (a1 a2 a3 b1 b2 b3 : Z) :
  KS.leq3 a1 a2 a3 b1 b2 b3 = true <->
  a1 < b1 \/ (a1 = b1 /\ (a2 < b2 \/ (a2 = b2 /\ a3 <= b3))).
Proof.
  unfold KS.leq3. rewrite orb_true_iff, andb_true_iff, Z.ltb_lt, Z.eqb_eq, leq2_true.
  reflexivity.
Qed.

Lemma merge_loop_done (fuel : nat) (s s12 sa12 sa0 : list Z) (n n0 n02 : Z)
  (st : KS.merge_state) :
  (KS.ms_k st <? n) = false ->
  KS.merge_loop fuel s s12 sa12 sa0 n n0 n02 st = Ok (KS.ms_sa st).
Proof. intros H. destruct fuel; cbn [KS.merge_loop]; now rewrite H. Qed.

Lemma setitem_placed (O : list nat) (rest : list Z) (v : nat) :
  rest <> [] ->
  Py.setitem (map Z.of_nat O ++ rest) (Z.of_nat (length O)) (Z.of_nat v)
  = Ok (map Z.of_nat (O ++ [v]) ++ tl rest).
Proof.
  intros H. destruct rest as [|r0 rest]; [congruence|].
  rewrite <- (length_map Z.of_nat O), setitem_app. cbn [tl].
  rewrite map_app, <- app_assoc. reflexivity.
Qed.

Section KSMerge.

Variable s : list Z.
Variable n : nat.
Variable k : Z.
Hypothesis Hn : (2 <= n)%nat.
Hypothesis Hs : ks_text s n k.
Variable sigma : list nat.
Variable pad rkl : list Z.
Variable B : list nat.

Let w := zstr s.
Let rk := zstr rkl.
Let n0 := ((n + 2) / 3)%nat.
Let n1 := ((n + 1) / 3)%nat.
Let n2 := (n / 3)%nat.
Let n02 := (n0 + n2)%nat.
Let t0 := (n0 - n1)%nat.
Let A := fun t => ks_pos n0 (nth t sigma 0%nat).

Hypothesis Hsp : Permutation sigma (seq 0 n02).
Hypothesis Hss : StronglySorted (fun a b => suf_lt w (ks_pos n0 a) (ks_pos n0 b)) sigma.
Hypothesis Hrl : length rkl = (n02 + 3)%nat.
Hypothesis Hrk : forall i, (i < n02)%nat -> nth (nth i sigma 0%nat) rkl 0 = Z.of_nat i + 1.
Hypothesis Hrk0 : forall a, (n02 <= a)%nat -> nth a rkl 0 = 0.
Hypothesis HBl : length B = n0.
Hypothesis HBs : StronglySorted (suf_lt w) B.
Hypothesis HBin : forall j, In j B -> (j < n)%nat /\ (j mod 3 = 0)%nat.

Lemma mg_sizes :
  (1 <= n0 /\ n02 < n /\ n0 - n1 <= 1 /\ n1 <= n0 /\ 3 * n0 <= n + 2
   /\ n0 <= n2 + 1 /\ n2 <= n0 /\ n = n0 + n1 + n2 /\ n0 - n1 < n02)%nat.
Proof. exact (ks_sizes n Hn). Qed.

Lemma mg_sigma_len : length sigma = n02.
Proof. rewrite (Permutation_length Hsp). apply length_seq. Qed.

Lemma mg_sigma_lt (t : nat) : (t < n02)%nat -> (nth t sigma 0%nat < n02)%nat.
Proof. intros H. now apply (perm_nth_lt sigma n02). Qed.

Lemma mg_A_lt (t : nat) : (t0 <= t)%nat -> (t < n02)%nat -> (A t < n)%nat.
Proof.
  intros H1 H2.
  exact (sigma_real w n sigma (ks_pos_w1 s n k Hs) (ks_zero_w s n k Hs) Hsp Hss t H1 H2).
Qed.

Lemma mg_A_mod (t : nat) : (t < n02)%nat -> (A t mod 3 <> 0)%nat.
Proof.
  intros H. apply (ks_pos_bound n (nth t sigma 0%nat)). now apply mg_sigma_lt.
Qed.

Lemma mg_A_sorted (t t' : nat) : (t < t')%nat -> (t' < n02)%nat -> suf_lt w (A t) (A t').
Proof.
  intros H1 H2. unfold A.
  apply (StronglySorted_nth _ _ 0%nat Hss); [exact H1|now rewrite mg_sigma_len].
Qed.

Lemma mg_B_in (p : nat) : (p < n0)%nat -> (nth p B 0 < n)%nat /\ (nth p B 0 mod 3 = 0)%nat.
Proof. intros H. apply HBin, nth_In. now rewrite HBl. Qed.

Lemma mg_B_sorted (p p' : nat) :
  (p < p')%nat -> (p' < n0)%nat -> suf_lt w (nth p B 0%nat) (nth p' B 0%nat).
Proof.
  intros H1 H2. apply (StronglySorted_nth _ _ 0%nat HBs); [exact H1|now rewrite HBl].
Qed.

Lemma mg_rank (a b : nat) :
  (a <= n02)%nat -> (ks_pos n0 a <= n)%nat -> (b <= n02)%nat -> (ks_pos n0 b <= n)%nat ->
  a <> b ->
  (rk a <= rk b <-> suf_lt w (ks_pos n0 a) (ks_pos n0 b)).
Proof.
  exact (rank_order w rk n sigma (ks_pos_w1 s n k Hs) (ks_zero_w s n k Hs) Hsp Hss
           Hrk Hrk0 a b).
Qed.

Lemma mg_pair_inside (i j : nat) :
  (i < n)%nat -> (j < n)%nat -> i <> j -> w i = w j -> w (i + 1)%nat = w (j + 1)%nat ->
  (i + 1 < n)%nat /\ (j + 1 < n)%nat.
Proof.
  intros Hi Hj Hne E0 E1.
  pose proof (ks_pos_w1 s n k Hs) as Hpos. pose proof (ks_zero_w s n k Hs) as Hzero.
  fold w in Hpos, Hzero.
  destruct (Nat.lt_ge_cases (i + 1) n) as [Hi1|Hi1], (Nat.lt_ge_cases (j + 1) n) as [Hj1|Hj1].
  - lia.
  - pose proof (Hzero (j + 1)%nat Hj1). pose proof (Hpos (i + 1)%nat Hi1). lia.
  - pose proof (Hzero (i + 1)%nat Hi1). pose proof (Hpos (j + 1)%nat Hj1). lia.
  - lia.
Qed.

(** The comparison of the merge decides the order of the two suffixes. *)
Lemma merge_cmp (t p : nat) :
  (t0 <= t)%nat -> (t < n02)%nat -> (p < n0)%nat ->
  exists b : bool,
    (if Z.of_nat (nth t sigma 0%nat) <? Z.of_nat n0 then
       si <- Py.getitem s (Z.of_nat (A t)) ;;
       ri <- Py.getitem rkl (Z.of_nat (nth t sigma 0%nat) + Z.of_nat n0) ;;
       sj <- Py.getitem s (Z.of_nat (nth p B 0%nat)) ;;
       rj <- Py.getitem rkl (Z.quot (Z.of_nat (nth p B 0%nat)) 3) ;;
       Ok (KS.leq2 si ri sj rj)
     else
       si <- Py.getitem s (Z.of_nat (A t)) ;;
       si1 <- Py.getitem s (Z.of_nat (A t) + 1) ;;
       ri <- Py.getitem rkl (Z.of_nat (nth t sigma 0%nat) - Z.of_nat n0 + 1) ;;
       sj <- Py.getitem s (Z.of_nat (nth p B 0%nat)) ;;
       sj1 <- Py.getitem s (Z.of_nat (nth p B 0%nat) + 1) ;;
       rj <- Py.getitem rkl (Z.quot (Z.of_nat (nth p B 0%nat)) 3 + Z.of_nat n0) ;;
       Ok (KS.leq3 si si1 ri sj sj1 rj)) = Ok b /\
    (b = true <-> suf_lt w (A t) (nth p B 0%nat)).
Proof.
  intros Ht0 Ht Hp.
  pose proof mg_sizes as Hz.
  pose proof (mg_A_lt t Ht0 Ht) as HA. pose proof (mg_sigma_lt t Ht) as Hx.
  destruct (mg_B_in p Hp) as [Hj Hjm].
  unfold A in *. set (x := nth t sigma 0%nat) in *. set (j := nth p B 0%nat) in *.
  rewrite quot3_nat.
  destruct (Z.ltb_spec (Z.of_nat x) (Z.of_nat n0)) as [Hlt|Hge].
  - assert (Ei : ks_pos n0 x = (3 * x + 1)%nat) by (unfold ks_pos; destruct (Nat.ltb_spec x n0); lia).
    rewrite Ei in *.
    rewrite (ks_getitem s n k Hs) by lia. cbn [bind].
    replace (Z.of_nat x + Z.of_nat n0) with (Z.of_nat (x + n0)) by lia.
    rewrite (getitem_nat rkl (x + n0) 0) by lia. cbn [bind].
    rewrite (ks_getitem s n k Hs) by lia. cbn [bind].
    rewrite (getitem_nat rkl (j / 3) 0) by (subst n02 n0 n1 n2; dm). cbn [bind].
    eexists. split; [reflexivity|].
    rewrite leq2_true, (suf_lt_step w (3 * x + 1) j).
    assert (Hr : rk (x + n0) <= rk (j / 3) <-> suf_lt w (3 * x + 1 + 1) (j + 1)).
    { replace (3 * x + 1 + 1)%nat with (ks_pos n0 (x + n0)).
      2:{ unfold ks_pos. destruct (Nat.ltb_spec (x + n0) n0); lia. }
      replace (j + 1)%nat with (ks_pos n0 (j / 3)).
      2:{ subst n02 n0 n1 n2; dm. }
      apply mg_rank.
      - subst n02 n0 n1 n2; dm.
      - unfold ks_pos. destruct (Nat.ltb_spec (x + n0) n0); lia.
      - subst n02 n0 n1 n2; dm.
      - subst n02 n0 n1 n2; dm.
      - subst n02 n0 n1 n2; dm. }
    fold w. unfold rk, zstr in Hr. tauto.
  - assert (Ei : ks_pos n0 x = (3 * (x - n0) + 2)%nat) by (unfold ks_pos; destruct (Nat.ltb_spec x n0); lia).
    rewrite Ei in *. set (i := (3 * (x - n0) + 2)%nat) in *.
    rewrite (ks_getitem s n k Hs) by lia. cbn [bind].
    replace (Z.of_nat i + 1) with (Z.of_nat (i + 1)) by lia.
    rewrite (ks_getitem s n k Hs) by lia. cbn [bind].
    replace (Z.of_nat x - Z.of_nat n0 + 1) with (Z.of_nat (x - n0 + 1)) by lia.
    rewrite (getitem_nat rkl (x - n0 + 1) 0) by lia. cbn [bind].
    rewrite (ks_getitem s n k Hs) by lia. cbn [bind].
    replace (Z.of_nat j + 1) with (Z.of_nat (j + 1)) by lia.
    rewrite (ks_getitem s n k Hs) by lia. cbn [bind].
    replace (Z.of_nat (j / 3) + Z.of_nat n0) with (Z.of_nat (j / 3 + n0)) by lia.
    rewrite (getitem_nat rkl (j / 3 + n0) 0) by (subst n02 n0 n1 n2; dm). cbn [bind].
    eexists. split; [reflexivity|].
    rewrite leq3_true, (suf_lt_step w i j), (suf_lt_step w (i + 1) (j + 1)).
    assert (Hne : i <> j) by (subst i n02 n0 n1 n2; dm).
    assert (Hr : w i = w j -> w (i + 1)%nat = w (j + 1)%nat ->
                 (rk (x - n0 + 1) <= rk (j / 3 + n0) <-> suf_lt w (i + 1 + 1) (j + 1 + 1))).
    { intros E0 E1. destruct (mg_pair_inside i j HA Hj Hne E0 E1) as [Hi1 Hj1].
      replace (i + 1 + 1)%nat with (ks_pos n0 (x - n0 + 1)).
      2:{ subst i n02 n0 n1 n2; dm. }
      replace (j + 1 + 1)%nat with (ks_pos n0 (j / 3 + n0)).
      2:{ subst i n02 n0 n1 n2; dm. }
      apply mg_rank.
      - subst i n02 n0 n1 n2; dm.
      - subst i n02 n0 n1 n2; dm.
      - subst i n02 n0 n1 n2; dm.
      - subst i n02 n0 n1 n2; dm.
      - subst i n02 n0 n1 n2; dm. }
    fold w. unfold rk, zstr in Hr. tauto.
Qed.

Lemma mg_total (i j : nat) :
  (i < n)%nat -> i <> j -> ~ suf_lt w i j -> suf_lt w j i.
Proof.
  intros Hi Hne H.
  destruct (suf_lt_total w n (ks_pos_w1 s n k Hs) (ks_zero_w s n k Hs) i j Hne) as [F|F];
    [now left|contradiction|exact F].
Qed.

Lemma mg_snoc (O : list nat) (v : nat) :
  StronglySorted (suf_lt w) O -> (forall o, In o O -> suf_lt w o v) ->
  StronglySorted (suf_lt w) (O ++ [v]).
Proof.
  intros H1 H2. apply StronglySorted_app; [exact H1|repeat constructor|].
  intros x y Hx [<-|[]]. now apply H2.
Qed.

(** Copying what is left of [sa0], and of [sa12]. *)
Lemma merge_tail_B (p : nat) (O : list nat) (rest : list Z) :
  (p <= n0)%nat -> length rest = (n0 - p)%nat ->
  Py.for_each (Py.range (Z.of_nat p) (Z.of_nat n0))
    (Z.of_nat (length O), map Z.of_nat O ++ rest)
    (fun p ks =>
       v <- Py.getitem (map Z.of_nat B) p ;;
       sa <- Py.setitem (snd ks) (fst ks) v ;;
       Ok (fst ks + 1, sa))
  = Ok (Z.of_nat (length O + (n0 - p)), map Z.of_nat (O ++ skipn p B)).
Proof.
  intros Hp Hl.
  pose proof (copy_loop (map Z.of_nat B) (fun v => v) (n0 - p) p (map Z.of_nat O) rest) as H.
  cbv beta in H. rewrite !length_map in H.
  replace (p + (n0 - p))%nat with n0 in H by lia.
  rewrite H by (rewrite ?length_map; lia). f_equal. f_equal.
  rewrite map_id.
  replace (skipn (n0 - p) rest) with (@nil Z) by (symmetry; apply skipn_all2; lia).
  rewrite app_nil_r.
  rewrite firstn_all2 by (rewrite length_skipn, length_map; lia).
  now rewrite map_app, skipn_map.
Qed.

Lemma merge_tail_A (t : nat) (O : list nat) (rest : list Z) :
  (t <= n02)%nat -> length rest = (n02 - t)%nat ->
  Py.for_each (Py.range (Z.of_nat t) (Z.of_nat n02))
    (Z.of_nat (length O), map Z.of_nat O ++ rest)
    (fun t ks =>
       y <- Py.getitem (map Z.of_nat sigma ++ pad) t ;;
       sa <- Py.setitem (snd ks) (fst ks) (KS.get_i (Z.of_nat n0) y) ;;
       Ok (fst ks + 1, sa))
  = Ok (Z.of_nat (length O + (n02 - t)),
        map Z.of_nat (O ++ map (ks_pos n0) (skipn t sigma))).
Proof.
  intros Ht Hl. pose proof mg_sigma_len as Hsl.
  pose proof (copy_loop (map Z.of_nat sigma ++ pad) (KS.get_i (Z.of_nat n0)) (n02 - t) t
                (map Z.of_nat O) rest) as H.
  rewrite !length_map in H.
  replace (t + (n02 - t))%nat with n02 in H by lia.
  rewrite H by (rewrite ?length_app, ?length_map; lia). f_equal. f_equal.
  replace (skipn (n02 - t) rest) with (@nil Z) by (symmetry; apply skipn_all2; lia).
  rewrite app_nil_r.
  rewrite skipn_app, length_map, firstn_app, length_skipn, length_map.
  replace (n02 - t - (length sigma - t))%nat with 0%nat by lia.
  cbn [firstn]. rewrite app_nil_r.
  rewrite firstn_all2 by (rewrite length_skipn, length_map; lia).
  rewrite map_app. f_equal. rewrite skipn_map, !map_map. apply map_ext.
  intros a. apply get_i_nat.
Qed.

Lemma merge_loop_spec (fuel : nat) :
  forall (p t : nat) (O : list nat) (rest : list Z),
  (p < n0)%nat -> (t0 <= t)%nat -> (t < n02)%nat ->
  length O = (p + (t - t0))%nat -> (length O + length rest = n)%nat ->
  StronglySorted (suf_lt w) O ->
  (forall o, In o O -> (o < n)%nat /\
     (forall t', (t <= t')%nat -> (t' < n02)%nat -> suf_lt w o (A t')) /\
     (forall p', (p <= p')%nat -> (p' < n0)%nat -> suf_lt w o (nth p' B 0%nat))) ->
  (n - length O <= fuel)%nat ->
  exists out,
    KS.merge_loop fuel s rkl (map Z.of_nat sigma ++ pad) (map Z.of_nat B)
      (Z.of_nat n) (Z.of_nat n0) (Z.of_nat n02)
      (KS.MS (Z.of_nat p) (Z.of_nat t) (Z.of_nat (length O)) (map Z.of_nat O ++ rest))
    = Ok (map Z.of_nat out) /\
    length out = n /\ StronglySorted (suf_lt w) out /\
    (forall o, In o out -> (o < n)%nat).
Proof.
  pose proof mg_sizes as Hz. pose proof mg_sigma_len as Hsl.
  induction fuel as [|fuel IH]; intros p t O rest Hp Ht0 Ht HlO Hlr HsO HO Hf.
  { exfalso. unfold t0 in *. lia. }
  assert (Hk : (length O < n)%nat) by (unfold t0 in *; lia).
  destruct rest as [|r0 rest]; [cbn [length] in Hlr; lia|]. cbn [length] in Hlr.
  pose proof (mg_A_lt t Ht0 Ht) as HAn.
  destruct (mg_B_in p Hp) as [HBn HBm].
  pose proof (mg_A_mod t Ht) as HAm.
  assert (Hne : A t <> nth p B 0%nat) by (intros F; rewrite F in HAm; lia).
  cbn [KS.merge_loop KS.ms_k KS.ms_p KS.ms_t KS.ms_sa].
  replace (Z.of_nat (length O) <? Z.of_nat n) with true by (symmetry; apply Z.ltb_lt; lia).
  rewrite (getitem_map_nat sigma pad t) by lia. cbn [bind].
  rewrite get_i_nat. change (ks_pos n0 (nth t sigma 0%nat)) with (A t).
  pose proof (getitem_map_nat B [] p ltac:(lia)) as EB. rewrite app_nil_r in EB.
  rewrite EB. cbn [bind].
  destruct (merge_cmp t p Ht0 Ht Hp) as (b & Eb & Hb). rewrite Eb. cbn [bind].
  destruct b.
  - assert (Hlt : suf_lt w (A t) (nth p B 0%nat)) by now apply Hb.
    assert (HsO' : StronglySorted (suf_lt w) (O ++ [A t])).
    { apply mg_snoc; [exact HsO|]. intros o Ho. apply (HO o Ho); lia. }
    assert (HAB : forall p', (p <= p')%nat -> (p' < n0)%nat ->
                    suf_lt w (A t) (nth p' B 0%nat)).
    { intros p' H1 H2. destruct (Nat.eq_dec p p') as [<-|Hd]; [exact Hlt|].
      apply (suf_lt_trans w _ (nth p B 0%nat)); [exact Hlt|]. apply mg_B_sorted; lia. }
    rewrite (setitem_placed O (r0 :: rest) (A t)) by discriminate. cbn [bind tl].
    destruct (Z.eqb_spec (Z.of_nat t + 1) (Z.of_nat n02)) as [Et|Et].
    + replace (Z.of_nat (length O) + 1) with (Z.of_nat (length (O ++ [A t])))
        by (rewrite length_app; cbn [length]; lia).
      rewrite (merge_tail_B p (O ++ [A t]) rest) by (unfold t0 in *; lia).
      cbn [bind fst snd KS.ms_k KS.ms_p KS.ms_t KS.ms_sa].
      rewrite merge_loop_done.
      2:{ cbn [KS.ms_k]. apply Z.ltb_ge. rewrite length_app. cbn [length].
          unfold t0 in *. lia. }
      cbn [KS.ms_sa]. exists ((O ++ [A t]) ++ skipn p B). split; [reflexivity|].
      split; [|split].
      * rewrite !length_app, length_skipn, HBl. cbn [length]. unfold t0 in *. lia.
      * apply StronglySorted_app; [exact HsO'|now apply StronglySorted_skipn|].
        intros x y Hx Hy. apply (In_skipn_nth _ _ 0%nat) in Hy as (p' & H1 & H2 & <-).
        rewrite HBl in H2. apply in_app_iff in Hx as [Hx|[<-|[]]].
        -- now apply (HO x Hx).
        -- now apply HAB.
      * intros o Ho. apply in_app_iff in Ho as [Ho|Ho].
        -- apply in_app_iff in Ho as [Ho|[<-|[]]]; [now apply (HO o Ho)|exact HAn].
        -- apply (In_skipn_nth _ _ 0%nat) in Ho as (p' & H1 & H2 & <-).
           rewrite HBl in H2. now apply mg_B_in.
    + cbn [bind KS.ms_k KS.ms_p KS.ms_t KS.ms_sa].
      replace (Z.of_nat (length O) + 1) with (Z.of_nat (length (O ++ [A t])))
        by (rewrite length_app; cbn [length]; lia).
      replace (Z.of_nat t + 1) with (Z.of_nat (t + 1)) by lia.
      apply IH; try lia.
      * rewrite length_app. cbn [length]. unfold t0 in *. lia.
      * rewrite length_app. cbn [length]. lia.
      * exact HsO'.
      * intros o Ho. apply in_app_iff in Ho as [Ho|[<-|[]]].
        -- destruct (HO o Ho) as (H1 & H2 & H3). split; [exact H1|]. split; [|exact H3].
           intros t' Ht1 Ht2. apply H2; lia.
        -- split; [exact HAn|]. split; [|exact HAB].
           intros t' Ht1 Ht2. apply mg_A_sorted; lia.
      * rewrite length_app. cbn [length]. lia.
  - assert (Hlt : suf_lt w (nth p B 0%nat) (A t)).
    { apply mg_total; [exact HAn|exact Hne|]. intros F. apply Hb in F. discriminate. }
    assert (HsO' : StronglySorted (suf_lt w) (O ++ [nth p B 0%nat])).
    { apply mg_snoc; [exact HsO|]. intros o Ho. apply (HO o Ho); lia. }
    assert (HBA : forall t', (t <= t')%nat -> (t' < n02)%nat ->
                    suf_lt w (nth p B 0%nat) (A t')).
    { intros t' H1 H2. destruct (Nat.eq_dec t t') as [<-|Hd]; [exact Hlt|].
      apply (suf_lt_trans w _ (A t)); [exact Hlt|]. apply mg_A_sorted; lia. }
    rewrite (setitem_placed O (r0 :: rest) (nth p B 0%nat)) by discriminate. cbn [bind tl].
    destruct (Z.eqb_spec (Z.of_nat p + 1) (Z.of_nat n0)) as [Ep|Ep].
    + replace (Z.of_nat (length O) + 1) with (Z.of_nat (length (O ++ [nth p B 0%nat])))
        by (rewrite length_app; cbn [length]; lia).
      rewrite (merge_tail_A t (O ++ [nth p B 0%nat]) rest) by (unfold t0 in *; lia).
      cbn [bind fst snd KS.ms_k KS.ms_p KS.ms_t KS.ms_sa].
      rewrite merge_loop_done.
      2:{ cbn [KS.ms_k]. apply Z.ltb_ge. rewrite length_app. cbn [length].
          unfold t0 in *. lia. }
      cbn [KS.ms_sa].
      exists ((O ++ [nth p B 0%nat]) ++ map (ks_pos n0) (skipn t sigma)).
      split; [reflexivity|]. split; [|split].
      * rewrite !length_app, length_map, length_skipn, Hsl. cbn [length].
        unfold t0 in *. lia.
      * apply StronglySorted_app; [exact HsO'| |].
        -- apply StronglySorted_map. now apply StronglySorted_skipn.
        -- intros x y Hx Hy. apply in_map_iff in Hy as (a & <- & Ha).
           apply (In_skipn_nth _ _ 0%nat) in Ha as (t' & H1 & H2 & <-).
           rewrite Hsl in H2. change (suf_lt w x (A t')).
           apply in_app_iff in Hx as [Hx|[<-|[]]].
           ++ now apply (HO x Hx).
           ++ now apply HBA.
      * intros o Ho. apply in_app_iff in Ho as [Ho|Ho].
        -- apply in_app_iff in Ho as [Ho|[<-|[]]]; [now apply (HO o Ho)|exact HBn].
        -- apply in_map_iff in Ho as (a & <- & Ha).
           apply (In_skipn_nth _ _ 0%nat) in Ha as (t' & H1 & H2 & <-).
           rewrite Hsl in H2. apply (mg_A_lt t'); lia.
    + cbn [bind KS.ms_k KS.ms_p KS.ms_t KS.ms_sa].
      replace (Z.of_nat (length O) + 1) with (Z.of_nat (length (O ++ [nth p B 0%nat])))
        by (rewrite length_app; cbn [length]; lia).
      replace (Z.of_nat p + 1) with (Z.of_nat (p + 1)) by lia.
      apply IH; try lia.
      * rewrite length_app. cbn [length]. unfold t0 in *. lia.
      * rewrite length_app. cbn [length]. lia.
      * exact HsO'.
      * intros o Ho. apply in_app_iff in Ho as [Ho|[<-|[]]].
        -- destruct (HO o Ho) as (H1 & H2 & H3). split; [exact H1|]. split; [exact H2|].
           intros p' Hp1 Hp2. apply H3; lia.
        -- split; [exact HBn|]. split; [exact HBA|].
           intros p' Hp1 Hp2. apply mg_B_sorted; lia.
      * rewrite length_app. cbn [length]. lia.
Qed.

(** The merge returns the suffix array of the text. *)
Lemma ks_merge :
  exists out,
    KS.merge_loop (Z.to_nat (Z.of_nat n)) s rkl (map Z.of_nat sigma ++ pad) (map Z.of_nat B)
      (Z.of_nat n) (Z.of_nat n0) (Z.of_nat n02)
      (KS.MS 0 (Z.of_nat n0 - Z.of_nat n1) 0 (Py.replicate 0 (Z.of_nat n)))
    = Ok (map Z.of_nat out) /\
    Permutation out (seq 0 n) /\ StronglySorted (suf_lt w) out.
Proof.
  pose proof mg_sizes as Hz.
  destruct (merge_loop_spec n 0%nat t0 [] (Py.replicate 0 (Z.of_nat n)))
    as (out & E & Hl & Hso & Hin); try (unfold t0; cbn [length]; lia).
  - cbn [length]. unfold Py.replicate. rewrite repeat_length. lia.
  - constructor.
  - intros o [].
  - exists out. split; [|split].
    + rewrite Nat2Z.id. cbn [map app length Z.of_nat] in E.
      replace (Z.of_nat n0 - Z.of_nat n1) with (Z.of_nat t0) by (unfold t0; lia).
      exact E.
    + apply NoDup_Permutation_bis.
      * apply (StronglySorted_irrefl_NoDup (suf_lt w)); [apply suf_lt_irrefl|exact Hso].
      * rewrite length_seq. lia.
      * intros o Ho. apply in_seq. pose proof (Hin o Ho). lia.
    + exact Hso.
Qed.

End KSMerge.

(* ================================================================== *)
(** * Kaerkkaeinen-Sanders returns the suffix array *)
(* ================================================================== *)

Section KSFinish.

Variable s : list Z.
Variable n : nat.
Variable k : Z.
Hypothesis Hn : (2 <= n)%nat.
Hypothesis Hs : ks_text s n k.
Variable sigma : list nat.
Variable pad rkl : list Z.

Let w := zstr s.
Let n0 := ((n + 2) / 3)%nat.
Let n1 := ((n + 1) / 3)%nat.
Let n2 := (n / 3)%nat.
Let n02 := (n0 + n2)%nat.

Hypothesis Hsp : Permutation sigma (seq 0 n02).
Hypothesis Hss : StronglySorted (fun a b => suf_lt w (ks_pos n0 a) (ks_pos n0 b)) sigma.
Hypothesis Hrl : length rkl = (n02 + 3)%nat.
Hypothesis Hrk : forall i, (i < n02)%nat -> nth (nth i sigma 0%nat) rkl 0 = Z.of_nat i + 1.
Hypothesis Hrk0 : forall a, (n02 <= a)%nat -> nth a rkl 0 = 0.

Lemma ks_finish :
  exists out,
    (sj <- Py.for_each (Py.range 0 (Z.of_nat n02)) (Py.replicate 0 (Z.of_nat n0), 0)
       (fun i sj =>
          x <- Py.getitem (map Z.of_nat sigma ++ pad) i ;;
          if x <? Z.of_nat n0 then
            s0 <- Py.setitem (fst sj) (snd sj) (3 * x) ;; Ok (s0, snd sj + 1)
          else Ok sj) ;;
     sa0 <- KS.radix_pass (fst sj) s (Z.of_nat n0) k ;;
     KS.merge_loop (Z.to_nat (Z.of_nat n)) s rkl (map Z.of_nat sigma ++ pad) sa0
       (Z.of_nat n) (Z.of_nat n0) (Z.of_nat n02)
       (KS.MS 0 (Z.of_nat n0 - Z.of_nat n1) 0 (Py.replicate 0 (Z.of_nat n))))
    = Ok (map Z.of_nat out) /\
    Permutation out (seq 0 n) /\ StronglySorted (suf_lt w) out.
Proof.
  subst w n02 n0 n1 n2.
  destruct (ks_sa0 s n k Hn Hs sigma pad Hsp Hss) as (B & EB & HBl & HBs & HBin).
  apply bind_Ok in EB as (sj & E1 & E2). rewrite E1. cbn [bind]. rewrite E2. cbn [bind].
  exact (ks_merge s n k Hn Hs sigma pad rkl B Hsp Hss Hrl Hrk Hrk0 HBl HBs HBin).
Qed.

End KSFinish.

Lemma ks_spec (fuel : nat) :
  forall (r : KS.text) (s : list Z) (n : nat) (k : Z),
  match r with
  | KS.Ints s' => _ <- Py.getitem s' 0 ;; Ok s'
  | KS.Chars str => _ <- Py.getitem str 0 ;; s' <- KS.to_int str ;; Ok (s' ++ [0; 0; 0])
  end = Ok s ->
  (2 <= n)%nat -> ks_text s n k -> (n <= fuel)%nat ->
  exists san,
    KS.suffix_array_kaerkkaeinensanders fuel r (Z.of_nat n) k = Ok (map Z.of_nat san) /\
    Permutation san (seq 0 n) /\ StronglySorted (suf_lt (zstr s)) san.
Proof.
  induction fuel as [|fuel IH]; intros r s n k Hpre Hn Hs Hf; [lia|].
  pose proof (ks_sizes n Hn) as Hz. cbv zeta in Hz.
  cbn [KS.suffix_array_kaerkkaeinensanders]. rewrite Hpre. cbn [bind].
  replace (Z.of_nat n + 2) with (Z.of_nat (n + 2)) by lia.
  replace (Z.of_nat n + 1) with (Z.of_nat (n + 1)) by lia.
  rewrite !quot3_nat.
  replace (Z.of_nat ((n + 2) / 3) + Z.of_nat (n / 3))
    with (Z.of_nat ((n + 2) / 3 + n / 3)) by lia.
  rewrite (ks_init_s12 s n Hn). cbn [bind fst].
  destruct (ks_sort_triples s n k Hn Hs) as (L1 & L2 & L3 & E1 & E2 & E3 & Hl2 & HpL & HsL).
  rewrite E1. cbn [bind]. rewrite E2. cbn [bind]. rewrite E3. cbn [bind].
  destruct (ks_naming s n k Hn Hs L3 HpL (map Z.of_nat L2 ++ [0; 0; 0]))
    as (st & En & HRl & HR0 & HRn & Hname).
  { rewrite length_app, length_map, Hl2. reflexivity. }
  { intros a Ha. rewrite app_nth2 by (rewrite length_map; lia).
    rewrite length_map, Hl2.
    destruct (a - ((n + 2) / 3 + n / 3))%nat as [|[|[|[|?]]]]; reflexivity. }
  rewrite En. cbn [bind].
  set (R := KS.ns_s12 st) in *. set (name := KS.ns_name st) in *.
  pose proof (ks_name_bound s n Hn L3 R name HRl Hname) as Hnb.
  pose proof (ks_names_range s n Hn L3 HpL R name HRl HRn Hname) as Hrange.
  pose proof (ks_names_lt s n Hn L3 HpL HsL R HRl HRn) as Hlt.
  pose proof (L3_length n L3 HpL) as HlL.
  assert (Hpos : forall i, (i < n)%nat -> 1 <= zstr s i)
    by (intros i Hi; now apply (ks_pos_w1 s n k Hs)).
  assert (Hzero : forall i, (n <= i)%nat -> zstr s i = 0)
    by (intros i Hi; now apply (ks_zero_w s n k Hs)).
  destruct (Z.ltb_spec name (Z.of_nat ((n + 2) / 3 + n / 3))) as [Hrec|Hfull].
  - destruct (IH (KS.Ints R) R ((n + 2) / 3 + n / 3)%nat name)
      as (san12 & E12 & Hp12 & Hs12).
    + rewrite (getitem_nth R 0 0) by (unfold Py.len; lia). reflexivity.
    + lia.
    + split; [exact HRl|]. split; [exact Hrange|exact HR0].
    + lia.
    + rewrite E12. cbn [bind].
      destruct (ks_rank_rec s n Hn R san12 HRl Hp12) as (rkl & Er & Hlr & Hrk & Hrk0).
      rewrite Er. cbn [bind fst snd].
      replace (map Z.of_nat san12) with (map Z.of_nat san12 ++ []) by apply app_nil_r.
      apply (ks_finish s n k Hn Hs san12 [] rkl Hp12).
      * revert Hs12. apply StronglySorted_weaken.
        -- apply (Permutation_NoDup (Permutation_sym Hp12)), seq_NoDup.
        -- intros a b Ha Hb _ H.
           apply (Permutation_in _ Hp12), in_seq in Ha.
           apply (Permutation_in _ Hp12), in_seq in Hb.
           apply (ks_corr (zstr s) (zstr R) n Hpos Hzero HR0); try lia; auto.
           intros c Hc. now apply Hrange.
      * exact Hlr.
      * exact Hrk.
      * intros a Ha. rewrite (Hrk0 a Ha). now apply HR0.
  - assert (Hfull' : name = Z.of_nat ((n + 2) / 3 + n / 3)) by lia.
    assert (Hpidx : Permutation (map (ks_idx ((n + 2) / 3)) L3)
                      (seq 0 ((n + 2) / 3 + n / 3))).
    { apply Permutation_trans
        with (map (ks_idx ((n + 2) / 3))
                (map (ks_pos ((n + 2) / 3)) (seq 0 ((n + 2) / 3 + n / 3))));
        [now apply Permutation_map|].
      rewrite map_map. erewrite map_ext; [rewrite map_id; reflexivity|].
      intros a. apply (ks_idx_pos n). }
    rewrite (ks_rank_inv s n Hn R L3 HlL HRl
               (fun i Hi => ks_names_distinct s n Hn L3 R name HRl HRn Hname i Hfull' Hi)
               Hpidx).
    cbn [bind fst snd].
    apply (ks_finish s n k Hn Hs (map (ks_idx ((n + 2) / 3)) L3) [0; 0; 0] R Hpidx).
    + rewrite <- (nth_seq_map L3 0%nat), map_map, HlL.
      apply StronglySorted_map_seq. intros x y _ Hxy Hy. cbn [Nat.add] in Hy.
      destruct (L3_entry n Hn L3 HpL x ltac:(lia)) as (_ & _ & Ex).
      destruct (L3_entry n Hn L3 HpL y Hy) as (_ & _ & Ey).
      rewrite Ex, Ey. apply tri_lt_suf.
      exact (ks_names_strict s n Hn L3 HpL HsL R name HRl HRn Hname x y Hfull' Hxy Hy).
    + exact HRl.
    + intros i Hi.
      rewrite (nth_indep (map (ks_idx ((n + 2) / 3)) L3) 0%nat (ks_idx ((n + 2) / 3) 0%nat))
        by (rewrite length_map; lia).
      rewrite map_nth.
      exact (ks_names_distinct s n Hn L3 R name HRl HRn Hname i Hfull' Hi).
    + exact HR0.
Qed.

(* ================================================================== *)
(** * Kaerkkaeinen-Sanders on the genome *)
(* ================================================================== *)

Lemma ks_code_range (c : ascii) : 1 <= ks_code c <= 6.
Proof. unfold ks_code. repeat destruct (chr_eq _ _); lia. Qed.

Lemma ks_code_lt (x y : ascii) :
  in_alphabet x = true -> in_alphabet y = true ->
  (ks_code x < ks_code y <-> (nat_of_ascii x < nat_of_ascii y)%nat).
Proof.
  intros Hx Hy.
  apply in_alphabet_cases in Hx as [-> | [-> | [-> | [-> | [-> | ->]]]]];
    apply in_alphabet_cases in Hy as [-> | [-> | [-> | [-> | [-> | ->]]]]];
    repeat match goal with
    | |- context [ks_code ?c] =>
        let v := eval vm_compute in (ks_code c) in change (ks_code c) with v
    | |- context [nat_of_ascii ?c] =>
        let v := eval vm_compute in (nat_of_ascii c) in change (nat_of_ascii c) with v
    end; lia.
Qed.

Lemma ks_chars_text (text : list ascii) :
  ks_text (map ks_code text ++ [0; 0; 0]) (length text) 6.
Proof.
  split; [|split].
  - rewrite length_app, length_map. reflexivity.
  - intros i Hi. rewrite app_nth1 by (now rewrite length_map).
    rewrite (nth_indep _ 0 (ks_code cA)) by (now rewrite length_map).
    rewrite map_nth. apply ks_code_range.
  - intros i Hi. rewrite app_nth2 by (rewrite length_map; lia).
    rewrite length_map. destruct (i - length text)%nat as [|[|[|[|?]]]]; reflexivity.
Qed.

Lemma ks_chars_w (text : list ascii) (i : nat) :
  (i < length text)%nat ->
  zstr (map ks_code text ++ [0; 0; 0]) i = ks_code (nth i text cA).
Proof.
  intros Hi. unfold zstr. rewrite app_nth1 by (now rewrite length_map).
  rewrite (nth_indep _ 0 (ks_code cA)) by (now rewrite length_map).
  apply map_nth.
Qed.

(** The order of the coded suffixes is the order of the suffixes. *)
Lemma ks_suf_lt_str (text : list ascii) :
  forallb in_alphabet text = true ->
  forall d p q, (p <= length text)%nat -> (q <= length text)%nat ->
    (length text - p <= d)%nat ->
    (suf_lt (zstr (map ks_code text ++ [0; 0; 0])) p q
     <-> str_lt (suf text p) (suf text q) = true).
Proof.
  intros Hal. set (w := zstr (map ks_code text ++ [0; 0; 0])). set (n := length text).
  destruct (ks_chars_text text) as (_ & Hp6 & Hzero). fold n in Hp6, Hzero.
  assert (Hpos : forall i, (i < n)%nat -> 1 <= w i) by (intros i Hi; now apply Hp6).
  assert (Hend : forall q, (q <= n)%nat -> suf text n = [] /\
            (q < n -> suf text q = nth q text cA :: suf text (q + 1))%nat).
  { intros q Hq. split; [apply skipn_all|]. intros H. unfold suf.
    rewrite (skipn_cons_nth text q cA) by exact H. do 2 f_equal. lia. }
  rewrite forallb_forall in Hal.
  intros d. induction d as [|d IH]; intros p q Hp Hq Hf.
  - assert (p = n) by lia. subst p. destruct (Hend q Hq) as [En Eq]. rewrite En.
    destruct (Nat.eq_dec q n) as [->|Hne].
    + rewrite En. cbn [str_lt]. split; [intros F; now apply suf_lt_irrefl in F|discriminate].
    + rewrite Eq by lia. cbn [str_lt]. split; [reflexivity|intros _].
      apply (suf_lt_end w n Hpos Hzero); lia.
  - destruct (Nat.eq_dec p n) as [->|Hpn]; [apply (IH n q); lia|].
    destruct (Hend p Hp) as [En Ep]. rewrite Ep by lia.
    destruct (Nat.eq_dec q n) as [->|Hqn].
    + rewrite En. cbn [str_lt]. split; [|discriminate]. intros F. exfalso. revert F.
      apply (suf_lt_not_end w n Hpos Hzero). lia.
    + destruct (Hend q Hq) as [_ Eq]. rewrite Eq by lia. cbn [str_lt].
      rewrite (suf_lt_step w p q).
      unfold w at 1 2 3 4. rewrite !(ks_chars_w text) by (fold n; lia).
      assert (Hpl : (p < length text)%nat) by (fold n; lia).
      assert (Hql : (q < length text)%nat) by (fold n; lia).
      pose proof (ks_code_lt (nth p text cA) (nth q text cA)
                    (Hal _ (nth_In text cA Hpl)) (Hal _ (nth_In text cA Hql))) as H1.
      pose proof (ks_code_lt (nth q text cA) (nth p text cA)
                    (Hal _ (nth_In text cA Hql)) (Hal _ (nth_In text cA Hpl))) as H2.
      pose proof (IH (p + 1)%nat (q + 1)%nat ltac:(lia) ltac:(lia) ltac:(lia)) as H3.
      destruct (Nat.ltb_spec (nat_of_ascii (nth p text cA)) (nat_of_ascii (nth q text cA)));
        [split; [reflexivity|intros _; left; lia]|].
      destruct (Nat.ltb_spec (nat_of_ascii (nth q text cA)) (nat_of_ascii (nth p text cA)));
        [split; [intros [F|[F _]]; lia|discriminate]|].
      rewrite <- H3. split; [intros [F|[_ F]]; [lia|exact F]|].
      intros F. right. split; [lia|exact F].
Qed.

(** Kaerkkaeinen-Sanders returns the suffix array that sorting the
    suffixes gives, on every sentinel-terminated text of two symbols or
    more. *)
Lemma kaerkkaeinensanders_simple (text : list ascii) (fuel : nat) :
  sentinel_terminated text -> (2 <= length text)%nat -> (length text <= fuel)%nat ->
  KS.suffix_array_kaerkkaeinensanders fuel (KS.Chars text) (Py.len text) 6
  = Ok (suffix_array_simple text).
Proof.
  intros Hterm Hn Hfuel. pose proof (sentinel_alphabet text Hterm) as Hal.
  destruct (ks_spec fuel (KS.Chars text) (map ks_code text ++ [0; 0; 0])
              (length text) 6) as (san & E & Hp & Hs).
  - rewrite (getitem_nth text 0 cA) by (unfold Py.len; lia). cbn [bind].
    rewrite (to_int_codes text Hal). reflexivity.
  - exact Hn.
  - apply ks_chars_text.
  - lia.
  - unfold Py.len. rewrite E. f_equal.
    apply (suffix_array_unique text); [|apply suffix_array_simple_spec].
    exists san. split; [reflexivity|]. split; [exact Hp|].
    unfold suffix_sorted. revert Hs. apply StronglySorted_weaken.
    + apply (Permutation_NoDup (Permutation_sym Hp)), seq_NoDup.
    + intros a b Ha Hb _ H.
      apply (Permutation_in _ Hp), in_seq in Ha.
      apply (Permutation_in _ Hp), in_seq in Hb.
      apply (ks_suf_lt_str text Hal (length text) a b); try lia. exact H.
Qed.

(** Every strategy builds the suffix array of a sentinel-terminated text of
    two symbols or more. *)
Lemma build_sa_any (strategy : string) (text : list ascii) :
  sentinel_terminated text -> (2 <= length text)%nat ->
  build_sa strategy text = Ok (suffix_array_simple text).
Proof.
  intros Hterm Hn. unfold build_sa.
  destruct (String.eqb strategy "Simple"); [reflexivity|].
  destruct (String.eqb strategy "ManberMyers"); [now apply manbermyers_simple|].
  apply kaerkkaeinensanders_simple; auto.
Qed.

(* ================================================================== *)
(** * The index of a valid reference, whatever the strategy *)
(* ================================================================== *)

Lemma terminated_length (reference_genome : list ascii) :
  valid_reference reference_genome -> (2 <= length (terminated reference_genome))%nat.
Proof. intros H. pose proof (terminated_len _ H) as H2. unfold Py.len in H2. lia. Qed.

(** Every strategy builds the list of the suffix positions of the
    sentinel-terminated reference in increasing order of the suffixes. *)
Lemma sorted_index_any (reference_genome : list ascii) (strategy : string) :
  valid_reference reference_genome ->
  exists san,
    suffix_array_simple (terminated reference_genome) = map Z.of_nat san /\
    build_sa strategy (terminated reference_genome) = Ok (map Z.of_nat san) /\
    Permutation san (seq 0 (length (terminated reference_genome))) /\
    suffix_sorted (terminated reference_genome) san.
Proof.
  intros Hv.
  destruct (suffix_array_simple_spec (terminated reference_genome)) as (san & E & Hp & Hs).
  exists san. split; [exact E|]. split; [|split; assumption].
  rewrite <- E. apply build_sa_any; [now apply terminated_sentinel|now apply terminated_length].
Qed.

(** The constructor returns an index for every valid reference, every
    strategy it accepts and every sample rate from 1 on. *)
Lemma index_of_valid (reference_genome : list ascii) (strategy : string) (comp : Z) :
  valid_reference reference_genome ->
  strategy = "KaerkkaeinenSanders"%string \/ strategy = "ManberMyers"%string
  \/ strategy = "Simple"%string ->
  1 <= comp ->
  exists self san,
    __init__ reference_genome strategy comp = Ok self /\
    suffix_array_simple (terminated reference_genome) = map Z.of_nat san /\
    build_sa strategy (terminated reference_genome) = Ok (map Z.of_nat san) /\
    Permutation san (seq 0 (length (terminated reference_genome))) /\
    suffix_sorted (terminated reference_genome) san /\
    n self = Py.len (terminated reference_genome).
Proof.
  intros Hv Hst Hc.
  destruct (sorted_index_any _ strategy Hv) as (san & E & Eb & Hp & Hs).
  destruct (init_succeeds reference_genome strategy comp san Hv Hst Hc Eb Hp) as (self & H).
  destruct (init_index _ _ _ _ _ Hv H Eb Hp) as (_ & _ & Hn & _).
  exists self, san. repeat split; auto.
Qed.

(** ** Claim C1 *)

(** C1 (rank consistency): for every valid reference, every strategy and
    every sample rate the constructor accepts, the constructor returns an
    index on which [rank(c, i)] is, for every symbol [c] of the alphabet
    and every [i] in [[0, n)], the number of occurrences of [c] in
    [BWT[0..i]], bounds included.  [BWT] is the Burrows-Wheeler transform
    of the sentinel-terminated reference: with [san] the positions of its
    suffixes in increasing lexicographic order, [BWT[i]] is the symbol
    that cyclically precedes position [san[i]]. *)
Theorem rank_counts_burrows_wheeler (reference_genome : list ascii)
  (strategy : string) (comp : Z) :
  valid_reference reference_genome ->
  strategy = "KaerkkaeinenSanders"%string \/ strategy = "ManberMyers"%string
  \/ strategy = "Simple"%string ->
  1 <= comp ->
  exists self san,
    __init__ reference_genome strategy comp = Ok self /\
    n self = Py.len (terminated reference_genome) /\
    Permutation san (seq 0 (length (terminated reference_genome))) /\
    suffix_sorted (terminated reference_genome) san /\
    forall c i, In c alphabet -> 0 <= i < n self ->
      rank self (PStr c) i =
      Ok (count_upto c (map (bwt_sym (terminated reference_genome)) san) i).
Proof.
  intros Hv Hst Hc.
  destruct (index_of_valid _ _ _ Hv Hst Hc) as (self & san & H & _ & Eb & Hp & Hs & Hn).
  exists self, san. repeat split; auto.
  now apply (rank_in_transform _ strategy comp).
Qed.

Lemma rank_counts_burrows_wheeler_witness :
  exists self san,
    __init__ (list_ascii_of_string "GATTACA") "KaerkkaeinenSanders" 32 = Ok self /\
    n self = Py.len (terminated (list_ascii_of_string "GATTACA")) /\
    Permutation san (seq 0 (length (terminated (list_ascii_of_string "GATTACA")))) /\
    suffix_sorted (terminated (list_ascii_of_string "GATTACA")) san /\
    forall c i, In c alphabet -> 0 <= i < n self ->
      rank self (PStr c) i =
      Ok (count_upto c (map (bwt_sym (terminated (list_ascii_of_string "GATTACA"))) san) i).
Proof.
  apply (rank_counts_burrows_wheeler (list_ascii_of_string "GATTACA")
           "KaerkkaeinenSanders" 32);
    [exact gattaca_valid | now left | lia].
Defined.

(** ** Claim C4 *)

(** C4 (strategy agreement): on every sentinel-terminated text that holds
    a genome of one symbol or more, [suffix_array_manbermyers] and
    [suffix_array_kaerkkaeinensanders] return the list that
    [suffix_array_simple] returns; this list is the permutation of
    [[0, n)] that lists the suffix positions in increasing lexicographic
    order of the suffixes, and it starts with [n - 1], the position of the
    sentinel.  The recursion of Kaerkkaeinen-Sanders ends within any bound
    from [n] on. *)
Theorem builders_return_sorted_suffixes (text : list ascii) (fuel : nat) :
  sentinel_terminated text -> (2 <= length text)%nat -> (length text <= fuel)%nat ->
  suffix_array_manbermyers text = Ok (suffix_array_simple text) /\
  KS.suffix_array_kaerkkaeinensanders fuel (KS.Chars text) (Py.len text) 6
  = Ok (suffix_array_simple text) /\
  is_suffix_array text (suffix_array_simple text) /\
  nth 0 (suffix_array_simple text) 0 = Py.len text - 1.
Proof.
  intros Hterm Hn Hfuel.
  split; [now apply manbermyers_simple|].
  split; [now apply kaerkkaeinensanders_simple|].
  split; [apply suffix_array_simple_spec|].
  destruct (suffix_array_simple_spec text) as (san & E & Hp & Hs).
  rewrite E, nth_map_of_nat, (san_first text san Hp Hs Hterm). unfold Py.len. lia.
Qed.

Lemma builders_return_sorted_suffixes_witness :
  suffix_array_manbermyers (list_ascii_of_string "GATTACA$")
  = Ok (suffix_array_simple (list_ascii_of_string "GATTACA$")) /\
  KS.suffix_array_kaerkkaeinensanders 9 (KS.Chars (list_ascii_of_string "GATTACA$"))
    (Py.len (list_ascii_of_string "GATTACA$")) 6
  = Ok (suffix_array_simple (list_ascii_of_string "GATTACA$")) /\
  is_suffix_array (list_ascii_of_string "GATTACA$")
    (suffix_array_simple (list_ascii_of_string "GATTACA$")) /\
  nth 0 (suffix_array_simple (list_ascii_of_string "GATTACA$")) 0
  = Py.len (list_ascii_of_string "GATTACA$") - 1.
Proof.
  apply (builders_return_sorted_suffixes (list_ascii_of_string "GATTACA$") 9);
    [exact gattaca_terminated | cbn; lia | cbn; lia].
Defined.

(** ** Claim C2 *)

(** C2 (sampled suffix array): for every valid reference, every strategy
    and every sample rate from 1 on, the constructor returns an index, and
    so it does with the sample rate 1; the index of sample rate 1 stores
    the suffix array of the sentinel-terminated reference, and on both
    [get_sa(i)] returns its entry [i] for every [i] in [[0, n)], within
    [n - 1] turns of the walk. *)
Theorem get_sa_agrees_with_full_suffix_array (reference_genome : list ascii)
  (strategy : string) (comp : Z) :
  valid_reference reference_genome ->
  strategy = "KaerkkaeinenSanders"%string \/ strategy = "ManberMyers"%string
  \/ strategy = "Simple"%string ->
  1 <= comp ->
  exists self full,
    __init__ reference_genome strategy comp = Ok self /\
    __init__ reference_genome strategy 1 = Ok full /\
    n self = n full /\
    is_suffix_array (terminated reference_genome) (sa full) /\
    forall fuel i, 0 <= i < n self -> (Z.to_nat (n self - 1) <= fuel)%nat ->
      get_sa fuel self i = Ok (nth (Z.to_nat i) (sa full) 0) /\
      get_sa fuel full i = Ok (nth (Z.to_nat i) (sa full) 0).
Proof.
  intros Hv Hst Hc.
  destruct (index_of_valid _ _ _ Hv Hst Hc) as (self & san & H & E & Eb & Hp & Hs & Hn).
  destruct (init_succeeds reference_genome strategy 1 san Hv Hst ltac:(lia) Eb Hp)
    as (full & Hfull).
  destruct (init_index _ _ _ _ _ Hv Hfull Eb Hp) as (_ & _ & Hnf & _ & _ & _ & Hsa & _).
  specialize (Hsa eq_refl).
  exists self, full. split; [exact H|]. split; [exact Hfull|].
  split; [congruence|]. split.
  - rewrite Hsa. exists san. auto.
  - intros fuel i Hi Hfuel. unfold Py.len in Hn.
    rewrite Hsa, nth_map_of_nat. rewrite <- (Z2Nat.id i) at 1 3 by lia.
    split.
    + apply (get_sa_full reference_genome strategy comp self san); auto; lia.
    + apply (get_sa_full reference_genome strategy 1 full san); auto; lia.
Qed.

Lemma get_sa_agrees_with_full_suffix_array_witness :
  exists self full,
    __init__ (list_ascii_of_string "GATTACA") "KaerkkaeinenSanders" 3 = Ok self /\
    __init__ (list_ascii_of_string "GATTACA") "KaerkkaeinenSanders" 1 = Ok full /\
    n self = n full /\
    is_suffix_array (terminated (list_ascii_of_string "GATTACA")) (sa full) /\
    forall fuel i, 0 <= i < n self -> (Z.to_nat (n self - 1) <= fuel)%nat ->
      get_sa fuel self i = Ok (nth (Z.to_nat i) (sa full) 0) /\
      get_sa fuel full i = Ok (nth (Z.to_nat i) (sa full) 0).
Proof.
  apply (get_sa_agrees_with_full_suffix_array (list_ascii_of_string "GATTACA")
           "KaerkkaeinenSanders" 3);
    [exact gattaca_valid | now left | lia].
Defined.

(** ** Claim C3 *)

(** A reference given with its sentinel is a valid input, and [__str__]
    returns it without the sentinel: the round trip does not return the
    input itself. *)
Lemma str_drops_the_given_sentinel :
  exists self,
    __init__ (list_ascii_of_string "GATTACA$") "KaerkkaeinenSanders" 32 = Ok self /\
    __str__ self = Ok (list_ascii_of_string "GATTACA") /\
    list_ascii_of_string "GATTACA" <> list_ascii_of_string "GATTACA$".
Proof.
  eexists. split; [vm_compute; reflexivity|].
  split; [vm_compute; reflexivity|discriminate].
Qed.

(** C3, as amended (round trip): for every genome of one symbol or more
    over [{A, C, G, N, T}], given as it is or followed by the sentinel,
    every strategy and every sample rate from 1 on, the constructor
    returns an index on which [__str__] returns the genome: the input
    without its final sentinel if it has one.  The string has length
    [n - 1]. *)
Theorem str_returns_genome_without_sentinel (genome reference_genome : list ascii)
  (strategy : string) (comp : Z) :
  genome <> [] -> forallb is_dna genome = true ->
  reference_genome = genome \/ reference_genome = genome ++ [cDollar] ->
  strategy = "KaerkkaeinenSanders"%string \/ strategy = "ManberMyers"%string
  \/ strategy = "Simple"%string ->
  1 <= comp ->
  exists self,
    __init__ reference_genome strategy comp = Ok self /\
    __str__ self = Ok genome /\
    Py.len genome = n self - 1.
Proof.
  intros Hne Hd Hr Hst Hc.
  assert (Hv : valid_reference reference_genome) by (exists genome; auto).
  destruct (index_of_valid _ _ _ Hv Hst Hc) as (self & san & H & _ & Eb & Hp & Hs & Hn).
  assert (Eg : genome_of reference_genome = genome).
  { unfold genome_of. destruct Hr as [-> | ->].
    - now apply filter_all.
    - rewrite filter_app, (filter_all is_dna genome Hd). cbn. apply app_nil_r. }
  exists self. split; [exact H|]. split.
  - rewrite (str_of_init reference_genome strategy comp self san Hv H Eb Hp Hs).
    now rewrite Eg.
  - rewrite Hn. unfold terminated. rewrite Eg, len_app. unfold Py.len at 3.
    cbn [length]. lia.
Qed.

Lemma str_returns_genome_without_sentinel_witness :
  exists self,
    __init__ (list_ascii_of_string "GATTACA$") "KaerkkaeinenSanders" 32 = Ok self /\
    __str__ self = Ok (list_ascii_of_string "GATTACA") /\
    Py.len (list_ascii_of_string "GATTACA") = n self - 1.
Proof.
  apply (str_returns_genome_without_sentinel (list_ascii_of_string "GATTACA")
           (list_ascii_of_string "GATTACA$") "KaerkkaeinenSanders" 32);
    [discriminate | reflexivity | now right | now left | lia].
Defined.

(** ** Claim C10 *)

(** C10 (the walk of [get_sa] ends): for every valid reference, every
    strategy and every sample rate above 1, the constructor returns an
    index on which, with [san] the suffix positions in increasing order of
    the suffixes: the loop of [get_sa] started at any row [i] in [[0, n)]
    stops on a marked row after at most [n - 1] turns; the row of the
    suffix at position 0 is marked; and one step of the walk leads from a
    row to the row of the suffix one position earlier, cyclically. *)
Theorem get_sa_walk_reaches_marked_row (reference_genome : list ascii)
  (strategy : string) (comp : Z) :
  valid_reference reference_genome ->
  strategy = "KaerkkaeinenSanders"%string \/ strategy = "ManberMyers"%string
  \/ strategy = "Simple"%string ->
  1 < comp ->
  exists self san,
    __init__ reference_genome strategy comp = Ok self /\
    n self = Py.len (terminated reference_genome) /\
    Permutation san (seq 0 (length (terminated reference_genome))) /\
    suffix_sorted (terminated reference_genome) san /\
    (forall fuel i, 0 <= i < n self -> (Z.to_nat (n self - 1) <= fuel)%nat ->
       exists c row k,
         access self i 0 = Ok c /\
         lf_walk fuel self c i 0 = Ok (row, k) /\
         0 <= k <= n self - 1 /\ bitvector_at self row = Ok true) /\
    (forall row, (row < length san)%nat -> nth row san 0%nat = 0%nat ->
       bitvector_at self (Z.of_nat row) = Ok true) /\
    (forall i, 0 <= i < n self ->
       exists c r skip,
         access self i 0 = Ok (PStr c) /\
         rank self (PStr c) i = Ok r /\
         Dict.get (f self) (PStr c) = Ok skip /\
         0 <= r + skip - 1 < n self /\
         nth (Z.to_nat (r + skip - 1)) san 0%nat
         = (if (nth (Z.to_nat i) san 0 =? 0)%nat
            then (length (terminated reference_genome) - 1)%nat
            else (nth (Z.to_nat i) san 0 - 1)%nat)).
Proof.
  intros Hv Hst Hc.
  assert (Hc1 : 1 <= comp) by lia.
  destruct (index_of_valid _ _ _ Hv Hst Hc1) as (self & san & H & _ & Eb & Hp & Hs & Hn).
  exists self, san. split; [exact H|]. split; [exact Hn|]. split; [exact Hp|].
  split; [exact Hs|].
  destruct (init_index _ _ _ _ _ Hv H Eb Hp) as (Henc & Hf & _).
  pose proof (terminated_sentinel _ Hv) as Hterm.
  pose proof (terminated_alphabet _ Hv) as Hal.
  unfold Py.len in Hn.
  assert (Hl : length san = length (terminated reference_genome))
    by (rewrite (Permutation_length Hp); apply length_seq).
  split; [|split].
  - intros fuel i Hi Hfuel. rewrite <- (Z2Nat.id i) by lia.
    apply (lf_walk_bound reference_genome strategy comp self san); auto; lia.
  - intros row Hrow E0.
    destruct (sampling_of_init _ _ _ _ Hv H) as (full & Ef & _ & _ & _ & _ & _ & _ & Hs2).
    rewrite Eb in Ef. injection Ef as <-.
    assert (Hc2 : comp <> 1) by lia.
    destruct (Hs2 Hc2) as (bucket & _ & Ebv & _).
    unfold bitvector_at. rewrite Ebv.
    rewrite (getitem_nat _ row true) by (rewrite !length_map; exact Hrow).
    rewrite (nth_indep _ true (sampled comp 0)) by (rewrite !length_map; exact Hrow).
    rewrite map_nth, nth_map_of_nat, E0. unfold sampled. cbn [Z.of_nat].
    rewrite Zmod_0_l. reflexivity.
  - intros i Hi. set (text := terminated reference_genome) in *.
    assert (Hi' : (Z.to_nat i < length text)%nat) by lia.
    destruct (lf_step self text san Hp Hs Hterm Hal Henc Hf (Z.to_nat i) Hi')
      as (j & r & skip & Er & Esk & Ej & Hj & Hnj).
    pose proof (access_row self text san Hp Hs Hterm Hal Henc (Z.to_nat i) Hi') as Ea.
    rewrite Z2Nat.id in Er, Ea by lia.
    exists (nth (Z.to_nat i) (map (bwt_sym text) san) cA), r, skip.
    split; [exact Ea|]. split; [exact Er|]. split; [exact Esk|].
    split; [lia|]. rewrite Ej, Nat2Z.id, Hnj. unfold prev. reflexivity.
Qed.

Lemma get_sa_walk_reaches_marked_row_witness :
  exists self san,
    __init__ (list_ascii_of_string "GATTACA") "KaerkkaeinenSanders" 3 = Ok self /\
    n self = Py.len (terminated (list_ascii_of_string "GATTACA")) /\
    Permutation san (seq 0 (length (terminated (list_ascii_of_string "GATTACA")))) /\
    suffix_sorted (terminated (list_ascii_of_string "GATTACA")) san /\
    (forall fuel i, 0 <= i < n self -> (Z.to_nat (n self - 1) <= fuel)%nat ->
       exists c row k,
         access self i 0 = Ok c /\
         lf_walk fuel self c i 0 = Ok (row, k) /\
         0 <= k <= n self - 1 /\ bitvector_at self row = Ok true) /\
    (forall row, (row < length san)%nat -> nth row san 0%nat = 0%nat ->
       bitvector_at self (Z.of_nat row) = Ok true) /\
    (forall i, 0 <= i < n self ->
       exists c r skip,
         access self i 0 = Ok (PStr c) /\
         rank self (PStr c) i = Ok r /\
         Dict.get (f self) (PStr c) = Ok skip /\
         0 <= r + skip - 1 < n self /\
         nth (Z.to_nat (r + skip - 1)) san 0%nat
         = (if (nth (Z.to_nat i) san 0 =? 0)%nat
            then (length (terminated (list_ascii_of_string "GATTACA")) - 1)%nat
            else (nth (Z.to_nat i) san 0 - 1)%nat)).
Proof.
  apply (get_sa_walk_reaches_marked_row (list_ascii_of_string "GATTACA")
           "KaerkkaeinenSanders" 3);
    [exact gattaca_valid | now left | lia].
Defined.
